(** * M5 hierarchical forecasting: feature engine, horizon trainer and
      predictor, panel builder and evaluator.

    A shallow embedding of [src/feature_engineering.py], [src/model.py],
    [src/data_loader.py] and [src/evaluation.py], and of the configuration
    reader [src/config.py] and the forecast service [api/predictor.py] and
    [api/main.py].  A pandas frame is a list
    of rows together with its column labels; a float is a rational, [None]
    standing for NaN, and the sums and means pandas computes round to
    binary64 as pandas' own loops do; a date is its day number; a Python
    exception is the name of its class. *)

From Stdlib Require Import List String Ascii ZArith QArith Qreduction Bool Lia.
From Stdlib Require Qcanon.
From Stdlib Require Import Permutation Sorted OrderedTypeEx.
From Stdlib Require Import DecimalString DecimalPos DecimalZ.
Import ListNotations.

Local Open Scope string_scope.
Local Open Scope list_scope.

Set Implicit Arguments.

(** ** Exceptions *)

Inductive result (A : Type) : Type :=
| Ok (a : A)
| Raise (cls : string).

Arguments Ok {A} a.
Arguments Raise {A} cls.

Definition bind {A B} (m : result A) (k : A -> result B) : result B :=
  match m with
  | Ok a => k a
  | Raise e => Raise e
  end.

Notation "x <- m ;; k" := (bind m (fun x => k))
  (at level 61, m at next level, right associativity).

Fixpoint mapM {A B} (f : A -> result B) (l : list A) : result (list B) :=
  match l with
  | [] => Ok []
  | a :: l' => b <- f a ;; bs <- mapM f l' ;; Ok (b :: bs)
  end.

Fixpoint foldM {A S} (f : S -> A -> result S) (l : list A) (s : S) : result S :=
  match l with
  | [] => Ok s
  | a :: l' => s' <- f s a ;; foldM f l' s'
  end.

(** ** Small list utilities *)

Definition mem (s : string) (l : list string) : bool :=
  existsb (String.eqb s) l.

Fixpoint nodupb (l : list string) : bool :=
  match l with
  | [] => true
  | x :: l' => negb (mem x l') && nodupb l'
  end.

Fixpoint list_eqb (a b : list string) : bool :=
  match a, b with
  | [], [] => true
  | x :: a', y :: b' => String.eqb x y && list_eqb a' b'
  | _, _ => false
  end.

(** [imap f l] is [[f 0 x0; f 1 x1; ...]]. *)
Fixpoint imap_from {A B} (f : nat -> A -> B) (i : nat) (l : list A) : list B :=
  match l with
  | [] => []
  | x :: l' => f i x :: imap_from f (S i) l'
  end.

Definition imap {A B} (f : nat -> A -> B) (l : list A) : list B :=
  imap_from f 0 l.

(** Python's [str(int)], as used by f-strings. *)
Definition str_int (z : Z) : string := NilZero.string_of_int (Z.to_int z).

(** Python's [needle in haystack] on strings. *)
Definition contains (needle hay : string) : bool :=
  match String.index 0 needle hay with
  | Some _ => true
  | None => false
  end.

(** ** Floats with NaN *)

Definition float := option Q.

Definition is_nan (x : float) : bool :=
  match x with None => true | Some _ => false end.

Definition float_of_Z (z : Z) : float := Some (inject_Z z).

Definition float_eqb (x y : float) : bool :=
  match x, y with
  | Some a, Some b => Qeq_bool a b
  | _, _ => false
  end.

(** Number of non-NaN observations, and their exact sum. *)
Fixpoint observed (l : list float) : nat :=
  match l with
  | [] => 0
  | None :: l' => observed l'
  | Some _ :: l' => S (observed l')
  end.

Fixpoint nansum (l : list float) : Q :=
  match l with
  | [] => 0%Q
  | None :: l' => nansum l'
  | Some q :: l' => (q + nansum l')%Q
  end.

(** ** Binary64 arithmetic

    The numbers of a frame are IEEE 754 doubles.  A finite double is a
    rational, and an operation returns the double nearest to the exact
    result, a tie going to the one with an even significand.  The frames
    hold no infinity and no negative zero: a result beyond the range of
    the format is not modelled, and the statements that give the value of
    a sum bound the numbers summed. *)

(** The integer nearest to [n / d], for [d > 0]; ties go to the even one. *)
Definition round_half_even (n d : Z) : Z :=
  let q := (n / d)%Z in
  match (2 * (n mod d) ?= d)%Z with
  | Lt => q
  | Gt => (q + 1)%Z
  | Eq => if Z.even q then q else (q + 1)%Z
  end.

(** The exponent [k] with [2^k <= n / d < 2^(k+1)], for [n, d > 0]. *)
Definition floor_log2 (n d : Z) : Z :=
  let k := (Z.log2 n - Z.log2 d)%Z in
  if (0 <=? k)%Z
  then (if (d * 2 ^ k <=? n)%Z then k else k - 1)%Z
  else (if (d <=? n * 2 ^ (- k))%Z then k else k - 1)%Z.

(** Rounding to binary64: 53 significant bits, the exponent of the last
    bit no lower than -1074. *)
Definition rnd (x : Q) : Q :=
  let n := Z.abs (Qnum (Qred x)) in
  let d := Zpos (Qden (Qred x)) in
  if (n =? 0)%Z then 0%Q
  else
    let e := Z.max (floor_log2 n d - 52) (-1074) in
    let m := if (0 <=? e)%Z then round_half_even n (d * 2 ^ e)
             else round_half_even (n * 2 ^ (- e)) d in
    let s := Z.sgn (Qnum (Qred x)) in
    if (0 <=? e)%Z then inject_Z (s * m * 2 ^ e)
    else Qred (Qmake (s * m) (Z.to_pos (2 ^ (- e)))).

Definition fadd (x y : Q) : Q := rnd (x + y).
Definition fsub (x y : Q) : Q := rnd (x - y).
Definition fdiv (x y : Q) : Q := rnd (x / y).

(** [values[s:e]] *)
Definition slice {A} (s e : nat) (l : list A) : list A :=
  firstn (e - s) (skipn s l).

(** One step of a compensated (Kahan) sum: the running sum and the
    compensation after [val] is added. *)
Definition kahan_add (val sum_x compensation : Q) : Q * Q :=
  let y := fsub val compensation in
  let t := fadd sum_x y in
  (t, fsub (fsub t sum_x) y).

Definition signbit (v : Q) : bool := (Qnum v <? 0)%Z.

(** *** The rolling mean

    [Series.rolling(w).mean()] is pandas' [roll_mean]
    ([_libs/window/aggregations.pyx]) run on the window bounds of a fixed
    window.  One state is carried along the whole column: a value that
    enters a window is added to the running sum, a value that leaves it is
    subtracted, both with compensation. *)
Record MeanState : Type := mkMean {
  nobs : Z;
  sum_x : Q;
  neg_ct : Z;
  compensation_add : Q;
  compensation_remove : Q;
  num_consecutive_same_value : Z;
  prev_value : float
}.

Definition add_mean (val : float) (st : MeanState) : MeanState :=
  match val with
  | None => st
  | Some v =>
      let (t, c) := kahan_add v (sum_x st) (compensation_add st) in
      mkMean (nobs st + 1) t
             (if signbit v then neg_ct st + 1 else neg_ct st)
             c (compensation_remove st)
             (if float_eqb val (prev_value st)
              then num_consecutive_same_value st + 1 else 1)
             val
  end.

Definition remove_mean (val : float) (st : MeanState) : MeanState :=
  match val with
  | None => st
  | Some v =>
      let (t, c) := kahan_add (- v) (sum_x st) (compensation_remove st) in
      mkMean (nobs st - 1) t
             (if signbit v then neg_ct st - 1 else neg_ct st)
             (compensation_add st) c
             (num_consecutive_same_value st) (prev_value st)
  end.

Definition calc_mean (minp : Z) (st : MeanState) : float :=
  if ((minp <=? nobs st) && (0 <? nobs st))%Z
  then
    let result := fdiv (sum_x st) (inject_Z (nobs st)) in
    if (nobs st <=? num_consecutive_same_value st)%Z then prev_value st
    else if (neg_ct st =? 0)%Z && negb (Qle_bool 0 result) then Some 0%Q
    else if (neg_ct st =? nobs st)%Z && negb (Qle_bool result 0) then Some 0%Q
    else Some result
  else None.

(** The bounds of the window of row [i]: rows [i-w+1 .. i], cut at the
    start of the column; a window of width 0 is empty. *)
Definition window_start (w i : nat) : nat :=
  if (w =? 0)%nat then i else S i - w.

Definition window_end (w i : nat) : nat :=
  if (w =? 0)%nat then i else S i.

Definition window (w : nat) (xs : list float) (i : nat) : list float :=
  slice (window_start w i) (window_end w i) xs.

(** The state set up from nothing for the window [s .. e). *)
Definition setup (values : list float) (s e : nat) : MeanState :=
  fold_left (fun st val => add_mean val st) (slice s e values)
            (mkMean 0 0 0 0 0 0 (match nth_error values s with
                                 | Some x => x
                                 | None => None
                                 end)).

(** One turn of the loop of [roll_mean]: the state after row [i], from the
    state [st] after row [i - 1].  The state is set up anew at the first
    row and whenever the window has left the previous one behind;
    otherwise the values that left the window are removed, then the
    values that entered it are added.  The bounds of a fixed window never
    decrease, so the loop has no other case. *)
Definition roll_step (values : list float) (w : nat) (st : MeanState)
    (i : nat) : MeanState :=
  let s := window_start w i in
  let e := window_end w i in
  match i with
  | O => setup values s e
  | S i0 =>
      if (window_end w i0 <=? s)%nat then setup values s e
      else
        let st := fold_left (fun st val => remove_mean val st)
                            (slice (window_start w i0) s values) st in
        fold_left (fun st val => add_mean val st)
                  (slice (window_end w i0) e values) st
  end.

Definition idle : MeanState := mkMean 0 0 0 0 0 0 None.

Fixpoint roll_mean_from (values : list float) (w : nat) (minp : Z)
    (st : MeanState) (i n : nat) : list float :=
  match n with
  | O => []
  | S n' =>
      let st' := roll_step values w st i in
      calc_mean minp st' :: roll_mean_from values w minp st' (S i) n'
  end.

Definition roll_mean (values : list float) (w : nat) (minp : Z) : list float :=
  roll_mean_from values w minp idle 0 (List.length values).

(** [min_periods] defaults to the width of the window. *)
Definition rolling_mean (w : nat) (xs : list float) : list float :=
  roll_mean xs w (Z.of_nat w).

(** The state of the loop after the turn of row [i]. *)
Fixpoint mean_state (values : list float) (w : nat) (i : nat) : MeanState :=
  match i with
  | O => roll_step values w idle O
  | S i0 => roll_step values w (mean_state values w i0) (S i0)
  end.

(** *** The mean of a group

    [groupby(...).mean()] is pandas' [group_mean] ([_libs/groupby.pyx]):
    a compensated sum of the values of the group in frame order, divided
    by their number.  (The loop resets a compensation that is NaN, which
    takes an infinite value: there is none here.) *)
Definition group_mean (vals : list float) : float :=
  let acc :=
    fold_left (fun (a : Z * (Q * Q)) val =>
                 match val with
                 | None => a
                 | Some v => (fst a + 1, kahan_add v (fst (snd a)) (snd (snd a)))%Z
                 end)
              vals (0%Z, (0%Q, 0%Q)) in
  if (fst acc =? 0)%Z then None
  else Some (fdiv (fst (snd acc)) (inject_Z (fst acc))).

(** A whole number of magnitude at most [B], or NaN. *)
Definition whole_below (B : Z) (x : float) : bool :=
  match x with
  | None => true
  | Some v => (Zpos (Qden (Qred v)) =? 1)%Z && (Z.abs (Qnum (Qred v)) <=? B)%Z
  end.

(** The non-NaN values of a list, and how many of them are negative. *)
Fixpoint somes (l : list float) : list Q :=
  match l with
  | [] => []
  | None :: l' => somes l'
  | Some v :: l' => v :: somes l'
  end.

Definition negatives (l : list float) : nat :=
  List.length (filter signbit (somes l)).

(** What the counters of a state say of the window [l] it stands for: the
    number of observations, the number of negative ones, and a run of
    equal values at the end. *)
Definition tallied (st : MeanState) (l : list float) : Prop :=
  nobs st = Z.of_nat (observed l)
  /\ neg_ct st = Z.of_nat (negatives l)
  /\ (0 <= num_consecutive_same_value st)%Z
  /\ Forall (fun v => float_eqb (Some v) (prev_value st) = true)
            (firstn (Z.to_nat (num_consecutive_same_value st)) (rev (somes l))).

(** A state whose running sum is the sum of the window, nothing being
    left in the compensations. *)
Definition errorless (st : MeanState) (l : list float) : Prop :=
  tallied st l
  /\ (sum_x st == nansum l)%Q
  /\ (compensation_add st == 0)%Q
  /\ (compensation_remove st == 0)%Q.

(** A window of at most [w] whole numbers of magnitude at most [B]. *)
Definition whole_window (B : Z) (w : nat) (l : list float) : Prop :=
  forallb (whole_below B) l = true /\ (List.length l <= w)%nat.

(** ** Frames *)

(** A row holds its object (string) columns, the [date] column and its
    numeric columns, each looked up by label. *)
Record Row : Type := mkRow {
  cat : string -> string;
  date : Z;
  num : string -> float
}.

Record Frame : Type := mkFrame {
  cat_columns : list string;
  num_columns : list string;
  rows : list Row
}.

Definition columns (df : Frame) : list string :=
  cat_columns df ++ "date" :: num_columns df.

Definition set_num (c : string) (v : float) (r : Row) : Row :=
  mkRow (cat r) (date r) (fun c' => if String.eqb c' c then v else num r c').

Fixpoint set_nums (c : string) (vs : list float) (rs : list Row) : list Row :=
  match vs, rs with
  | v :: vs', r :: rs' => set_num c v r :: set_nums c vs' rs'
  | _, _ => rs
  end.

(** [df[c] = vs] for a numeric array [vs] of the frame's length: the column
    is overwritten when the label exists and appended otherwise. *)
Definition set_column (c : string) (vs : list float) (df : Frame) : Frame :=
  mkFrame (filter (fun c' => negb (String.eqb c' c)) (cat_columns df))
          (if mem c (num_columns df) then num_columns df
           else num_columns df ++ [c])
          (set_nums c vs (rows df)).

(** ** Sorting by group key and date *)

Definition key_of (gcols : list string) (r : Row) : list string :=
  map (cat r) gcols.

Fixpoint cmp_keys (a b : list string) : comparison :=
  match a, b with
  | [], [] => Eq
  | [], _ :: _ => Lt
  | _ :: _, [] => Gt
  | x :: a', y :: b' =>
      match String.compare x y with
      | Eq => cmp_keys a' b'
      | c => c
      end
  end.

Definition row_compare (gcols : list string) (r1 r2 : Row) : comparison :=
  match cmp_keys (key_of gcols r1) (key_of gcols r2) with
  | Eq => Z.compare (date r1) (date r2)
  | c => c
  end.

Definition row_leb (gcols : list string) (r1 r2 : Row) : bool :=
  match row_compare gcols r1 r2 with
  | Gt => false
  | _ => true
  end.

(** A stable sort: an inserted row goes before the rows it ties with, and
    rows are inserted from the last to the first. *)
Fixpoint insert_row (gcols : list string) (r : Row) (l : list Row) : list Row :=
  match l with
  | [] => [r]
  | x :: l' => if row_leb gcols r x then r :: l
               else x :: insert_row gcols r l'
  end.

Fixpoint sort_rows (gcols : list string) (l : list Row) : list Row :=
  match l with
  | [] => []
  | r :: l' => insert_row gcols r (sort_rows gcols l')
  end.

Definition has_cat_columns (gcols : list string) (df : Frame) : bool :=
  forallb (fun c => mem c (cat_columns df)) gcols.

(** [df.sort_values(gcols + ["date"])]; a new frame. *)
Definition sort_values (gcols : list string) (df : Frame) : result Frame :=
  if has_cat_columns gcols df
  then Ok (mkFrame (cat_columns df) (num_columns df) (sort_rows gcols (rows df)))
  else Raise "KeyError".

(** ** Group-wise shift *)

Definition same_group (gcols : list string) (r1 r2 : Row) : bool :=
  list_eqb (key_of gcols r1) (key_of gcols r2).

(** The rows of the group of [r], in frame order. *)
Definition group_of (gcols : list string) (r : Row) (rs : list Row) : list Row :=
  filter (same_group gcols r) rs.

(** The position of row [i] inside its group. *)
Definition group_rank (gcols : list string) (rs : list Row) (i : nat) (r : Row) : nat :=
  List.length (group_of gcols r (firstn i rs)).

(** [df.groupby(gcols, sort=False)[c].shift(k)]: row [i] receives the value
    [k] places earlier in its own group, NaN when there is none. *)
Definition groupby_shift (gcols : list string) (c : string) (k : Z)
                         (rs : list Row) : list float :=
  imap (fun i r =>
          let t := (Z.of_nat (group_rank gcols rs i r) - k)%Z in
          if (t <? 0)%Z then None
          else match nth_error (group_of gcols r rs) (Z.to_nat t) with
               | Some r' => num r' c
               | None => None
               end) rs.

(** ** The store of frame objects

    Python variables hold references.  [df[c] = ...] updates the object the
    reference points to, and every holder of the reference sees the update;
    [sort_values], [merge] and [groupby(...).mean()] build new objects. *)

Definition ref := nat.
Definition heap := list Frame.

Definition M (A : Type) : Type := heap -> result (A * heap).

Definition retM {A} (a : A) : M A := fun h => Ok (a, h).

Definition bindM {A B} (m : M A) (k : A -> M B) : M B :=
  fun h => match m h with
           | Ok (a, h') => k a h'
           | Raise e => Raise e
           end.

Notation "x <~ m ;; k" := (bindM m (fun x => k))
  (at level 61, m at next level, right associativity).
Notation "m ;~ k" := (bindM m (fun _ => k))
  (at level 61, right associativity).

Definition lift {A} (m : result A) : M A :=
  fun h => match m with
           | Ok a => Ok (a, h)
           | Raise e => Raise e
           end.

Definition alloc (f : Frame) : M ref :=
  fun h => Ok (List.length h, h ++ [f]).

Definition get (r : ref) : M Frame :=
  fun h => match nth_error h r with
           | Some f => Ok (f, h)
           | None => Raise "ReferenceError"
           end.

Fixpoint update (h : heap) (r : ref) (f : Frame) : heap :=
  match h, r with
  | [], _ => []
  | _ :: h', O => f :: h'
  | x :: h', S r' => x :: update h' r' f
  end.

Definition put (r : ref) (f : Frame) : M unit :=
  fun h => Ok (tt, update h r f).

Fixpoint forM_ {A} (l : list A) (body : A -> M unit) : M unit :=
  match l with
  | [] => retM tt
  | a :: l' => body a ;~ forM_ l' body
  end.

(** [df[c] = vs] on the object behind [df]. *)
Definition setitem (df : ref) (c : string) (vs : list float) : M unit :=
  f <~ get df ;; put df (set_column c vs f).

(** ** Feature engineering ([src/feature_engineering.py]) *)

Record FeatureEngineer : Type := mkFE {
  lags : list Z;
  rolling_windows : list Z
}.

Record Level : Type := mkLevel {
  groupby : list string;
  prefix : string
}.

Definition lag_name (p : string) (k : Z) : string := p ++ "_lag_" ++ str_int k.
Definition roll_name (p : string) (w : Z) : string := p ++ "_roll_" ++ str_int w.

(** [pd.factorize(values)[0]]: codes in order of first appearance. *)
Fixpoint index_of {A} (eqb : A -> A -> bool) (x : A) (l : list A) : option nat :=
  match l with
  | [] => None
  | y :: l' => if eqb x y then Some O
               else option_map S (index_of eqb x l')
  end.

Fixpoint factorize_from {A} (eqb : A -> A -> bool) (seen l : list A) : list Z :=
  match l with
  | [] => []
  | x :: l' =>
      match index_of eqb x seen with
      | Some i => Z.of_nat i :: factorize_from eqb seen l'
      | None => Z.of_nat (List.length seen) :: factorize_from eqb (seen ++ [x]) l'
      end
  end.

Definition factorize {A} (eqb : A -> A -> bool) (l : list A) : list Z :=
  factorize_from eqb [] l.

(** The codes of a column, whichever kind it has; a NaN gets -1. *)
Definition factorize_column (col : string) (f : Frame) : list float :=
  if mem col (cat_columns f)
  then map float_of_Z (factorize String.eqb (map (fun r => cat r col) (rows f)))
  else
    let xs := map (fun r => num r col) (rows f) in
    let codes := factorize float_eqb (filter (fun x => negb (is_nan x)) xs) in
    (fix fill (xs : list float) (cs : list Z) : list float :=
       match xs, cs with
       | [], _ => []
       | None :: xs', _ => float_of_Z (-1) :: fill xs' cs
       | Some _ :: xs', c :: cs' => float_of_Z c :: fill xs' cs'
       | Some _ :: xs', [] => float_of_Z (-1) :: fill xs' []
       end) xs codes.

Definition _encode_categorical (df : ref) : M ref :=
  forM_ ["state_id"; "store_id"; "dept_id"; "item_id"]
        (fun col =>
           f <~ get df ;;
           if mem col (columns f)
           then setitem df (col ++ "_enc") (factorize_column col f)
           else retM tt) ;~
  retM df.

(** [df["wday"].isin([1, 7]).astype(int)] *)
Definition is_weekend_of (x : float) : float :=
  if float_eqb x (float_of_Z 1) || float_eqb x (float_of_Z 7)
  then float_of_Z 1 else float_of_Z 0.

Definition _create_date_features (df : ref) : M ref :=
  f <~ get df ;;
  (if mem "wday" (columns f)
   then setitem df "is_weekend"
          (map (fun r => if mem "wday" (num_columns f)
                         then is_weekend_of (num r "wday")
                         else float_of_Z 0) (rows f))
   else lift (Raise "KeyError")) ;~
  retM df.

(** [grp = df.groupby(gcols, sort=False)[value_col]] keeps the rows it was
    built from, whatever columns the frame receives later.  An empty list
    of keys is refused on a frame that has rows. *)
Definition no_group_keys (gcols : list string) (rs : list Row) : bool :=
  match gcols, rs with
  | [], _ :: _ => true
  | _, _ => false
  end.

Definition groupby_select (gcols : list string) (c : string) (f : Frame)
  : result (list Row) :=
  if no_group_keys gcols (rows f) then Raise "ValueError"
  else if has_cat_columns gcols f && mem c (num_columns f)
  then Ok (rows f) else Raise "KeyError".

(** [series.rolling(window)] refuses a negative window. *)
Definition rolling (w : Z) (xs : list float) : result (list float) :=
  if (w <? 0)%Z then Raise "ValueError"
  else Ok (rolling_mean (Z.to_nat w) xs).

Definition _add_lag_rolling_features (self : FeatureEngineer) (df : ref)
    (groupby_cols : list string) (value_col : string) (prefix : string) : M ref :=
  f <~ get df ;;
  sorted <~ lift (sort_values groupby_cols f) ;;
  df <~ alloc sorted ;;
  grp <~ lift (groupby_select groupby_cols value_col sorted) ;;
  forM_ (lags self) (fun lag =>
    setitem df (lag_name prefix lag)
            (groupby_shift groupby_cols value_col lag grp)) ;~
  forM_ (rolling_windows self) (fun w =>
    vs <~ lift (rolling w (groupby_shift groupby_cols value_col 1 grp)) ;;
    setitem df (roll_name prefix w) vs) ;~
  retM df.

(** [df.groupby(gcols + ["date"], as_index=False)[c].mean()]: one row per
    distinct key, keys ascending, the mean of the values of the key in
    frame order, NaN skipped. *)
Definition same_key_date (gcols : list string) (r1 r2 : Row) : bool :=
  same_group gcols r1 r2 && (date r1 =? date r2)%Z.

Fixpoint distinct_rows (gcols : list string) (rs : list Row) : list Row :=
  match rs with
  | [] => []
  | r :: rs' =>
      r :: filter (fun x => negb (same_key_date gcols r x)) (distinct_rows gcols rs')
  end.

Definition groupby_mean (gcols : list string) (c : string) (f : Frame)
  : result Frame :=
  if has_cat_columns gcols f && mem c (num_columns f)
  then Ok (mkFrame gcols [c]
             (map (fun rep =>
                     mkRow (cat rep) (date rep)
                           (fun c' =>
                              if String.eqb c' c
                              then group_mean (map (fun r => num r c)
                                     (filter (same_key_date gcols rep) (rows f)))
                              else None))
                  (sort_rows gcols (distinct_rows gcols (rows f)))))
  else Raise "KeyError".

(** [f.rename(columns={old: new})] for a numeric column. *)
Definition rename_column (old new : string) (f : Frame) : Frame :=
  mkFrame (cat_columns f)
          (map (fun c => if String.eqb c old then new else c) (num_columns f))
          (map (fun r => mkRow (cat r) (date r)
                           (fun c => if String.eqb c new then num r old
                                     else if String.eqb c old then None
                                     else num r c))
               (rows f)).

Definition _create_aggregated_sales (df : ref) (groupby_cols : list string)
    (prefix : string) : M ref :=
  f <~ get df ;;
  agg <~ lift (groupby_mean groupby_cols "sales" f) ;;
  alloc (rename_column "sales" ("sales_" ++ prefix) agg).

(** [f[cols]]: the listed columns, in the listed order, repeats included. *)
Definition select_columns (cols : list string) (f : Frame) : result Frame :=
  if forallb (fun c => mem c (columns f)) cols
  then Ok (mkFrame (filter (fun c => mem c (cat_columns f)) cols)
                   (filter (fun c => mem c (num_columns f)) cols)
                   (rows f))
  else Raise "KeyError".

(** [left.merge(right, on=gcols + ["date"], how="left")].  Every left row
    is kept, in order, once per matching right row (once, with NaN, when
    nothing matches).  A non-key label present on both sides is suffixed
    [_x] on the left and [_y] on the right.  A join key that is repeated
    among the labels of one side is refused with [ValueError]; labels that
    still clash after suffixing are refused with [MergeError]. *)
Definition suffixed (overlap : list string) (sfx : string) (c : string) : string :=
  if mem c overlap then c ++ sfx else c.

Definition find_src (overlap : list string) (sfx : string) (cols : list string)
    (c : string) : option string :=
  find (fun c0 => String.eqb (suffixed overlap sfx c0) c) cols.

Definition non_keys (gcols : list string) (cols : list string) : list string :=
  filter (fun c => negb (mem c gcols)) cols.

Definition merge_row (overlap lcat lnum rcat rnum : list string)
    (l : Row) (r : option Row) : Row :=
  mkRow (fun c =>
           match find_src overlap "_y" rcat c with
           | Some c0 => match r with Some r' => cat r' c0 | None => "" end
           | None => match find_src overlap "_x" lcat c with
                     | Some c0 => cat l c0
                     | None => cat l c
                     end
           end)
        (date l)
        (fun c =>
           match find_src overlap "_y" rnum c with
           | Some c0 => match r with Some r' => num r' c0 | None => None end
           | None => match find_src overlap "_x" lnum c with
                     | Some c0 => num l c0
                     | None => num l c
                     end
           end).

Definition merge_left (left right : Frame) (gcols : list string) : result Frame :=
  if negb (has_cat_columns gcols left && has_cat_columns gcols right)
  then Raise "KeyError"
  else if negb (nodupb (columns left) && nodupb (columns right))
  then Raise "ValueError"
  else
    let rcat := non_keys gcols (cat_columns right) in
    let rnum := num_columns right in
    let overlap := filter (fun c => mem c (rcat ++ rnum))
                          (non_keys gcols (cat_columns left) ++ num_columns left) in
    let lcat' := map (suffixed overlap "_x") (cat_columns left) in
    let lnum' := map (suffixed overlap "_x") (num_columns left) in
    let rcat' := map (suffixed overlap "_y") rcat in
    let rnum' := map (suffixed overlap "_y") rnum in
    if negb (nodupb ((lcat' ++ rcat') ++ "date" :: lnum' ++ rnum'))
    then Raise "MergeError"
    else
      Ok (mkFrame (lcat' ++ rcat') (lnum' ++ rnum')
            (flat_map
               (fun l =>
                  match filter (same_key_date gcols l) (rows right) with
                  | [] => [merge_row overlap (cat_columns left) (num_columns left)
                                     rcat rnum l None]
                  | ms => map (fun r => merge_row overlap (cat_columns left)
                                          (num_columns left) rcat rnum l (Some r)) ms
                  end)
               (rows left))).

Definition startswith (p s : string) : bool := String.prefix p s.

Definition _create_hierarchical_level (self : FeatureEngineer) (df : ref)
    (level : Level) : M ref :=
  let groupby_cols := groupby level in
  let prefix := prefix level in
  if list_eqb groupby_cols ["id"]
  then _add_lag_rolling_features self df groupby_cols "sales" prefix
  else
    agg_df <~ _create_aggregated_sales df groupby_cols prefix ;;
    agg_df <~ _add_lag_rolling_features self agg_df groupby_cols
                ("sales_" ++ prefix) prefix ;;
    a <~ get agg_df ;;
    let keep_cols := groupby_cols ++ ["date"]
                     ++ filter (startswith (prefix ++ "_")) (columns a) in
    kept <~ lift (select_columns keep_cols a) ;;
    l <~ get df ;;
    merged <~ lift (merge_left l kept groupby_cols) ;;
    alloc merged.

(** The loop over the levels; [df] is rebound at each turn. *)
Fixpoint _create_hierarchical_features (self : FeatureEngineer) (df : ref)
    (hierarchical_levels : list Level) : M ref :=
  match hierarchical_levels with
  | [] => retM df
  | level :: rest =>
      df' <~ _create_hierarchical_level self df level ;;
      _create_hierarchical_features self df' rest
  end.

Definition create_all_features (self : FeatureEngineer) (df : ref)
    (hierarchical_levels : list Level) : M ref :=
  f <~ get df ;;
  if negb (mem "sales" (columns f)) then lift (Raise "AssertionError")
  else
    df <~ _encode_categorical df ;;
    df <~ _create_date_features df ;;
    _create_hierarchical_features self df hierarchical_levels.

Definition base_feats : list string :=
  ["wday"; "month"; "year"; "is_weekend"; "snap"; "sell_price";
   "state_id_enc"; "store_id_enc"; "dept_id_enc"; "item_id_enc"].

Definition get_feature_names (self : FeatureEngineer)
    (hierarchical_levels : list Level) : list string :=
  let lag_feats :=
    flat_map (fun level => map (lag_name (prefix level)) (lags self))
             hierarchical_levels in
  let roll_feats :=
    flat_map (fun level => map (roll_name (prefix level)) (rolling_windows self))
             hierarchical_levels in
  base_feats ++ lag_feats ++ roll_feats.

(** ** The horizon trainer and predictor ([src/model.py]) *)

(** A trained booster scores the rows of a feature matrix; [lgb.train] is
    the external boosted-tree primitive and may fail. *)
Definition Matrix := list (list float).
Definition Booster := Matrix -> list float.
Definition Params := list (string * string).
Definition Trainer := Params -> Z -> Matrix -> list float -> result Booster.

Record HierarchicalLGBM : Type := mkLGBM {
  params : Params;
  num_boost_round : Z;
  num_models : Z;
  models : list (Z * Booster)
}.

(** [range(1, n + 1)] *)
Definition range1 (n : Z) : list Z :=
  map (fun i => Z.of_nat (S i)) (seq 0 (Z.to_nat n)).

Fixpoint dict_get {V} (k : Z) (d : list (Z * V)) : option V :=
  match d with
  | [] => None
  | (k', v) :: d' => if (k' =? k)%Z then Some v else dict_get k d'
  end.

Fixpoint dict_set {V} (k : Z) (v : V) (d : list (Z * V)) : list (Z * V) :=
  match d with
  | [] => [(k, v)]
  | (k', v') :: d' => if (k' =? k)%Z then (k, v) :: d'
                      else (k', v') :: dict_set k v d'
  end.

Definition has_columns (cols : list string) (f : Frame) : bool :=
  forallb (fun c => mem c (columns f)) cols.

(** The value of a feature in a row; an object or date column is never NaN
    and enters a matrix as 0. *)
Definition feature_value (f : Frame) (r : Row) (c : string) : float :=
  if mem c (num_columns f) then num r c else Some 0%Q.

(** [df.dropna(subset=cols)] *)
Definition dropna (cols : list string) (f : Frame) : result Frame :=
  if has_columns cols f
  then Ok (mkFrame (cat_columns f) (num_columns f)
             (filter (fun r => forallb (fun c => negb (is_nan (feature_value f r c))) cols)
                     (rows f)))
  else Raise "KeyError".

(** [df[cols].values] *)
Definition values_of (cols : list string) (f : Frame) : result Matrix :=
  if has_columns cols f
  then Ok (map (fun r => map (feature_value f r) cols) (rows f))
  else Raise "KeyError".

(** [Xh[col] = grp[col].shift(h).values], with [grp = Xh.groupby("id",
    sort=False)]: the column is read from [Xh] as it stands. *)
Definition shift_feature (h : Z) (Xh : Frame) (col : string) : result Frame :=
  if mem "id" (cat_columns Xh) && mem col (num_columns Xh)
  then Ok (set_column col (groupby_shift ["id"] col h (rows Xh)) Xh)
  else Raise "KeyError".

Definition is_lag_roll (f : string) : bool :=
  contains "_lag_" f || contains "_roll_" f.

(** The copy of the training frame with its lag and rolling columns
    shifted for horizon [h], before incomplete rows are dropped. *)
Definition shift_features (train_df : Frame) (feature_names : list string)
    (h : Z) : result Frame :=
  let lag_roll_feats := filter is_lag_roll feature_names in
  if negb (mem "id" (columns train_df)) then Raise "KeyError"
  else foldM (shift_feature h) lag_roll_feats train_df.

(** The frame the model of horizon [h] is fitted on. *)
Definition horizon_frame (train_df : Frame) (feature_names : list string)
    (h : Z) : result Frame :=
  Xh <- shift_features train_df feature_names h ;;
  dropna feature_names Xh.

(** The dataset of horizon [h] and the booster fitted on it. *)
Definition fit_horizon (lgb_train : Trainer) (train_df : Frame)
    (feature_names : list string) (self : HierarchicalLGBM) (h : Z)
  : result Booster :=
  Xh <- horizon_frame train_df feature_names h ;;
  y <- (if mem "sales" (num_columns Xh)
        then Ok (map (fun r => num r "sales") (rows Xh))
        else Raise "KeyError") ;;
  X <- values_of feature_names Xh ;;
  lgb_train (params self) (num_boost_round self) X y.

Definition train_horizon (lgb_train : Trainer) (train_df : Frame)
    (feature_names : list string) (self : HierarchicalLGBM) (h : Z)
  : result HierarchicalLGBM :=
  booster <- fit_horizon lgb_train train_df feature_names self h ;;
  Ok (mkLGBM (params self) (num_boost_round self) (num_models self)
             (dict_set h booster (models self))).

Definition train (lgb_train : Trainer) (self : HierarchicalLGBM)
    (train_df : Frame) (feature_names : list string) : result HierarchicalLGBM :=
  foldM (train_horizon lgb_train train_df feature_names)
        (range1 (num_models self)) self.

(** Sorting and de-duplicating dates and labels *)
Fixpoint insert_by {A} (leb : A -> A -> bool) (x : A) (l : list A) : list A :=
  match l with
  | [] => [x]
  | y :: l' => if leb x y then x :: l else y :: insert_by leb x l'
  end.

Definition sorted {A} (leb : A -> A -> bool) (l : list A) : list A :=
  fold_right (insert_by leb) [] l.

Fixpoint unique {A} (eqb : A -> A -> bool) (l : list A) : list A :=
  match l with
  | [] => []
  | x :: l' => x :: filter (fun y => negb (eqb x y)) (unique eqb l')
  end.

(** [xs[:n]] *)
Definition slice_to {A} (n : Z) (xs : list A) : list A :=
  if (n <? 0)%Z then firstn (List.length xs - Z.to_nat (- n)) xs
  else firstn (Z.to_nat n) xs.

(** [np.clip(x, 0, None)] *)
Definition clip0 (x : float) : float :=
  match x with
  | Some q => if Qle_bool 0 q then Some q else Some 0%Q
  | None => None
  end.

Definition fillna0 (x : float) : float :=
  match x with
  | Some q => Some q
  | None => Some 0%Q
  end.

(** A wide frame: an index of labels, column labels and one row of values
    per index entry. *)
Record Wide : Type := mkWide {
  index : list string;
  wcolumns : list string;
  wvalues : Matrix
}.

(** The long frame [pred_all]: one (id, h, forecast) triple per row. *)
Definition Triple := (string * Z * float)%type.

Definition triple_eqb (a b : Triple) : bool :=
  String.eqb (fst (fst a)) (fst (fst b)) && (snd (fst a) =? snd (fst b))%Z.

Fixpoint has_duplicate (l : list Triple) : bool :=
  match l with
  | [] => false
  | x :: l' => existsb (triple_eqb x) l' || has_duplicate l'
  end.

Definition lookup_triple (i : string) (h : Z) (l : list Triple) : float :=
  match find (fun t => triple_eqb (i, h, None) t) l with
  | Some t => snd t
  | None => None
  end.

(** [pred_all.pivot(index="id", columns="h", values="forecast")] *)
Definition pivot (l : list Triple) : result (Wide * list Z) :=
  if has_duplicate l then Raise "ValueError"
  else
    let ids := sorted String.leb (unique String.eqb (map (fun t => fst (fst t)) l)) in
    let hs := sorted Z.leb (unique Z.eqb (map (fun t => snd (fst t)) l)) in
    Ok (mkWide ids (map str_int hs)
               (map (fun i => map (fun h => lookup_triple i h l) hs) ids), hs).

Fixpoint lookup_row (i : string) (idx : list string) (vals : Matrix)
  : option (list float) :=
  match idx, vals with
  | j :: idx', v :: vals' => if String.eqb j i then Some v
                             else lookup_row i idx' vals'
  | _, _ => None
  end.

(** [w.reindex(target)]: a label absent from the index receives a row of
    NaN; an index with repeated labels cannot be reindexed. *)
Definition reindex (target : list string) (w : Wide) : result Wide :=
  if list_eqb (index w) target then Ok w
  else if negb (nodupb (index w)) then Raise "ValueError"
  else Ok (mkWide target (wcolumns w)
             (map (fun i => match lookup_row i (index w) (wvalues w) with
                            | Some v => v
                            | None => map (fun _ => None) (wcolumns w)
                            end) target)).

Definition fillna (w : Wide) : Wide :=
  mkWide (index w) (wcolumns w) (map (map fillna0) (wvalues w)).

(** One turn of the prediction loop: the triples of horizon [h]. *)
Definition predict_day (self : HierarchicalLGBM) (test_df : Frame)
    (feature_names : list string) (hd : Z * Z) : result (list Triple) :=
  let (h, day) := hd in
  let Xtest := mkFrame (cat_columns test_df) (num_columns test_df)
                 (filter (fun r => (date r =? day)%Z) (rows test_df)) in
  Xmat <- values_of feature_names Xtest ;;
  let Xmat := map (map fillna0) Xmat in
  booster <- match dict_get h (models self) with
             | Some b => Ok b
             | None => Raise "KeyError"
             end ;;
  let pred := booster Xmat in
  if negb (mem "id" (columns Xtest)) then Raise "KeyError"
  else if negb (List.length pred =? List.length (rows Xtest))%nat
  then Raise "ValueError"
  else Ok (map (fun rp => (cat (fst rp) "id", h, clip0 (snd rp)))
               (combine (rows Xtest) pred)).

(** The dates the horizons are mapped to. *)
Definition horizon_days (self : HierarchicalLGBM) (test_df : Frame)
  : result (list (Z * Z)) :=
  let test_days := sorted Z.leb (unique Z.eqb (map date (rows test_df))) in
  if (Z.of_nat (List.length test_days) <? num_models self)%Z
  then Raise "AssertionError"
  else
    let test_days := slice_to (num_models self) test_days in
    Ok (combine (range1 (num_models self)) test_days).

(** [sales_ids] is the [id] column of [data/raw/sales_train_evaluation.csv],
    [None] when the file cannot be read. *)
Definition predict (self : HierarchicalLGBM) (sales_ids : option (list string))
    (test_df : Frame) (feature_names : list string) : result Wide :=
  days <- horizon_days self test_df ;;
  pred_list <- mapM (predict_day self test_df feature_names) days ;;
  pred_all <- match pred_list with
              | [] => Raise "ValueError"
              | _ => Ok (List.concat pred_list)
              end ;;
  ids <- match sales_ids with
         | Some ids => Ok ids
         | None => Raise "FileNotFoundError"
         end ;;
  pv <- pivot pred_all ;;
  re <- reindex ids (fst pv) ;;
  let filled := fillna re in
  let names := map (fun i => ("F" ++ str_int i)%string) (range1 (num_models self)) in
  if negb (List.length (wcolumns filled) =? List.length names)%nat
  then Raise "ValueError"
  else Ok (mkWide (index filled) names (wvalues filled)).

(** ** The evaluator ([src/evaluation.py]) *)

Record M5Evaluator : Type := mkEvaluator {
  sales_ids : list string
}.

(** [wrmsse] is the external scoring function of the package m5_wrmsse;
    it raises on an array it does not accept. *)
Definition evaluate (wrmsse : Matrix -> result float) (self : M5Evaluator)
    (forecast_df : Wide) : result float :=
  re <- reindex (sales_ids self) forecast_df ;;
  let forecast_array := wvalues (fillna re) in
  wrmsse forecast_array.

(** ** The panel builder ([src/data_loader.py])

    A date is its day number, and a span of days an integer, both without
    bounds: a date or a span beyond the range of pandas' timestamps, which
    the code refuses with an out-of-bounds error, is not modelled. *)

Record CalendarRow : Type := mkCal {
  cal_d : string;
  cal_date : Z;
  cal_wm_yr_wk : Z;
  cal_wday : Z;
  cal_month : Z;
  cal_year : Z;
  cal_snap_CA : Z;
  cal_snap_TX : Z;
  cal_snap_WI : Z
}.

Record PriceRow : Type := mkPrice {
  price_store_id : string;
  price_item_id : string;
  price_wm_yr_wk : Z;
  price_sell_price : float
}.

(** The wide sales table: its labels in file order, and per row the object
    columns and the day columns. *)
Record SalesRow : Type := mkSales {
  sales_cat : string -> string;
  sales_day : string -> float
}.

Record SalesTable : Type := mkSalesTable {
  sales_columns : list string;
  sales_rows : list SalesRow
}.

Record M5DataLoader : Type := mkLoader {
  history_days : Z;
  test_horizon : Z
}.

(** A row of the long table while it is being assembled; a field is [None]
    when a left join found nothing. *)
Record LongRow : Type := mkLong {
  long_cat : string -> string;
  long_d : string;
  long_sales : float;
  long_cal : option CalendarRow;
  long_price : float;
  long_snap : Z
}.

Definition id_vars : list string :=
  ["id"; "item_id"; "dept_id"; "cat_id"; "store_id"; "state_id"].

(** [dict(zip(calendar["d"], calendar["date"]))[d]]: the last entry wins. *)
Definition d2date (calendar : list CalendarRow) (d : string) : option Z :=
  option_map cal_date
    (find (fun c => String.eqb (cal_d c) d) (rev calendar)).

Definition max_date (ds : list Z) : option Z :=
  match ds with
  | [] => None
  | d :: ds' => Some (fold_left Z.max ds' d)
  end.

Definition _filter_sales_by_date (self : M5DataLoader) (sales : SalesTable)
    (calendar : list CalendarRow) : result SalesTable :=
  let d_cols := filter (startswith "d_") (sales_columns sales) in
  dates <- mapM (fun d => match d2date calendar d with
                          | Some x => Ok x
                          | None => Raise "KeyError"
                          end) d_cols ;;
  let keep_mask :=
    match max_date dates with
    | Some last_date =>
        map (fun x => (last_date - (history_days self + test_horizon self) <=? x)%Z)
            dates
    | None => map (fun _ => false) dates
    end in
  let keep_cols := map fst (filter snd (combine d_cols keep_mask)) in
  Ok (mkSalesTable (firstn 6 (sales_columns sales) ++ keep_cols)
                   (sales_rows sales)).

(** [sales.melt(id_vars=..., var_name="d", value_name="sales")]: one block
    of rows per value column, in column order. *)
Definition _melt_sales (sales : SalesTable) : result (list LongRow) :=
  if forallb (fun c => mem c (sales_columns sales)) id_vars
  then
    let value_vars := filter (fun c => negb (mem c id_vars)) (sales_columns sales) in
    Ok (flat_map (fun d =>
                    map (fun r => mkLong (sales_cat r) d (sales_day r d)
                                         None None 0%Z)
                        (sales_rows sales))
                 value_vars)
  else Raise "KeyError".

(** The two left joins. *)
Definition merge_calendar (calendar : list CalendarRow) (long : list LongRow)
  : list LongRow :=
  flat_map (fun l =>
              match filter (fun c => String.eqb (cal_d c) (long_d l)) calendar with
              | [] => [l]
              | ms => map (fun c => mkLong (long_cat l) (long_d l) (long_sales l)
                                           (Some c) (long_price l) (long_snap l)) ms
              end) long.

Definition price_matches (l : LongRow) (p : PriceRow) : bool :=
  match long_cal l with
  | Some c => String.eqb (price_store_id p) (long_cat l "store_id")
              && String.eqb (price_item_id p) (long_cat l "item_id")
              && (price_wm_yr_wk p =? cal_wm_yr_wk c)%Z
  | None => false
  end.

Definition merge_prices (prices : list PriceRow) (long : list LongRow)
  : list LongRow :=
  flat_map (fun l =>
              match filter (price_matches l) prices with
              | [] => [l]
              | ms => map (fun p => mkLong (long_cat l) (long_d l) (long_sales l)
                                           (long_cal l) (price_sell_price p)
                                           (long_snap l)) ms
              end) long.

Definition snap_of (l : LongRow) : Z :=
  match long_cal l with
  | Some c =>
      if (String.eqb (long_cat l "state_id") "CA" && (cal_snap_CA c =? 1)%Z)
         || (String.eqb (long_cat l "state_id") "TX" && (cal_snap_TX c =? 1)%Z)
         || (String.eqb (long_cat l "state_id") "WI" && (cal_snap_WI c =? 1)%Z)
      then 1%Z else 0%Z
  | None => 0%Z
  end.

Definition _create_snap_feature (long : list LongRow) : list LongRow :=
  map (fun l => mkLong (long_cat l) (long_d l) (long_sales l) (long_cal l)
                       (long_price l) (snap_of l)) long.

Definition long_date (l : LongRow) : option Z := option_map cal_date (long_cal l).

Fixpoint some_dates (ds : list (option Z)) : list Z :=
  match ds with
  | [] => []
  | Some d :: ds' => d :: some_dates ds'
  | None :: ds' => some_dates ds'
  end.

(** The final filter; a row without a date compares false and is dropped. *)
Definition _apply_temporal_filter (self : M5DataLoader) (long : list LongRow)
  : list LongRow :=
  match max_date (some_dates (map long_date long)) with
  | Some max_date =>
      let cut_date := (max_date - test_horizon self)%Z in
      let hist_start := (cut_date - history_days self)%Z in
      filter (fun l => match long_date l with
                       | Some d => (hist_start <=? d)%Z && (d <=? max_date)%Z
                       | None => false
                       end) long
  | None => []
  end.

Definition panel_columns : list string :=
  ["sales"; "sell_price"; "wday"; "month"; "year"; "snap"].

Definition panel_row (l : LongRow) : Row :=
  let cal_field (g : CalendarRow -> Z) : float :=
    match long_cal l with
    | Some c => float_of_Z (g c)
    | None => None
    end in
  mkRow (long_cat l)
        (match long_date l with Some d => d | None => 0%Z end)
        (fun c =>
           if String.eqb c "sales" then long_sales l
           else if String.eqb c "sell_price" then long_price l
           else if String.eqb c "wday" then cal_field cal_wday
           else if String.eqb c "month" then cal_field cal_month
           else if String.eqb c "year" then cal_field cal_year
           else if String.eqb c "snap" then float_of_Z (long_snap l)
           else None).

(** The three tables are [None] when their file is absent. *)
Definition load_data (self : M5DataLoader)
    (calendar_csv : option (list CalendarRow))
    (prices_csv : option (list PriceRow))
    (sales_csv : option SalesTable) : result Frame :=
  calendar <- match calendar_csv with
              | Some c => Ok c | None => Raise "FileNotFoundError" end ;;
  prices <- match prices_csv with
            | Some p => Ok p | None => Raise "FileNotFoundError" end ;;
  sales <- match sales_csv with
           | Some s => Ok s | None => Raise "FileNotFoundError" end ;;
  sales_small <- _filter_sales_by_date self sales calendar ;;
  long <- _melt_sales sales_small ;;
  let long := merge_calendar calendar long in
  let long := merge_prices prices long in
  let long := _create_snap_feature long in
  let long := _apply_temporal_filter self long in
  Ok (mkFrame id_vars panel_columns (map panel_row long)).

(** The distinct dates of a frame, ascending. *)
Definition distinct_dates (f : Frame) : list Z :=
  sorted Z.leb (unique Z.eqb (map date (rows f))).

(** ** Notions used in the statements *)

(** Rows in ascending order of group key, then date. *)
Definition ordered (g : list string) (l : list Row) : Prop :=
  StronglySorted (fun a b => row_leb g a b = true) l.


(** The column assignments made by one call of [_add_lag_rolling_features],
    in program order, and the frame the call returns. *)
Definition assign_all (f : Frame) (l : list (string * list float)) : Frame :=
  fold_left (fun f a => set_column (fst a) (snd a) f) l f.

Definition lag_assignments (self : FeatureEngineer) (g : list string)
    (v p : string) (src : list Row) : list (string * list float) :=
  map (fun k => (lag_name p k, groupby_shift g v k src)) (lags self).

Definition roll_assignments (self : FeatureEngineer) (g : list string)
    (v p : string) (src : list Row) : list (string * list float) :=
  map (fun w => (roll_name p w,
                 rolling_mean (Z.to_nat w) (groupby_shift g v 1 src)))
      (rolling_windows self).

(** The errors of the call, in the order the code meets them. *)
Definition lag_rolling_ready (self : FeatureEngineer) (f : Frame)
    (g : list string) (v : string) : result unit :=
  if negb (has_cat_columns g f) then Raise "KeyError"
  else if no_group_keys g (sort_rows g (rows f)) then Raise "ValueError"
  else if negb (mem v (num_columns f)) then Raise "KeyError"
  else if existsb (fun w => (w <? 0)%Z) (rolling_windows self)
  then Raise "ValueError"
  else Ok tt.

Definition lag_rolling_frame (self : FeatureEngineer) (f : Frame)
    (g : list string) (v p : string) : result Frame :=
  _ <- lag_rolling_ready self f g v ;;
  let src := sort_rows g (rows f) in
  Ok (assign_all (mkFrame (cat_columns f) (num_columns f) src)
        (lag_assignments self g v p src ++ roll_assignments self g v p src)).

(** The rows that come before the row of group [key] dated [d] in the
    sorted frame: the rows of the groups sorted before [key], and the rows
    of [key] dated before [d]. *)
Definition sorted_before (g : list string) (key : list string) (d : Z)
    (r : Row) : bool :=
  match cmp_keys (key_of g r) key with
  | Lt => true
  | Eq => (date r <? d)%Z
  | Gt => false
  end.

(** The rows of group [key] dated before [d]. *)
Definition earlier_in_group (g : list string) (key : list string) (d : Z)
    (r : Row) : bool :=
  list_eqb (key_of g r) key && (date r <? d)%Z.

(** A change of the source signal [v] that spares the rows [spare] picks:
    every other row receives a new value. *)
Definition mutate (spare : Row -> bool) (v : string) (upd : Row -> float)
    (r : Row) : Row :=
  if spare r then r else set_num v (upd r) r.

Definition mutate_frame (spare : Row -> bool) (v : string)
    (upd : Row -> float) (f : Frame) : Frame :=
  mkFrame (cat_columns f) (num_columns f) (map (mutate spare v upd) (rows f)).

(** Two floats that are the same number, or both missing. *)
Definition same_number (x y : float) : Prop :=
  match x, y with
  | Some a, Some b => (a == b)%Q
  | None, None => True
  | _, _ => False
  end.

(** The source column [v] of a frame holds whole numbers of magnitude at
    most [B], or NaN. *)
Definition whole_column (B : Z) (v : string) (f : Frame) : Prop :=
  forall r, In r (rows f) -> whole_below B (num r v) = true.

(** The key of a row for a grouping, with its date. *)
Definition key_date (g : list string) (r : Row) : list string * Z :=
  (key_of g r, date r).

(** ** Sample inputs *)

(** A long frame with one object column and numeric columns given by an
    association list. *)
Definition sample_row (i : string) (d : Z) (xs : list (string * float)) : Row :=
  mkRow (fun _ => i) d
        (fun c => match find (fun kv => String.eqb (fst kv) c) xs with
                  | Some kv => snd kv
                  | None => None
                  end).

Definition q (z : Z) : float := Some (inject_Z z).

(** Two series over dates 5, 6 and 7, the first without a row on the last
    date. *)
Definition sample_test : Frame :=
  mkFrame ["id"] ["sales"; "x_lag_1"]
    [sample_row "a" 5 [("sales", q 3); ("x_lag_1", q 1)];
     sample_row "b" 5 [("sales", q 4); ("x_lag_1", q 5)];
     sample_row "a" 6 [("sales", q 3); ("x_lag_1", q 3)];
     sample_row "b" 6 [("sales", q 1); ("x_lag_1", None)];
     sample_row "b" 7 [("sales", q 2); ("x_lag_1", q 4)]].

(** A booster that scores a row by its first feature minus two, so that
    some raw scores are negative. *)
Definition sample_booster : Booster :=
  map (fun row => match row with
                  | Some x :: _ => Some (x - inject_Z 2)%Q
                  | _ => None
                  end).

Definition sample_model (H : Z) : HierarchicalLGBM :=
  mkLGBM [] 10 H [(1%Z, sample_booster); (2%Z, sample_booster)].

(** A forecast value is well formed when it is a number and not negative. *)
Definition nonneg (x : float) : Prop :=
  match x with
  | Some v => (0 <= v)%Q
  | None => False
  end.

(** A raw or clamped score: missing, or not negative. *)
Definition clamped (x : float) : Prop :=
  match x with
  | Some v => (0 <= v)%Q
  | None => True
  end.

(** A forecast matrix that lacks series ["c"] and holds a NaN. *)
Definition sample_forecast : Wide :=
  mkWide ["a"; "b"] ["F1"; "F2"] [[q 1; q 2]; [None; q 4]].

(** A stand-in for the scoring function: the sum of all entries of an
    array of three rows of two, any other array being refused. *)
Definition sample_score : Matrix -> result float :=
  fun m =>
    if (List.length m =? 3)%nat
       && forallb (fun row => (List.length row =? 2)%nat) m
    then Ok (Some (nansum (List.concat m)))
    else Raise "ValueError".

(** Two rows with the same object columns and the same value in column
    [c]: all that the shift of column [c] reads. *)
Definition agree_on (c : string) (a b : Row) : Prop :=
  cat a = cat b /\ num a c = num b c.

(** Two stand-ins for [lgb.train]: one refuses an empty dataset with the
    library's own error, one fits whatever it is given. *)
Definition strict_trainer : Trainer :=
  fun _ _ X _ => match X with
                 | [] => Raise "LightGBMError"
                 | _ => Ok sample_booster
                 end.

Definition lenient_trainer : Trainer :=
  fun _ _ _ _ => Ok sample_booster.

(** The value [k] places earlier in the group of row [j], as [shift]
    defines it. *)
Definition shifted_value (g : list string) (c : string) (k : Z)
    (rs : list Row) (j : nat) (r0 : Row) : float :=
  let pos := group_rank g rs j r0 in
  if (Z.of_nat pos - k <? 0)%Z then None
  else match nth_error (group_of g r0 rs) (Z.to_nat (Z.of_nat pos - k)) with
       | Some r1 => num r1 c
       | None => None
       end.

(** A calendar of [n] consecutive days [d_1 .. d_n] dated 1 to [n], and a
    sales table with one series sold on the first ten of them. *)
Definition sample_calendar (n : Z) : list CalendarRow :=
  map (fun i => mkCal ("d_" ++ str_int i) i 11101 1 1 2016 0 0 0) (range1 n).

Definition sample_sales : SalesTable :=
  mkSalesTable (id_vars ++ map (fun i => ("d_" ++ str_int i)%string) (range1 10))
    [mkSales (fun c => if String.eqb c "state_id" then "CA" else "s1")
             (fun _ => q 1)].

(** ** What the feature engine computes, frame by frame

    The frames below are the contents of the objects the methods of
    [FeatureEngineer] leave in the store. *)

Definition encode_step (f : Frame) (col : string) : Frame :=
  if mem col (columns f)
  then set_column (col ++ "_enc") (factorize_column col f) f
  else f.

Definition id_columns : list string :=
  ["state_id"; "store_id"; "dept_id"; "item_id"].

Definition encoded (f : Frame) : Frame := fold_left encode_step id_columns f.

Definition dated (f : Frame) : Frame :=
  set_column "is_weekend"
    (map (fun r => if mem "wday" (num_columns f)
                   then is_weekend_of (num r "wday")
                   else float_of_Z 0) (rows f)) f.

Definition aggregated (f : Frame) (g : list string) (p : string) : result Frame :=
  agg <- groupby_mean g "sales" f ;;
  Ok (rename_column "sales" ("sales_" ++ p) agg).

Definition keep_cols (g : list string) (p : string) (a : Frame) : list string :=
  g ++ ["date"] ++ filter (startswith (p ++ "_")) (columns a).

Definition level_frame (self : FeatureEngineer) (f : Frame) (level : Level)
  : result Frame :=
  let g := groupby level in
  let p := prefix level in
  if list_eqb g ["id"]
  then lag_rolling_frame self f g "sales" p
  else
    agg <- aggregated f g p ;;
    agg' <- lag_rolling_frame self agg g ("sales_" ++ p) p ;;
    kept <- select_columns (keep_cols g p agg') agg' ;;
    merge_left f kept g.

Definition featured (self : FeatureEngineer) (f : Frame) (levels : list Level)
  : result Frame :=
  foldM (level_frame self) levels f.

(** The feature names of one level, and all the names the engine may
    write: the encodings, [is_weekend], and per level the aggregate signal
    and the lag and rolling features. *)
Definition level_names (self : FeatureEngineer) (p : string) : list string :=
  map (lag_name p) (lags self) ++ map (roll_name p) (rolling_windows self).

Definition reserved_names (self : FeatureEngineer) (levels : list Level)
  : list string :=
  map (fun c => c ++ "_enc")%string id_columns ++ ["is_weekend"]
  ++ flat_map (fun l => ("sales_" ++ prefix l)%string
                        :: level_names self (prefix l)) levels.

(** No column of the panel bears a name the engine writes. *)
Definition fresh_panel (self : FeatureEngineer) (levels : list Level)
    (f : Frame) : bool :=
  forallb (fun c => negb (mem c (reserved_names self levels)))
          (cat_columns f ++ num_columns f).

(** Row [r] carries the date of [r0] and its values in the object columns
    [cs] and the numeric columns [ns]. *)
Definition extends (cs ns : list string) (r0 r : Row) : Prop :=
  date r = date r0
  /\ (forall c, In c cs -> cat r c = cat r0 c)
  /\ (forall c, In c ns -> num r c = num r0 c).

(** A panel as [load_data] builds it: two series of one store over four
    days, in no particular order. *)
Definition panel_row_of (i : string) (d : Z) (s : Z) : Row :=
  mkRow (fun c => if String.eqb c "id" then i
                  else if String.eqb c "item_id" then i
                  else if String.eqb c "dept_id" then "D1"
                  else if String.eqb c "cat_id" then "C1"
                  else if String.eqb c "store_id" then "S1"
                  else "CA")
        d
        (fun c => if String.eqb c "sales" then q s
                  else if String.eqb c "sell_price" then None
                  else if String.eqb c "wday" then q d
                  else if String.eqb c "month" then q 1
                  else if String.eqb c "year" then q 2016
                  else if String.eqb c "snap" then q 0
                  else None).

Definition sample_panel : Frame :=
  mkFrame id_vars panel_columns
    [panel_row_of "b" 1 10; panel_row_of "a" 1 1; panel_row_of "a" 2 2;
     panel_row_of "b" 2 20; panel_row_of "a" 3 3; panel_row_of "b" 3 30;
     panel_row_of "a" 4 4; panel_row_of "b" 4 40].

Definition sample_engineer : FeatureEngineer := mkFE [1; 2]%Z [2]%Z.

Definition sample_levels : list Level :=
  [mkLevel ["store_id"] "st"; mkLevel ["id"] "item"].

(** The columns [create_all_features] adds: the encodings, [is_weekend]
    and the features of every level. *)
Definition new_names (self : FeatureEngineer) (levels : list Level)
  : list string :=
  map (fun c => c ++ "_enc")%string id_columns ++ ["is_weekend"]
  ++ flat_map (fun l => level_names self (prefix l)) levels.

(** The features of [get_feature_names] that the panel holds before the
    engine runs. *)
Definition panel_feats : list string :=
  ["wday"; "month"; "year"; "snap"; "sell_price"].

(** A panel and a configuration for which the names line up: the four id
    columns and the five calendar and price columns are there, the names
    the engine adds are distinct and new to the panel, and no aggregate
    level has its signal [sales_P] taken for one of its features [P_...]. *)
Definition well_named (self : FeatureEngineer) (levels : list Level)
    (f : Frame) : bool :=
  forallb (fun c => mem c (columns f)) (id_columns ++ panel_feats)
  && nodupb (columns f ++ new_names self levels)
  && forallb (fun l => list_eqb (groupby l) ["id"]
                       || negb (startswith (prefix l ++ "_")
                                           ("sales_" ++ prefix l)))
             levels.

(** The columns of [out] that [f] does not have. *)
Definition new_columns (f out : Frame) : list string :=
  filter (fun c => negb (mem c (columns f))) (columns out).

(** Two stores of three series each over three days, the rows of a day
    listed store by store.  [s1] gives the sales of the series of store
    [S1] day by day; the sales of store [S2] are fixed. *)
Definition store_row (store item : string) (d : Z) (s : Z) : Row :=
  mkRow (fun c => if String.eqb c "id" then item
                  else if String.eqb c "item_id" then item
                  else if String.eqb c "dept_id" then "D1"
                  else if String.eqb c "cat_id" then "C1"
                  else if String.eqb c "store_id" then store
                  else "CA")
        d
        (fun c => if String.eqb c "sales" then q s
                  else if String.eqb c "sell_price" then None
                  else if String.eqb c "wday" then q d
                  else if String.eqb c "month" then q 1
                  else if String.eqb c "year" then q 2016
                  else if String.eqb c "snap" then q 0
                  else None).

Definition store_rows (store : string) (items : list string)
    (sales : list (list Z)) : list Row :=
  flat_map (fun ds => map (fun it => store_row store (fst it) (fst ds) (snd it))
                          (combine items (snd ds)))
           (combine [1; 2; 3]%Z sales).

Definition stores_panel (s1 : list (list Z)) : Frame :=
  mkFrame id_vars panel_columns
    (store_rows "S1" ["x1"; "x2"; "x3"] s1
     ++ store_rows "S2" ["y1"; "y2"; "y3"]
          [[0; 1; 1]; [0; 0; 0]; [1; 0; 2]]%Z).

(** ** The train/test split ([src/data_loader.py]) *)

(** [split_train_test]: the rows dated up to the cut and the rows dated
    after it.  The latest date of a frame without rows is NaT, every
    comparison with it is false, and both parts are empty. *)
Definition split_train_test (self : M5DataLoader) (df : Frame) : Frame * Frame :=
  match max_date (map date (rows df)) with
  | Some max_date =>
      let cut_date := (max_date - test_horizon self)%Z in
      (mkFrame (cat_columns df) (num_columns df)
               (filter (fun r => (date r <=? cut_date)%Z) (rows df)),
       mkFrame (cat_columns df) (num_columns df)
               (filter (fun r => (cut_date <? date r)%Z) (rows df)))
  | None =>
      (mkFrame (cat_columns df) (num_columns df) [],
       mkFrame (cat_columns df) (num_columns df) [])
  end.

(** ** Further notions used in the statements *)

(** The day columns of a sales table, and the latest of their dates.  The
    labels of a table read from a csv file are distinct. *)
Definition day_column (sales : SalesTable) (c : string) : Prop :=
  In c (sales_columns sales) /\ startswith "d_" c = true.

Definition latest_day (calendar : list CalendarRow) (sales : SalesTable)
    (last : Z) : Prop :=
  (exists c, day_column sales c /\ d2date calendar c = Some last)
  /\ forall c x, day_column sales c -> d2date calendar c = Some x -> (x <= last)%Z.

(** The value columns of the melt. *)
Definition value_vars (sales : SalesTable) : list string :=
  filter (fun c => negb (mem c id_vars)) (sales_columns sales).

(** The names [predict] gives the columns of a forecast. *)
Definition forecast_columns (self : HierarchicalLGBM) : list string :=
  map (fun i => ("F" ++ str_int i)%string) (range1 (num_models self)).

(** The row [reindex] gives a label: the row of the label in the frame, a
    row of NaN when the frame does not have the label. *)
Definition row_of (w : Wide) (i : string) : list float :=
  match lookup_row i (index w) (wvalues w) with
  | Some v => v
  | None => map (fun _ => None) (wcolumns w)
  end.

(** A frame whose index has as many labels as it has rows, none repeated. *)
Definition well_indexed (w : Wide) : Prop :=
  NoDup (index w) /\ List.length (wvalues w) = List.length (index w).

(** [pd.factorize(values)[1]]: the distinct values, in order of first
    appearance; a code is the position of its value in this list. *)
Fixpoint uniques_from {A} (eqb : A -> A -> bool) (seen l : list A) : list A :=
  match l with
  | [] => seen
  | x :: l' =>
      match index_of eqb x seen with
      | Some _ => uniques_from eqb seen l'
      | None => uniques_from eqb (seen ++ [x]) l'
      end
  end.

(** The values of an object column and of a numeric column, row by row. *)
Definition cat_values (c : string) (f : Frame) : list string :=
  map (fun r => cat r c) (rows f).

Definition num_values (c : string) (f : Frame) : list float :=
  map (fun r => num r c) (rows f).

(** ** The configuration ([src/config.py]) *)

#[local] Unset Elimination Schemes.

(** What [yaml.safe_load] returns.  The keys of a mapping are strings: a
    key of another type never equals a piece of a dotted key, and a mapping
    is listed without such entries. *)
Inductive Yaml : Type :=
| YNone
| YBool (b : bool)
| YInt (z : Z)
| YFloat (x : Q)
| YStr (s : string)
| YList (l : list Yaml)
| YDict (d : list (string * Yaml)).

#[local] Set Elimination Schemes.

(** [d.get(k)] on a dictionary with string keys, [None] when [k] is not a
    key of [d]. *)
Fixpoint dict_lookup {V} (k : string) (d : list (string * V)) : option V :=
  match d with
  | [] => None
  | (k', v) :: d' => if String.eqb k' k then Some v else dict_lookup k d'
  end.

(** [d[k] = v]: a key that is there keeps its place. *)
Fixpoint dict_store {V} (k : string) (v : V) (d : list (string * V))
  : list (string * V) :=
  match d with
  | [] => [(k, v)]
  | (k', v') :: d' => if String.eqb k' k then (k, v) :: d'
                      else (k', v') :: dict_store k v d'
  end.

(** [s.split(sep)] for a separator of one character. *)
Fixpoint split (sep : ascii) (s : string) : list string :=
  match s with
  | EmptyString => [EmptyString]
  | String c s' =>
      if Ascii.eqb c sep then EmptyString :: split sep s'
      else match split sep s' with
           | w :: ws => String c w :: ws
           | [] => [String c EmptyString]
           end
  end.

Fixpoint has_char (c : ascii) (s : string) : bool :=
  match s with
  | EmptyString => false
  | String a s' => Ascii.eqb a c || has_char c s'
  end.

Definition is_dict (v : Yaml) : bool :=
  match v with
  | YDict _ => true
  | _ => false
  end.

(** The value a list of keys leads to, one mapping inside the other. *)
Fixpoint lookup_path (keys : list string) (v : Yaml) : option Yaml :=
  match keys with
  | [] => Some v
  | k :: keys' =>
      match v with
      | YDict d => match dict_lookup k d with
                   | Some v' => lookup_path keys' v'
                   | None => None
                   end
      | _ => None
      end
  end.

Module Config.

Record Config : Type := mkConfig {
  _config : Yaml
}.

(** The loop of [get]: [value] is rebound at each key. *)
Fixpoint get_loop (keys : list string) (value default : Yaml) : Yaml :=
  match keys with
  | [] => value
  | k :: keys' =>
      match value with
      | YDict d =>
          get_loop keys'
                   (match dict_lookup k d with
                    | Some v => v
                    | None => default
                    end)
                   default
      | _ => default
      end
  end.

Definition get (self : Config) (key : string) (default : Yaml) : Yaml :=
  get_loop (split "." key) (_config self) default.

Definition history_days (self : Config) : Yaml :=
  get self "data.history_days" YNone.

Definition lags (self : Config) : Yaml :=
  get self "features.lags" YNone.

Definition rolling_windows (self : Config) : Yaml :=
  get self "features.rolling_windows" YNone.

Definition num_boost_round (self : Config) : Yaml :=
  get self "model.training.num_boost_round" YNone.

End Config.

(** ** The forecast service ([api/predictor.py], [api/main.py]) *)

(** [frame.loc[label].values.tolist()]: the row of the label, and a list
    of rows when the label is repeated in the index. *)
Inductive Forecast : Type :=
| Flat (values : list float)
| Nested (values : Matrix).

Fixpoint rows_at (i : string) (idx : list string) (vals : Matrix) : Matrix :=
  match idx, vals with
  | j :: idx', v :: vals' =>
      if String.eqb j i then v :: rows_at i idx' vals' else rows_at i idx' vals'
  | _, _ => []
  end.

Definition loc (w : Wide) (i : string) : Forecast :=
  match rows_at i (index w) (wvalues w) with
  | [v] => Flat v
  | m => Nested m
  end.

(** [xs[start:stop]] *)
Definition py_slice {A} (start stop : Z) (xs : list A) : list A :=
  let n := Z.of_nat (List.length xs) in
  let clamp := fun i => if (i <? 0)%Z then Z.max (i + n) 0 else Z.min i n in
  firstn (Z.to_nat (clamp stop - clamp start)) (skipn (Z.to_nat (clamp start)) xs).

Module Api.

Record M5Predictor : Type := mkPredictor {
  forecasts_df : option Wide;
  summary : option (list (string * Yaml));
  model_loaded : bool
}.

(** The predictor as [__init__] leaves it. *)
Definition init : M5Predictor := mkPredictor None None false.

(** [load_model], given what the two pickle files hold ([None] for a file
    that cannot be read): the predictor after the call, and the error
    raised if any.  A failure at the second file leaves the forecasts
    loaded and the flag down. *)
Definition load_model (self : M5Predictor) (forecasts_pkl : option Wide)
    (summary_pkl : option (list (string * Yaml))) : M5Predictor * result unit :=
  match forecasts_pkl with
  | None => (self, Raise "RuntimeError")
  | Some w =>
      match summary_pkl with
      | None => (mkPredictor (Some w) (summary self) (model_loaded self),
                 Raise "RuntimeError")
      | Some s => (mkPredictor (Some w) (Some s) true, Ok tt)
      end
  end.

Definition zeros : Forecast := Flat (repeat (Some 0%Q) 28).

Definition predict (self : M5Predictor) (item_ids : list string)
  : result (list (string * Forecast)) :=
  if negb (model_loaded self) then Raise "RuntimeError"
  else
    foldM (fun predictions item_id =>
             match forecasts_df self with
             | None => Raise "AttributeError"
             | Some w =>
                 if mem item_id (index w)
                 then Ok (dict_store item_id (loc w item_id) predictions)
                 else Ok (dict_store item_id zeros predictions)
             end)
          item_ids [].

Definition summary_get (s : list (string * Yaml)) (k : string) : Yaml :=
  match dict_lookup k s with
  | Some v => v
  | None => YNone
  end.

Definition get_model_info (self : M5Predictor) : result (list (string * Yaml)) :=
  if negb (model_loaded self) then Raise "RuntimeError"
  else
    match summary self with
    | None => Raise "AttributeError"
    | Some s =>
        Ok [("model_name", YStr "Hierarchical LightGBM");
            ("model_version", YStr "v1");
            ("wrmsse", summary_get s "wrmsse");
            ("training_time", summary_get s "training_time");
            ("history_days", summary_get s "history_days");
            ("num_boost_round", summary_get s "num_boost_round");
            ("lags", summary_get s "lags");
            ("rolling_windows", summary_get s "rolling_windows")]
    end.

Definition get_available_items (self : M5Predictor) : result (list string) :=
  if negb (model_loaded self) then Raise "RuntimeError"
  else
    match forecasts_df self with
    | None => Raise "AttributeError"
    | Some w => Ok (index w)
    end.

(** The page returned by the [/items] endpoint; any failure is answered
    with an [HTTPException]. *)
Record Page : Type := mkPage {
  total : Z;
  limit : Z;
  offset : Z;
  items : list string
}.

Definition list_items (predictor : M5Predictor) (limit offset : Z)
  : result Page :=
  match get_available_items predictor with
  | Ok all_items =>
      Ok (mkPage (Z.of_nat (List.length all_items)) limit offset
                 (py_slice offset (offset + limit) all_items))
  | Raise _ => Raise "HTTPException"
  end.

End Api.

(** The summary the training script pickles
    ([scripts/train_hierarchical_lgbm.py], the end of [main]), and the one
    of the script with experiment tracking
    ([scripts/train_hierarchical_lgbm_mlflow.py]). *)
Definition main_summary (config : Config.Config) (score : Q)
  : list (string * Yaml) :=
  [("wrmsse", YFloat score);
   ("history_days", Config.history_days config);
   ("lags", Config.lags config);
   ("rolls", Config.rolling_windows config);
   ("rounds", Config.num_boost_round config)].

Definition mlflow_summary (config : Config.Config) (wrmsse_score : Q)
    (training_time : Q) (feature_names : list string) : list (string * Yaml) :=
  [("wrmsse", YFloat wrmsse_score);
   ("history_days", Config.history_days config);
   ("lags", Config.lags config);
   ("rolling_windows", Config.rolling_windows config);
   ("num_boost_round", Config.num_boost_round config);
   ("training_time", YFloat training_time);
   ("num_features", YInt (Z.of_nat (List.length feature_names)))].

(** What [predict] answers for an id: its row of the forecast, and 28
    zeros for an id the forecast does not have. *)
Definition answer (w : Wide) (i : string) : Forecast :=
  if mem i (index w) then loc w i else Api.zeros.

Definition sample_config : Config.Config :=
  Config.mkConfig
    (YDict [("data", YDict [("history_days", YInt 600); ("test_horizon", YInt 28)]);
            ("features", YDict [("lags", YList [YInt 7; YInt 28])])]).

(** A weekday that counts as week-end: the number 1 or the number 7. *)
Definition weekend_day (x : float) : Prop :=
  exists v, x = Some v /\ (v == 1 \/ v == 7)%Q.

(** A price row for the store, the item and the week of a panel row. *)
Definition price_of (p : PriceRow) (r : Row) (c : CalendarRow) : Prop :=
  price_store_id p = cat r "store_id"
  /\ price_item_id p = cat r "item_id"
  /\ price_wm_yr_wk p = cal_wm_yr_wk c.
(** * Properties *)

Unset Implicit Arguments.

(** ** Binary64 arithmetic *)
Lemma rnd_proper (x y : Q) : (x == y)%Q -> rnd x = rnd y.
Proof. intros H. unfold rnd. now rewrite (Qred_complete x y H). Qed.

Lemma round_half_even_nonneg (n d : Z) :
  (0 <= n)%Z -> (0 < d)%Z -> (0 <= round_half_even n d)%Z.
Proof.
  intros Hn Hd. unfold round_half_even.
  assert (0 <= n / d)%Z by (apply Z.div_pos; lia).
  destruct (2 * (n mod d) ?= d)%Z; [destruct (Z.even (n / d))| |]; lia.
Qed.

Lemma round_half_even_exact (n : Z) : round_half_even n 1 = n.
Proof.
  unfold round_half_even. rewrite Z.mod_1_r, Z.div_1_r. reflexivity.
Qed.

Lemma rnd_sign (x : Q) :
  exists a : Z, exists b : positive,
    (0 <= a)%Z /\ (rnd x == Qmake (Z.sgn (Qnum (Qred x)) * a) b)%Q.
Proof.
  unfold rnd.
  destruct (Z.eqb_spec (Z.abs (Qnum (Qred x))) 0) as [E|E].
  - exists 0%Z, 1%positive. split; [lia|]. rewrite Z.mul_0_r. reflexivity.
  - set (n := Z.abs (Qnum (Qred x))) in *.
    set (d := Zpos (Qden (Qred x))).
    set (e := Z.max (floor_log2 n d - 52) (-1074)).
    assert (Hn : (0 <= n)%Z) by (unfold n; lia).
    destruct (Z.leb_spec 0 e) as [He|He].
    + exists (round_half_even n (d * 2 ^ e) * 2 ^ e)%Z, 1%positive. split.
      * apply Z.mul_nonneg_nonneg; [|apply Z.pow_nonneg; lia].
        apply round_half_even_nonneg; auto.
        apply Z.mul_pos_pos; [unfold d; lia|apply Z.pow_pos_nonneg; lia].
      * unfold inject_Z. now rewrite Z.mul_assoc.
    + exists (round_half_even (n * 2 ^ (- e)) d), (Z.to_pos (2 ^ (- e))). split.
      * apply round_half_even_nonneg; [|unfold d; lia].
        apply Z.mul_nonneg_nonneg; auto. apply Z.pow_nonneg. lia.
      * apply Qred_correct.
Qed.

Lemma rnd_nonneg (x : Q) : (0 <= x)%Q -> (0 <= rnd x)%Q.
Proof.
  intros H. destruct (rnd_sign x) as [a [b [Ha ->]]].
  assert (Hx : (0 <= Qred x)%Q) by now rewrite Qred_correct.
  unfold Qle in *. simpl in *. nia.
Qed.

Lemma rnd_nonpos (x : Q) : (x <= 0)%Q -> (rnd x <= 0)%Q.
Proof.
  intros H. destruct (rnd_sign x) as [a [b [Ha ->]]].
  assert (Hx : (Qred x <= 0)%Q) by now rewrite Qred_correct.
  unfold Qle in *. simpl in *. nia.
Qed.

(** An integer below [2^53] in magnitude is a double. *)
Lemma rnd_int (z : Z) :
  (Z.abs z < 2 ^ 53)%Z -> (rnd (inject_Z z) == inject_Z z)%Q.
Proof.
  intros Hz. unfold rnd.
  assert (R : Qred (inject_Z z) = inject_Z z).
  { apply Qcanon.Qred_identity. simpl. apply Z.gcd_1_r. }
  rewrite R. simpl Qnum. simpl Qden.
  destruct (Z.eqb_spec (Z.abs z) 0) as [E|E].
  - assert (z = 0)%Z by lia. subst. reflexivity.
  - set (n := Z.abs z) in *.
    assert (Hn : (0 < n)%Z) by (unfold n; lia).
    assert (Hl : (0 <= Z.log2 n <= 52)%Z).
    { split; [apply Z.log2_nonneg|].
      assert (Z.log2 n < 53)%Z; [|lia]. apply Z.log2_lt_pow2; auto. }
    assert (F : floor_log2 n 1 = Z.log2 n).
    { unfold floor_log2. change (Z.log2 1) with 0%Z. rewrite Z.sub_0_r.
      destruct (Z.leb_spec 0 (Z.log2 n)); [|lia].
      destruct (Z.leb_spec (1 * 2 ^ Z.log2 n) n); auto.
      pose proof (Z.log2_spec n Hn). lia. }
    rewrite F.
    set (e := Z.max (Z.log2 n - 52) (-1074)).
    assert (He : (e = Z.log2 n - 52)%Z) by (unfold e; lia).
    destruct (Z.leb_spec 0 e) as [H0|H0].
    + assert (e = 0)%Z by lia. rewrite H. simpl (2 ^ 0)%Z.
      rewrite Z.mul_1_r, round_half_even_exact.
      unfold inject_Z, Qeq. simpl. unfold n. lia.
    + rewrite round_half_even_exact, Qred_correct.
      assert (Hp : (0 < 2 ^ (- e))%Z) by (apply Z.pow_pos_nonneg; lia).
      unfold inject_Z, Qeq. simpl. rewrite Z2Pos.id by auto.
      unfold n. nia.
Qed.



(** ** Slices and windows *)

Lemma nth_error_slice (A : Type) (s e : nat) (l : list A) (k : nat) :
  nth_error (slice s e l) k
  = if (k <? e - s)%nat then nth_error l (s + k) else None.
Proof.
  unfold slice. rewrite nth_error_firstn.
  destruct (k <? e - s)%nat; auto. apply nth_error_skipn.
Qed.

Lemma slice_agree (A : Type) (s e : nat) (xs ys : list A) :
  (forall m, (s <= m < e)%nat -> nth_error xs m = nth_error ys m) ->
  slice s e xs = slice s e ys.
Proof.
  intros H. apply nth_error_ext. intros k. rewrite !nth_error_slice.
  destruct (Nat.ltb_spec k (e - s)); auto. apply H. lia.
Qed.

Lemma firstn_sum_split (A : Type) (a b : nat) (l : list A) :
  firstn (a + b) l = firstn a l ++ firstn b (skipn a l).
Proof.
  revert l. induction a as [|a IH]; intros [|x l]; simpl; auto.
  - now rewrite firstn_nil.
  - now rewrite IH.
Qed.

Lemma slice_split (A : Type) (s m e : nat) (l : list A) :
  (s <= m <= e)%nat -> slice s e l = slice s m l ++ slice m e l.
Proof.
  intros H. unfold slice.
  replace (e - s)%nat with ((m - s) + (e - m))%nat by lia.
  rewrite firstn_sum_split. f_equal. rewrite skipn_skipn.
  replace (m - s + s)%nat with m by lia. reflexivity.
Qed.

Lemma slice_empty (A : Type) (s e : nat) (l : list A) :
  (e <= s)%nat -> slice s e l = [].
Proof.
  intros H. unfold slice. replace (e - s)%nat with 0%nat by lia. reflexivity.
Qed.

Lemma slice_length (A : Type) (s e : nat) (l : list A) :
  (List.length (slice s e l) <= e - s)%nat.
Proof. unfold slice. apply firstn_le_length. Qed.

Lemma window_bounds (w i : nat) :
  (window_start w i <= window_end w i)%nat
  /\ (window_end w i - window_start w i <= w)%nat
  /\ (window_end w i <= S i)%nat.
Proof.
  unfold window_start, window_end. destruct (Nat.eqb_spec w 0); lia.
Qed.

Lemma window_length (w : nat) (xs : list float) (j : nat) :
  (List.length (window w xs j) <= w)%nat.
Proof.
  unfold window. pose proof (slice_length _ (window_start w j) (window_end w j) xs).
  pose proof (window_bounds w j). lia.
Qed.

Lemma nth_error_window (w : nat) (xs : list float) (j i : nat) :
  nth_error (window w xs j) i =
  if (i <? S j - (S j - w))%nat then nth_error xs (S j - w + i) else None.
Proof.
  unfold window, window_start, window_end. rewrite nth_error_slice.
  destruct (Nat.eqb_spec w 0) as [->|Hw].
  - replace (j - j)%nat with 0%nat by lia.
    replace (S j - (S j - 0))%nat with 0%nat by lia. reflexivity.
  - reflexivity.
Qed.

Lemma window_agree (w : nat) (xs ys : list float) (j : nat) :
  (forall m, (S j - w <= m <= j)%nat -> nth_error xs m = nth_error ys m) ->
  window w xs j = window w ys j.
Proof.
  intros H. apply nth_error_ext. intros i. rewrite !nth_error_window.
  destruct (Nat.ltb_spec i (S j - (S j - w))); auto. apply H. lia.
Qed.

(** ** The loop of the rolling mean *)

Lemma roll_mean_from_length (values : list float) (w : nat) (minp : Z)
    (st : MeanState) (i n : nat) :
  List.length (roll_mean_from values w minp st i n) = n.
Proof.
  revert st i. induction n as [|n IH]; intros st i; simpl; auto.
Qed.

Lemma rolling_mean_length (w : nat) (xs : list float) :
  List.length (rolling_mean w xs) = List.length xs.
Proof. apply roll_mean_from_length. Qed.

Lemma nth_error_roll_mean_from (values : list float) (w : nat) (minp : Z)
    (n : nat) :
  forall (i k : nat) (st : MeanState),
    roll_step values w st i = mean_state values w i ->
    (k < n)%nat ->
    nth_error (roll_mean_from values w minp st i n) k
    = Some (calc_mean minp (mean_state values w (i + k))).
Proof.
  induction n as [|n IH]; intros i k st Hst Hk; [lia|].
  simpl. destruct k as [|k]; simpl.
  - rewrite Nat.add_0_r, Hst. reflexivity.
  - rewrite Hst, (IH (S i) k); [|reflexivity|lia].
    now rewrite Nat.add_succ_r.
Qed.

(** Row [j] of the rolling mean is read off the state of the loop after
    the turn of row [j]. *)
Lemma nth_error_rolling_mean (w : nat) (xs : list float) (j : nat) :
  (j < List.length xs)%nat ->
  nth_error (rolling_mean w xs) j
  = Some (calc_mean (Z.of_nat w) (mean_state xs w j)).
Proof.
  intros H. unfold rolling_mean, roll_mean.
  now rewrite (nth_error_roll_mean_from xs w (Z.of_nat w) (List.length xs) 0 j idle).
Qed.

(** The state after row [i] is built from rows [0 .. i] alone. *)
Lemma setup_agree (xs ys : list float) (s e : nat) :
  (forall m, (s <= m < Nat.max e (S s))%nat -> nth_error xs m = nth_error ys m) ->
  setup xs s e = setup ys s e.
Proof.
  intros H. unfold setup. rewrite (slice_agree _ s e xs ys), (H s); auto; [lia|].
  intros m Hm. apply H. lia.
Qed.

Lemma roll_step_agree (xs ys : list float) (w : nat) (st : MeanState) (i : nat) :
  (forall m, (m <= i)%nat -> nth_error xs m = nth_error ys m) ->
  roll_step xs w st i = roll_step ys w st i.
Proof.
  intros H. unfold roll_step.
  pose proof (window_bounds w i) as [B1 [B2 B3]].
  assert (Hs : (window_start w i <= i)%nat).
  { unfold window_start. destruct (Nat.eqb_spec w 0); lia. }
  assert (S1 : setup xs (window_start w i) (window_end w i)
               = setup ys (window_start w i) (window_end w i)).
  { apply setup_agree. intros m Hm. apply H. lia. }
  destruct i as [|i0]; auto.
  destruct (window_end w i0 <=? window_start w (S i0))%nat; auto.
  rewrite (slice_agree _ (window_start w i0) (window_start w (S i0)) xs ys),
          (slice_agree _ (window_end w i0) (window_end w (S i0)) xs ys); auto.
  - intros m Hm. apply H. lia.
  - intros m Hm. apply H. lia.
Qed.

Lemma mean_state_agree (xs ys : list float) (w : nat) (i : nat) :
  (forall m, (m <= i)%nat -> nth_error xs m = nth_error ys m) ->
  mean_state xs w i = mean_state ys w i.
Proof.
  induction i as [|i IH]; intros H; cbn [mean_state].
  - now apply roll_step_agree.
  - rewrite IH by (intros; apply H; lia). now apply roll_step_agree.
Qed.

(** ** What the state of the loop stands for *)

Lemma slice_snoc (A : Type) (s e : nat) (l : list A) :
  (s <= e)%nat ->
  slice s (S e) l = slice s e l ++ match nth_error l e with
                                   | Some x => [x]
                                   | None => []
                                   end.
Proof.
  intros H. rewrite (slice_split A s e (S e) l) by lia. f_equal.
  unfold slice. replace (S e - e)%nat with 1%nat by lia.
  rewrite <- (hd_error_skipn e l).
  destruct (skipn e l) as [|x t]; reflexivity.
Qed.

Lemma slice_cons (A : Type) (s e : nat) (l : list A) :
  (s < e)%nat ->
  slice s e l = match nth_error l s with
                | Some x => x :: slice (S s) e l
                | None => []
                end.
Proof.
  intros H. unfold slice. rewrite <- (hd_error_skipn s l).
  replace (e - s)%nat with (S (e - S s)) by lia.
  replace (skipn (S s) l) with (skipn 1 (skipn s l))
    by (rewrite skipn_skipn; reflexivity).
  destruct (skipn s l) as [|x t]; reflexivity.
Qed.

Section Sliding.

Variable values : list float.
Variable w : nat.
Variable R : MeanState -> list float -> Prop.
Variable ok : list float -> Prop.

Hypothesis ok_slice : forall a b, (b - a <= w)%nat -> ok (slice a b values).
Hypothesis R_idle : forall pv, R (mkMean 0 0 0 0 0 0 pv) [].
Hypothesis R_add : forall st l val,
  R st l -> ok (l ++ [val]) -> R (add_mean val st) (l ++ [val]).
Hypothesis R_remove : forall st l val,
  R st (val :: l) -> ok (val :: l) -> R (remove_mean val st) l.

Lemma added_slice (s m : nat) (k : nat) (st : MeanState) :
  (s <= m)%nat -> (m + k - s <= w)%nat ->
  R st (slice s m values) ->
  R (fold_left (fun st val => add_mean val st) (slice m (m + k) values) st)
    (slice s (m + k) values).
Proof.
  intros Hs. induction k as [|k IH]; intros Hw Hst.
  - rewrite Nat.add_0_r, (slice_empty float m m) by lia. exact Hst.
  - rewrite Nat.add_succ_r, (slice_snoc float m (m + k)) by lia.
    rewrite (slice_snoc float s (m + k)) by lia.
    rewrite fold_left_app.
    assert (IH' := IH ltac:(lia) Hst).
    destruct (nth_error values (m + k)) as [x|] eqn:E; simpl.
    + apply R_add; auto.
      replace (slice s (m + k) values ++ [x]) with (slice s (S (m + k)) values).
      * apply ok_slice. lia.
      * rewrite (slice_snoc float s (m + k)) by lia. now rewrite E.
    + now rewrite app_nil_r.
Qed.

Lemma removed_slice (k : nat) :
  forall (s0 e : nat) (st : MeanState),
    (s0 + k <= e)%nat -> (e - s0 <= w)%nat ->
    R st (slice s0 e values) ->
    R (fold_left (fun st val => remove_mean val st) (slice s0 (s0 + k) values) st)
      (slice (s0 + k) e values).
Proof.
  induction k as [|k IH]; intros s0 e st He Hw Hst.
  - rewrite Nat.add_0_r, (slice_empty float s0 s0) by lia. exact Hst.
  - rewrite (slice_cons float s0 (s0 + S k)) by lia.
    destruct (nth_error values s0) as [x|] eqn:E.
    + simpl. replace (s0 + S k)%nat with (S s0 + k)%nat by lia.
      apply IH; [lia|lia|].
      rewrite (slice_cons float s0 e) in Hst by lia. rewrite E in Hst.
      apply R_remove; auto.
      replace (x :: slice (S s0) e values) with (slice s0 e values).
      * apply ok_slice. lia.
      * rewrite (slice_cons float s0 e) by lia. now rewrite E.
    + simpl. rewrite (slice_cons float s0 e) in Hst by lia. rewrite E in Hst.
      replace (slice (s0 + S k) e values) with (@nil float); auto.
      symmetry. apply nth_error_ext. intros i. rewrite nth_error_slice.
      rewrite nth_error_nil.
      destruct (i <? e - (s0 + S k))%nat; auto.
      apply nth_error_None. apply nth_error_None in E. lia.
Qed.

Lemma setup_slice (s e : nat) :
  (s <= e)%nat -> (e - s <= w)%nat -> R (setup values s e) (slice s e values).
Proof.
  intros Hs Hw. unfold setup.
  replace e with (s + (e - s))%nat by lia.
  apply added_slice; [lia|lia|].
  rewrite (slice_empty float s s) by lia. apply R_idle.
Qed.

(** After the turn of row [i] the state stands for the window of row
    [i]. *)
Lemma mean_state_window (i : nat) :
  R (mean_state values w i) (window w values i).
Proof.
  unfold window. induction i as [|i IH]; cbn [mean_state].
  - pose proof (window_bounds w 0) as [B1 [B2 _]].
    unfold roll_step. now apply setup_slice.
  - pose proof (window_bounds w i) as [A1 [A2 _]].
    pose proof (window_bounds w (S i)) as [B1 [B2 _]].
    unfold roll_step.
    destruct (Nat.leb_spec (window_end w i) (window_start w (S i))) as [F|F].
    + now apply setup_slice.
    + assert (M : (window_start w i <= window_start w (S i))%nat
                  /\ (window_end w i <= window_end w (S i))%nat).
      { unfold window_start, window_end. destruct (Nat.eqb_spec w 0); lia. }
      destruct M as [M1 M2].
      replace (window_end w (S i))
        with (window_end w i + (window_end w (S i) - window_end w i))%nat by lia.
      apply added_slice; [lia|lia|].
      replace (window_start w (S i))
        with (window_start w i + (window_start w (S i) - window_start w i))%nat
        by lia.
      apply removed_slice; [lia|lia|exact IH].
Qed.

End Sliding.

(** ** The counters *)

Lemma observed_app (a b : list float) :
  observed (a ++ b) = (observed a + observed b)%nat.
Proof. induction a as [|[v|] a IH]; simpl; auto. Qed.

Lemma somes_app (a b : list float) : somes (a ++ b) = somes a ++ somes b.
Proof. induction a as [|[v|] a IH]; simpl; auto. now rewrite IH. Qed.

Lemma somes_length (l : list float) : List.length (somes l) = observed l.
Proof. induction l as [|[v|] l IH]; simpl; auto. Qed.

Lemma nansum_app (a b : list float) : (nansum (a ++ b) == nansum a + nansum b)%Q.
Proof.
  induction a as [|[v|] a IH]; simpl.
  - now rewrite Qplus_0_l.
  - rewrite IH. apply Qplus_assoc.
  - exact IH.
Qed.

Lemma observed_le (l : list float) : (observed l <= List.length l)%nat.
Proof. induction l as [|[v|] l IH]; simpl; lia. Qed.

Lemma observed_lt (l : list float) : In None l -> (observed l < List.length l)%nat.
Proof.
  induction l as [|[v|] l IH]; simpl; intros H.
  - contradiction.
  - destruct H as [H|H]; [discriminate|]. apply IH in H. lia.
  - pose proof (observed_le l). lia.
Qed.

Lemma float_eqb_trans (u v : Q) (p : float) :
  float_eqb (Some u) p = true -> float_eqb (Some v) p = true ->
  float_eqb (Some u) (Some v) = true.
Proof.
  destruct p as [x|]; simpl; [|discriminate]. intros H1 H2.
  apply Qeq_bool_iff in H1, H2. apply Qeq_bool_iff. now rewrite H1, H2.
Qed.

Lemma tallied_idle (pv : float) : tallied (mkMean 0 0 0 0 0 0 pv) [].
Proof. repeat split; simpl; auto; lia. Qed.

Lemma tallied_add (st : MeanState) (l : list float) (val : float) :
  tallied st l -> tallied (add_mean val st) (l ++ [val]).
Proof.
  intros [H1 [H2 [H3 H4]]]. destruct val as [v|].
  2:{ unfold tallied, negatives. rewrite observed_app, somes_app. simpl.
      rewrite Nat.add_0_r, app_nil_r. auto. }
  unfold add_mean, kahan_add, tallied, negatives.
  remember (float_eqb (Some v) (prev_value st)) as b eqn:E. symmetry in E.
  cbn [nobs neg_ct num_consecutive_same_value prev_value].
  rewrite observed_app, somes_app, filter_app, length_app, rev_app_distr.
  cbn [observed somes filter rev app List.length].
  fold (negatives l). repeat split.
  - lia.
  - destruct (signbit v); simpl; lia.
  - destruct b; lia.
  - destruct b.
    + rewrite Z2Nat.inj_add by lia. change (Z.to_nat 1) with 1%nat.
      rewrite Nat.add_1_r. cbn [firstn]. constructor.
      * apply (proj2 (Qeq_bool_iff v v)). reflexivity.
      * eapply Forall_impl; [|exact H4]. intros u Hu.
        exact (float_eqb_trans u v (prev_value st) Hu E).
    + change (Z.to_nat 1) with 1%nat. cbn [firstn].
      constructor; [|constructor]. apply (proj2 (Qeq_bool_iff v v)). reflexivity.
Qed.

Lemma tallied_remove (st : MeanState) (l : list float) (val : float) :
  tallied st (val :: l) -> tallied (remove_mean val st) l.
Proof.
  intros [H1 [H2 [H3 H4]]]. destruct val as [v|]; simpl.
  2:{ repeat split; auto. }
  unfold tallied, negatives in *. simpl in *. repeat split.
  - lia.
  - destruct (signbit v); simpl in *; lia.
  - exact H3.
  - rewrite firstn_app in H4. apply Forall_app in H4. tauto.
Qed.

(** ** Whole numbers are summed without error *)

Lemma whole_below_spec (B : Z) (v : Q) :
  whole_below B (Some v) = true ->
  exists z, (v == inject_Z z)%Q /\ (Z.abs z <= B)%Z.
Proof.
  unfold whole_below. rewrite andb_true_iff, Z.eqb_eq, Z.leb_le.
  intros [Hd Hn]. exists (Qnum (Qred v)). split; auto.
  rewrite <- (Qred_correct v) at 1.
  destruct (Qred v) as [n d]. simpl in *.
  injection Hd as ->. reflexivity.
Qed.

Lemma rnd_whole (x : Q) (z : Z) :
  (x == inject_Z z)%Q -> (Z.abs z < 2 ^ 53)%Z -> (rnd x == inject_Z z)%Q.
Proof.
  intros H Hz. rewrite (rnd_proper x (inject_Z z) H). now apply rnd_int.
Qed.

Lemma whole_sum (B : Z) (l : list float) :
  forallb (whole_below B) l = true ->
  exists z, (nansum l == inject_Z z)%Q
            /\ (Z.abs z <= Z.of_nat (observed l) * B)%Z.
Proof.
  induction l as [|[v|] l IH]; cbn [forallb observed nansum].
  - exists 0%Z. split; [reflexivity|simpl; lia].
  - rewrite andb_true_iff. intros [Hv Hl].
    destruct (IH Hl) as [z [E Hz]].
    destruct (whole_below_spec B v Hv) as [y [Ey Hy]].
    exists (y + z)%Z. split.
    + rewrite E, Ey, inject_Z_plus. reflexivity.
    + rewrite Nat2Z.inj_succ. nia.
  - exact IH.
Qed.

Lemma kahan_add_exact (v s c : Q) (V S : Z) :
  (c == 0)%Q -> (s == inject_Z S)%Q -> (v == inject_Z V)%Q ->
  (Z.abs V < 2 ^ 53)%Z -> (Z.abs (S + V) < 2 ^ 53)%Z ->
  (fst (kahan_add v s c) == inject_Z (S + V))%Q
  /\ (snd (kahan_add v s c) == 0)%Q.
Proof.
  intros Hc Hs Hv HV HS. unfold kahan_add, fsub, fadd. simpl.
  assert (Y : (rnd (v - c) == inject_Z V)%Q).
  { apply rnd_whole; auto. rewrite Hc, Hv. unfold Qminus.
    change (- 0)%Q with 0%Q. apply Qplus_0_r. }
  assert (T : (rnd (s + rnd (v - c)) == inject_Z (S + V))%Q).
  { apply rnd_whole; auto. rewrite Y, Hs, inject_Z_plus. reflexivity. }
  split; auto.
  assert (D : (rnd (rnd (s + rnd (v - c)) - s) == inject_Z V)%Q).
  { apply rnd_whole; auto. rewrite T, Hs, inject_Z_plus. unfold Qminus.
    rewrite (Qplus_comm (inject_Z S)), <- Qplus_assoc, Qplus_opp_r.
    apply Qplus_0_r. }
  change 0%Q with (inject_Z 0). apply rnd_whole; [|simpl; lia].
  rewrite D, Y. apply Qplus_opp_r.
Qed.

Section Whole.

Variable B : Z.
Variable w : nat.
Hypothesis bounded : (Z.of_nat w * B < 2 ^ 53)%Z.

Lemma whole_window_sum (l : list float) :
  whole_window B w l ->
  exists z, (nansum l == inject_Z z)%Q /\ (Z.abs z < 2 ^ 53)%Z.
Proof.
  intros [H1 H2]. destruct (whole_sum B l H1) as [z [E Hz]].
  exists z. split; auto. pose proof (observed_le l).
  destruct (Z.le_gt_cases 0 B); nia.
Qed.

Lemma whole_window_value (l : list float) (v : Q) :
  whole_window B w l -> In (Some v) l ->
  exists z, (v == inject_Z z)%Q /\ (Z.abs z < 2 ^ 53)%Z.
Proof.
  intros [H1 H2] Hin. rewrite forallb_forall in H1.
  destruct (whole_below_spec B v (H1 _ Hin)) as [z [E Hz]].
  exists z. split; auto.
  assert (0 < List.length l)%nat by (destruct l; [contradiction|simpl; lia]).
  nia.
Qed.

Lemma whole_window_tail (val : float) (l : list float) :
  whole_window B w (val :: l) -> whole_window B w l.
Proof.
  unfold whole_window. simpl. rewrite andb_true_iff. intros [[_ H] H']. split; auto. lia.
Qed.

Lemma whole_window_init (l : list float) (val : float) :
  whole_window B w (l ++ [val]) -> whole_window B w l.
Proof.
  unfold whole_window. rewrite forallb_app, andb_true_iff, length_app.
  intros [[H _] H']. split; auto. lia.
Qed.

Lemma errorless_idle (pv : float) : errorless (mkMean 0 0 0 0 0 0 pv) [].
Proof.
  split; [apply tallied_idle|]. simpl. repeat split; reflexivity.
Qed.

Lemma errorless_add (st : MeanState) (l : list float) (val : float) :
  errorless st l -> whole_window B w (l ++ [val]) -> errorless (add_mean val st) (l ++ [val]).
Proof.
  intros [T [Hs [Ha Hr]]] Hf. split; [now apply tallied_add|].
  destruct val as [v|]; cbn [add_mean].
  2:{ rewrite nansum_app. cbn [nansum]. rewrite Qplus_0_r. auto. }
  destruct (whole_window_sum l (whole_window_init l (Some v) Hf)) as [S [ES HS]].
  destruct (whole_window_value (l ++ [Some v]) v Hf) as [V [EV HV]].
  { apply in_or_app. right. now left. }
  destruct (whole_window_sum _ Hf) as [S' [ES' HS']].
  assert (E : S' = (S + V)%Z).
  { rewrite nansum_app in ES'. cbn [nansum] in ES'.
    rewrite Qplus_0_r, ES, EV in ES'.
    rewrite <- inject_Z_plus in ES'. symmetry. now apply inject_Z_injective. }
  subst S'.
  destruct (kahan_add_exact v (sum_x st) (compensation_add st) V S) as [K1 K2];
    auto; [now rewrite Hs|].
  unfold add_mean. destruct (kahan_add v (sum_x st) (compensation_add st)) as [t c].
  cbn [fst snd] in K1, K2. cbn [sum_x compensation_add compensation_remove].
  split; [|split; auto].
  rewrite K1, nansum_app. cbn [nansum]. rewrite Qplus_0_r, ES, EV, inject_Z_plus.
  reflexivity.
Qed.

Lemma errorless_remove (st : MeanState) (l : list float) (val : float) :
  errorless st (val :: l) -> whole_window B w (val :: l) -> errorless (remove_mean val st) l.
Proof.
  intros [T [Hs [Ha Hr]]] Hf. split; [now apply tallied_remove|].
  destruct val as [v|]; cbn [remove_mean nansum] in *; [|auto].
  destruct (whole_window_sum l (whole_window_tail (Some v) l Hf)) as [S [ES HS]].
  destruct (whole_window_value (Some v :: l) v Hf) as [V [EV HV]]; [now left|].
  destruct (kahan_add_exact (- v) (sum_x st) (compensation_remove st)
              (- V) (V + S)) as [K1 K2]; auto.
  - rewrite Hs, EV, ES, inject_Z_plus. reflexivity.
  - rewrite EV, inject_Z_opp. reflexivity.
  - lia.
  - replace (V + S + - V)%Z with S by lia. exact HS.
  - unfold remove_mean.
    destruct (kahan_add (- v) (sum_x st) (compensation_remove st)) as [t c].
    cbn [fst snd] in K1, K2. cbn [sum_x compensation_add compensation_remove].
    split; [|split; auto].
    rewrite K1, ES. replace (V + S + - V)%Z with S by lia. reflexivity.
Qed.

End Whole.

(** ** The value of the mean *)

Lemma negatives_cons (v : Q) (l : list float) :
  negatives (Some v :: l)
  = ((if signbit v then 1 else 0) + negatives l)%nat.
Proof. unfold negatives. simpl. destruct (signbit v); reflexivity. Qed.

Lemma negatives_le (l : list float) : (negatives l <= observed l)%nat.
Proof.
  induction l as [|[v|] l IH]; auto.
  rewrite negatives_cons. simpl. destruct (signbit v); lia.
Qed.

Lemma signbit_false (v : Q) : signbit v = false -> (0 <= v)%Q.
Proof. unfold signbit, Qle. rewrite Z.ltb_ge. simpl. lia. Qed.

Lemma signbit_true (v : Q) : signbit v = true -> (v <= 0)%Q.
Proof. unfold signbit, Qle. rewrite Z.ltb_lt. simpl. lia. Qed.

Lemma nansum_nonneg (l : list float) : negatives l = 0%nat -> (0 <= nansum l)%Q.
Proof.
  induction l as [|[v|] l IH]; simpl; auto; [intros _; apply Qle_refl|].
  rewrite negatives_cons. destruct (signbit v) eqn:E; [discriminate|].
  intros H. change 0%Q with (0 + 0)%Q. apply Qplus_le_compat; auto.
  now apply signbit_false.
Qed.

Lemma nansum_nonpos (l : list float) :
  negatives l = observed l -> (nansum l <= 0)%Q.
Proof.
  induction l as [|[v|] l IH]; simpl; auto; [intros _; apply Qle_refl|].
  rewrite negatives_cons. pose proof (negatives_le l).
  destruct (signbit v) eqn:E; [|lia].
  intros H'. change 0%Q with (0 + 0)%Q. apply Qplus_le_compat.
  - now apply signbit_true.
  - apply IH. lia.
Qed.

Lemma nansum_const (pv : Q) (l : list float) :
  Forall (fun u => (u == pv)%Q) (somes l) ->
  (nansum l == inject_Z (Z.of_nat (observed l)) * pv)%Q.
Proof.
  induction l as [|[v|] l IH]; cbn [somes nansum observed]; intros H.
  - rewrite Qmult_0_l. reflexivity.
  - inversion H as [|? ? Hv Hl]; subst. rewrite (IH Hl), Hv.
    rewrite Nat2Z.inj_succ. unfold Z.succ. rewrite inject_Z_plus.
    rewrite Qmult_plus_distr_l, Qmult_1_l. apply Qplus_comm.
  - auto.
Qed.

Lemma in_somes (v : Q) (l : list float) : In v (somes l) -> In (Some v) l.
Proof.
  induction l as [|[u|] l IH]; simpl; auto.
  intros [->|H]; auto.
Qed.

Lemma quotient_sign (x : Q) (n : Z) :
  (0 < n)%Z ->
  ((0 <= x)%Q -> (0 <= x / inject_Z n)%Q)
  /\ ((x <= 0)%Q -> (x / inject_Z n <= 0)%Q).
Proof.
  intros Hn.
  assert (P : (0 < / inject_Z n)%Q).
  { apply Qinv_lt_0_compat. unfold Qlt. simpl. lia. }
  split; intros H; unfold Qdiv.
  - apply Qmult_le_0_compat; auto. now apply Qlt_le_weak.
  - rewrite <- (Qmult_0_l (/ inject_Z n)).
    apply Qmult_le_compat_r; auto. now apply Qlt_le_weak.
Qed.

Lemma calc_mean_missing (w : nat) (st : MeanState) (l : list float) :
  tallied st l -> (observed l < w)%nat \/ observed l = 0%nat ->
  calc_mean (Z.of_nat w) st = None.
Proof.
  intros [H _] Hw. unfold calc_mean. rewrite H.
  destruct (Z.leb_spec (Z.of_nat w) (Z.of_nat (observed l))); auto.
  destruct (Z.ltb_spec 0 (Z.of_nat (observed l))); auto. lia.
Qed.

Lemma calc_mean_exact (B : Z) (w : nat) (minp : Z) (st : MeanState)
    (l : list float) :
  (Z.of_nat w * B < 2 ^ 53)%Z ->
  errorless st l -> whole_window B w l ->
  (0 < observed l)%nat -> (minp <= Z.of_nat (observed l))%Z ->
  exists m,
    calc_mean minp st = Some m
    /\ (m == rnd (nansum l / inject_Z (Z.of_nat (observed l))))%Q.
Proof.
  intros HB [[H1 [H2 [H3 H4]]] [Hs _]] Hf Hpos Hmin. unfold calc_mean.
  rewrite H1.
  destruct (Z.leb_spec minp (Z.of_nat (observed l))); [|lia].
  destruct (Z.ltb_spec 0 (Z.of_nat (observed l))); [|lia].
  cbn [andb].
  assert (Hq : fdiv (sum_x st) (inject_Z (Z.of_nat (observed l)))
               = rnd (nansum l / inject_Z (Z.of_nat (observed l)))).
  { unfold fdiv. apply rnd_proper. now rewrite Hs. }
  rewrite Hq.
  destruct (quotient_sign (nansum l) (Z.of_nat (observed l))) as [Q1 Q2]; [lia|].
  destruct (Z.leb_spec (Z.of_nat (observed l)) (num_consecutive_same_value st))
    as [Hc|Hc].
  - rewrite firstn_all2 in H4 by (rewrite length_rev, somes_length; lia).
    rewrite Forall_forall in H4.
    destruct (somes l) as [|u t] eqn:Eu.
    { pose proof (somes_length l) as L. rewrite Eu in L. simpl in L. lia. }
    assert (Hu : In (Some u) l) by (apply in_somes; rewrite Eu; now left).
    pose proof (H4 u) as Pu. rewrite <- in_rev in Pu. specialize (Pu (or_introl eq_refl)).
    destruct (prev_value st) as [pv|]; [|discriminate]. simpl in Pu.
    apply Qeq_bool_iff in Pu. exists pv. split; auto.
    destruct (whole_window_value B w HB l u Hf Hu) as [z [Ez Hz]].
    assert (Hall : Forall (fun x => (x == pv)%Q) (somes l)).
    { rewrite Eu. apply Forall_forall. intros x Hx.
      specialize (H4 x). rewrite <- in_rev in H4. specialize (H4 Hx).
      simpl in H4. now apply Qeq_bool_iff in H4. }
    rewrite (rnd_proper _ pv).
    + symmetry. rewrite (rnd_proper pv (inject_Z z)) by (now rewrite <- Pu).
      rewrite rnd_int by auto. now rewrite <- Ez.
    + rewrite (nansum_const pv l Hall). unfold Qdiv.
      rewrite (Qmult_comm (inject_Z _)), <- Qmult_assoc, Qmult_inv_r.
      * apply Qmult_1_r.
      * unfold Qeq. simpl. lia.
  - exists (rnd (nansum l / inject_Z (Z.of_nat (observed l)))).
    split; [|reflexivity].
    destruct (Z.eqb_spec (neg_ct st) 0) as [N0|N0]; cbn [andb].
    + assert (P : (0 <= rnd (nansum l / inject_Z (Z.of_nat (observed l))))%Q).
      { apply rnd_nonneg, Q1, nansum_nonneg. lia. }
      apply Qle_bool_iff in P. rewrite P, N0. cbn [negb].
      destruct (Z.eqb_spec 0 (Z.of_nat (observed l))); [lia|]. reflexivity.
    + destruct (Z.eqb_spec (neg_ct st) (Z.of_nat (observed l))) as [N1|N1];
        cbn [andb]; auto.
      assert (P : (rnd (nansum l / inject_Z (Z.of_nat (observed l))) <= 0)%Q).
      { apply rnd_nonpos, Q2, nansum_nonpos. lia. }
      apply Qle_bool_iff in P. rewrite P. reflexivity.
Qed.

(** Row [j] is missing when its window holds fewer than [w] values, or
    none. *)
Lemma rolling_mean_missing (w : nat) (xs : list float) (j : nat) :
  (j < List.length xs)%nat ->
  (observed (window w xs j) < w)%nat \/ observed (window w xs j) = 0%nat ->
  nth_error (rolling_mean w xs) j = Some None.
Proof.
  intros Hj Hw. rewrite nth_error_rolling_mean by auto. f_equal.
  apply calc_mean_missing with (l := window w xs j); auto.
  apply (mean_state_window xs w tallied (fun _ => True)); auto.
  - intros. apply tallied_idle.
  - intros. now apply tallied_add.
  - intros. now apply tallied_remove.
Qed.

Lemma in_slice (A : Type) (s e : nat) (l : list A) (x : A) :
  In x (slice s e l) -> In x l.
Proof.
  intros H. apply In_nth_error in H. destruct H as [k H].
  rewrite nth_error_slice in H. destruct (k <? e - s)%nat; [|discriminate].
  eapply nth_error_In; eauto.
Qed.

Lemma whole_window_slice (B : Z) (w : nat) (xs : list float) (a b : nat) :
  forallb (whole_below B) xs = true -> (b - a <= w)%nat ->
  whole_window B w (slice a b xs).
Proof.
  intros H Hw. split.
  - rewrite forallb_forall in *. intros x Hx. apply H.
    eapply in_slice; eauto.
  - pose proof (slice_length float a b xs). lia.
Qed.

(** A column of whole numbers: the mean of a full window is the double
    nearest to the exact mean. *)
Lemma rolling_mean_exact (B : Z) (w : nat) (xs : list float) (j : nat) :
  (Z.of_nat w * B < 2 ^ 53)%Z ->
  forallb (whole_below B) xs = true ->
  (j < List.length xs)%nat ->
  (0 < w)%nat -> (w <= observed (window w xs j))%nat ->
  exists m,
    nth_error (rolling_mean w xs) j = Some (Some m)
    /\ (m == rnd (nansum (window w xs j) / inject_Z (Z.of_nat w)))%Q.
Proof.
  intros HB Hx Hj Hw Ho. rewrite nth_error_rolling_mean by auto.
  assert (E : observed (window w xs j) = w).
  { pose proof (observed_le (window w xs j)).
    pose proof (window_length w xs j). lia. }
  destruct (calc_mean_exact B w (Z.of_nat w) (mean_state xs w j) (window w xs j))
    as [m [H1 H2]]; auto; try lia.
  - apply (mean_state_window xs w errorless (whole_window B w)).
    + intros. now apply whole_window_slice.
    + intros. apply errorless_idle.
    + intros. now apply (errorless_add B w HB).
    + intros. now apply (errorless_remove B w HB).
  - unfold window. apply whole_window_slice; auto.
    pose proof (window_bounds w j). lia.
  - exists m. rewrite H1. split; auto. now rewrite E in H2.
Qed.

(** ** The mean of a group *)

Lemma group_mean_fold (B : Z) (w : nat) (l : list float) :
  (Z.of_nat w * B < 2 ^ 53)%Z ->
  forall (pre : list float) (a : Z * (Q * Q)),
    whole_window B w (pre ++ l) ->
    fst a = Z.of_nat (observed pre) ->
    (fst (snd a) == nansum pre)%Q -> (snd (snd a) == 0)%Q ->
    let acc := fold_left (fun (a : Z * (Q * Q)) val =>
                 match val with
                 | None => a
                 | Some v => (fst a + 1, kahan_add v (fst (snd a)) (snd (snd a)))%Z
                 end) l a in
    fst acc = Z.of_nat (observed (pre ++ l))
    /\ (fst (snd acc) == nansum (pre ++ l))%Q.
Proof.
  intros HB. induction l as [|val l IH]; intros pre a Hf H1 H2 H3; cbn [fold_left].
  - rewrite app_nil_r. auto.
  - replace (pre ++ val :: l) with ((pre ++ [val]) ++ l) in *
      by (rewrite <- app_assoc; reflexivity).
    assert (Hf' : whole_window B w (pre ++ [val])).
    { destruct Hf as [F1 F2]. rewrite forallb_app, andb_true_iff in F1.
      rewrite length_app in F2. split; [tauto|lia]. }
    apply IH; auto; destruct val as [v|].
    + cbn [fst]. rewrite observed_app, H1. simpl. lia.
    + rewrite observed_app. simpl. now rewrite Nat.add_0_r.
    + cbn [snd].
      destruct (whole_window_sum B w HB pre (whole_window_init B w pre (Some v) Hf')) as [S [ES HS]].
      destruct (whole_window_value B w HB (pre ++ [Some v]) v Hf') as [V [EV HV]].
      { apply in_or_app. right. now left. }
      destruct (whole_window_sum B w HB _ Hf') as [S' [ES' HS']].
      assert (E : S' = (S + V)%Z).
      { rewrite nansum_app in ES'. cbn [nansum] in ES'.
        rewrite Qplus_0_r, ES, EV in ES'.
        rewrite <- inject_Z_plus in ES'. symmetry. now apply inject_Z_injective. }
      subst S'.
      destruct (kahan_add_exact v (fst (snd a)) (snd (snd a)) V S) as [K1 _];
        auto; [now rewrite H2|].
      rewrite K1, nansum_app. cbn [nansum].
      rewrite Qplus_0_r, ES, EV, inject_Z_plus. reflexivity.
    + rewrite nansum_app. cbn [nansum]. now rewrite Qplus_0_r.
    + cbn [snd].
      destruct (whole_window_sum B w HB pre (whole_window_init B w pre (Some v) Hf')) as [S [ES HS]].
      destruct (whole_window_value B w HB (pre ++ [Some v]) v Hf') as [V [EV HV]].
      { apply in_or_app. right. now left. }
      destruct (whole_window_sum B w HB _ Hf') as [S' [ES' HS']].
      assert (E : S' = (S + V)%Z).
      { rewrite nansum_app in ES'. cbn [nansum] in ES'.
        rewrite Qplus_0_r, ES, EV in ES'.
        rewrite <- inject_Z_plus in ES'. symmetry. now apply inject_Z_injective. }
      subst S'.
      destruct (kahan_add_exact v (fst (snd a)) (snd (snd a)) V S) as [_ K2];
        auto. now rewrite H2.
    + auto.
Qed.

Lemma group_mean_count (l : list float) :
  forall (a : Z * (Q * Q)),
    fst (fold_left (fun (a : Z * (Q * Q)) val =>
                 match val with
                 | None => a
                 | Some v => (fst a + 1, kahan_add v (fst (snd a)) (snd (snd a)))%Z
                 end) l a)
    = (fst a + Z.of_nat (observed l))%Z.
Proof.
  induction l as [|[v|] l IH]; intros a; cbn [fold_left observed].
  - simpl. lia.
  - rewrite IH. cbn [fst]. lia.
  - apply IH.
Qed.

(** A group without an observation has no mean. *)
Lemma group_mean_none (l : list float) :
  group_mean l = None <-> observed l = 0%nat.
Proof.
  unfold group_mean. rewrite group_mean_count. cbn [fst].
  destruct (Z.eqb_spec (0 + Z.of_nat (observed l)) 0); split; auto;
    try discriminate; lia.
Qed.

(** The mean of whole numbers is the double nearest to the exact mean. *)
Lemma group_mean_exact (B : Z) (l : list float) :
  (Z.of_nat (List.length l) * B < 2 ^ 53)%Z ->
  forallb (whole_below B) l = true ->
  (0 < observed l)%nat ->
  group_mean l
  = Some (rnd (nansum l / inject_Z (Z.of_nat (observed l)))).
Proof.
  intros HB Hl Hpos.
  destruct (group_mean_fold B (List.length l) l HB [] (0%Z, (0%Q, 0%Q)))
    as [G1 G2]; try reflexivity.
  { split; auto. }
  cbn [app] in G1, G2. unfold group_mean. rewrite G1.
  destruct (Z.eqb_spec (Z.of_nat (observed l)) 0); [lia|].
  f_equal. unfold fdiv. apply rnd_proper. now rewrite G2.
Qed.

(** ** The arithmetic on familiar numbers *)

(** The doubles written 0.1 and 0.30000000000000004, and two ties. *)
Lemma rnd_familiar :
  rnd (1 # 10) = (3602879701896397 # 36028797018963968)%Q
  /\ fadd (rnd (1 # 10)) (rnd (2 # 10))
     = (1351079888211149 # 4503599627370496)%Q
  /\ rnd (inject_Z (2 ^ 53 + 1)) = inject_Z (2 ^ 53)
  /\ rnd (inject_Z (2 ^ 53 + 3)) = inject_Z (2 ^ 53 + 4).
Proof. vm_compute. auto. Qed.

(** The rolling mean of 0.1, 0.2 and 0.3 over three rows is the double
    written 0.19999999999999998, one step below the double nearest to
    their mean; the mean of the group of the three is the same double. *)
Lemma rolling_mean_tenths :
  rolling_mean 3 [Some (rnd (1 # 10)); Some (rnd (2 # 10)); Some (rnd (3 # 10))]
  = [None; None; Some (7205759403792793 # 36028797018963968)%Q]
  /\ group_mean [Some (rnd (1 # 10)); Some (rnd (2 # 10)); Some (rnd (3 # 10))]
     = Some (7205759403792793 # 36028797018963968)%Q
  /\ rnd (2 # 10) = (3602879701896397 # 18014398509481984)%Q.
Proof. vm_compute. auto. Qed.

(** ** The order on group keys and dates *)

Lemma str_compare_refl (s : string) : String.compare s s = Eq.
Proof. apply String_as_OT.cmp_eq. reflexivity. Qed.

Lemma str_compare_lt_trans (a b c : string) :
  String.compare a b = Lt -> String.compare b c = Lt -> String.compare a c = Lt.
Proof.
  intros H1 H2. apply String_as_OT.cmp_lt.
  apply String_as_OT.lt_trans with b; apply String_as_OT.cmp_lt; assumption.
Qed.

Lemma cmp_keys_eq (a b : list string) : cmp_keys a b = Eq -> a = b.
Proof.
  revert b. induction a as [|x a IH]; intros [|y b]; simpl; try discriminate; auto.
  destruct (String.compare x y) eqn:E; try discriminate.
  intros H. apply String.compare_eq_iff in E. subst. f_equal. auto.
Qed.

Lemma cmp_keys_refl (a : list string) : cmp_keys a a = Eq.
Proof.
  induction a as [|x a IH]; simpl; auto. now rewrite str_compare_refl.
Qed.

Lemma cmp_keys_antisym (a b : list string) :
  cmp_keys a b = CompOpp (cmp_keys b a).
Proof.
  revert b. induction a as [|x a IH]; intros [|y b]; simpl; auto.
  rewrite (String.compare_antisym x y).
  destruct (String.compare y x); simpl; auto.
Qed.

Lemma cmp_keys_lt_trans (a b c : list string) :
  cmp_keys a b = Lt -> cmp_keys b c = Lt -> cmp_keys a c = Lt.
Proof.
  revert b c. induction a as [|x a IH]; intros [|y b] [|z c]; simpl;
    try discriminate; auto.
  destruct (String.compare x y) eqn:E1; try discriminate;
    destruct (String.compare y z) eqn:E2; try discriminate; intros H1 H2.
  - apply String.compare_eq_iff in E1, E2. subst.
    rewrite str_compare_refl. eauto.
  - apply String.compare_eq_iff in E1. subst. now rewrite E2.
  - apply String.compare_eq_iff in E2. subst. now rewrite E1.
  - now rewrite (str_compare_lt_trans _ _ _ E1 E2).
Qed.

Lemma row_compare_antisym (g : list string) (a b : Row) :
  row_compare g a b = CompOpp (row_compare g b a).
Proof.
  unfold row_compare. rewrite (cmp_keys_antisym (key_of g a)).
  destruct (cmp_keys (key_of g b) (key_of g a)); simpl; auto.
  apply Z.compare_antisym.
Qed.

Lemma row_compare_lt_trans (g : list string) (a b c : Row) :
  row_compare g a b = Lt -> row_compare g b c = Lt -> row_compare g a c = Lt.
Proof.
  unfold row_compare.
  destruct (cmp_keys (key_of g a) (key_of g b)) eqn:E1; try discriminate;
    destruct (cmp_keys (key_of g b) (key_of g c)) eqn:E2; try discriminate;
    intros H1 H2.
  - apply cmp_keys_eq in E1, E2. rewrite E1, E2, cmp_keys_refl.
    change (date a < date b)%Z in H1. change (date b < date c)%Z in H2.
    change (date a < date c)%Z. lia.
  - apply cmp_keys_eq in E1. rewrite E1, E2. reflexivity.
  - apply cmp_keys_eq in E2. rewrite <- E2, E1. reflexivity.
  - now rewrite (cmp_keys_lt_trans _ _ _ E1 E2).
Qed.

Lemma row_compare_eq (g : list string) (a b : Row) :
  row_compare g a b = Eq -> key_of g a = key_of g b /\ date a = date b.
Proof.
  unfold row_compare.
  destruct (cmp_keys (key_of g a) (key_of g b)) eqn:E; try discriminate.
  intros H. split; [now apply cmp_keys_eq | now apply Z.compare_eq].
Qed.

Lemma row_compare_same (g : list string) (a b : Row) :
  key_of g a = key_of g b -> date a = date b -> row_compare g a b = Eq.
Proof.
  intros Hk Hd. unfold row_compare.
  rewrite Hk, cmp_keys_refl, Hd. apply Z.compare_refl.
Qed.

Lemma row_leb_total (g : list string) (a b : Row) :
  row_leb g a b = false -> row_leb g b a = true.
Proof.
  unfold row_leb. rewrite (row_compare_antisym g b a).
  destruct (row_compare g a b); simpl; congruence.
Qed.

Lemma row_leb_trans (g : list string) (a b c : Row) :
  row_leb g a b = true -> row_leb g b c = true -> row_leb g a c = true.
Proof.
  unfold row_leb.
  destruct (row_compare g a b) eqn:E1; try discriminate;
    destruct (row_compare g b c) eqn:E2; try discriminate; intros _ _.
  - apply row_compare_eq in E1, E2. destruct E1 as [K1 D1], E2 as [K2 D2].
    rewrite row_compare_same; congruence.
  - apply row_compare_eq in E1. destruct E1 as [K1 D1].
    unfold row_compare in *. rewrite K1, D1. now rewrite E2.
  - apply row_compare_eq in E2. destruct E2 as [K2 D2].
    unfold row_compare in *. rewrite <- K2, <- D2. now rewrite E1.
  - now rewrite (row_compare_lt_trans _ _ _ _ E1 E2).
Qed.

(** Rows in order have keys in order, and within a key dates in order. *)
Lemma row_leb_key (g : list string) (a b : Row) :
  row_leb g a b = true -> cmp_keys (key_of g a) (key_of g b) <> Gt.
Proof.
  unfold row_leb, row_compare.
  destruct (cmp_keys (key_of g a) (key_of g b)); congruence.
Qed.

Lemma row_leb_date (g : list string) (a b : Row) :
  row_leb g a b = true -> key_of g a = key_of g b -> (date a <= date b)%Z.
Proof.
  unfold row_leb, row_compare. intros H K. rewrite K, cmp_keys_refl in H.
  destruct (date a ?= date b)%Z eqn:E; try discriminate.
  - apply Z.compare_eq in E. lia.
  - change (date a < date b)%Z in E. lia.
Qed.

Lemma key_between (g : list string) (a m b : Row) :
  row_leb g a m = true -> row_leb g m b = true ->
  key_of g a = key_of g b -> key_of g m = key_of g a.
Proof.
  intros H1 H2 K. apply row_leb_key in H1, H2. rewrite <- K in H2.
  rewrite (cmp_keys_antisym (key_of g m)) in H2.
  destruct (cmp_keys (key_of g a) (key_of g m)) eqn:E; simpl in *; try congruence.
  symmetry. now apply cmp_keys_eq.
Qed.

Lemma list_eqb_eq (a b : list string) : list_eqb a b = true <-> a = b.
Proof.
  revert b. induction a as [|x a IH]; intros [|y b]; simpl; split;
    try discriminate; auto; intros H.
  - apply andb_true_iff in H. destruct H as [H1 H2].
    apply String.eqb_eq in H1. apply IH in H2. congruence.
  - injection H as -> ->. rewrite String.eqb_refl. now apply IH.
Qed.

Lemma same_group_iff (g : list string) (a b : Row) :
  same_group g a b = true <-> key_of g a = key_of g b.
Proof. apply list_eqb_eq. Qed.

(** ** The sort *)

Lemma insert_row_perm (g : list string) (r : Row) (l : list Row) :
  Permutation (insert_row g r l) (r :: l).
Proof.
  induction l as [|x l IH]; simpl; auto.
  destruct (row_leb g r x); auto.
  rewrite IH. apply perm_swap.
Qed.

Lemma sort_rows_perm (g : list string) (l : list Row) :
  Permutation (sort_rows g l) l.
Proof.
  induction l as [|x l IH]; simpl; auto.
  rewrite insert_row_perm. now constructor.
Qed.

Lemma insert_row_ordered (g : list string) (r : Row) (l : list Row) :
  ordered g l -> ordered g (insert_row g r l).
Proof.
  unfold ordered. induction 1 as [|x l Hs IH Hx]; simpl.
  - repeat constructor.
  - destruct (row_leb g r x) eqn:E.
    + constructor; [now constructor|].
      constructor; auto.
      eapply Forall_impl; [|exact Hx]. intros y Hy.
      eapply row_leb_trans; eauto.
    + constructor; auto.
      eapply Permutation_Forall; [symmetry; apply insert_row_perm|].
      constructor; auto. now apply row_leb_total.
Qed.

Lemma sort_rows_ordered (g : list string) (l : list Row) :
  ordered g (sort_rows g l).
Proof.
  induction l as [|x l IH]; simpl; [constructor|].
  now apply insert_row_ordered.
Qed.

(** A change of the rows that keeps keys and dates commutes with the sort. *)
Lemma insert_row_map (g : list string) (f : Row -> Row) (r : Row) (l : list Row) :
  (forall x, cat (f x) = cat x /\ date (f x) = date x) ->
  insert_row g (f r) (map f l) = map f (insert_row g r l).
Proof.
  intros Hf. induction l as [|x l IH]; simpl; auto.
  assert (E : row_leb g (f r) (f x) = row_leb g r x).
  { unfold row_leb, row_compare, key_of.
    destruct (Hf r) as [-> ->], (Hf x) as [-> ->]. reflexivity. }
  rewrite E. destruct (row_leb g r x); simpl; auto. now rewrite IH.
Qed.

Lemma sort_rows_map (g : list string) (f : Row -> Row) (l : list Row) :
  (forall x, cat (f x) = cat x /\ date (f x) = date x) ->
  sort_rows g (map f l) = map f (sort_rows g l).
Proof.
  intros Hf. induction l as [|x l IH]; simpl; auto.
  rewrite IH. now apply insert_row_map.
Qed.

Lemma ordered_nth (g : list string) (l : list Row) (i j : nat) (a b : Row) :
  ordered g l -> (i < j)%nat ->
  nth_error l i = Some a -> nth_error l j = Some b -> row_leb g a b = true.
Proof.
  intros Hs. revert i j. induction Hs as [|x l Hs IH Hx]; intros i j Hij Ha Hb.
  - destruct i; discriminate.
  - destruct j as [|j]; [lia|]. simpl in Hb. destruct i as [|i]; simpl in Ha.
    + injection Ha as ->. rewrite Forall_forall in Hx.
      apply Hx. eapply nth_error_In; eauto.
    + apply (IH i j); auto. lia.
Qed.

(** ** The store *)

Lemma nth_error_last (h : heap) (x : Frame) :
  nth_error (h ++ [x]) (List.length h) = Some x.
Proof. rewrite nth_error_app2, Nat.sub_diag; auto. Qed.

Lemma nth_error_old (h : heap) (x : Frame) (r : ref) (f : Frame) :
  nth_error h r = Some f -> nth_error (h ++ [x]) r = Some f.
Proof.
  intros H. rewrite nth_error_app1; auto.
  apply nth_error_Some. congruence.
Qed.

Lemma update_last (h : heap) (x y : Frame) :
  update (h ++ [x]) (List.length h) y = h ++ [y].
Proof. induction h as [|a h IH]; simpl; auto. now rewrite IH. Qed.

Lemma update_length (h : heap) (r : ref) (f : Frame) :
  List.length (update h r f) = List.length h.
Proof.
  revert r. induction h as [|a h IH]; intros [|r]; simpl; auto.
Qed.

Lemma nth_error_update_same (h : heap) (r : ref) (f x : Frame) :
  nth_error h r = Some x -> nth_error (update h r f) r = Some f.
Proof.
  revert r. induction h as [|a h IH]; intros [|r]; simpl; try discriminate; auto.
Qed.

Lemma nth_error_update_other (h : heap) (r r' : ref) (f : Frame) :
  r <> r' -> nth_error (update h r f) r' = nth_error h r'.
Proof.
  revert r r'. induction h as [|a h IH]; intros [|r] [|r'] Hn; simpl; auto.
  congruence.
Qed.

Lemma setitem_last (h : heap) (x : Frame) (c : string) (vs : list float) :
  setitem (List.length h) c vs (h ++ [x]) = Ok (tt, h ++ [set_column c vs x]).
Proof.
  unfold setitem, bindM, get, put.
  now rewrite nth_error_last, update_last.
Qed.

Lemma forM_setitem_last (A : Type) (name : A -> string) (vals : A -> list float)
    (l : list A) (h : heap) (x : Frame) :
  forM_ l (fun a => setitem (List.length h) (name a) (vals a)) (h ++ [x])
  = Ok (tt, h ++ [assign_all x (map (fun a => (name a, vals a)) l)]).
Proof.
  revert x. induction l as [|a l IH]; intros x; simpl; auto.
  unfold bindM. rewrite setitem_last. apply IH.
Qed.

Lemma forM_rolling_last (p : string) (xs : list float) (ws : list Z)
    (h : heap) (x : Frame) :
  forM_ ws (fun w => vs <~ lift (rolling w xs) ;;
                     setitem (List.length h) (roll_name p w) vs) (h ++ [x])
  = if existsb (fun w => (w <? 0)%Z) ws then Raise "ValueError"
    else Ok (tt, h ++ [assign_all x
               (map (fun w => (roll_name p w, rolling_mean (Z.to_nat w) xs)) ws)]).
Proof.
  revert x. induction ws as [|w ws IH]; intros x; simpl; auto.
  unfold bindM at 1 2. unfold lift, rolling.
  destruct (w <? 0)%Z; simpl; auto.
  rewrite setitem_last. apply IH.
Qed.

Lemma assign_all_app (f : Frame) (l1 l2 : list (string * list float)) :
  assign_all f (l1 ++ l2) = assign_all (assign_all f l1) l2.
Proof. apply fold_left_app. Qed.

(** A call of [_add_lag_rolling_features] allocates one frame and leaves
    every other object as it was. *)
Lemma run_add_lag_rolling (self : FeatureEngineer) (h : heap) (df : ref)
    (f : Frame) (g : list string) (v p : string) :
  nth_error h df = Some f ->
  _add_lag_rolling_features self df g v p h =
    match lag_rolling_frame self f g v p with
    | Ok out => Ok (List.length h, h ++ [out])
    | Raise e => Raise e
    end.
Proof.
  intros Hf. unfold _add_lag_rolling_features, lag_rolling_frame, lag_rolling_ready.
  unfold bindM at 1. unfold get. rewrite Hf.
  unfold bindM at 1. unfold lift at 1. unfold sort_values.
  destruct (has_cat_columns g f) eqn:Hc; [|reflexivity].
  cbv beta iota. unfold bindM at 1. unfold alloc.
  unfold bindM at 1. unfold lift at 1. unfold groupby_select, has_cat_columns.
  cbn [cat_columns num_columns rows negb].
  destruct (no_group_keys g (sort_rows g (rows f))); [reflexivity|].
  unfold has_cat_columns in Hc. rewrite Hc.
  destruct (mem v (num_columns f)) eqn:Hv; [|reflexivity].
  cbn [andb negb]. cbv beta iota. unfold bindM at 1.
  rewrite (forM_setitem_last Z (lag_name p)
             (fun k => groupby_shift g v k (sort_rows g (rows f)))).
  cbv beta iota. unfold bindM at 1. rewrite forM_rolling_last.
  destruct (existsb (fun w => (w <? 0)%Z) (rolling_windows self)); auto.
  unfold retM. simpl. rewrite assign_all_app. reflexivity.
Qed.

(** ** Feature names *)

Lemma append_inj (p a b : string) : (p ++ a = p ++ b)%string -> a = b.
Proof.
  induction p as [|c p IH]; simpl; auto. intros H. injection H. auto.
Qed.

Lemma str_int_inj (a b : Z) : str_int a = str_int b -> a = b.
Proof.
  unfold str_int. intros H.
  assert (N : forall z, Z.to_int z <> Decimal.Pos Decimal.Nil
                        /\ Z.to_int z <> Decimal.Neg Decimal.Nil).
  { intros [|q|q]; simpl; split; try discriminate; intros E; injection E;
      apply DecimalPos.Unsigned.to_uint_nonnil. }
  apply DecimalZ.to_int_inj.
  assert (E : Some (Z.to_int a) = Some (Z.to_int b)).
  { rewrite <- (NilZero.isi (Z.to_int a)), <- (NilZero.isi (Z.to_int b));
      try apply N. now rewrite H. }
  now injection E.
Qed.

Lemma lag_name_inj (p : string) (a b : Z) :
  lag_name p a = lag_name p b -> a = b.
Proof.
  unfold lag_name. intros H. apply append_inj in H.
  apply (append_inj "_lag_") in H. now apply str_int_inj.
Qed.

Lemma roll_name_inj (p : string) (a b : Z) :
  roll_name p a = roll_name p b -> a = b.
Proof.
  unfold roll_name. intros H. apply append_inj in H.
  apply (append_inj "_roll_") in H. now apply str_int_inj.
Qed.

Lemma lag_name_not_roll (p : string) (a b : Z) :
  lag_name p a <> roll_name p b.
Proof.
  unfold lag_name, roll_name. intros H. apply append_inj in H.
  simpl in H. discriminate.
Qed.

(** ** Indexed maps and column assignment *)

Lemma imap_from_length (A B : Type) (f : nat -> A -> B) (i : nat) (l : list A) :
  List.length (imap_from f i l) = List.length l.
Proof. revert i. induction l as [|x l IH]; intros i; simpl; auto. Qed.

Lemma nth_error_imap_from (A B : Type) (f : nat -> A -> B) (i : nat)
    (l : list A) (j : nat) :
  nth_error (imap_from f i l) j = option_map (f (i + j)%nat) (nth_error l j).
Proof.
  revert i j. induction l as [|x l IH]; intros i [|j]; simpl; auto.
  - now rewrite Nat.add_0_r.
  - rewrite IH. now rewrite Nat.add_succ_r.
Qed.

Lemma nth_error_imap (A B : Type) (f : nat -> A -> B) (l : list A) (j : nat) :
  nth_error (imap f l) j = option_map (f j) (nth_error l j).
Proof. unfold imap. now rewrite nth_error_imap_from. Qed.

Lemma imap_length (A B : Type) (f : nat -> A -> B) (l : list A) :
  List.length (imap f l) = List.length l.
Proof. apply imap_from_length. Qed.

Lemma set_nums_length (c : string) (vs : list float) (rs : list Row) :
  List.length (set_nums c vs rs) = List.length rs.
Proof.
  revert rs. induction vs as [|v vs IH]; intros [|r rs]; simpl; auto.
Qed.

Lemma nth_error_set_nums (c : string) (vs : list float) (rs : list Row) (j : nat) :
  nth_error (set_nums c vs rs) j =
  match nth_error rs j with
  | Some r => Some (match nth_error vs j with
                    | Some v => set_num c v r
                    | None => r
                    end)
  | None => None
  end.
Proof.
  revert rs j. induction vs as [|v vs IH]; intros [|r rs] [|j]; simpl; auto.
  all: try (destruct (nth_error rs j); auto; destruct j; reflexivity).
Qed.

Lemma assign_all_length (l : list (string * list float)) (f : Frame) :
  List.length (rows (assign_all f l)) = List.length (rows f).
Proof.
  revert f. induction l as [|a l IH]; intros f; simpl; auto.
  unfold assign_all in *. simpl. rewrite IH. simpl. apply set_nums_length.
Qed.

(** Assignments keep the object columns and the dates of every row, and
    the numeric columns they do not name. *)
Lemma assign_all_rows (l : list (string * list float)) (f : Frame) (j : nat)
    (r0 : Row) :
  nth_error (rows f) j = Some r0 ->
  exists r, nth_error (rows (assign_all f l)) j = Some r
            /\ cat r = cat r0 /\ date r = date r0
            /\ forall c, (forall a, In a l -> fst a <> c) -> num r c = num r0 c.
Proof.
  revert f r0. induction l as [|a l IH]; intros f r0 H.
  - exists r0. simpl. auto.
  - unfold assign_all. simpl. fold (assign_all (set_column (fst a) (snd a) f) l).
    destruct (IH (set_column (fst a) (snd a) f)
                 (match nth_error (snd a) j with
                  | Some v => set_num (fst a) v r0
                  | None => r0
                  end)) as [r [H1 [H2 [H3 H4]]]].
    { simpl. rewrite nth_error_set_nums, H. reflexivity. }
    exists r. split; [exact H1|].
    destruct (nth_error (snd a) j); simpl in *; repeat split; auto;
      intros c Hc; rewrite H4 by (intros; apply Hc; auto); auto.
    simpl. destruct (String.eqb c (fst a)) eqn:E; auto.
    apply String.eqb_eq in E. exfalso. apply (Hc a); auto.
Qed.

(** A column that is only ever assigned the array [vs] holds [vs]. *)
Lemma assign_all_value (c : string) (vs : list float)
    (l : list (string * list float)) (f : Frame) :
  (forall a, In a l -> fst a = c -> snd a = vs) ->
  List.length vs = List.length (rows f) ->
  In (c, vs) l
  \/ (forall j r, nth_error (rows f) j = Some r -> nth_error vs j = Some (num r c)) ->
  forall j r, nth_error (rows (assign_all f l)) j = Some r ->
              nth_error vs j = Some (num r c).
Proof.
  revert f. induction l as [|a l IH]; intros f Hsame Hlen Hin.
  - destruct Hin as [[]|Hin]. exact Hin.
  - unfold assign_all. simpl. fold (assign_all (set_column (fst a) (snd a) f) l).
    apply IH.
    + intros; apply Hsame; simpl; auto.
    + simpl. now rewrite set_nums_length.
    + destruct (String.eqb (fst a) c) eqn:E.
      * apply String.eqb_eq in E. right. intros j r. simpl.
        rewrite nth_error_set_nums.
        destruct (nth_error (rows f) j) as [r0|] eqn:Hr; [|discriminate].
        rewrite (Hsame a (or_introl eq_refl) E).
        destruct (nth_error vs j) as [v|] eqn:Hv.
        -- intros [= <-]. simpl. rewrite E, String.eqb_refl. reflexivity.
        -- apply nth_error_None in Hv.
           assert (j < List.length (rows f))%nat
             by (apply nth_error_Some; congruence). lia.
      * apply String.eqb_neq in E.
        destruct Hin as [[Ha|Hin]|Hin].
        -- subst a. simpl in E. congruence.
        -- now left.
        -- right. intros j r. simpl. rewrite nth_error_set_nums.
           destruct (nth_error (rows f) j) as [r0|] eqn:Hr; [|discriminate].
           specialize (Hin j r0 Hr).
           destruct (nth_error (snd a) j); intros [= <-]; simpl; auto.
           destruct (String.eqb c (fst a)) eqn:E'; auto.
           apply String.eqb_eq in E'. congruence.
Qed.

(** ** Group-wise shift *)

Lemma groupby_shift_length (g : list string) (c : string) (k : Z) (rs : list Row) :
  List.length (groupby_shift g c k rs) = List.length rs.
Proof. apply imap_length. Qed.

Lemma filter_rank (A : Type) (p : A -> bool) (l : list A) (i : nat) (x : A) :
  nth_error l i = Some x -> p x = true ->
  nth_error (filter p l) (List.length (filter p (firstn i l))) = Some x.
Proof.
  revert i. induction l as [|y l IH]; intros [|i]; simpl; try discriminate.
  - intros [= ->] ->. reflexivity.
  - intros H Hp. destruct (p y); simpl; auto.
Qed.

Lemma same_group_refl (g : list string) (r : Row) : same_group g r r = true.
Proof. now apply same_group_iff. Qed.

Lemma group_rank_spec (g : list string) (rs : list Row) (j : nat) (r : Row) :
  nth_error rs j = Some r ->
  nth_error (group_of g r rs) (group_rank g rs j r) = Some r.
Proof.
  intros H. unfold group_of, group_rank.
  apply filter_rank; auto. apply same_group_refl.
Qed.




Lemma nth_error_groupby_shift (g : list string) (c : string) (k : Z)
    (rs : list Row) (j : nat) (r : Row) :
  nth_error rs j = Some r ->
  nth_error (groupby_shift g c k rs) j =
  Some (if (Z.of_nat (group_rank g rs j r) - k <? 0)%Z then None
        else match nth_error (group_of g r rs)
                             (Z.to_nat (Z.of_nat (group_rank g rs j r) - k)) with
             | Some r' => num r' c
             | None => None
             end).
Proof.
  intros H. unfold groupby_shift. rewrite nth_error_imap, H. reflexivity.
Qed.

(** What [lag_rolling_frame] returns, column by column. *)
Lemma lag_rolling_frame_rows (self : FeatureEngineer) (f out : Frame)
    (g : list string) (v p : string) :
  lag_rolling_frame self f g v p = Ok out ->
  let src := sort_rows g (rows f) in
  List.length (rows out) = List.length src
  /\ (forall j r0, nth_error src j = Some r0 ->
        exists r, nth_error (rows out) j = Some r
                  /\ cat r = cat r0 /\ date r = date r0)
  /\ (forall k, In k (lags self) ->
        forall j r, nth_error (rows out) j = Some r ->
          nth_error (groupby_shift g v k src) j = Some (num r (lag_name p k)))
  /\ (forall w, In w (rolling_windows self) ->
        forall j r, nth_error (rows out) j = Some r ->
          nth_error (rolling_mean (Z.to_nat w) (groupby_shift g v 1 src)) j
          = Some (num r (roll_name p w))).
Proof.
  unfold lag_rolling_frame.
  destruct (lag_rolling_ready self f g v) as [[]|]; [|discriminate].
  simpl. intros [= <-]. cbv zeta.
  set (src := sort_rows g (rows f)).
  set (base := mkFrame (cat_columns f) (num_columns f) src).
  set (l := lag_assignments self g v p src ++ roll_assignments self g v p src).
  assert (Hl : forall a, In a l ->
             (exists k, In k (lags self)
                        /\ a = (lag_name p k, groupby_shift g v k src))
             \/ (exists w, In w (rolling_windows self)
                           /\ a = (roll_name p w,
                                   rolling_mean (Z.to_nat w)
                                     (groupby_shift g v 1 src)))).
  { intros a Ha. apply in_app_or in Ha. destruct Ha as [Ha|Ha];
      apply in_map_iff in Ha; destruct Ha as [x [<- Hx]]; eauto. }
  repeat split.
  - apply assign_all_length.
  - intros j r0 H. destruct (@assign_all_rows l base j r0 H) as [r [H1 [H2 [H3 _]]]].
    eauto.
  - intros k Hk. apply assign_all_value.
    + intros a Ha E. destruct (Hl a Ha) as [[k' [_ ->]]|[w [_ ->]]]; simpl in *.
      * apply lag_name_inj in E. now subst.
      * symmetry in E. now apply lag_name_not_roll in E.
    + simpl. apply groupby_shift_length.
    + left. apply in_or_app. left.
      apply in_map_iff. exists k. auto.
  - intros w Hw. apply assign_all_value.
    + intros a Ha E. destruct (Hl a Ha) as [[k' [_ ->]]|[w' [_ ->]]]; simpl in *.
      * now apply lag_name_not_roll in E.
      * apply roll_name_inj in E. now subst.
    + simpl. rewrite rolling_mean_length.
      apply groupby_shift_length.
    + left. apply in_or_app. right.
      apply in_map_iff. exists w. auto.
Qed.

(** ** Lag features (C4) *)



(** ** Groups of a sorted frame are contiguous *)

Lemma firstn_snoc (A : Type) (l : list A) (m : nat) (a : A) :
  nth_error l m = Some a -> firstn (S m) l = firstn m l ++ [a].
Proof.
  revert m. induction l as [|x l IH]; intros [|m]; simpl; try discriminate.
  - now intros [= ->].
  - intros H. f_equal. now apply IH.
Qed.

Lemma in_firstn_nth (A : Type) (l : list A) (n : nat) (x : A) :
  In x (firstn n l) -> exists i, (i < n)%nat /\ nth_error l i = Some x.
Proof.
  intros H. apply In_nth_error in H. destruct H as [i H].
  rewrite nth_error_firstn in H.
  destruct (Nat.ltb_spec i n); [|discriminate]. eauto.
Qed.

Lemma filter_none (A : Type) (p : A -> bool) (l : list A) :
  (forall x, In x l -> p x = false) -> filter p l = [].
Proof.
  induction l as [|x l IH]; simpl; auto. intros H.
  rewrite (H x) by auto. apply IH. auto.
Qed.

Lemma same_group_sym (g : list string) (a b : Row) :
  same_group g a b = same_group g b a.
Proof.
  destruct (same_group g a b) eqn:E1, (same_group g b a) eqn:E2; auto.
  - apply same_group_iff in E1. symmetry in E1.
    apply same_group_iff in E1. congruence.
  - apply same_group_iff in E2. symmetry in E2.
    apply same_group_iff in E2. congruence.
Qed.

Lemma group_of_same_key (g : list string) (a b : Row) (l : list Row) :
  key_of g a = key_of g b -> group_of g a l = group_of g b l.
Proof.
  intros K. unfold group_of. apply filter_ext. intros x.
  unfold same_group. now rewrite K.
Qed.

Lemma group_rank_linked (g : list string) (src : list Row) (m : nat) (a r : Row) :
  nth_error src m = Some a -> same_group g a r = true ->
  group_rank g src (S m) r = S (group_rank g src m a).
Proof.
  intros Ha Hs. unfold group_rank.
  rewrite (firstn_snoc _ _ _ _ Ha). unfold group_of at 1.
  rewrite filter_app. simpl. rewrite same_group_sym, Hs.
  rewrite length_app. simpl. rewrite Nat.add_1_r. f_equal.
  fold (group_of g r (firstn m src)).
  f_equal. apply group_of_same_key. symmetry. now apply same_group_iff.
Qed.

Lemma group_rank_unlinked (g : list string) (src : list Row) (m : nat) (a r : Row) :
  ordered g src ->
  nth_error src m = Some a -> nth_error src (S m) = Some r ->
  same_group g a r = false ->
  group_rank g src (S m) r = 0%nat.
Proof.
  intros Ho Ha Hr Hs. unfold group_rank, group_of.
  rewrite filter_none; auto.
  intros x Hx. apply in_firstn_nth in Hx. destruct Hx as [i [Hi Hx]].
  destruct (same_group g r x) eqn:E; auto. exfalso.
  apply same_group_iff in E.
  assert (Hm : i = m \/ (i < m)%nat) by lia. destruct Hm as [->|Hm].
  - rewrite Ha in Hx. injection Hx as <-.
    rewrite same_group_sym in Hs.
    apply same_group_iff in E. congruence.
  - assert (K : key_of g a = key_of g x).
    { apply key_between with r.
      - eapply ordered_nth with (i := i) (j := m); eauto.
      - eapply ordered_nth with (i := m) (j := S m); eauto.
      - congruence. }
    assert (same_group g a r = true) by (apply same_group_iff; congruence).
    congruence.
Qed.

(** The one-step shift, read off the neighbouring row. *)
Lemma shift1_first (g : list string) (c : string) (src : list Row) (r : Row) :
  nth_error src 0 = Some r ->
  nth_error (groupby_shift g c 1 src) 0 = Some None.
Proof.
  intros H. rewrite (@nth_error_groupby_shift g c 1 src 0 r H). reflexivity.
Qed.

Lemma shift1_linked (g : list string) (c : string) (src : list Row) (m : nat)
    (a r : Row) :
  nth_error src m = Some a -> nth_error src (S m) = Some r ->
  same_group g a r = true ->
  nth_error (groupby_shift g c 1 src) (S m) = Some (num a c).
Proof.
  intros Ha Hr Hs. rewrite (@nth_error_groupby_shift g c 1 src (S m) r Hr).
  rewrite (group_rank_linked g src m a r Ha Hs).
  replace (Z.of_nat (S (group_rank g src m a)) - 1)%Z
    with (Z.of_nat (group_rank g src m a)) by lia.
  destruct (Z.ltb_spec (Z.of_nat (group_rank g src m a)) 0); [lia|].
  rewrite Nat2Z.id.
  rewrite <- (@group_of_same_key g a r src)
    by (now apply same_group_iff).
  now rewrite (group_rank_spec g src m a Ha).
Qed.

Lemma shift1_unlinked (g : list string) (c : string) (src : list Row) (m : nat)
    (a r : Row) :
  ordered g src ->
  nth_error src m = Some a -> nth_error src (S m) = Some r ->
  same_group g a r = false ->
  nth_error (groupby_shift g c 1 src) (S m) = Some None.
Proof.
  intros Ho Ha Hr Hs. rewrite (@nth_error_groupby_shift g c 1 src (S m) r Hr).
  now rewrite (group_rank_unlinked g src m a r Ho Ha Hr Hs).
Qed.

(** Row [j] of a sorted frame sits [group_rank] places after the first row
    of its group; the rows in between belong to the group, and the shifted
    value of the first row is missing. *)
Lemma group_start (g : list string) (c : string) (src : list Row) :
  ordered g src ->
  forall j r, nth_error src j = Some r ->
    (group_rank g src j r <= j)%nat
    /\ (forall m x, (j - group_rank g src j r <= m <= j)%nat ->
                    nth_error src m = Some x -> key_of g x = key_of g r)
    /\ nth_error (groupby_shift g c 1 src) (j - group_rank g src j r) = Some None.
Proof.
  intros Ho. induction j as [|j IH]; intros r Hr.
  - assert (E : group_rank g src 0 r = 0%nat) by reflexivity.
    rewrite E. simpl. repeat split; auto.
    + intros m x Hm Hx. assert (m = 0)%nat by lia. subst. congruence.
    + eapply shift1_first; eauto.
  - destruct (nth_error src j) as [a|] eqn:Ha.
    2:{ apply nth_error_None in Ha.
        assert (S j < List.length src)%nat by (apply nth_error_Some; congruence).
        lia. }
    destruct (IH a eq_refl) as [H1 [H2 H3]].
    destruct (same_group g a r) eqn:Hs.
    + rewrite (group_rank_linked g src j a r Ha Hs).
      assert (K : key_of g a = key_of g r) by now apply same_group_iff.
      replace (S j - S (group_rank g src j a))%nat
        with (j - group_rank g src j a)%nat by lia.
      repeat split; auto; [lia|].
      intros m x Hm Hx.
      assert (Hc : m = S j \/ (m <= j)%nat) by lia. destruct Hc as [->|Hc].
      * congruence.
      * rewrite <- K. apply (H2 m x); auto. lia.
    + rewrite (group_rank_unlinked g src j a r Ho Ha Hr Hs).
      rewrite Nat.sub_0_r. repeat split; [lia| |].
      * intros m x Hm Hx. assert (m = S j) by lia. subst. congruence.
      * eapply shift1_unlinked; eauto.
Qed.

(** ** Rolling windows *)

(** Fewer than [w] earlier rows in the group: the window reaches the first
    row of the group, whose shifted value is missing. *)
Lemma roll_missing (g : list string) (c : string) (src : list Row) (j : nat)
    (r : Row) (w : nat) :
  ordered g src -> nth_error src j = Some r ->
  (group_rank g src j r < w)%nat ->
  nth_error (rolling_mean w (groupby_shift g c 1 src)) j = Some None.
Proof.
  intros Ho Hr Hw.
  destruct (group_start g c src Ho j r Hr) as [H1 [_ H3]].
  apply rolling_mean_missing.
  - rewrite groupby_shift_length. apply nth_error_Some. congruence.
  - left. pose proof (window_length w (groupby_shift g c 1 src) j).
    assert (In None (window w (groupby_shift g c 1 src) j)).
    { apply nth_error_In with (n := (j - group_rank g src j r - (S j - w))%nat).
      rewrite nth_error_window.
      destruct (Nat.ltb_spec (j - group_rank g src j r - (S j - w))
                             (S j - (S j - w))); [|lia].
      rewrite <- H3. f_equal. lia. }
    apply observed_lt in H0. lia.
Qed.

Lemma slice_map (A B : Type) (fn : A -> B) (s e : nat) (l : list A) :
  slice s e (map fn l) = map fn (slice s e l).
Proof. unfold slice. now rewrite skipn_map, firstn_map. Qed.

Lemma slice_full_length (A : Type) (s e : nat) (l : list A) :
  (s <= e <= List.length l)%nat -> List.length (slice s e l) = (e - s)%nat.
Proof.
  intros H. unfold slice. rewrite length_firstn, length_skipn. lia.
Qed.

(** The rows of a full window: the [w] rows before row [j], all of them
    in the group of row [j], whose source values the shift has moved one
    row down. *)
Lemma roll_window_rows (g : list string) (v : string) (src : list Row)
    (w j : nat) (r0 : Row) :
  ordered g src -> nth_error src j = Some r0 ->
  (0 < w <= group_rank g src j r0)%nat ->
  window w (groupby_shift g v 1 src) j
  = map (fun x => num x v) (slice (j - w) j src).
Proof.
  intros Ho Hj Hw.
  destruct (group_start g v src Ho j r0 Hj) as [H1 [H2 _]].
  assert (Hlen : (j < List.length src)%nat) by (apply nth_error_Some; congruence).
  apply nth_error_ext. intros i.
  rewrite nth_error_window, nth_error_map, nth_error_slice.
  replace (S j - (S j - w))%nat with w by lia.
  replace (j - (j - w))%nat with w by lia.
  destruct (Nat.ltb_spec i w) as [Hi|Hi]; [|reflexivity].
  replace (S j - w + i)%nat with (S (j - w + i)) by lia.
  destruct (nth_error src (j - w + i)) as [a|] eqn:Ha.
  2:{ apply nth_error_None in Ha. lia. }
  destruct (nth_error src (S (j - w + i))) as [b|] eqn:Hb.
  2:{ apply nth_error_None in Hb. lia. }
  assert (Ka : key_of g a = key_of g r0) by (apply (H2 (j - w + i)%nat a); auto; lia).
  assert (Kb : key_of g b = key_of g r0)
    by (apply (H2 (S (j - w + i)) b); auto; lia).
  assert (Hs : same_group g a b = true) by (apply same_group_iff; congruence).
  rewrite (shift1_linked g v src (j - w + i) a b Ha Hb Hs). reflexivity.
Qed.

(** ** The mutated frame *)

Lemma mutate_keys (spare : Row -> bool) (v : string) (upd : Row -> float)
    (r : Row) :
  cat (mutate spare v upd r) = cat r /\ date (mutate spare v upd r) = date r.
Proof.
  unfold mutate. destruct (spare r); simpl; auto.
Qed.

Lemma mutate_spared (spare : Row -> bool) (v : string) (upd : Row -> float)
    (r : Row) :
  spare r = true -> mutate spare v upd r = r.
Proof. intros H. unfold mutate. now rewrite H. Qed.

Lemma same_group_cat (g : list string) (a a' b b' : Row) :
  cat a' = cat a -> cat b' = cat b -> same_group g a' b' = same_group g a b.
Proof.
  intros Ha Hb. unfold same_group, key_of. now rewrite Ha, Hb.
Qed.

Lemma filter_map_length (A B : Type) (p : B -> bool) (f : A -> B) (l : list A) :
  List.length (filter p (map f l)) = List.length (filter (fun x => p (f x)) l).
Proof.
  induction l as [|x l IH]; simpl; auto.
  destruct (p (f x)); simpl; auto.
Qed.

Lemma group_rank_map (g : list string) (f : Row -> Row) (src : list Row)
    (j : nat) (r : Row) :
  (forall x, cat (f x) = cat x) ->
  group_rank g (map f src) j (f r) = group_rank g src j r.
Proof.
  intros Hf. unfold group_rank, group_of.
  rewrite firstn_map, filter_map_length. f_equal.
  apply filter_ext. intros x. apply same_group_cat; auto.
Qed.

Lemma lag_rolling_frame_windows (self : FeatureEngineer) (f out : Frame)
    (g : list string) (v p : string) :
  lag_rolling_frame self f g v p = Ok out ->
  forall w, In w (rolling_windows self) -> (0 <= w)%Z.
Proof.
  unfold lag_rolling_frame, lag_rolling_ready.
  destruct (negb (has_cat_columns g f)); [discriminate|].
  destruct (no_group_keys _ _); [discriminate|].
  destruct (negb (mem v (num_columns f))); [discriminate|].
  destruct (existsb _ _) eqn:E; [discriminate|]. intros _ w Hw.
  destruct (Z.ltb_spec w 0); [|assumption].
  assert (existsb (fun w => (w <? 0)%Z) (rolling_windows self) = true).
  { apply existsb_exists. exists w. split; auto. now apply Z.ltb_lt. }
  congruence.
Qed.

Lemma sort_rows_length (g : list string) (l : list Row) :
  List.length (sort_rows g l) = List.length l.
Proof. apply Permutation_length, sort_rows_perm. Qed.

Lemma no_group_keys_length (g : list string) (l l' : list Row) :
  List.length l = List.length l' -> no_group_keys g l = no_group_keys g l'.
Proof. destruct g, l, l'; simpl; auto; discriminate. Qed.

(** The frame built from the mutated input exists whenever the frame built
    from the input does. *)
Lemma lag_rolling_frame_mutate (self : FeatureEngineer) (f out : Frame)
    (g : list string) (v p : string) (spare : Row -> bool)
    (upd : Row -> float) :
  lag_rolling_frame self f g v p = Ok out ->
  exists out',
    lag_rolling_frame self (mutate_frame spare v upd f) g v p = Ok out'.
Proof.
  unfold lag_rolling_frame.
  assert (E : lag_rolling_ready self (mutate_frame spare v upd f) g v
              = lag_rolling_ready self f g v).
  { unfold lag_rolling_ready, mutate_frame, has_cat_columns. simpl.
    rewrite (no_group_keys_length g
               (sort_rows g (map (mutate spare v upd) (rows f)))
               (sort_rows g (rows f))); auto.
    now rewrite !sort_rows_length, length_map. }
  rewrite E. destruct (lag_rolling_ready self f g v) as [[]|]; [|discriminate].
  simpl. eauto.
Qed.

(** Earlier rows of the same group carry strictly earlier dates when no
    (key, date) pair repeats. *)
Lemma earlier_row_date (g : list string) (src : list Row) (i j : nat) (a b : Row) :
  ordered g src -> NoDup (map (key_date g) src) ->
  (i < j)%nat -> nth_error src i = Some a -> nth_error src j = Some b ->
  key_of g a = key_of g b -> (date a < date b)%Z.
Proof.
  intros Ho Hn Hij Ha Hb K.
  assert (Hle : (date a <= date b)%Z).
  { apply row_leb_date with g; auto. eapply ordered_nth; eauto. }
  destruct (Z.eq_dec (date a) (date b)) as [E|E]; [|lia]. exfalso.
  rewrite NoDup_nth_error in Hn.
  assert (i = j); [|lia].
  apply Hn.
  - rewrite length_map. apply nth_error_Some. congruence.
  - rewrite !nth_error_map, Ha, Hb. simpl. unfold key_date. congruence.
Qed.

(** A row placed before another in the sorted frame is sorted before
    it. *)
Lemma before_in_order (g : list string) (src : list Row) (i j : nat) (a b : Row) :
  ordered g src -> NoDup (map (key_date g) src) ->
  (i < j)%nat -> nth_error src i = Some a -> nth_error src j = Some b ->
  sorted_before g (key_of g b) (date b) a = true.
Proof.
  intros Ho Hn Hij Ha Hb. unfold sorted_before.
  pose proof (ordered_nth g src i j a b Ho Hij Ha Hb) as Hle.
  pose proof (row_leb_key g a b Hle) as Hk.
  destruct (cmp_keys (key_of g a) (key_of g b)) eqn:E; try congruence.
  apply cmp_keys_eq in E. apply Z.ltb_lt.
  eapply earlier_row_date; eauto.
Qed.

Lemma ordered_mutate (g : list string) (spare : Row -> bool) (v : string)
    (upd : Row -> float) (l : list Row) :
  ordered g l -> ordered g (map (mutate spare v upd) l).
Proof.
  assert (E : forall a b, row_leb g (mutate spare v upd a) (mutate spare v upd b)
                          = row_leb g a b).
  { intros a b. destruct (mutate_keys spare v upd a) as [A1 A2].
    destruct (mutate_keys spare v upd b) as [B1 B2].
    unfold row_leb, row_compare, key_of. now rewrite A1, A2, B1, B2. }
  unfold ordered. induction 1 as [|x l Hs IH Hx]; simpl; constructor; auto.
  rewrite Forall_forall in *. intros y Hy. apply in_map_iff in Hy.
  destruct Hy as [z [<- Hz]]. rewrite E. auto.
Qed.

(** The shifted column of the mutated frame agrees with that of the frame
    up to row [j] when every row before row [j] is spared. *)
Lemma shift1_mutate (g : list string) (v : string) (spare : Row -> bool)
    (upd : Row -> float) (src : list Row) (j : nat) :
  ordered g src ->
  (forall m x, (m < j)%nat -> nth_error src m = Some x -> spare x = true) ->
  forall m, (m <= j)%nat ->
    nth_error (groupby_shift g v 1 (map (mutate spare v upd) src)) m
    = nth_error (groupby_shift g v 1 src) m.
Proof.
  intros Ho Hsp m Hm. set (mu := mutate spare v upd).
  assert (Hmu : forall x, cat (mu x) = cat x /\ date (mu x) = date x)
    by (intros; apply mutate_keys).
  pose proof (ordered_mutate g spare v upd src Ho) as Ho'. fold mu in Ho'.
  destruct (nth_error src m) as [b|] eqn:Hb.
  2:{ apply nth_error_None in Hb.
      transitivity (@None float); [|symmetry]; apply nth_error_None.
      - now rewrite groupby_shift_length, length_map.
      - now rewrite groupby_shift_length. }
  assert (Hb' : nth_error (map mu src) m = Some (mu b))
    by (rewrite nth_error_map, Hb; reflexivity).
  destruct m as [|m].
  - rewrite (shift1_first g v src b Hb), (shift1_first g v _ (mu b) Hb').
    reflexivity.
  - destruct (nth_error src m) as [a|] eqn:Ha.
    2:{ apply nth_error_None in Ha.
        assert (S m < List.length src)%nat by (apply nth_error_Some; congruence).
        lia. }
    assert (Ha' : nth_error (map mu src) m = Some (mu a))
      by (rewrite nth_error_map, Ha; reflexivity).
    assert (Es : same_group g (mu a) (mu b) = same_group g a b)
      by (apply same_group_cat; apply Hmu).
    destruct (same_group g a b) eqn:Hs.
    + rewrite (shift1_linked g v src m a b Ha Hb Hs).
      rewrite (shift1_linked g v (map mu src) m (mu a) (mu b) Ha' Hb' Es).
      unfold mu. rewrite mutate_spared; auto. apply (Hsp m a); auto.
    + rewrite (shift1_unlinked g v src m a b Ho Ha Hb Hs).
      rewrite (shift1_unlinked g v (map mu src) m (mu a) (mu b) Ho' Ha' Hb' Es).
      reflexivity.
Qed.

(** The rolling mean at row [j] is the same after a change that spares
    every row before row [j]. *)
Lemma roll_mutate (g : list string) (v : string) (spare : Row -> bool)
    (upd : Row -> float) (src : list Row) (w j : nat) :
  ordered g src ->
  (forall m x, (m < j)%nat -> nth_error src m = Some x -> spare x = true) ->
  nth_error (rolling_mean w (groupby_shift g v 1 (map (mutate spare v upd) src))) j
  = nth_error (rolling_mean w (groupby_shift g v 1 src)) j.
Proof.
  intros Ho Hsp.
  destruct (Nat.lt_ge_cases j (List.length src)) as [Hj|Hj].
  - rewrite !nth_error_rolling_mean
      by (rewrite groupby_shift_length, ?length_map; auto).
    f_equal. f_equal. apply mean_state_agree. intros m Hm.
    now apply (shift1_mutate g v spare upd src j).
  - transitivity (@None float); [|symmetry]; apply nth_error_None;
      rewrite rolling_mean_length, groupby_shift_length, ?length_map; auto.
Qed.

(** The shifted column of a column of whole numbers holds whole
    numbers. *)
Lemma shift_whole (B : Z) (g : list string) (v : string) (k : Z)
    (src : list Row) :
  (forall x, In x src -> whole_below B (num x v) = true) ->
  forallb (whole_below B) (groupby_shift g v k src) = true.
Proof.
  intros H. apply forallb_forall. intros x Hx.
  apply In_nth_error in Hx. destruct Hx as [j Hj].
  destruct (nth_error src j) as [r|] eqn:Hr.
  2:{ apply nth_error_None in Hr.
      assert (j < List.length (groupby_shift g v k src))%nat
        by (apply nth_error_Some; congruence).
      rewrite groupby_shift_length in H0. lia. }
  rewrite (nth_error_groupby_shift g v k src j r Hr) in Hj.
  injection Hj as <-.
  destruct (_ <? 0)%Z; auto.
  destruct (nth_error (group_of g r src) _) as [r'|] eqn:E; auto.
  apply H. apply nth_error_In in E. unfold group_of in E.
  apply filter_In in E. tauto.
Qed.

Lemma observed_all (l : list float) :
  ~ In None l -> observed l = List.length l.
Proof.
  induction l as [|[x|] l IH]; simpl; intros H; auto.
  - f_equal. apply IH. tauto.
  - exfalso. auto.
Qed.

(** The rolling mean at a row with [w] earlier rows in its group, read
    off the source values of those rows. *)
Lemma roll_value (B : Z) (g : list string) (v : string) (src : list Row)
    (w j : nat) (r0 : Row) :
  ordered g src -> nth_error src j = Some r0 ->
  (0 < w <= group_rank g src j r0)%nat ->
  let prior := map (fun x => num x v) (slice (j - w) j src) in
  (In None prior ->
   nth_error (rolling_mean w (groupby_shift g v 1 src)) j = Some None)
  /\ ((Z.of_nat w * B < 2 ^ 53)%Z ->
      (forall x, In x src -> whole_below B (num x v) = true) ->
      ~ In None prior ->
      exists m,
        nth_error (rolling_mean w (groupby_shift g v 1 src)) j = Some (Some m)
        /\ (m == rnd (nansum prior / inject_Z (Z.of_nat w)))%Q).
Proof.
  intros Ho Hj Hw prior.
  pose proof (roll_window_rows g v src w j r0 Ho Hj Hw) as Ewin.
  fold prior in Ewin.
  destruct (group_start g v src Ho j r0 Hj) as [H1 _].
  assert (Hlen : (j < List.length src)%nat) by (apply nth_error_Some; congruence).
  assert (Lp : List.length prior = w).
  { unfold prior. rewrite length_map, slice_full_length; lia. }
  assert (Hjs : (j < List.length (groupby_shift g v 1 src))%nat)
    by now rewrite groupby_shift_length.
  split.
  - intros Hn. apply rolling_mean_missing; auto. left. rewrite Ewin.
    apply observed_lt in Hn. lia.
  - intros HB Hx Hn.
    destruct (rolling_mean_exact B w (groupby_shift g v 1 src) j HB)
      as [m [M1 M2]]; auto; try lia.
    + now apply shift_whole.
    + rewrite Ewin.
      rewrite (observed_all prior Hn). lia.
    + exists m. split; auto. now rewrite <- Ewin.
Qed.

(** ** Sorted distinct values *)

Section InsertionSort.
Variable A : Type.
Variable leb : A -> A -> bool.
Hypothesis leb_total : forall a b, leb a b = false -> leb b a = true.
Hypothesis leb_trans : forall a b c, leb a b = true -> leb b c = true -> leb a c = true.

Lemma insert_by_perm (x : A) (l : list A) :
  Permutation (insert_by leb x l) (x :: l).
Proof.
  induction l as [|y l IH]; simpl; auto.
  destruct (leb x y); auto. rewrite IH. apply perm_swap.
Qed.

Lemma sorted_perm (l : list A) : Permutation (sorted leb l) l.
Proof.
  induction l as [|x l IH]; simpl; auto.
  rewrite insert_by_perm. now constructor.
Qed.

Lemma insert_by_sorted (x : A) (l : list A) :
  StronglySorted (fun a b => leb a b = true) l ->
  StronglySorted (fun a b => leb a b = true) (insert_by leb x l).
Proof.
  induction 1 as [|y l Hs IH Hy]; simpl.
  - repeat constructor.
  - destruct (leb x y) eqn:E.
    + constructor; [now constructor|]. constructor; auto.
      eapply Forall_impl; [|exact Hy]. intros z Hz. eapply leb_trans; eauto.
    + constructor; auto.
      eapply Permutation_Forall; [symmetry; apply insert_by_perm|].
      constructor; auto.
Qed.

Lemma sorted_sorted (l : list A) :
  StronglySorted (fun a b => leb a b = true) (sorted leb l).
Proof.
  induction l as [|x l IH]; simpl; [constructor|].
  now apply insert_by_sorted.
Qed.
End InsertionSort.

Section Unique.
Variable A : Type.
Variable eqb : A -> A -> bool.
Hypothesis eqb_spec : forall a b, eqb a b = true <-> a = b.

Lemma unique_In (x : A) (l : list A) : In x (unique eqb l) <-> In x l.
Proof.
  induction l as [|y l IH]; simpl; [tauto|].
  rewrite filter_In, IH. split.
  - intros [H|[H _]]; auto.
  - intros [H|H]; auto.
    destruct (eqb y x) eqn:E; [left; now apply eqb_spec|].
    right. auto.
Qed.

Lemma unique_NoDup (l : list A) : NoDup (unique eqb l).
Proof.
  induction l as [|y l IH]; simpl; constructor.
  - rewrite filter_In. intros [_ H].
    rewrite (proj2 (eqb_spec y y) eq_refl) in H. discriminate.
  - now apply NoDup_filter.
Qed.
End Unique.

Lemma strictly_ascending (l : list Z) :
  NoDup l -> StronglySorted (fun a b => Z.leb a b = true) l ->
  StronglySorted Z.lt l.
Proof.
  intros Hn Hs. induction Hs as [|x l Hs IH Hx]; constructor.
  - apply IH. now inversion Hn.
  - inversion Hn as [|? ? Hnot _]; subst.
    rewrite Forall_forall in *. intros y Hy.
    specialize (Hx y Hy). apply Z.leb_le in Hx.
    assert (x <> y) by (intros ->; contradiction). lia.
Qed.

(** The distinct dates of a frame: each date of the frame once, ascending. *)
Lemma distinct_dates_spec (f : Frame) :
  (forall d, In d (distinct_dates f) <-> exists r, In r (rows f) /\ date r = d)
  /\ StronglySorted Z.lt (distinct_dates f).
Proof.
  unfold distinct_dates. split.
  - intros d. rewrite (Permutation_in' (x := d) eq_refl (sorted_perm Z Z.leb _)).
    rewrite (unique_In Z Z.eqb Z.eqb_eq), in_map_iff. firstorder.
  - apply strictly_ascending.
    + eapply Permutation_NoDup; [symmetry; apply sorted_perm|].
      apply (unique_NoDup Z Z.eqb Z.eqb_eq).
    + apply sorted_sorted.
      * intros a b H. apply Z.leb_gt in H. apply Z.leb_le. lia.
      * intros a b c H1 H2. apply Z.leb_le in H1, H2. apply Z.leb_le. lia.
Qed.

(** ** The horizon predictor (C5, C8) *)

Lemma mapM_raise (A B : Type) (f : A -> result B) (l : list A) (e : string) :
  mapM f l = Raise e -> exists x, In x l /\ f x = Raise e.
Proof.
  induction l as [|a l IH]; simpl; [discriminate|].
  destruct (f a) as [b|e'] eqn:E; simpl.
  - destruct (mapM f l) as [bs|e'']; simpl; [discriminate|].
    intros [= ->]. destruct (IH eq_refl) as [x [H1 H2]]. eauto.
  - intros [= ->]. eauto.
Qed.

Lemma mapM_ok (A B : Type) (f : A -> result B) (l : list A) (bs : list B) :
  mapM f l = Ok bs -> Forall2 (fun a b => f a = Ok b) l bs.
Proof.
  revert bs. induction l as [|a l IH]; simpl; intros bs.
  - intros [= <-]. constructor.
  - destruct (f a) as [b|] eqn:E; simpl; [|discriminate].
    destruct (mapM f l) as [bs'|]; simpl; [|discriminate].
    intros [= <-]. constructor; auto.
Qed.

Lemma predict_day_errors (self : HierarchicalLGBM) (test_df : Frame)
    (fn : list string) (hd : Z * Z) (e : string) :
  predict_day self test_df fn hd = Raise e -> e = "KeyError" \/ e = "ValueError".
Proof.
  unfold predict_day. destruct hd as [h day].
  unfold values_of. destruct (has_columns _ _); simpl; [|intros [= <-]; auto].
  destruct (dict_get h (models self)); simpl; [|intros [= <-]; auto].
  destruct (negb _); [intros [= <-]; auto|].
  destruct (negb _); [intros [= <-]; auto|]. discriminate.
Qed.

Lemma predict_not_assertion (self : HierarchicalLGBM) (ids : option (list string))
    (test_df : Frame) (fn : list string) (days : list (Z * Z)) :
  horizon_days self test_df = Ok days ->
  predict self ids test_df fn <> Raise "AssertionError".
Proof.
  intros Hd. unfold predict. rewrite Hd. simpl.
  destruct (mapM _ days) as [pl|e] eqn:E; simpl.
  2:{ apply mapM_raise in E. destruct E as [x [_ E]].
      apply predict_day_errors in E. destruct E as [-> | ->]; discriminate. }
  destruct pl as [|t pl]; simpl; [discriminate|].
  destruct ids as [ids|]; simpl; [|discriminate].
  unfold pivot. destruct (has_duplicate _); simpl; [discriminate|].
  unfold reindex. simpl.
  destruct (list_eqb _ ids); simpl.
  - destruct (negb _); discriminate.
  - destruct (negb (nodupb _)); simpl; [discriminate|].
    destruct (negb _); discriminate.
Qed.

Lemma combine_firstn (A B : Type) (l : list A) (l' : list B) :
  combine l (firstn (List.length l) l') = combine l l'.
Proof.
  revert l'. induction l as [|a l IH]; intros [|b l']; simpl; auto.
  now rewrite IH.
Qed.

Lemma range1_length (n : Z) : List.length (range1 n) = Z.to_nat n.
Proof. unfold range1. now rewrite length_map, length_seq. Qed.

Lemma nth_error_range1 (n : Z) (i : nat) :
  (i < Z.to_nat n)%nat -> nth_error (range1 n) i = Some (Z.of_nat (S i)).
Proof.
  intros H. unfold range1. rewrite nth_error_map.
  rewrite nth_error_seq.
  destruct (Nat.ltb_spec i (Z.to_nat n)); [reflexivity|lia].
Qed.

Lemma nth_error_combine (A B : Type) (l : list A) (l' : list B) (i : nat)
    (a : A) (b : B) :
  nth_error l i = Some a -> nth_error l' i = Some b ->
  nth_error (combine l l') i = Some (a, b).
Proof.
  revert l' i. induction l as [|x l IH]; intros [|y l'] [|i]; simpl;
    try discriminate; auto.
  now intros [= ->] [= ->].
Qed.

(** C5, as the code has it.  [predict] checks the number of distinct test
    dates with an [assert]: it fails with [AssertionError] exactly when the
    test frame has fewer than [num_models] distinct dates.  Otherwise
    horizon [h] is mapped to the [h]-th earliest distinct date, for [h]
    from 1 to [num_models], and no later date is used. *)
Theorem predict_horizon_dates (self : HierarchicalLGBM)
    (ids : option (list string)) (test_df : Frame) (fn : list string) :
  (forall d, In d (distinct_dates test_df) <->
             exists r, In r (rows test_df) /\ date r = d)
  /\ StronglySorted Z.lt (distinct_dates test_df)
  /\ (predict self ids test_df fn = Raise "AssertionError"
      <-> (Z.of_nat (List.length (distinct_dates test_df)) < num_models self)%Z)
  /\ ((num_models self <= Z.of_nat (List.length (distinct_dates test_df)))%Z ->
      exists hd,
        horizon_days self test_df = Ok hd
        /\ List.length hd = Z.to_nat (num_models self)
        /\ forall i d, (i < Z.to_nat (num_models self))%nat ->
             nth_error (distinct_dates test_df) i = Some d ->
             nth_error hd i = Some (Z.of_nat (S i), d)).
Proof.
  destruct (distinct_dates_spec test_df) as [H1 H2].
  split; [exact H1|]. split; [exact H2|].
  assert (Hh : horizon_days self test_df =
               if (Z.of_nat (List.length (distinct_dates test_df)) <? num_models self)%Z
               then Raise "AssertionError"
               else Ok (combine (range1 (num_models self)) (distinct_dates test_df))).
  { unfold horizon_days. fold (distinct_dates test_df).
    destruct (Z.ltb_spec (Z.of_nat (List.length (distinct_dates test_df)))
                         (num_models self)); auto.
    f_equal. unfold slice_to.
    destruct (Z.ltb_spec (num_models self) 0).
    - unfold range1. replace (Z.to_nat (num_models self)) with 0%nat by lia.
      reflexivity.
    - rewrite <- (range1_length (num_models self)). apply combine_firstn. }
  split.
  - split.
    + intros Hp.
      destruct (Z.ltb_spec (Z.of_nat (List.length (distinct_dates test_df)))
                           (num_models self)); auto.
      exfalso. eapply predict_not_assertion; eauto.
    + intros Hlt. unfold predict. rewrite Hh.
      destruct (Z.ltb_spec (Z.of_nat (List.length (distinct_dates test_df)))
                           (num_models self)); [reflexivity|lia].
  - intros Hle. rewrite Hh.
    destruct (Z.ltb_spec (Z.of_nat (List.length (distinct_dates test_df)))
                         (num_models self)); [lia|].
    eexists. split; [reflexivity|]. split.
    + rewrite length_combine, range1_length. lia.
    + intros i d Hi Hd. apply nth_error_combine; auto.
      now apply nth_error_range1.
Qed.

(** C5, counterexample.  With one distinct test date and two models the
    failure is an [AssertionError], not an [InsufficientHorizonsError]. *)
Lemma predict_error_class :
  let test_df := mkFrame ["id"] ["x_lag_1"] [sample_row "a" 5 [("x_lag_1", q 1)]] in
  List.length (distinct_dates test_df) = 1%nat
  /\ predict (sample_model 2) (Some ["a"]) test_df ["x_lag_1"]
     = Raise "AssertionError"
  /\ predict (sample_model 2) (Some ["a"]) test_df ["x_lag_1"]
     <> Raise "InsufficientHorizonsError".
Proof.
  cbv zeta. split; [reflexivity|]. split; [reflexivity|].
  intros H. vm_compute in H. discriminate.
Qed.

Lemma clip0_clamped (x : float) : clamped (clip0 x).
Proof.
  destruct x as [v|]; simpl; auto.
  destruct (Qle_bool 0 v) eqn:E; simpl.
  - now apply Qle_bool_iff.
  - apply Qle_refl.
Qed.

Lemma fillna0_nonneg (x : float) : clamped x -> nonneg (fillna0 x).
Proof. destruct x; simpl; auto. intros _. apply Qle_refl. Qed.

Lemma lookup_triple_clamped (i : string) (h : Z) (l : list Triple) :
  Forall (fun t => clamped (snd t)) l -> clamped (lookup_triple i h l).
Proof.
  intros H. unfold lookup_triple.
  destruct (find _ l) as [t|] eqn:E; simpl; auto.
  apply find_some in E. rewrite Forall_forall in H. apply H. tauto.
Qed.

Lemma lookup_row_In (i : string) (idx : list string) (vals : Matrix)
    (v : list float) :
  lookup_row i idx vals = Some v -> In v vals.
Proof.
  revert vals. induction idx as [|j idx IH]; intros [|x vals]; simpl;
    try discriminate.
  destruct (String.eqb j i); [intros [= ->]; auto|]. eauto.
Qed.

Lemma reindex_clamped (target : list string) (w re : Wide) :
  reindex target w = Ok re ->
  Forall (Forall clamped) (wvalues w) -> Forall (Forall clamped) (wvalues re).
Proof.
  unfold reindex. destruct (list_eqb _ _); [intros [= <-]; auto|].
  destruct (negb _); [discriminate|]. intros [= <-] H. simpl.
  apply Forall_forall. intros row Hrow. apply in_map_iff in Hrow.
  destruct Hrow as [i [<- _]].
  destruct (lookup_row i (index w) (wvalues w)) as [v|] eqn:E.
  - apply lookup_row_In in E. rewrite Forall_forall in H. auto.
  - apply Forall_forall. intros x Hx. apply in_map_iff in Hx.
    destruct Hx as [? [<- _]]. exact I.
Qed.

Lemma predict_day_clamped (self : HierarchicalLGBM) (test_df : Frame)
    (fn : list string) (hd : Z * Z) (ts : list Triple) :
  predict_day self test_df fn hd = Ok ts ->
  Forall (fun t => clamped (snd t)) ts.
Proof.
  unfold predict_day. destruct hd as [h day].
  destruct (values_of _ _); simpl; [|discriminate].
  destruct (dict_get h (models self)); simpl; [|discriminate].
  destruct (negb _); [discriminate|].
  destruct (negb _); [discriminate|]. intros [= <-].
  apply Forall_forall. intros t Ht. apply in_map_iff in Ht.
  destruct Ht as [rp [<- _]]. simpl. apply clip0_clamped.
Qed.

(** C8.  Every value of the matrix [predict] returns is a number that is
    not negative, whatever the boosters answer: raw scores are clamped at
    zero, and what is still missing is filled with zero. *)
Theorem predict_nonnegative (self : HierarchicalLGBM)
    (ids : option (list string)) (test_df : Frame) (fn : list string)
    (m : Wide) :
  predict self ids test_df fn = Ok m ->
  forall row, In row (wvalues m) -> forall x, In x row -> nonneg x.
Proof.
  unfold predict. destruct (horizon_days self test_df) as [days|]; simpl;
    [|discriminate].
  destruct (mapM _ days) as [pl|] eqn:E; simpl; [|discriminate].
  assert (Hpl : Forall (fun t => clamped (snd t)) (List.concat pl)).
  { apply mapM_ok in E. apply Forall_concat.
    induction E as [|a b l l' Hab _ IH]; constructor; auto.
    eapply predict_day_clamped; eauto. }
  destruct pl as [|t0 pl]; simpl; [discriminate|].
  destruct ids as [ids|]; simpl; [|discriminate].
  unfold pivot. destruct (has_duplicate _); simpl; [discriminate|].
  match goal with
  | |- context [reindex ids ?w] =>
      destruct (reindex ids w) as [re|] eqn:R; simpl; [|discriminate]
  end.
  destruct (negb _); [discriminate|]. intros [= <-]. simpl.
  apply reindex_clamped in R.
  - intros row Hrow x Hx. apply in_map_iff in Hrow.
    destruct Hrow as [row0 [<- Hrow0]]. apply in_map_iff in Hx.
    destruct Hx as [x0 [<- Hx0]]. apply fillna0_nonneg.
    rewrite Forall_forall in R. specialize (R row0 Hrow0).
    rewrite Forall_forall in R. auto.
  - simpl. apply Forall_forall. intros row Hrow. apply in_map_iff in Hrow.
    destruct Hrow as [i [<- _]]. apply Forall_forall. intros x Hx.
    apply in_map_iff in Hx. destruct Hx as [h [<- _]].
    apply lookup_triple_clamped. exact Hpl.
Qed.

(** C8, at a sample: the boosters answer -1, 3, 1 and (for a missing
    feature, filled with 0) -2; the matrix holds 0, 3, 1 and 0, and 0 for
    the series without a row. *)
Lemma predict_nonnegative_witness :
  predict (sample_model 2) (Some ["b"; "a"; "c"]) sample_test ["x_lag_1"]
  = Ok (mkWide ["b"; "a"; "c"] ["F1"; "F2"]
          [[Some (3 # 1); Some 0]; [Some 0; Some (1 # 1)]; [Some 0; Some 0]])%Q
  /\ nonneg (Some 0%Q).
Proof.
  split; [vm_compute; reflexivity|].
  apply (predict_nonnegative (sample_model 2) (Some ["b"; "a"; "c"])
           sample_test ["x_lag_1"] _ eq_refl [Some 0%Q; Some 0%Q]).
  - simpl. auto.
  - simpl. auto.
Defined.

(** ** The evaluator (C7) *)

Lemma lookup_row_absent (i : string) (idx : list string) (vals : Matrix) :
  ~ In i idx -> lookup_row i idx vals = None.
Proof.
  revert vals. induction idx as [|j idx IH]; intros [|v vals] H; simpl; auto.
  destruct (String.eqb_spec j i) as [->|]; [exfalso; apply H; simpl; auto|].
  apply IH. intros Hin. apply H. simpl. auto.
Qed.

Lemma lookup_row_present (idx : list string) (vals : Matrix) (k : nat)
    (i : string) (v : list float) :
  NoDup idx -> nth_error idx k = Some i -> nth_error vals k = Some v ->
  lookup_row i idx vals = Some v.
Proof.
  revert vals k. induction idx as [|j idx IH]; intros [|x vals] [|k] Hn Hi Hv;
    simpl in *; try discriminate.
  - injection Hi as ->. injection Hv as ->. now rewrite String.eqb_refl.
  - inversion Hn as [|? ? Hnot Hn']; subst.
    destruct (String.eqb_spec j i) as [->|].
    + exfalso. apply Hnot. eapply nth_error_In; eauto.
    + eapply IH; eauto.
Qed.

Lemma mem_In (x : string) (l : list string) : mem x l = true <-> In x l.
Proof.
  unfold mem. rewrite existsb_exists. split.
  - intros [y [Hy E]]. apply String.eqb_eq in E. now subst.
  - intros H. exists x. split; auto. apply String.eqb_refl.
Qed.

Lemma nodupb_true (l : list string) : NoDup l -> nodupb l = true.
Proof.
  induction 1 as [|x l Hx Hn IH]; simpl; auto.
  rewrite IH, andb_true_r. apply negb_true_iff.
  destruct (mem x l) eqn:M; auto. apply mem_In in M. contradiction.
Qed.

Lemma nodupb_NoDup (l : list string) : nodupb l = true -> NoDup l.
Proof.
  induction l as [|x l IH]; simpl; [constructor|].
  intros H. apply andb_true_iff in H. destruct H as [H1 H2].
  constructor; auto. intros Hin. apply mem_In in Hin.
  rewrite Hin in H1. discriminate.
Qed.

(** C7.  [evaluate] hands the scorer an array with one row per canonical
    id, in the canonical order, and returns what the scorer returns for
    that array.  The row of an id that the forecast lacks is zero in every
    column.  The row of an id that the forecast holds is the forecast row
    of that id, entry by entry: a number of the forecast reaches the scorer
    unchanged, and a NaN reaches it as zero.  No canonical id is
    dropped. *)
Theorem evaluate_reindexes_and_zero_fills (wrmsse : Matrix -> result float)
    (self : M5Evaluator) (forecast_df : Wide) :
  NoDup (index forecast_df) ->
  List.length (wvalues forecast_df) = List.length (index forecast_df) ->
  exists arr,
    evaluate wrmsse self forecast_df = wrmsse arr
    /\ List.length arr = List.length (sales_ids self)
    /\ forall k i, nth_error (sales_ids self) k = Some i ->
         exists row,
           nth_error arr k = Some row
           /\ (~ In i (index forecast_df) ->
               List.length row = List.length (wcolumns forecast_df)
               /\ forall x, In x row -> x = Some 0%Q)
           /\ (forall j v, nth_error (index forecast_df) j = Some i ->
                 nth_error (wvalues forecast_df) j = Some v ->
                 List.length row = List.length v
                 /\ (forall c y, nth_error v c = Some (Some y) ->
                                 nth_error row c = Some (Some y))
                 /\ (forall c, nth_error v c = Some None ->
                               nth_error row c = Some (Some 0%Q))).
Proof.
  intros Hn Hlen.
  assert (Hfill : forall v : list float,
            List.length (map fillna0 v) = List.length v
            /\ (forall c y, nth_error v c = Some (Some y) ->
                            nth_error (map fillna0 v) c = Some (Some y))
            /\ (forall c, nth_error v c = Some None ->
                          nth_error (map fillna0 v) c = Some (Some 0%Q))).
  { intros v. split; [apply length_map|].
    split; intros; rewrite nth_error_map, H; reflexivity. }
  unfold evaluate, reindex.
  destruct (list_eqb (index forecast_df) (sales_ids self)) eqn:E.
  - apply list_eqb_eq in E. simpl.
    exists (map (map fillna0) (wvalues forecast_df)). split; [reflexivity|].
    split; [rewrite length_map; congruence|].
    intros k i Hk. rewrite <- E in Hk.
    destruct (nth_error (wvalues forecast_df) k) as [v|] eqn:Hv.
    2:{ apply nth_error_None in Hv.
        assert (k < List.length (index forecast_df))%nat
          by (apply nth_error_Some; congruence).
        lia. }
    exists (map fillna0 v). split; [rewrite nth_error_map, Hv; reflexivity|].
    split.
    + intros Hnot. exfalso. apply Hnot. eapply nth_error_In; eauto.
    + intros j v' Hj Hv'.
      assert (j = k).
      { rewrite NoDup_nth_error in Hn. apply Hn; [|congruence].
        apply nth_error_Some. congruence. }
      subst. rewrite Hv in Hv'. injection Hv' as <-. apply Hfill.
  - assert (Hd : nodupb (index forecast_df) = true) by now apply nodupb_true.
    rewrite Hd. simpl. eexists. split; [reflexivity|].
    split; [now rewrite !length_map|].
    intros k i Hk. rewrite !nth_error_map, Hk. simpl.
    eexists. split; [reflexivity|]. split.
    + intros Hnot. rewrite lookup_row_absent by auto.
      rewrite !length_map. split; auto.
      intros x Hx. rewrite map_map in Hx. apply in_map_iff in Hx.
      destruct Hx as [c [<- _]]. reflexivity.
    + intros j v Hj Hv. rewrite (lookup_row_present _ _ j i v Hn Hj Hv).
      apply Hfill.
Qed.

Lemma row_of_two (row : list float) (a b : float) :
  List.length row = 2%nat ->
  nth_error row 0 = Some a -> nth_error row 1 = Some b -> row = [a; b].
Proof.
  destruct row as [|x [|y [|z t]]]; simpl; try discriminate.
  now intros _ [= ->] [= ->].
Qed.

Lemma evaluate_zero_fill_witness :
  evaluate sample_score (mkEvaluator ["b"; "c"; "a"]) sample_forecast
  = sample_score [[Some 0%Q; q 4]; [Some 0%Q; Some 0%Q]; [q 1; q 2]]
  /\ evaluate sample_score (mkEvaluator ["b"; "c"; "a"]) sample_forecast
     = Ok (q 7).
Proof.
  destruct (evaluate_reindexes_and_zero_fills sample_score
              (mkEvaluator ["b"; "c"; "a"]) sample_forecast)
    as [arr [H1 [H2 H3]]].
  - apply nodupb_NoDup. reflexivity.
  - reflexivity.
  - assert (E : arr = [[Some 0%Q; q 4]; [Some 0%Q; Some 0%Q]; [q 1; q 2]]).
    { destruct (H3 0%nat "b" eq_refl) as [r0 [A0 [_ B0]]].
      destruct (B0 1%nat [None; q 4] eq_refl eq_refl) as [L0 [N0 Z0]].
      destruct (H3 1%nat "c" eq_refl) as [r1 [A1 [B1 _]]].
      destruct B1 as [L1 Z1].
      { simpl. intros [H|[H|[]]]; discriminate. }
      destruct (H3 2%nat "a" eq_refl) as [r2 [A2 [_ B2]]].
      destruct (B2 0%nat [q 1; q 2] eq_refl eq_refl) as [L2 [N2 _]].
      simpl in H2, L0, L1, L2.
      destruct arr as [|x0 [|x1 [|x2 [|x3 t]]]]; try discriminate.
      simpl in A0, A1, A2. injection A0 as ->. injection A1 as ->.
      injection A2 as ->.
      rewrite (row_of_two r0 (Some 0%Q) (q 4) L0 (Z0 0%nat eq_refl)
                 (N0 1%nat _ eq_refl)).
      rewrite (row_of_two r2 (q 1) (q 2) L2 (N2 0%nat _ eq_refl)
                 (N2 1%nat _ eq_refl)).
      destruct r1 as [|a [|b [|c t]]]; try discriminate.
      rewrite (Z1 a), (Z1 b); simpl; auto. }
    rewrite H1, E. split; reflexivity.
Defined.

(** ** The horizon trainer (C2, C6) *)

Lemma Forall2_filter (A B : Type) (R : A -> B -> Prop) (p : A -> bool)
    (p' : B -> bool) (l : list A) (l' : list B) :
  (forall a b, R a b -> p a = p' b) ->
  Forall2 R l l' -> Forall2 R (filter p l) (filter p' l').
Proof.
  intros Hp. induction 1 as [|a b l l' Hab _ IH]; simpl; [constructor|].
  rewrite (Hp a b Hab). destruct (p' b); auto.
Qed.

Lemma Forall2_firstn (A B : Type) (R : A -> B -> Prop) (n : nat)
    (l : list A) (l' : list B) :
  Forall2 R l l' -> Forall2 R (firstn n l) (firstn n l').
Proof.
  intros H. revert n. induction H; intros [|n]; simpl; constructor; auto.
Qed.

Lemma Forall2_nth_error (A B : Type) (R : A -> B -> Prop) (l : list A)
    (l' : list B) (j : nat) :
  Forall2 R l l' ->
  match nth_error l j, nth_error l' j with
  | Some a, Some b => R a b
  | None, None => True
  | _, _ => False
  end.
Proof.
  intros H. revert j. induction H as [|a b l l' Hab H IH]; intros [|j]; simpl; auto.
  apply IH.
Qed.

Lemma groupby_shift_ext (g : list string) (c : string) (k : Z)
    (rs rs' : list Row) :
  Forall2 (agree_on c) rs rs' ->
  groupby_shift g c k rs = groupby_shift g c k rs'.
Proof.
  intros H. apply nth_error_ext. intros j.
  pose proof (Forall2_nth_error _ _ _ _ _ j H) as Hj.
  destruct (nth_error rs j) as [a|] eqn:Ha, (nth_error rs' j) as [b|] eqn:Hb;
    try contradiction.
  2:{ unfold groupby_shift. now rewrite !nth_error_imap, Ha, Hb. }
  rewrite (nth_error_groupby_shift g c k rs j a Ha).
  rewrite (nth_error_groupby_shift g c k rs' j b Hb).
  assert (Hs : forall x y, agree_on c x y -> same_group g a x = same_group g b y).
  { intros x y [Hxy _]. destruct Hj as [Hab _]. apply same_group_cat; auto. }
  assert (Hr : group_rank g rs j a = group_rank g rs' j b).
  { unfold group_rank, group_of.
    apply (Forall2_length (R := agree_on c)).
    apply Forall2_filter; auto. now apply Forall2_firstn. }
  rewrite Hr. destruct (_ <? 0)%Z; auto.
  assert (Hg : Forall2 (agree_on c) (group_of g a rs) (group_of g b rs'))
    by (apply Forall2_filter; auto).
  pose proof (Forall2_nth_error _ _ _ _ _
                (Z.to_nat (Z.of_nat (group_rank g rs' j b) - k)) Hg) as Hn.
  destruct (nth_error (group_of g a rs) _), (nth_error (group_of g b rs') _);
    try contradiction; auto.
  destruct Hn as [_ Hn]. now rewrite Hn.
Qed.

Lemma agree_on_refl (c : string) (rs : list Row) : Forall2 (agree_on c) rs rs.
Proof. induction rs; constructor; auto. split; auto. Qed.

Lemma set_nums_agree (col c : string) (vs : list float) (rs : list Row) :
  col <> c -> Forall2 (agree_on c) (set_nums col vs rs) rs.
Proof.
  intros Hc. revert vs. induction rs as [|r rs IH]; intros [|v vs]; simpl;
    try constructor; auto; try apply agree_on_refl.
  - split; auto.
  - split; simpl; auto. destruct (String.eqb_spec c col); congruence.
Qed.

(** The loop of [train] over the lag and rolling columns. *)
Lemma foldM_shift_feature (h : Z) (cols : list string) :
  NoDup cols ->
  forall Xcur Xh, foldM (shift_feature h) cols Xcur = Ok Xh ->
    List.length (rows Xh) = List.length (rows Xcur)
    /\ forall j r0, nth_error (rows Xcur) j = Some r0 ->
         exists r, nth_error (rows Xh) j = Some r
                   /\ cat r = cat r0 /\ date r = date r0
                   /\ (forall c, In c cols ->
                         nth_error (groupby_shift ["id"] c h (rows Xcur)) j
                         = Some (num r c))
                   /\ (forall c, ~ In c cols -> num r c = num r0 c).
Proof.
  induction 1 as [|col cols Hnot Hn IH]; intros Xcur Xh; simpl.
  - intros [= <-]. split; auto. intros j r0 Hr. exists r0. repeat split; auto.
    intros c [].
  - unfold shift_feature at 1.
    destruct (mem "id" (cat_columns Xcur) && mem col (num_columns Xcur));
      simpl; [|discriminate].
    set (vs := groupby_shift ["id"] col h (rows Xcur)).
    intros Hf. destruct (IH _ _ Hf) as [Hlen Hrows]. simpl in Hlen, Hrows.
    rewrite set_nums_length in Hlen. split; auto.
    intros j r0 Hr.
    assert (Hv : exists v, nth_error vs j = Some v).
    { destruct (nth_error vs j) eqn:E; eauto. apply nth_error_None in E.
      unfold vs in E. rewrite groupby_shift_length in E.
      assert (j < List.length (rows Xcur))%nat by (apply nth_error_Some; congruence).
      lia. }
    destruct Hv as [v Hv].
    destruct (Hrows j (set_num col v r0)) as [r [H1 [H2 [H3 [H4 H5]]]]].
    { rewrite nth_error_set_nums, Hr, Hv. reflexivity. }
    exists r. repeat split; auto.
    + intros c [<-|Hc].
      * rewrite (H5 col Hnot). simpl. rewrite String.eqb_refl. exact Hv.
      * rewrite <- (H4 c Hc). f_equal. symmetry.
        apply groupby_shift_ext. apply set_nums_agree.
        intros ->. contradiction.
    + intros c Hc. rewrite H5 by (intros Hin; apply Hc; simpl; auto).
      simpl. destruct (String.eqb_spec c col); auto.
      subst. exfalso. apply Hc. simpl. auto.
Qed.

(** C2, as the code has it.  For horizon [h] the trainer takes the training
    frame itself and replaces every lag or rolling feature column by its
    shift of [h] places inside each series: the value at a row is the
    value of the same column [h] rows earlier in the row's series, missing
    when the series has no such row.  Rows, dates and all other columns are
    kept, and the model is fitted on what [dropna] leaves of this frame. *)
Theorem horizon_features_shifted_by_h (train_df : Frame) (fn : list string)
    (h : Z) (Xh : Frame) :
  NoDup fn ->
  shift_features train_df fn h = Ok Xh ->
  horizon_frame train_df fn h = dropna fn Xh
  /\ List.length (rows Xh) = List.length (rows train_df)
  /\ forall j r0, nth_error (rows train_df) j = Some r0 ->
       exists r,
         nth_error (rows Xh) j = Some r
         /\ cat r = cat r0 /\ date r = date r0
         /\ (forall c, In c fn -> is_lag_roll c = true ->
               num r c = shifted_value ["id"] c h (rows train_df) j r0)
         /\ (forall c, is_lag_roll c = false \/ ~ In c fn -> num r c = num r0 c).
Proof.
  intros Hn Hs. split; [unfold horizon_frame; now rewrite Hs|].
  unfold shift_features in Hs.
  destruct (negb (mem "id" (columns train_df))); [discriminate|].
  apply foldM_shift_feature in Hs; [|now apply NoDup_filter].
  destruct Hs as [Hlen Hrows]. split; auto.
  intros j r0 Hr. destruct (Hrows j r0 Hr) as [r [H1 [H2 [H3 [H4 H5]]]]].
  exists r. repeat split; auto.
  - intros c Hc Hl.
    assert (Hin : In c (filter is_lag_roll fn)) by (apply filter_In; auto).
    specialize (H4 c Hin).
    rewrite (nth_error_groupby_shift ["id"] c h _ j r0 Hr) in H4.
    injection H4 as <-. reflexivity.
  - intros c Hc. apply H5. rewrite filter_In. intros [Hin Hl].
    destruct Hc; congruence.
Qed.

Lemma horizon_features_shifted_witness :
  exists r,
    nth_error (match shift_features sample_test ["x_lag_1"] 1 with
               | Ok Xh => rows Xh
               | Raise _ => []
               end) 2 = Some r
    /\ num r "x_lag_1" = q 1 /\ num r "sales" = q 3.
Proof.
  destruct (shift_features sample_test ["x_lag_1"] 1) as [Xh|e] eqn:E;
    [|vm_compute in E; discriminate].
  destruct (horizon_features_shifted_by_h sample_test ["x_lag_1"] 1 Xh)
    as [_ [_ H]].
  - apply nodupb_NoDup. reflexivity.
  - exact E.
  - destruct (H 2%nat (sample_row "a" 6 [("sales", q 3); ("x_lag_1", q 3)]) eq_refl)
      as [r [H1 [_ [_ [H4 H5]]]]].
    exists r. split; [exact H1|]. split.
    + rewrite (H4 "x_lag_1"); [reflexivity|simpl; auto|reflexivity].
    + rewrite (H5 "sales"); [reflexivity|left; reflexivity].
Defined.

(** C2, counterexample.  For horizon 1 a shift of [h - 1] is no shift;
    the frame of horizon 1 holds the feature column moved by one place. *)
Lemma horizon_one_is_shifted :
  let shifted := match shift_features sample_test ["x_lag_1"] 1 with
                 | Ok Xh => map (fun r => num r "x_lag_1") (rows Xh)
                 | Raise _ => []
                 end in
  shifted = [None; None; q 1; q 5; None]
  /\ shifted = groupby_shift ["id"] "x_lag_1" 1 (rows sample_test)
  /\ shifted <> groupby_shift ["id"] "x_lag_1" (1 - 1) (rows sample_test).
Proof.
  cbv zeta. split; [reflexivity|]. split; [reflexivity|].
  intros H. vm_compute in H. discriminate.
Qed.

(** Errors of the trainer's own steps are all [KeyError]. *)
Lemma foldM_shift_feature_error (h : Z) (cols : list string) (X : Frame)
    (e : string) :
  foldM (shift_feature h) cols X = Raise e -> e = "KeyError".
Proof.
  revert X. induction cols as [|c cols IH]; intros X; simpl; [discriminate|].
  unfold shift_feature at 1.
  destruct (_ && _); simpl; [apply IH|]. now intros [= <-].
Qed.

Lemma horizon_frame_error (df : Frame) (fn : list string) (h : Z) (e : string) :
  horizon_frame df fn h = Raise e -> e = "KeyError".
Proof.
  unfold horizon_frame, shift_features.
  destruct (negb _); simpl; [now intros [= <-]|].
  destruct (foldM _ _ df) as [X|e'] eqn:E; simpl.
  - unfold dropna. destruct (has_columns fn X); [discriminate|]. now intros [= <-].
  - apply foldM_shift_feature_error in E. now intros [= <-].
Qed.

Lemma fit_horizon_error (lgb : Trainer) (df : Frame) (fn : list string)
    (self : HierarchicalLGBM) (h : Z) (e : string) :
  fit_horizon lgb df fn self h = Raise e ->
  e = "KeyError"
  \/ exists X y, lgb (params self) (num_boost_round self) X y = Raise e.
Proof.
  unfold fit_horizon.
  destruct (horizon_frame df fn h) as [Xh|e'] eqn:E; simpl.
  2:{ apply horizon_frame_error in E. intros [= <-]. auto. }
  destruct (mem "sales" (num_columns Xh)); simpl; [|intros [= <-]; auto].
  unfold values_of. destruct (has_columns fn Xh); simpl; [|intros [= <-]; auto].
  intros H. right. eauto.
Qed.

Lemma fit_horizon_empty (lgb : Trainer) (df : Frame) (fn : list string)
    (self : HierarchicalLGBM) (h : Z) (Xh : Frame) :
  horizon_frame df fn h = Ok Xh -> rows Xh = [] ->
  fit_horizon lgb df fn self h =
  if mem "sales" (num_columns Xh)
  then lgb (params self) (num_boost_round self) [] []
  else Raise "KeyError".
Proof.
  intros Hf Hr. unfold fit_horizon. rewrite Hf. simpl.
  destruct (mem "sales" (num_columns Xh)); simpl; auto.
  assert (Hc : has_columns fn Xh = true).
  { unfold horizon_frame in Hf.
    destruct (shift_features df fn h) as [Xs|]; simpl in Hf; [|discriminate].
    unfold dropna in Hf. destruct (has_columns fn Xs) eqn:Hc; [|discriminate].
    injection Hf as <-. exact Hc. }
  unfold values_of. rewrite Hc, Hr. reflexivity.
Qed.

Lemma train_horizon_params (lgb : Trainer) (df : Frame) (fn : list string)
    (s s' : HierarchicalLGBM) (h : Z) :
  train_horizon lgb df fn s h = Ok s' ->
  params s' = params s /\ num_boost_round s' = num_boost_round s.
Proof.
  unfold train_horizon. destruct (fit_horizon _ _ _ _ _); simpl; [|discriminate].
  intros [= <-]. auto.
Qed.

Lemma fit_horizon_params (lgb : Trainer) (df : Frame) (fn : list string)
    (s s' : HierarchicalLGBM) (h : Z) :
  params s' = params s -> num_boost_round s' = num_boost_round s ->
  fit_horizon lgb df fn s' h = fit_horizon lgb df fn s h.
Proof. intros Hp Hr. unfold fit_horizon. now rewrite Hp, Hr. Qed.

Lemma train_loop_fails (lgb : Trainer) (df : Frame) (fn : list string)
    (self : HierarchicalLGBM) (h : Z) (e : string) (l : list Z) :
  In h l -> fit_horizon lgb df fn self h = Raise e ->
  forall s, params s = params self -> num_boost_round s = num_boost_round self ->
    exists e', foldM (train_horizon lgb df fn) l s = Raise e'.
Proof.
  intros Hin Hfit. induction l as [|a l IH]; [contradiction|].
  intros s Hp Hr. simpl.
  destruct (train_horizon lgb df fn s a) as [s'|e'] eqn:E; simpl; [|eauto].
  destruct (train_horizon_params _ _ _ _ _ _ E) as [Hp' Hr'].
  destruct Hin as [->|Hin].
  - unfold train_horizon in E.
    rewrite (fit_horizon_params lgb df fn self s h Hp Hr), Hfit in E.
    discriminate.
  - apply IH; auto; congruence.
Qed.

Lemma train_loop_error (lgb : Trainer) (df : Frame) (fn : list string)
    (self : HierarchicalLGBM) (e : string) (l : list Z) :
  forall s, params s = params self -> num_boost_round s = num_boost_round self ->
    foldM (train_horizon lgb df fn) l s = Raise e ->
    exists h, In h l /\ fit_horizon lgb df fn self h = Raise e.
Proof.
  induction l as [|a l IH]; intros s Hp Hr; simpl; [discriminate|].
  destruct (train_horizon lgb df fn s a) as [s'|e'] eqn:E; simpl.
  - destruct (train_horizon_params _ _ _ _ _ _ E) as [Hp' Hr'].
    intros H. destruct (IH s') as [h [H1 H2]]; try congruence. eauto.
  - intros [= ->]. exists a. split; auto.
    unfold train_horizon in E.
    rewrite (fit_horizon_params lgb df fn self s a Hp Hr) in E.
    destruct (fit_horizon lgb df fn self a); simpl in E; congruence.
Qed.

Lemma in_range1 (n h : Z) : (1 <= h <= n)%Z -> In h (range1 n).
Proof.
  intros H. unfold range1. apply in_map_iff.
  exists (Z.to_nat (h - 1)). split; [lia|]. apply in_seq. lia.
Qed.

(** C6, as the code has it.  [train] has no check of its own for a horizon
    without rows: it hands the empty dataset to the boosted-tree primitive.
    When the primitive refuses it, [train] fails and returns no models;
    and every failure of [train] is a [KeyError] for a missing column or
    the failure of the primitive, passed on unchanged. *)
Theorem train_fails_as_primitive_fails (lgb : Trainer) (self : HierarchicalLGBM)
    (train_df : Frame) (fn : list string) :
  (forall h Xh e,
      (1 <= h <= num_models self)%Z ->
      horizon_frame train_df fn h = Ok Xh -> rows Xh = [] ->
      lgb (params self) (num_boost_round self) [] [] = Raise e ->
      exists e', train lgb self train_df fn = Raise e')
  /\ (forall e,
        train lgb self train_df fn = Raise e ->
        e = "KeyError"
        \/ exists X y, lgb (params self) (num_boost_round self) X y = Raise e).
Proof.
  split.
  - intros h Xh e Hh Hf Hr He. unfold train.
    assert (Hfit : exists e0, fit_horizon lgb train_df fn self h = Raise e0).
    { rewrite (fit_horizon_empty lgb train_df fn self h Xh Hf Hr).
      destruct (mem "sales" (num_columns Xh)); eauto. }
    destruct Hfit as [e0 Hfit].
    eapply train_loop_fails; eauto. now apply in_range1.
  - intros e He. unfold train in He.
    apply (train_loop_error lgb train_df fn self) in He; auto.
    destruct He as [h [_ He]]. eapply fit_horizon_error; eauto.
Qed.

(** C6, counterexample.  Horizon 3 of the sample keeps no row.  With a
    primitive that refuses empty data the run fails with the primitive's
    error, not with [InsufficientDataError]; with one that accepts empty
    data the run succeeds. *)
Lemma train_empty_horizon :
  let self := mkLGBM [] 10 3 [] in
  match horizon_frame sample_test ["x_lag_1"] 3 with
  | Ok Xh => rows Xh = []
  | Raise _ => False
  end
  /\ train strict_trainer self sample_test ["x_lag_1"] = Raise "LightGBMError"
  /\ train strict_trainer self sample_test ["x_lag_1"]
     <> Raise "InsufficientDataError"
  /\ match train lenient_trainer self sample_test ["x_lag_1"] with
     | Ok m => map fst (models m) = [1; 2; 3]%Z
     | Raise _ => False
     end.
Proof.
  cbv zeta. split; [reflexivity|]. split; [reflexivity|]. split.
  - intros H. vm_compute in H. discriminate.
  - reflexivity.
Qed.

(** ** The panel builder (C9) *)

(** C9, at a sample.  With [history_days = 2] and [test_horizon = 1] over
    ten consecutive days, both filters keep the dates from
    [max - 3] to [max]: the panel spans four days, one more than
    [history_days + test_horizon]. *)
Theorem load_data_keeps_one_more_day :
  let self := mkLoader 2 1 in
  match load_data self (Some (sample_calendar 12)) (Some []) (Some sample_sales) with
  | Ok panel =>
      distinct_dates panel = [7; 8; 9; 10]%Z
      /\ List.length (distinct_dates panel)
         = S (Z.to_nat (history_days self + test_horizon self))
  | Raise _ => False
  end.
Proof. vm_compute. split; reflexivity. Qed.

(** The final filter keeps the rows dated from [max - test_horizon -
    history_days] to [max], both ends included, where [max] is the latest
    date of the table it is given. *)
Lemma temporal_filter_window (self : M5DataLoader) (long : list LongRow)
    (l : LongRow) :
  In l (_apply_temporal_filter self long) <->
  In l long
  /\ exists d m, long_date l = Some d
                 /\ max_date (some_dates (map long_date long)) = Some m
                 /\ (m - test_horizon self - history_days self <= d <= m)%Z.
Proof.
  unfold _apply_temporal_filter.
  destruct (max_date _) as [m|]; simpl.
  - rewrite filter_In. split.
    + intros [H1 H2]. split; auto. destruct (long_date l) as [d|]; [|discriminate].
      exists d, m. apply andb_true_iff in H2. destruct H2 as [A B].
      apply Z.leb_le in A, B. repeat split; auto.
    + intros [H1 [d [m' [Hd [[= <-] [A B]]]]]]. split; auto. rewrite Hd.
      apply andb_true_iff. split; apply Z.leb_le; auto.
  - split; [contradiction|]. intros [_ [d [m [_ [H _]]]]]. discriminate.
Qed.

(** ** Running the feature engine on the store *)

Lemma bindM_ok {A B : Type} {m : M A} {k : A -> M B} {h h' : heap} {a : A} :
  m h = Ok (a, h') -> bindM m k h = k a h'.
Proof. intros H. unfold bindM. now rewrite H. Qed.

Lemma bindM_raise {A B : Type} {m : M A} {k : A -> M B} {h : heap} {e : string} :
  m h = Raise e -> bindM m k h = Raise e.
Proof. intros H. unfold bindM. now rewrite H. Qed.

Lemma get_ok (h : heap) (r : ref) (f : Frame) :
  nth_error h r = Some f -> get r h = Ok (f, h).
Proof. intros H. unfold get. now rewrite H. Qed.

Lemma update_same (h : heap) (r : ref) (f : Frame) :
  nth_error h r = Some f -> update h r f = h.
Proof.
  revert r. induction h as [|x h IH]; intros [|r]; simpl; try discriminate; auto.
  - now intros [= ->].
  - intros H. now rewrite IH.
Qed.

Lemma update_update (h : heap) (r : ref) (a b : Frame) :
  update (update h r a) r b = update h r b.
Proof.
  revert r. induction h as [|x h IH]; intros [|r]; simpl; auto. now rewrite IH.
Qed.

Lemma setitem_ok (h : heap) (r : ref) (f : Frame) (c : string) (vs : list float) :
  nth_error h r = Some f ->
  setitem r c vs h = Ok (tt, update h r (set_column c vs f)).
Proof.
  intros H. unfold setitem. rewrite (bindM_ok (get_ok h r f H)).
  reflexivity.
Qed.

Lemma run_encode_loop (cols : list string) (h : heap) (df : ref) (f : Frame) :
  nth_error h df = Some f ->
  forM_ cols (fun col =>
                f <~ get df ;;
                if mem col (columns f)
                then setitem df (col ++ "_enc") (factorize_column col f)
                else retM tt) h
  = Ok (tt, update h df (fold_left encode_step cols f)).
Proof.
  revert h f. induction cols as [|col cols IH]; intros h f Hf; simpl.
  - unfold retM. now rewrite update_same.
  - assert (Hstep : (f0 <~ get df ;;
                     if mem col (columns f0)
                     then setitem df (col ++ "_enc") (factorize_column col f0)
                     else retM tt) h
                    = Ok (tt, update h df (encode_step f col))).
    { rewrite (bindM_ok (get_ok h df f Hf)). unfold encode_step.
      destruct (mem col (columns f)).
      - now apply setitem_ok.
      - unfold retM. now rewrite update_same. }
    rewrite (bindM_ok Hstep).
    rewrite (IH _ (encode_step f col)).
    + now rewrite update_update.
    + eapply nth_error_update_same; eauto.
Qed.

Lemma run_encode (h : heap) (df : ref) (f : Frame) :
  nth_error h df = Some f ->
  _encode_categorical df h = Ok (df, update h df (encoded f)).
Proof.
  intros Hf. unfold _encode_categorical.
  rewrite (bindM_ok (run_encode_loop _ h df f Hf)). reflexivity.
Qed.

Lemma run_date (h : heap) (df : ref) (f : Frame) :
  nth_error h df = Some f ->
  _create_date_features df h =
  if mem "wday" (columns f) then Ok (df, update h df (dated f))
  else Raise "KeyError".
Proof.
  intros Hf. unfold _create_date_features.
  rewrite (bindM_ok (get_ok h df f Hf)).
  destruct (mem "wday" (columns f)).
  - rewrite (bindM_ok (setitem_ok h df f _ _ Hf)). reflexivity.
  - reflexivity.
Qed.

Lemma lift_ok (A : Type) (a : A) (h : heap) : lift (Ok a) h = Ok (a, h).
Proof. reflexivity. Qed.

Lemma run_aggregated (h : heap) (df : ref) (f : Frame) (g : list string)
    (p : string) :
  nth_error h df = Some f ->
  _create_aggregated_sales df g p h =
  match aggregated f g p with
  | Ok a => Ok (List.length h, h ++ [a])
  | Raise e => Raise e
  end.
Proof.
  intros Hf. unfold _create_aggregated_sales, aggregated.
  rewrite (bindM_ok (get_ok h df f Hf)).
  destruct (groupby_mean g "sales" f) as [a|e]; reflexivity.
Qed.

(** One level allocates its frames after the objects of the store and
    changes none of them. *)
Lemma run_level (self : FeatureEngineer) (h : heap) (df : ref) (f : Frame)
    (level : Level) :
  nth_error h df = Some f ->
  match level_frame self f level with
  | Ok out => exists junk,
      _create_hierarchical_level self df level h
      = Ok (List.length (h ++ junk), (h ++ junk) ++ [out])
  | Raise e => _create_hierarchical_level self df level h = Raise e
  end.
Proof.
  intros Hf. unfold level_frame, _create_hierarchical_level.
  destruct (list_eqb (groupby level) ["id"]).
  - rewrite (run_add_lag_rolling self h df f _ _ _ Hf).
    destruct (lag_rolling_frame _ _ _ _ _) as [out|e]; auto.
    exists []. now rewrite app_nil_r.
  - pose proof (run_aggregated h df f (groupby level) (prefix level) Hf) as Ha.
    destruct (aggregated f (groupby level) (prefix level)) as [a|e]; simpl;
      [|now apply bindM_raise].
    rewrite (bindM_ok Ha).
    pose proof (run_add_lag_rolling self (h ++ [a]) (List.length h) a
                  (groupby level) ("sales_" ++ prefix level) (prefix level)
                  (nth_error_last h a)) as Hl.
    destruct (lag_rolling_frame self a _ _ _) as [a'|e]; simpl;
      [|now apply bindM_raise].
    rewrite (bindM_ok Hl).
    rewrite (bindM_ok (get_ok _ _ _ (nth_error_last (h ++ [a]) a'))).
    fold (keep_cols (groupby level) (prefix level) a').
    destruct (select_columns _ a') as [kept|e]; simpl; [|reflexivity].
    rewrite (bindM_ok (lift_ok _ kept _)).
    assert (Hf' : nth_error ((h ++ [a]) ++ [a']) df = Some f)
      by (apply nth_error_old; now apply nth_error_old).
    rewrite (bindM_ok (get_ok _ _ _ Hf')).
    destruct (merge_left f kept (groupby level)) as [out|e]; simpl; [|reflexivity].
    rewrite (bindM_ok (lift_ok _ out _)).
    exists [a; a']. unfold alloc. rewrite <- !app_assoc. reflexivity.
Qed.

Lemma run_levels (self : FeatureEngineer) (levels : list Level) :
  forall (h : heap) (df : ref) (f : Frame),
    nth_error h df = Some f ->
    match featured self f levels with
    | Ok out => exists r' h',
        _create_hierarchical_features self df levels h = Ok (r', h')
        /\ nth_error h' r' = Some out
        /\ forall r x, nth_error h r = Some x -> nth_error h' r = Some x
    | Raise e => _create_hierarchical_features self df levels h = Raise e
    end.
Proof.
  unfold featured.
  induction levels as [|level levels IH]; intros h df f Hf; simpl.
  - exists df, h. auto.
  - pose proof (run_level self h df f level Hf) as Hl.
    destruct (level_frame self f level) as [out|e]; simpl.
    + destruct Hl as [junk Hl]. rewrite (bindM_ok Hl).
      specialize (IH ((h ++ junk) ++ [out]) (List.length (h ++ junk)) out
                     (nth_error_last _ _)).
      destruct (foldM (level_frame self) levels out) as [out'|e] eqn:E.
      * destruct IH as [r' [h' [H1 [H2 H3]]]]. exists r', h'.
        repeat split; auto. intros r x Hr. apply H3.
        apply nth_error_old. rewrite nth_error_app1; auto.
        apply nth_error_Some. congruence.
      * exact IH.
    + now apply bindM_raise.
Qed.

(** [create_all_features] leaves the encoded and dated frame in the
    caller's object and returns the frame the levels build from it. *)
Lemma run_create_all_features (self : FeatureEngineer) (levels : list Level)
    (h : heap) (df : ref) (f : Frame) (r' : ref) (h' : heap) :
  nth_error h df = Some f ->
  create_all_features self df levels h = Ok (r', h') ->
  exists out,
    featured self (dated (encoded f)) levels = Ok out
    /\ nth_error h' r' = Some out
    /\ nth_error h' df = Some (dated (encoded f))
    /\ forall r x, r <> df -> nth_error h r = Some x -> nth_error h' r = Some x.
Proof.
  intros Hf. unfold create_all_features.
  rewrite (bindM_ok (get_ok h df f Hf)).
  destruct (negb (mem "sales" (columns f))); [discriminate|].
  rewrite (bindM_ok (run_encode h df f Hf)).
  assert (He : nth_error (update h df (encoded f)) df = Some (encoded f))
    by (eapply nth_error_update_same; eauto).
  pose proof (run_date _ df _ He) as Hd.
  destruct (mem "wday" (columns (encoded f)));
    [|rewrite (bindM_raise Hd); discriminate].
  rewrite (bindM_ok Hd). rewrite update_update.
  assert (Hb : nth_error (update h df (dated (encoded f))) df
               = Some (dated (encoded f)))
    by (eapply nth_error_update_same; eauto).
  pose proof (run_levels self levels _ df _ Hb) as Hl.
  destruct (featured self (dated (encoded f)) levels) as [out|e].
  - destruct Hl as [r2 [h2 [H1 [H2 H3]]]]. rewrite H1. intros [= <- <-].
    exists out. repeat split; auto.
    intros r x Hr Hx. apply H3. now rewrite nth_error_update_other.
  - rewrite Hl. discriminate.
Qed.

(** ** Rows and columns through the feature engine (C10, C3) *)

Lemma extends_refl (cs ns : list string) (r : Row) : extends cs ns r r.
Proof. repeat split; auto. Qed.

Lemma extends_trans (cs ns : list string) (a b c : Row) :
  extends cs ns a b -> extends cs ns b c -> extends cs ns a c.
Proof.
  intros [A1 [A2 A3]] [B1 [B2 B3]]. repeat split.
  - congruence.
  - intros x Hx. rewrite B2, A2; auto.
  - intros x Hx. rewrite B3, A3; auto.
Qed.

Lemma Forall2_trans (A : Type) (R : A -> A -> Prop) (l1 l2 l3 : list A) :
  (forall a b c, R a b -> R b c -> R a c) ->
  Forall2 R l1 l2 -> Forall2 R l2 l3 -> Forall2 R l1 l3.
Proof.
  intros Ht H. revert l3. induction H as [|a b l1 l2 Hab _ IH]; intros l3 H23;
    inversion H23; subst; constructor; eauto.
Qed.

Lemma Forall2_of_nth (A B : Type) (R : A -> B -> Prop) (l : list A) (l' : list B) :
  List.length l' = List.length l ->
  (forall j a, nth_error l j = Some a ->
               exists b, nth_error l' j = Some b /\ R a b) ->
  Forall2 R l l'.
Proof.
  revert l'. induction l as [|a l IH]; intros [|b l'] Hlen H; simpl in *;
    try discriminate; constructor.
  - destruct (H 0%nat a eq_refl) as [b' [[= <-] Hr]]. exact Hr.
  - apply IH; [lia|]. intros j x Hx. apply (H (S j) x Hx).
Qed.

Lemma Forall2_refl_on (A : Type) (R : A -> A -> Prop) (l : list A) :
  (forall a, R a a) -> Forall2 R l l.
Proof. intros H. induction l; constructor; auto. Qed.

(** An order-preserving step after a permuted one. *)
Lemma permuted_then (R : Row -> Row -> Prop) (l0 l1 l1' l2 : list Row) :
  (forall a b c, R a b -> R b c -> R a c) ->
  (exists s, Permutation s l0 /\ Forall2 R s l1) ->
  Permutation l1' l1 -> Forall2 R l1' l2 ->
  exists s, Permutation s l0 /\ Forall2 R s l2.
Proof.
  intros Ht [s [Hp Hs]] Hp1 H12.
  apply Forall2_flip in Hs.
  destruct (@Permutation_Forall2 _ _ (fun a b => R b a) _ _ _
              (Permutation_sym Hp1) Hs) as [s' [Hp' Hs']].
  exists s'. split.
  - now rewrite <- Hp', Hp.
  - eapply Forall2_trans; eauto. now apply Forall2_flip in Hs'.
Qed.

Lemma set_column_cat (c : string) (vs : list float) (f : Frame) (x : string) :
  In x (cat_columns (set_column c vs f)) <-> In x (cat_columns f) /\ x <> c.
Proof.
  simpl. rewrite filter_In. split; intros [H1 H2]; split; auto.
  - intros ->. rewrite String.eqb_refl in H2. discriminate.
  - apply negb_true_iff. now apply String.eqb_neq.
Qed.

Lemma set_column_num (c : string) (vs : list float) (f : Frame) (x : string) :
  In x (num_columns (set_column c vs f)) <-> In x (num_columns f) \/ x = c.
Proof.
  simpl. destruct (mem c (num_columns f)) eqn:M.
  - apply mem_In in M. split; auto. intros [H| ->]; auto.
  - rewrite in_app_iff. simpl. intuition.
Qed.

Lemma assign_all_cat (l : list (string * list float)) (f : Frame) (x : string) :
  In x (cat_columns (assign_all f l)) <->
  In x (cat_columns f) /\ forall a, In a l -> fst a <> x.
Proof.
  revert f. induction l as [|a l IH]; intros f.
  - simpl. intuition.
  - unfold assign_all. simpl. fold (assign_all (set_column (fst a) (snd a) f) l).
    rewrite IH, set_column_cat. split.
    + intros [[H1 H2] H3]. split; auto. intros b [<-|Hb]; auto.
    + intros [H1 H2]. repeat split; auto. intros E. apply (H2 a); auto.
Qed.

Lemma assign_all_num (l : list (string * list float)) (f : Frame) (x : string) :
  In x (num_columns (assign_all f l)) <->
  In x (num_columns f) \/ In x (map fst l).
Proof.
  revert f. induction l as [|a l IH]; intros f.
  - simpl. intuition.
  - unfold assign_all. simpl. fold (assign_all (set_column (fst a) (snd a) f) l).
    rewrite IH, set_column_num. intuition.
Qed.

Lemma assign_all_extends (cs ns : list string) (l : list (string * list float))
    (f : Frame) :
  (forall c, In c ns -> ~ In c (map fst l)) ->
  Forall2 (extends cs ns) (rows f) (rows (assign_all f l)).
Proof.
  intros Hns. apply Forall2_of_nth; [apply assign_all_length|].
  intros j r0 Hr. destruct (assign_all_rows l f j r0 Hr) as [r [H1 [H2 [H3 H4]]]].
  exists r. split; auto. repeat split; auto.
  - intros c _. now rewrite H2.
  - intros c Hc. apply H4. intros a Ha E. apply (Hns c Hc).
    apply in_map_iff. eauto.
Qed.

Lemma level_assignments_names (self : FeatureEngineer) (g : list string)
    (v p : string) (src : list Row) :
  map fst (lag_assignments self g v p src ++ roll_assignments self g v p src)
  = level_names self p.
Proof.
  unfold lag_assignments, roll_assignments, level_names.
  rewrite map_app, !map_map. reflexivity.
Qed.

(** What one call of [_add_lag_rolling_features] keeps. *)
Lemma lag_rolling_frame_keeps (self : FeatureEngineer) (f out : Frame)
    (g : list string) (v p : string) (cs ns : list string) :
  lag_rolling_frame self f g v p = Ok out ->
  (forall c, In c ns -> ~ In c (level_names self p)) ->
  Forall2 (extends cs ns) (sort_rows g (rows f)) (rows out)
  /\ (forall c, In c (cat_columns out) <->
                In c (cat_columns f) /\ ~ In c (level_names self p))
  /\ (forall c, In c (num_columns out) <->
                In c (num_columns f) \/ In c (level_names self p)).
Proof.
  unfold lag_rolling_frame.
  destruct (lag_rolling_ready self f g v) as [[]|]; [|discriminate].
  simpl. intros [= <-] Hns.
  set (src := sort_rows g (rows f)).
  set (l := lag_assignments self g v p src ++ roll_assignments self g v p src).
  pose proof (level_assignments_names self g v p src) as Hl. fold l in Hl.
  repeat split.
  - apply (assign_all_extends cs ns l (mkFrame (cat_columns f) (num_columns f) src)).
    now rewrite Hl.
  - apply assign_all_cat in H. tauto.
  - apply assign_all_cat in H. destruct H as [_ H]. rewrite <- Hl.
    intros Hin. apply in_map_iff in Hin. destruct Hin as [a [E Ha]].
    apply (H a Ha E).
  - intros [H1 H2]. apply assign_all_cat. split; auto.
    intros a Ha E. apply H2. rewrite <- Hl. apply in_map_iff. eauto.
  - intros H. apply assign_all_num in H. now rewrite Hl in H.
  - intros H. apply assign_all_num. now rewrite Hl.
Qed.

Lemma same_key_date_iff (g : list string) (a b : Row) :
  same_key_date g a b = true <-> key_date g a = key_date g b.
Proof.
  unfold same_key_date, key_date. rewrite andb_true_iff, same_group_iff, Z.eqb_eq.
  split; [intros [-> ->]; reflexivity|]. intros [= -> ->]. auto.
Qed.

Lemma at_most_one_match (g : list string) (l : Row) (rs : list Row) :
  NoDup (map (key_date g) rs) ->
  filter (same_key_date g l) rs = []
  \/ exists r, filter (same_key_date g l) rs = [r].
Proof.
  induction rs as [|x rs IH]; simpl; intros Hn; auto.
  inversion Hn as [|? ? Hnot Hn']; subst.
  destruct (same_key_date g l x) eqn:E; [|auto].
  right. exists x. f_equal. apply filter_none. intros y Hy.
  destruct (same_key_date g l y) eqn:E'; auto. exfalso. apply Hnot.
  apply same_key_date_iff in E, E'. rewrite <- E, E'. now apply in_map.
Qed.

(** Dropping rows keeps the (key, date) pairs distinct. *)
Lemma key_dates_filter (g : list string) (keep : Row -> bool) (rs : list Row) :
  NoDup (map (key_date g) rs) -> NoDup (map (key_date g) (filter keep rs)).
Proof.
  induction rs as [|r rs IH]; simpl; auto. intros Hn.
  inversion Hn as [|? ? Hnot Hn']; subst.
  destruct (keep r); simpl; auto. constructor; auto.
  intros Hin. apply Hnot. apply in_map_iff in Hin.
  destruct Hin as [y [E Hy]]. apply filter_In in Hy.
  rewrite <- E. apply in_map. tauto.
Qed.

Lemma distinct_rows_NoDup (g : list string) (l : list Row) :
  NoDup (map (key_date g) (distinct_rows g l)).
Proof.
  induction l as [|r l IH]; simpl; constructor.
  - intros Hin. apply in_map_iff in Hin. destruct Hin as [y [E Hy]].
    apply filter_In in Hy. destruct Hy as [_ Hy].
    apply negb_true_iff in Hy.
    assert (same_key_date g r y = true) by (apply same_key_date_iff; congruence).
    congruence.
  - now apply key_dates_filter.
Qed.

Lemma NoDup_app_inv (A : Type) (a b : list A) :
  NoDup (a ++ b) -> NoDup a /\ NoDup b /\ forall x, In x a -> ~ In x b.
Proof.
  induction a as [|x a IH]; simpl; intros H.
  - repeat split; auto. constructor.
  - inversion H as [|? ? Hnot Hn]; subst. destruct (IH Hn) as [H1 [H2 H3]].
    repeat split; auto.
    + constructor; auto. intros Hin. apply Hnot. apply in_or_app. auto.
    + intros y [<-|Hy]; auto. intros Hin. apply Hnot. apply in_or_app. auto.
Qed.

Lemma NoDup_map_inj (A B : Type) (f : A -> B) (l : list A) (x y : A) :
  NoDup (map f l) -> In x l -> In y l -> f x = f y -> x = y.
Proof.
  induction l as [|a l IH]; simpl; [contradiction|]. intros Hn Hx Hy E.
  inversion Hn as [|? ? Hnot Hn']; subst.
  destruct Hx as [<-|Hx], Hy as [<-|Hy]; auto.
  - exfalso. apply Hnot. rewrite E. now apply in_map.
  - exfalso. apply Hnot. rewrite <- E. now apply in_map.
Qed.

Lemma find_src_own (overlap : list string) (sfx : string) (cols : list string)
    (c c0 : string) :
  NoDup (map (suffixed overlap sfx) cols) -> In c cols ->
  suffixed overlap sfx c = c ->
  find_src overlap sfx cols c = Some c0 -> c0 = c.
Proof.
  intros Hn Hc Hs Hf. unfold find_src in Hf. apply find_some in Hf.
  destruct Hf as [H0 E]. apply String.eqb_eq in E.
  eapply NoDup_map_inj; eauto. congruence.
Qed.

Lemma find_src_other (overlap : list string) (sfx : string) (cols : list string)
    (c : string) :
  ~ In c (map (suffixed overlap sfx) cols) ->
  find_src overlap sfx cols c = None.
Proof.
  intros Hn. unfold find_src.
  destruct (find _ cols) as [c0|] eqn:E; auto.
  apply find_some in E. destruct E as [H0 E]. apply String.eqb_eq in E.
  exfalso. apply Hn. rewrite <- E. now apply in_map.
Qed.

Lemma Forall2_flat_map_single (A B : Type) (R : A -> B -> Prop)
    (F : A -> list B) (l : list A) :
  (forall a, In a l -> exists b, F a = [b] /\ R a b) ->
  Forall2 R l (flat_map F l).
Proof.
  induction l as [|a l IH]; simpl; intros H; [constructor|].
  destruct (H a (or_introl eq_refl)) as [b [-> Hb]]. simpl.
  constructor; auto.
Qed.

(** The left join keeps every left row once, in order, with its values in
    the columns the right side does not bring. *)
Lemma merge_left_keeps (left right out : Frame) (g cs ns : list string) :
  merge_left left right g = Ok out ->
  NoDup (map (key_date g) (rows right)) ->
  incl cs (cat_columns left) -> incl ns (num_columns left) ->
  (forall c, In c (cs ++ ns) ->
             ~ In c (non_keys g (cat_columns right) ++ num_columns right)) ->
  Forall2 (extends cs ns) (rows left) (rows out)
  /\ incl cs (cat_columns out) /\ incl ns (num_columns out).
Proof.
  unfold merge_left. destruct (negb (_ && _)); [discriminate|].
  destruct (negb (_ && _)); [discriminate|].
  set (rcat := non_keys g (cat_columns right)).
  set (rnum := num_columns right).
  set (overlap := filter (fun c => mem c (rcat ++ rnum))
                         (non_keys g (cat_columns left) ++ num_columns left)).
  destruct (negb (nodupb _)) eqn:Hd; [discriminate|].
  apply negb_false_iff, nodupb_NoDup in Hd.
  intros [= <-] Hkd Hcs Hns Hfresh. simpl.
  assert (Hsfx : forall c sfx, In c (cs ++ ns) -> suffixed overlap sfx c = c).
  { intros c sfx Hc. unfold suffixed.
    destruct (mem c overlap) eqn:M; auto. apply mem_In in M.
    unfold overlap in M. apply filter_In in M. destruct M as [_ M].
    apply mem_In in M. exfalso. eapply Hfresh; eauto. }
  apply NoDup_app_inv in Hd. destruct Hd as [Hc [Hn _]].
  apply NoDup_app_inv in Hc. destruct Hc as [Hlc [_ Hlrc]].
  inversion Hn as [|? ? _ Hn']; subst. clear Hn.
  apply NoDup_app_inv in Hn'. destruct Hn' as [Hln [_ Hlrn]].
  assert (Hin_c : forall c, In c cs ->
            In c (map (suffixed overlap "_x") (cat_columns left))).
  { intros c Hc. rewrite <- (Hsfx c "_x") by (apply in_or_app; auto).
    apply in_map. auto. }
  assert (Hin_n : forall c, In c ns ->
            In c (map (suffixed overlap "_x") (num_columns left))).
  { intros c Hc. rewrite <- (Hsfx c "_x") by (apply in_or_app; auto).
    apply in_map. auto. }
  repeat split.
  - apply Forall2_flat_map_single. intros l _.
    assert (Hx : forall ro, extends cs ns l
                   (merge_row overlap (cat_columns left) (num_columns left)
                              rcat rnum l ro)).
    { intros ro. repeat split; simpl.
      - intros c Hc. rewrite find_src_other by (apply Hlrc; auto).
        destruct (find_src overlap "_x" (cat_columns left) c) as [c0|] eqn:E; auto.
        apply find_src_own in E; auto; [now subst|].
        apply Hsfx. apply in_or_app. auto.
      - intros c Hc. rewrite find_src_other by (apply Hlrn; auto).
        destruct (find_src overlap "_x" (num_columns left) c) as [c0|] eqn:E; auto.
        apply find_src_own in E; auto; [now subst|].
        apply Hsfx. apply in_or_app. auto. }
    destruct (at_most_one_match g l (rows right) Hkd) as [-> | [r ->]];
      simpl; eauto.
  - intros c Hc. apply in_or_app. left. auto.
  - intros c Hc. apply in_or_app. left. auto.
Qed.

Lemma key_dates_of_rows (g : list string) (l l' : list Row) :
  List.length l' = List.length l ->
  (forall j r0, nth_error l j = Some r0 ->
                exists r, nth_error l' j = Some r
                          /\ cat r = cat r0 /\ date r = date r0) ->
  map (key_date g) l' = map (key_date g) l.
Proof.
  intros Hlen H. apply nth_error_ext. intros j. rewrite !nth_error_map.
  destruct (nth_error l j) as [r0|] eqn:E.
  - destruct (H j r0 E) as [r [-> [Hc Hd]]]. simpl.
    unfold key_date, key_of. now rewrite Hc, Hd.
  - apply nth_error_None in E.
    assert (E' : nth_error l' j = None) by (apply nth_error_None; lia).
    now rewrite E'.
Qed.

(** The aggregate frame has one row per (key, date), the grouping columns
    as its object columns and the aggregate signal as its only numeric
    column. *)
Lemma aggregated_shape (f agg : Frame) (g : list string) (p : string) :
  aggregated f g p = Ok agg ->
  cat_columns agg = g
  /\ num_columns agg = [("sales_" ++ p)%string]
  /\ NoDup (map (key_date g) (rows agg)).
Proof.
  unfold aggregated, groupby_mean.
  destruct (has_cat_columns g f && mem "sales" (num_columns f)); [|discriminate].
  simpl. intros [= <-]. simpl. repeat split.
  rewrite !map_map. simpl.
  change (NoDup (map (key_date g) (sort_rows g (distinct_rows g (rows f))))).
  eapply Permutation_NoDup; [|apply (distinct_rows_NoDup g (rows f))].
  apply Permutation_map. symmetry. apply sort_rows_perm.
Qed.

(** The frame merged back at an aggregate level: its rows have distinct
    (key, date) pairs, and it brings no column beyond the aggregate signal
    and the level's features. *)
Lemma kept_shape (self : FeatureEngineer) (f agg agg' kept : Frame)
    (g : list string) (p : string) :
  aggregated f g p = Ok agg ->
  lag_rolling_frame self agg g ("sales_" ++ p) p = Ok agg' ->
  select_columns (keep_cols g p agg') agg' = Ok kept ->
  NoDup (map (key_date g) (rows kept))
  /\ (forall c, In c (non_keys g (cat_columns kept) ++ num_columns kept) ->
                c = ("sales_" ++ p)%string \/ In c (level_names self p)).
Proof.
  intros Ha Hl Hs. destruct (aggregated_shape f agg g p Ha) as [A1 [A2 A3]].
  destruct (lag_rolling_frame_rows self agg agg' g _ p Hl) as [L1 [L2 _]].
  destruct (lag_rolling_frame_keeps self agg agg' g _ p [] [] Hl)
    as [_ [K1 K2]]; [intros c []|].
  unfold select_columns in Hs. destruct (forallb _ _); [|discriminate].
  injection Hs as <-. simpl. split.
  - rewrite (key_dates_of_rows g _ _ L1 L2).
    eapply Permutation_NoDup; [|exact A3].
    apply Permutation_map. symmetry. apply sort_rows_perm.
  - intros c Hc. apply in_app_or in Hc. destruct Hc as [Hc|Hc].
    + exfalso. unfold non_keys in Hc. apply filter_In in Hc.
      destruct Hc as [Hc Hk]. apply filter_In in Hc. destruct Hc as [_ Hc].
      apply mem_In, K1 in Hc. destruct Hc as [Hc _]. rewrite A1 in Hc.
      apply mem_In in Hc. rewrite Hc in Hk. discriminate.
    + apply filter_In in Hc. destruct Hc as [_ Hc].
      apply mem_In, K2 in Hc. rewrite A2 in Hc. simpl in Hc.
      destruct Hc as [[<-|[]]|Hc]; auto.
Qed.

(** One level keeps the rows (sorted at the bottom level, in place at an
    aggregate level) and the columns it does not write. *)
Lemma level_frame_keeps (self : FeatureEngineer) (cur next : Frame)
    (level : Level) (cs ns : list string) :
  level_frame self cur level = Ok next ->
  incl cs (cat_columns cur) -> incl ns (num_columns cur) ->
  (forall c, In c (cs ++ ns) ->
             c <> ("sales_" ++ prefix level)%string
             /\ ~ In c (level_names self (prefix level))) ->
  (exists s, Permutation s (rows cur) /\ Forall2 (extends cs ns) s (rows next))
  /\ incl cs (cat_columns next) /\ incl ns (num_columns next).
Proof.
  unfold level_frame. intros Hl Hcs Hns Hfresh.
  destruct (list_eqb (groupby level) ["id"]).
  - destruct (lag_rolling_frame_keeps self cur next _ _ _ cs ns Hl)
      as [K0 [K1 K2]].
    { intros c Hc. apply Hfresh. apply in_or_app. auto. }
    repeat split.
    + exists (sort_rows (groupby level) (rows cur)). split; auto.
      apply sort_rows_perm.
    + intros c Hc. apply K1. split; auto. apply Hfresh. apply in_or_app. auto.
    + intros c Hc. apply K2. auto.
  - destruct (aggregated cur _ _) as [agg|] eqn:Ha; simpl in Hl; [|discriminate].
    destruct (lag_rolling_frame self agg _ _ _) as [agg'|] eqn:Hg; simpl in Hl;
      [|discriminate].
    destruct (select_columns _ agg') as [kept|] eqn:Hk; simpl in Hl;
      [|discriminate].
    destruct (kept_shape self cur agg agg' kept _ _ Ha Hg Hk) as [S1 S2].
    destruct (merge_left_keeps cur kept next _ cs ns Hl S1 Hcs Hns)
      as [M1 [M2 M3]].
    { intros c Hc Hin. destruct (Hfresh c Hc) as [F1 F2].
      destruct (S2 c Hin); auto. }
    repeat split; auto. exists (rows cur). split; auto.
Qed.

Lemma featured_keeps (self : FeatureEngineer) (levels : list Level)
    (cs ns : list string) :
  forall cur out,
    featured self cur levels = Ok out ->
    incl cs (cat_columns cur) -> incl ns (num_columns cur) ->
    (forall c level, In c (cs ++ ns) -> In level levels ->
                     c <> ("sales_" ++ prefix level)%string
                     /\ ~ In c (level_names self (prefix level))) ->
    (exists s, Permutation s (rows cur) /\ Forall2 (extends cs ns) s (rows out))
    /\ incl cs (cat_columns out) /\ incl ns (num_columns out).
Proof.
  unfold featured.
  induction levels as [|level levels IH]; intros cur out; simpl.
  - intros [= <-] Hcs Hns _. repeat split; auto.
    exists (rows cur). split; auto.
    apply Forall2_refl_on. apply extends_refl.
  - destruct (level_frame self cur level) as [next|] eqn:E; simpl; [|discriminate].
    intros Hf Hcs Hns Hfresh.
    destruct (level_frame_keeps self cur next level cs ns E Hcs Hns)
      as [L1 [L2 L3]].
    { intros c Hc. apply Hfresh; simpl; auto. }
    destruct (IH next out Hf L2 L3) as [[s [P1 P2]] [I2 I3]].
    { intros c l Hc Hl. apply Hfresh; simpl; auto. }
    repeat split; auto.
    apply (permuted_then (extends cs ns) (rows cur) (rows next) s (rows out));
      auto. apply extends_trans.
Qed.

Lemma set_column_keeps (cs ns : list string) (c : string) (vs : list float)
    (f : Frame) :
  ~ In c (cs ++ ns) -> incl cs (cat_columns f) -> incl ns (num_columns f) ->
  Forall2 (extends cs ns) (rows f) (rows (set_column c vs f))
  /\ incl cs (cat_columns (set_column c vs f))
  /\ incl ns (num_columns (set_column c vs f)).
Proof.
  intros Hc Hcs Hns. repeat split.
  - apply (assign_all_extends cs ns [(c, vs)] f). intros x Hx [<-|[]].
    apply Hc. apply in_or_app. auto.
  - intros x Hx. apply set_column_cat. split; auto.
    intros ->. apply Hc. apply in_or_app. auto.
  - intros x Hx. apply set_column_num. auto.
Qed.

Lemma encode_fold_keeps (cs ns : list string) (cols : list string) :
  forall f,
    (forall col, In col cols -> ~ In (col ++ "_enc")%string (cs ++ ns)) ->
    incl cs (cat_columns f) -> incl ns (num_columns f) ->
    Forall2 (extends cs ns) (rows f) (rows (fold_left encode_step cols f))
    /\ incl cs (cat_columns (fold_left encode_step cols f))
    /\ incl ns (num_columns (fold_left encode_step cols f)).
Proof.
  induction cols as [|col cols IH]; intros f Hfresh Hcs Hns; simpl.
  - repeat split; auto. apply Forall2_refl_on. apply extends_refl.
  - assert (Hstep : Forall2 (extends cs ns) (rows f) (rows (encode_step f col))
                    /\ incl cs (cat_columns (encode_step f col))
                    /\ incl ns (num_columns (encode_step f col))).
    { unfold encode_step. destruct (mem col (columns f)).
      - apply set_column_keeps; auto. apply Hfresh. simpl. auto.
      - repeat split; auto. apply Forall2_refl_on. apply extends_refl. }
    destruct Hstep as [S1 [S2 S3]].
    destruct (IH (encode_step f col)) as [I1 [I2 I3]]; auto.
    { intros c Hc. apply Hfresh. simpl. auto. }
    repeat split; auto.
    eapply Forall2_trans; eauto. apply extends_trans.
Qed.

Lemma fresh_panel_spec (self : FeatureEngineer) (levels : list Level)
    (f : Frame) (c : string) :
  fresh_panel self levels f = true ->
  In c (cat_columns f ++ num_columns f) ->
  ~ In c (reserved_names self levels).
Proof.
  unfold fresh_panel. rewrite forallb_forall. intros H Hc Hin.
  specialize (H c Hc). apply negb_true_iff in H.
  apply mem_In in Hin. congruence.
Qed.

(** C10, as the code has it.  The frame [create_all_features] returns holds
    the rows of the input, each once, in some order, with the values of
    every column of the input unchanged, when no column of the input bears
    a name the engine writes.  The caller's frame is changed in place: it
    keeps its rows and values, and receives the encoded columns and
    [is_weekend].  No other object of the store is changed. *)
Theorem create_all_features_keeps_rows (self : FeatureEngineer)
    (levels : list Level) (h : heap) (df : ref) (f : Frame) (r' : ref)
    (h' : heap) :
  nth_error h df = Some f ->
  fresh_panel self levels f = true ->
  create_all_features self df levels h = Ok (r', h') ->
  exists out base,
    nth_error h' r' = Some out
    /\ nth_error h' df = Some base
    /\ (exists s, Permutation s (rows f)
                  /\ Forall2 (extends (cat_columns f) (num_columns f)) s (rows out))
    /\ incl (cat_columns f) (cat_columns out)
    /\ incl (num_columns f) (num_columns out)
    /\ Forall2 (extends (cat_columns f) (num_columns f)) (rows f) (rows base)
    /\ incl (cat_columns f) (cat_columns base)
    /\ incl (num_columns f) (num_columns base)
    /\ In "is_weekend" (num_columns base)
    /\ ~ In "is_weekend" (num_columns f)
    /\ forall r x, r <> df -> nth_error h r = Some x -> nth_error h' r = Some x.
Proof.
  intros Hf Hfresh Hrun.
  destruct (run_create_all_features self levels h df f r' h' Hf Hrun)
    as [out [Hfeat [H1 [H2 H3]]]].
  exists out, (dated (encoded f)). split; auto. split; auto.
  set (cs := cat_columns f). set (ns := num_columns f).
  assert (Hres : forall c, In c (cs ++ ns) -> ~ In c (reserved_names self levels))
    by (intros c Hc; eapply fresh_panel_spec; eauto).
  destruct (encode_fold_keeps cs ns id_columns f) as [E1 [E2 E3]];
    try apply incl_refl.
  { intros col Hcol Hin. apply (Hres _ Hin). unfold reserved_names.
    apply in_or_app. left. apply (in_map (fun c => (c ++ "_enc")%string)). auto. }
  fold (encoded f) in E1, E2, E3.
  destruct (set_column_keeps cs ns "is_weekend"
              (map (fun r => if mem "wday" (num_columns (encoded f))
                             then is_weekend_of (num r "wday")
                             else float_of_Z 0) (rows (encoded f)))
              (encoded f)) as [D1 [D2 D3]]; auto.
  { intros Hin. apply (Hres _ Hin). unfold reserved_names.
    apply in_or_app. right. simpl. auto. }
  fold (dated (encoded f)) in D1, D2, D3.
  assert (B1 : Forall2 (extends cs ns) (rows f) (rows (dated (encoded f))))
    by (eapply Forall2_trans; eauto; apply extends_trans).
  destruct (featured_keeps self levels cs ns _ out Hfeat D2 D3)
    as [[s [P1 P2]] [F2 F3]].
  { intros c level Hc Hl. assert (Hr := Hres c Hc). unfold reserved_names in Hr.
    split.
    - intros ->. apply Hr. apply in_or_app. right. apply in_or_app. right.
      apply in_flat_map. exists level. simpl. auto.
    - intros Hin. apply Hr. apply in_or_app. right. apply in_or_app. right.
      apply in_flat_map. exists level. simpl. auto. }
  repeat split; auto.
  - apply (permuted_then (extends cs ns) (rows f) (rows (dated (encoded f)))
             s (rows out)); auto; [apply extends_trans|].
    exists (rows f). split; auto.
  - unfold dated. apply set_column_num. auto.
  - intros Hin. apply (Hres "is_weekend"); [apply in_or_app; auto|].
    unfold reserved_names. apply in_or_app. right. simpl. auto.
Qed.

Lemma create_all_features_keeps_rows_witness :
  exists out,
    (exists s, Permutation s (rows sample_panel)
               /\ Forall2 (extends id_vars panel_columns) s (rows out))
    /\ incl panel_columns (num_columns out).
Proof.
  destruct (create_all_features sample_engineer 0%nat sample_levels
              [sample_panel]) as [[r' h']|e] eqn:E;
    [|vm_compute in E; discriminate].
  destruct (create_all_features_keeps_rows sample_engineer sample_levels
              [sample_panel] 0%nat sample_panel r' h' eq_refl eq_refl E)
    as [out [base [_ [_ [H3 [_ [H5 _]]]]]]].
  exists out. split; [exact H3|exact H5].
Defined.

(** C10, counterexample.  After the call the caller's panel, object 0 of
    the store, has five columns it did not have. *)
Lemma create_all_features_changes_input :
  match create_all_features sample_engineer 0%nat sample_levels [sample_panel] with
  | Ok (r', h') =>
      option_map columns (nth_error h' 0%nat)
      = Some (columns sample_panel
              ++ ["state_id_enc"; "store_id_enc"; "dept_id_enc"; "item_id_enc";
                  "is_weekend"])
      /\ option_map columns (nth_error h' 0%nat) <> Some (columns sample_panel)
  | Raise _ => False
  end.
Proof.
  vm_compute. split; [reflexivity|]. intros H. discriminate.
Qed.

Lemma prefix_self_append (s t : string) : String.prefix s (s ++ t) = true.
Proof.
  induction s as [|a s IH]; simpl.
  - destruct t; reflexivity.
  - destruct (ascii_dec a a); [assumption|congruence].
Qed.

Lemma append_assoc (a b c : string) : ((a ++ b) ++ c = a ++ b ++ c)%string.
Proof. induction a as [|x a IH]; simpl; auto. now rewrite IH. Qed.

Lemma prefix_append (p s t : string) :
  String.prefix (p ++ s) (p ++ s ++ t) = true.
Proof. rewrite <- append_assoc. apply prefix_self_append. Qed.

Lemma startswith_level_names (self : FeatureEngineer) (p c : string) :
  In c (level_names self p) -> startswith (p ++ "_") c = true.
Proof.
  unfold level_names, startswith. intros H. apply in_app_or in H.
  destruct H as [H|H]; apply in_map_iff in H; destruct H as [k [<- _]].
  - apply (prefix_append p "_" ("lag_" ++ str_int k)).
  - apply (prefix_append p "_" ("roll_" ++ str_int k)).
Qed.

Lemma set_column_NoDup (c : string) (vs : list float) (f : Frame) :
  NoDup (num_columns f) -> NoDup (num_columns (set_column c vs f)).
Proof.
  intros H. simpl. destruct (mem c (num_columns f)) eqn:M; auto.
  apply NoDup_app; auto.
  - repeat constructor. intros [].
  - intros x Hx [<-|[]]. apply mem_In in Hx. congruence.
Qed.

Lemma assign_all_NoDup (l : list (string * list float)) (f : Frame) :
  NoDup (num_columns f) -> NoDup (num_columns (assign_all f l)).
Proof.
  revert f. induction l as [|a l IH]; intros f H; simpl; auto.
  apply IH. now apply set_column_NoDup.
Qed.

Lemma lag_rolling_frame_NoDup (self : FeatureEngineer) (f out : Frame)
    (g : list string) (v p : string) :
  lag_rolling_frame self f g v p = Ok out ->
  NoDup (num_columns f) -> NoDup (num_columns out).
Proof.
  unfold lag_rolling_frame.
  destruct (lag_rolling_ready self f g v) as [[]|]; [|discriminate].
  simpl. intros [= <-] H.
  now apply assign_all_NoDup.
Qed.

Lemma no_elements (A : Type) (l : list A) : (forall x, ~ In x l) -> l = [].
Proof. destruct l as [|x l]; auto. intros H. exfalso. apply (H x). simpl. auto. Qed.

Lemma has_cat_columns_spec (g : list string) (f : Frame) :
  has_cat_columns g f = true <-> forall c, In c g -> In c (cat_columns f).
Proof.
  unfold has_cat_columns. rewrite forallb_forall. split; intros H c Hc.
  - apply mem_In. auto.
  - apply mem_In. auto.
Qed.

Lemma map_suffixed_nil (sfx : string) (l : list string) :
  map (suffixed [] sfx) l = l.
Proof. induction l as [|x l IH]; simpl; auto. now rewrite IH. Qed.

Lemma merge_left_ok (left right out : Frame) (g : list string) :
  merge_left left right g = Ok out ->
  has_cat_columns g right = true /\ NoDup (columns right).
Proof.
  unfold merge_left.
  destruct (has_cat_columns g left && has_cat_columns g right) eqn:E1; simpl;
    [|discriminate].
  destruct (nodupb (columns left) && nodupb (columns right)) eqn:E2; simpl;
    [|discriminate].
  intros _. apply andb_true_iff in E1, E2. split; [tauto|].
  apply nodupb_NoDup. tauto.
Qed.

(** The columns of a left join whose right side brings only new labels. *)
Lemma merge_left_columns (left right out : Frame) (g : list string) :
  merge_left left right g = Ok out ->
  (forall c, In c (non_keys g (cat_columns right) ++ num_columns right) ->
             ~ In c (cat_columns left) /\ ~ In c (num_columns left)) ->
  cat_columns out = cat_columns left ++ non_keys g (cat_columns right)
  /\ num_columns out = num_columns left ++ num_columns right
  /\ NoDup (num_columns out).
Proof.
  unfold merge_left. destruct (negb (_ && _)); [discriminate|].
  destruct (negb (_ && _)); [discriminate|].
  intros Hm Hnew.
  assert (Ho : filter (fun c => mem c (non_keys g (cat_columns right)
                                       ++ num_columns right))
                      (non_keys g (cat_columns left) ++ num_columns left) = []).
  { apply no_elements. intros c Hc. apply filter_In in Hc. destruct Hc as [H1 H2].
    apply mem_In in H2. destruct (Hnew c H2) as [N1 N2].
    apply in_app_or in H1. destruct H1 as [H1|H1]; auto.
    apply filter_In in H1. tauto. }
  rewrite Ho in Hm. rewrite !map_suffixed_nil in Hm.
  destruct (negb (nodupb _)) eqn:Hd; [discriminate|].
  apply negb_false_iff, nodupb_NoDup in Hd. injection Hm as <-. simpl.
  repeat split.
  apply NoDup_app_inv in Hd. destruct Hd as [_ [Hd _]].
  now inversion Hd.
Qed.

(** The columns one level adds. *)
Lemma level_frame_columns (self : FeatureEngineer) (cur next : Frame)
    (level : Level) :
  level_frame self cur level = Ok next ->
  list_eqb (groupby level) ["id"] = true
  \/ startswith (prefix level ++ "_") ("sales_" ++ prefix level) = false ->
  (forall c, In c (level_names self (prefix level)) ->
             ~ In c (cat_columns cur) /\ ~ In c (num_columns cur)) ->
  NoDup (num_columns cur) ->
  (forall c, In c (cat_columns next) <-> In c (cat_columns cur))
  /\ (forall c, In c (num_columns next) <->
                In c (num_columns cur) \/ In c (level_names self (prefix level)))
  /\ NoDup (num_columns next).
Proof.
  unfold level_frame. intros Hl Hsw Hnew Hnd.
  destruct (list_eqb (groupby level) ["id"]) eqn:Hid.
  - destruct (lag_rolling_frame_keeps self cur next _ _ _ [] [] Hl)
      as [_ [K1 K2]]; [intros c []|].
    split; [|split].
    + intros c. rewrite K1. split; [tauto|]. intros Hc. split; auto.
      intros Hin. destruct (Hnew c Hin); auto.
    + exact K2.
    + eapply lag_rolling_frame_NoDup; eauto.
  - destruct Hsw as [Hsw|Hsw]; [discriminate|].
    set (g := groupby level) in *. set (p := prefix level) in *.
    destruct (aggregated cur g p) as [agg|] eqn:Ha; simpl in Hl; [|discriminate].
    destruct (lag_rolling_frame self agg g _ p) as [agg'|] eqn:Hg; simpl in Hl;
      [|discriminate].
    destruct (select_columns _ agg') as [kept|] eqn:Hk; simpl in Hl;
      [|discriminate].
    destruct (aggregated_shape cur agg g p Ha) as [A1 [A2 _]].
    destruct (lag_rolling_frame_keeps self agg agg' g _ p [] [] Hg)
      as [_ [K1 K2]]; [intros c []|].
    rewrite A1 in K1. rewrite A2 in K2.
    destruct (merge_left_ok cur kept next g Hl) as [Hcat Hndk].
    assert (Ek : cat_columns kept
                 = filter (fun c => mem c (cat_columns agg')) (keep_cols g p agg')
                 /\ num_columns kept
                    = filter (fun c => mem c (num_columns agg')) (keep_cols g p agg')).
    { unfold select_columns in Hk. destruct (forallb _ _); [|discriminate].
      injection Hk as <-. auto. }
    destruct Ek as [Ec En].
    assert (Hg_in : forall c, In c g -> In c (cat_columns kept))
      by (now apply has_cat_columns_spec).
    assert (Hrcat : non_keys g (cat_columns kept) = []).
    { apply no_elements. intros c Hc. unfold non_keys in Hc.
      apply filter_In in Hc. destruct Hc as [Hc Hn].
      rewrite Ec in Hc. apply filter_In in Hc. destruct Hc as [_ Hc].
      apply mem_In, K1 in Hc. destruct Hc as [Hc _].
      apply mem_In in Hc. rewrite Hc in Hn. discriminate. }
    assert (Hrnum : forall c, In c (num_columns kept) <-> In c (level_names self p)).
    { intros c. rewrite En, filter_In. split.
      - intros [Hkeep Hnum]. apply mem_In, K2 in Hnum.
        destruct Hnum as [[<-|[]]|Hnum]; auto. exfalso.
        unfold keep_cols in Hkeep. apply in_app_or in Hkeep.
        destruct Hkeep as [Hkeep|Hkeep].
        + unfold columns in Hndk. apply NoDup_app_inv in Hndk.
          destruct Hndk as [_ [_ Hdis]].
          apply (Hdis _ (Hg_in _ Hkeep)). right. rewrite En.
          apply filter_In. split.
          * unfold keep_cols. apply in_or_app. auto.
          * apply mem_In, K2. left. simpl. auto.
        + apply in_app_or in Hkeep. destruct Hkeep as [[Hkeep|[]]|Hkeep].
          * simpl in Hkeep. discriminate.
          * apply filter_In in Hkeep. destruct Hkeep as [_ Hkeep]. congruence.
      - intros Hc. split.
        + unfold keep_cols. apply in_or_app. right. apply in_or_app. right.
          apply filter_In. split; [|eapply startswith_level_names; eauto].
          unfold columns. apply in_or_app. right. right. apply K2. auto.
        + apply mem_In, K2. auto. }
    destruct (merge_left_columns cur kept next g Hl) as [M1 [M2 M3]].
    { rewrite Hrcat. simpl. intros c Hc. apply Hnew. now apply Hrnum. }
    rewrite Hrcat, app_nil_r in M1. rewrite M1, M2.
    repeat split; auto.
    + intros Hc. apply in_app_or in Hc. destruct Hc as [Hc|Hc]; auto.
      right. now apply Hrnum.
    + intros [Hc|Hc]; apply in_or_app; auto. right. now apply Hrnum.
    + now rewrite <- M2.
Qed.

Lemma featured_columns (self : FeatureEngineer) (levels : list Level) :
  forall cur out,
    featured self cur levels = Ok out ->
    (forall l, In l levels ->
               list_eqb (groupby l) ["id"] = true
               \/ startswith (prefix l ++ "_") ("sales_" ++ prefix l) = false) ->
    NoDup (flat_map (fun l => level_names self (prefix l)) levels) ->
    (forall c, In c (flat_map (fun l => level_names self (prefix l)) levels) ->
               ~ In c (cat_columns cur) /\ ~ In c (num_columns cur)) ->
    NoDup (num_columns cur) ->
    (forall c, In c (cat_columns out) <-> In c (cat_columns cur))
    /\ (forall c, In c (num_columns out) <->
                  In c (num_columns cur)
                  \/ In c (flat_map (fun l => level_names self (prefix l)) levels))
    /\ NoDup (num_columns out).
Proof.
  unfold featured.
  induction levels as [|level levels IH]; intros cur out; simpl.
  - intros [= <-] _ _ _ Hnd. repeat split; auto; tauto.
  - destruct (level_frame self cur level) as [next|] eqn:E; simpl; [|discriminate].
    intros Hf Hsw Hnames Hnew Hnd.
    apply NoDup_app_inv in Hnames. destruct Hnames as [N1 [N2 N3]].
    destruct (level_frame_columns self cur next level E) as [L1 [L2 L3]]; auto.
    { intros c Hc. apply Hnew. apply in_or_app. auto. }
    destruct (IH next out Hf) as [I1 [I2 I3]]; auto.
    { intros c Hc. rewrite L1, L2. split.
      - apply Hnew. apply in_or_app. auto.
      - intros [H|H].
        + revert H. apply Hnew. apply in_or_app. auto.
        + apply (N3 c H Hc). }
    split; [|split]; auto.
    + intros c. now rewrite I1, L1.
    + intros c. rewrite I2, L2, in_app_iff. tauto.
Qed.

Lemma set_column_columns (c : string) (vs : list float) (f : Frame) (x : string) :
  In x (columns f) -> In x (columns (set_column c vs f)).
Proof.
  unfold columns. intros H. apply in_app_or in H. apply in_or_app.
  destruct (String.eqb_spec x c) as [->|Hn].
  - right. right. apply set_column_num. auto.
  - destruct H as [H|[H|H]].
    + left. apply set_column_cat. auto.
    + right. left. auto.
    + right. right. apply set_column_num. auto.
Qed.

Lemma encode_fold_columns (cols : list string) :
  forall f,
    (forall col, In col cols -> In col (columns f)) ->
    (forall col, In col cols -> ~ In (col ++ "_enc")%string (cat_columns f)) ->
    NoDup (num_columns f) ->
    (forall c, In c (cat_columns (fold_left encode_step cols f))
               <-> In c (cat_columns f))
    /\ (forall c, In c (num_columns (fold_left encode_step cols f))
                  <-> In c (num_columns f)
                      \/ In c (map (fun c => c ++ "_enc")%string cols))
    /\ NoDup (num_columns (fold_left encode_step cols f)).
Proof.
  induction cols as [|col cols IH]; intros f Hin Hfresh Hnd; simpl.
  - repeat split; auto; tauto.
  - assert (Es : encode_step f col
                 = set_column (col ++ "_enc") (factorize_column col f) f).
    { unfold encode_step.
      rewrite (proj2 (mem_In col (columns f))); auto.
      apply Hin. simpl. auto. }
    destruct (IH (encode_step f col)) as [I1 [I2 I3]].
    + intros c Hc. rewrite Es. apply set_column_columns. apply Hin. simpl. auto.
    + intros c Hc. rewrite Es, set_column_cat. intros [H _].
      revert H. apply Hfresh. simpl. auto.
    + rewrite Es. now apply set_column_NoDup.
    + split; [|split]; auto.
      * intros c. rewrite I1, Es, set_column_cat. split; [tauto|].
        intros H. split; auto. intros ->. revert H. apply Hfresh. simpl. auto.
      * intros c. rewrite I2, Es, set_column_num. intuition.
Qed.

Lemma flat_map_level_names (self : FeatureEngineer) (levels : list Level)
    (c : string) :
  In c (flat_map (fun l => level_names self (prefix l)) levels) <->
  In c (flat_map (fun l => map (lag_name (prefix l)) (lags self)) levels)
  \/ In c (flat_map (fun l => map (roll_name (prefix l)) (rolling_windows self))
                    levels).
Proof.
  rewrite !in_flat_map. unfold level_names. split.
  - intros [l [Hl Hc]]. apply in_app_or in Hc. destruct Hc; eauto.
  - intros [[l [Hl Hc]]|[l [Hl Hc]]]; exists l; split; auto; apply in_or_app; auto.
Qed.

Lemma flat_map_level_names_length (self : FeatureEngineer) (levels : list Level) :
  List.length (flat_map (fun l => level_names self (prefix l)) levels)
  = (List.length (flat_map (fun l => map (lag_name (prefix l)) (lags self)) levels)
     + List.length (flat_map (fun l => map (roll_name (prefix l))
                                           (rolling_windows self)) levels))%nat.
Proof.
  induction levels as [|l levels IH]; simpl; auto.
  unfold level_names at 1. rewrite !length_app, IH. lia.
Qed.

(** C3, as the code has it.  [get_feature_names] depends on the
    configuration alone.  For a panel and a configuration whose names line
    up, the columns [create_all_features] adds are exactly the names of
    [get_feature_names] other than [wday], [month], [year], [snap] and
    [sell_price], which the panel holds beforehand: the same names, and
    five fewer of them. *)
Theorem feature_names_match_new_columns (self : FeatureEngineer)
    (levels : list Level) (h : heap) (df : ref) (f : Frame) (r' : ref)
    (h' : heap) :
  nth_error h df = Some f ->
  well_named self levels f = true ->
  create_all_features self df levels h = Ok (r', h') ->
  exists out,
    nth_error h' r' = Some out
    /\ (forall c, In c (new_columns f out) <->
                  In c (get_feature_names self levels) /\ ~ In c panel_feats)
    /\ List.length (get_feature_names self levels)
       = (List.length (new_columns f out) + List.length panel_feats)%nat.
Proof.
  intros Hf Hwn Hrun.
  destruct (run_create_all_features self levels h df f r' h' Hf Hrun)
    as [out [Hfeat [H1 _]]].
  exists out. split; auto.
  unfold well_named in Hwn. apply andb_true_iff in Hwn. destruct Hwn as [Hwn W3].
  apply andb_true_iff in Hwn. destruct Hwn as [W1 W2].
  rewrite forallb_forall in W1, W3. apply nodupb_NoDup in W2.
  assert (W1' : forall c, In c (id_columns ++ panel_feats) -> In c (columns f))
    by (intros c Hc; apply mem_In; auto).
  apply NoDup_app_inv in W2. destruct W2 as [Ncol [Nnew Hdis]].
  assert (Hdis_c : forall c, In c (new_names self levels) -> ~ In c (cat_columns f)).
  { intros c Hc Hin. apply (Hdis c); auto. unfold columns. apply in_or_app. auto. }
  assert (Hdis_n : forall c, In c (new_names self levels) -> ~ In c (num_columns f)).
  { intros c Hc Hin. apply (Hdis c); auto. unfold columns. apply in_or_app.
    right. right. auto. }
  assert (Nnum : NoDup (num_columns f)).
  { unfold columns in Ncol. apply NoDup_app_inv in Ncol.
    destruct Ncol as [_ [Ncol _]]. now inversion Ncol. }
  set (FL := flat_map (fun l => level_names self (prefix l)) levels) in *.
  set (enc := map (fun c => (c ++ "_enc")%string) id_columns) in *.
  assert (Hnn : new_names self levels = enc ++ ["is_weekend"] ++ FL) by reflexivity.
  assert (Nnew' := Nnew). rewrite Hnn in Nnew'.
  apply NoDup_app_inv in Nnew'. destruct Nnew' as [_ [Nwf Henc]].
  apply NoDup_app_inv in Nwf. destruct Nwf as [_ [NFL Hw]].
  destruct (encode_fold_columns id_columns f) as [E1 [E2 E3]]; auto.
  { intros c Hc. apply W1'. apply in_or_app. auto. }
  { intros c Hc. apply Hdis_c. rewrite Hnn. apply in_or_app. left.
    apply (in_map (fun c => (c ++ "_enc")%string)). auto. }
  fold (encoded f) in E1, E2, E3. fold enc in E2.
  set (base := dated (encoded f)) in *.
  assert (D1 : forall c, In c (cat_columns base) <-> In c (cat_columns f)).
  { intros c. unfold base, dated. rewrite set_column_cat, E1. split; [tauto|].
    intros Hc. split; auto. intros ->. revert Hc. apply Hdis_c.
    rewrite Hnn. apply in_or_app. right. simpl. auto. }
  assert (D2 : forall c, In c (num_columns base) <->
                         In c (num_columns f) \/ In c enc \/ c = "is_weekend").
  { intros c. unfold base, dated. rewrite set_column_num, E2. tauto. }
  assert (D3 : NoDup (num_columns base))
    by (unfold base, dated; now apply set_column_NoDup).
  destruct (featured_columns self levels base out Hfeat) as [F1 [F2 F3]]; auto.
  { intros l Hl. specialize (W3 l Hl). apply orb_true_iff in W3.
    destruct W3 as [W3|W3]; auto. right. now apply negb_true_iff. }
  { intros c Hc. rewrite D1, D2. split.
    - apply Hdis_c. rewrite Hnn. apply in_or_app. right. apply in_or_app. auto.
    - intros [H|[H|H]].
      + revert H. apply Hdis_n. rewrite Hnn. apply in_or_app. right.
        apply in_or_app. auto.
      + apply (Henc c H). apply in_or_app. auto.
      + subst. apply (Hw "is_weekend"); simpl; auto. }
  assert (Hnum : forall c, In c (num_columns out) <->
                           In c (num_columns f) \/ In c (new_names self levels)).
  { intros c. rewrite F2, D2, Hnn, !in_app_iff. simpl.
    intuition (subst; auto). }
  assert (Hnew : forall c, In c (new_columns f out) <-> In c (new_names self levels)).
  { intros c. unfold new_columns. rewrite filter_In, negb_true_iff.
    unfold columns at 1. rewrite in_app_iff. simpl. rewrite F1, D1, Hnum. split.
    - intros [[H|[H|[H|H]]] M]; auto; exfalso;
        assert (M' : mem c (columns f) = true)
          by (apply mem_In; unfold columns; apply in_or_app; simpl; auto);
        congruence.
    - intros Hc. split; auto.
      destruct (mem c (columns f)) eqn:M; auto. apply mem_In in M.
      exfalso. apply (Hdis c M Hc). }
  assert (Hpf : forall c, In c panel_feats -> ~ In c (new_names self levels)).
  { intros c Hc Hin. apply (Hdis c); auto. apply W1'. apply in_or_app. auto. }
  split.
  - intros c. rewrite Hnew. unfold get_feature_names. rewrite !in_app_iff.
    rewrite Hnn, !in_app_iff. unfold FL. rewrite flat_map_level_names. split.
    + intros Hc. split.
      * destruct Hc as [Hc|[Hc|Hc]]; auto.
        -- left. simpl in Hc. simpl. tauto.
        -- left. simpl in Hc. simpl. tauto.
      * intros Hp. apply (Hpf c Hp). rewrite Hnn, !in_app_iff.
        unfold FL. rewrite flat_map_level_names. exact Hc.
    + intros [[Hc|Hc] Hp]; auto.
      simpl in Hc, Hp. simpl. tauto.
  - assert (Hlen : List.length (new_columns f out)
                   = List.length (new_names self levels)).
    { apply Permutation_length. apply NoDup_Permutation; auto.
      unfold new_columns, columns. rewrite filter_app.
      rewrite (no_elements _ (filter _ (cat_columns out))).
      - simpl.
        assert (M : mem "date" (columns f) = true)
          by (apply mem_In; unfold columns; apply in_or_app; simpl; auto).
        unfold columns in M. rewrite M. simpl. now apply NoDup_filter.
      - intros c Hc. apply filter_In in Hc. destruct Hc as [Hc M].
        apply negb_true_iff in M.
        assert (mem c (cat_columns f ++ "date" :: num_columns f) = true).
        { apply mem_In. apply in_or_app. left. apply D1, F1. exact Hc. }
        congruence. }
    rewrite Hlen, Hnn. unfold get_feature_names.
    rewrite !length_app. unfold FL. rewrite flat_map_level_names_length.
    simpl. lia.
Qed.

Lemma feature_names_match_witness :
  exists out,
    (forall c, In c (new_columns sample_panel out) <->
               In c (get_feature_names sample_engineer sample_levels)
               /\ ~ In c panel_feats)
    /\ List.length (get_feature_names sample_engineer sample_levels)
       = (List.length (new_columns sample_panel out) + 5)%nat.
Proof.
  destruct (create_all_features sample_engineer 0%nat sample_levels
              [sample_panel]) as [[r' h']|e] eqn:E;
    [|vm_compute in E; discriminate].
  destruct (feature_names_match_new_columns sample_engineer sample_levels
              [sample_panel] 0%nat sample_panel r' h' eq_refl eq_refl E)
    as [out [_ [H2 H3]]].
  exists out. split; [exact H2|exact H3].
Defined.

(** C3, counterexample.  On the sample panel the engine adds eleven
    columns; [get_feature_names] lists sixteen names, among them [wday],
    which is a column of the panel and not a new one. *)
Lemma feature_names_exceed_new_columns :
  match create_all_features sample_engineer 0%nat sample_levels [sample_panel] with
  | Ok (r', h') =>
      match nth_error h' r' with
      | Some out =>
          List.length (new_columns sample_panel out) = 11%nat
          /\ List.length (get_feature_names sample_engineer sample_levels) = 16%nat
          /\ mem "wday" (get_feature_names sample_engineer sample_levels) = true
          /\ mem "wday" (columns sample_panel) = true
          /\ mem "wday" (new_columns sample_panel out) = false
      | None => False
      end
  | Raise _ => False
  end.
Proof. vm_compute. repeat split. Qed.

(** ** The panel builder: the split, the column filter and the melt *)

Lemma fold_max_spec (l : list Z) (d : Z) :
  (d <= fold_left Z.max l d)%Z
  /\ (forall x, In x l -> (x <= fold_left Z.max l d)%Z)
  /\ (fold_left Z.max l d = d \/ In (fold_left Z.max l d) l).
Proof.
  revert d. induction l as [|a l IH]; intros d; simpl.
  - split; [lia|]. split; [intros x []|auto].
  - destruct (IH (Z.max d a)) as [H1 [H2 H3]]. split; [|split].
    + lia.
    + intros x [<-|Hx]; [lia|auto].
    + destruct H3 as [H3|H3]; auto. rewrite H3.
      destruct (Z.max_spec d a) as [[_ E]|[_ E]]; rewrite E; auto.
Qed.

Lemma max_date_spec (l : list Z) (m : Z) :
  max_date l = Some m -> In m l /\ forall x, In x l -> (x <= m)%Z.
Proof.
  destruct l as [|d l]; simpl; [discriminate|]. intros [= <-].
  destruct (fold_max_spec l d) as [H1 [H2 H3]]. split.
  - destruct H3 as [->|H3]; auto.
  - intros x [<-|Hx]; auto.
Qed.

Lemma max_date_none (l : list Z) : max_date l = None -> l = [].
Proof. destruct l; [auto|discriminate]. Qed.

(** A strictly ascending list of integers inside [(lo, hi]] has at most
    [hi - lo] entries. *)
Lemma ascending_in_range (l : list Z) :
  StronglySorted Z.lt l ->
  forall lo hi, (forall x, In x l -> lo < x <= hi)%Z ->
    (Z.of_nat (List.length l) <= Z.max 0 (hi - lo))%Z.
Proof.
  induction 1 as [|x l Hs IH Hx]; intros lo hi Hr; simpl List.length.
  - lia.
  - assert (Hx' : (lo < x <= hi)%Z) by (apply Hr; simpl; auto).
    assert (Ht : (Z.of_nat (List.length l) <= Z.max 0 (hi - x))%Z).
    { apply IH. intros y Hy. rewrite Forall_forall in Hx.
      specialize (Hx y Hy). specialize (Hr y (or_intror Hy)). lia. }
    lia.
Qed.

Lemma split_by_date (c : Z) (l : list Row) :
  Permutation (filter (fun r => (date r <=? c)%Z) l
               ++ filter (fun r => (c <? date r)%Z) l) l.
Proof.
  induction l as [|a l IH]; simpl; auto.
  destruct (Z.leb_spec (date a) c); destruct (Z.ltb_spec c (date a)); try lia.
  - simpl. now constructor.
  - rewrite <- Permutation_middle. now constructor.
Qed.

(** X1.  [split_train_test] cuts the frame in two by date: both parts keep
    the columns, every row goes to exactly one part, every training row is
    dated before every test row, and the test rows are those dated within
    [test_horizon] days of the latest date. *)
Theorem split_train_test_partitions (self : M5DataLoader) (df : Frame) :
  let train_df := fst (split_train_test self df) in
  let test_df := snd (split_train_test self df) in
  columns train_df = columns df /\ columns test_df = columns df
  /\ Permutation (rows train_df ++ rows test_df) (rows df)
  /\ (forall a b, In a (rows train_df) -> In b (rows test_df) ->
        (date a < date b)%Z)
  /\ (forall r, In r (rows test_df) <->
        In r (rows df)
        /\ exists m, In m (map date (rows df))
             /\ (forall x, In x (map date (rows df)) -> (x <= m)%Z)
             /\ (m - test_horizon self < date r)%Z).
Proof.
  unfold split_train_test.
  destruct (max_date (map date (rows df))) as [m|] eqn:E; simpl.
  - destruct (max_date_spec _ _ E) as [Hin Hmax].
    split; [reflexivity|]. split; [reflexivity|].
    split; [apply split_by_date|]. split.
    + intros a b Ha Hb. apply filter_In in Ha, Hb.
      destruct Ha as [_ Ha]. destruct Hb as [_ Hb].
      apply Z.leb_le in Ha. apply Z.ltb_lt in Hb. lia.
    + intros r. rewrite filter_In. split.
      * intros [Hr Hd]. apply Z.ltb_lt in Hd. split; auto. exists m. auto.
      * intros [Hr [m' [H1 [H2 H3]]]]. split; auto. apply Z.ltb_lt.
        specialize (Hmax m' H1). specialize (H2 m Hin). lia.
  - apply max_date_none in E. apply map_eq_nil in E. rewrite E.
    split; [reflexivity|]. split; [reflexivity|].
    split; [constructor|]. split; [contradiction|].
    intros r. split; [contradiction|]. intros [[] _].
Qed.

Lemma split_test_dates (self : M5DataLoader) (df : Frame) (m : Z) :
  max_date (map date (rows df)) = Some m ->
  forall d, In d (distinct_dates (snd (split_train_test self df))) ->
    (m - test_horizon self < d <= m)%Z.
Proof.
  intros E d Hd.
  apply (proj1 (distinct_dates_spec _)) in Hd. destruct Hd as [r [Hr <-]].
  unfold split_train_test in Hr. rewrite E in Hr. simpl in Hr.
  apply filter_In in Hr. destruct Hr as [Hr Hlt]. apply Z.ltb_lt in Hlt.
  destruct (max_date_spec _ _ E) as [_ Hmax].
  specialize (Hmax (date r) (in_map date _ _ Hr)). lia.
Qed.

Lemma split_test_count (self : M5DataLoader) (df : Frame) :
  (Z.of_nat (List.length (distinct_dates (snd (split_train_test self df))))
   <= Z.max 0 (test_horizon self))%Z.
Proof.
  destruct (max_date (map date (rows df))) as [m|] eqn:E.
  - pose proof (ascending_in_range _
                  (proj2 (distinct_dates_spec (snd (split_train_test self df))))
                  (m - test_horizon self)%Z m (split_test_dates self df m E)).
    lia.
  - unfold split_train_test. rewrite E. simpl. lia.
Qed.

(** X2.  The test part spans at most [test_horizon] distinct dates, none
    later than the latest date of the frame and none as early as
    [test_horizon] days before it; the training part ends where the test
    part begins; and with a positive horizon the rows of the latest date
    are test rows. *)
Theorem split_test_window (self : M5DataLoader) (df : Frame) :
  let train_df := fst (split_train_test self df) in
  let test_df := snd (split_train_test self df) in
  (Z.of_nat (List.length (distinct_dates test_df))
   <= Z.max 0 (test_horizon self))%Z
  /\ forall m, max_date (map date (rows df)) = Some m ->
       (forall r, In r (rows test_df) -> (m - test_horizon self < date r <= m)%Z)
       /\ (forall r, In r (rows train_df) -> (date r <= m - test_horizon self)%Z)
       /\ ((0 < test_horizon self)%Z ->
           forall r, In r (rows df) -> date r = m -> In r (rows test_df)).
Proof.
  cbv zeta. split; [apply split_test_count|].
  intros m E. destruct (max_date_spec _ _ E) as [_ Hmax].
  unfold split_train_test. rewrite E. simpl. repeat split.
  - apply filter_In in H. destruct H as [_ H]. apply Z.ltb_lt in H. lia.
  - apply filter_In in H. destruct H as [H _].
    apply Hmax. now apply in_map.
  - intros r Hr. apply filter_In in Hr. destruct Hr as [_ Hr].
    now apply Z.leb_le in Hr.
  - intros Hpos r Hr Hd. apply filter_In. split; auto. apply Z.ltb_lt. lia.
Qed.

(** X3.  The predictor cannot be run on the test part of a split whose
    horizon is shorter than the number of models: the test part has too
    few dates and the [assert] of [predict] fails. *)
Theorem predict_after_split_needs_horizon (loader : M5DataLoader)
    (model : HierarchicalLGBM) (ids : option (list string)) (df : Frame)
    (fn : list string) :
  (Z.max 0 (test_horizon loader) < num_models model)%Z ->
  predict model ids (snd (split_train_test loader df)) fn
  = Raise "AssertionError".
Proof.
  intros H. unfold predict, horizon_days.
  fold (distinct_dates (snd (split_train_test loader df))).
  pose proof (split_test_count loader df) as Hc.
  destruct (Z.ltb_spec
              (Z.of_nat (List.length (distinct_dates (snd (split_train_test loader df)))))
              (num_models model)); [reflexivity|lia].
Qed.

Lemma predict_after_split_witness :
  (Z.max 0 (test_horizon (mkLoader 2 1)) < num_models (sample_model 2))%Z
  /\ predict (sample_model 2) (Some ["a"; "b"])
       (snd (split_train_test (mkLoader 2 1) sample_test)) ["x_lag_1"]
     = Raise "AssertionError".
Proof.
  split; [reflexivity|].
  apply (predict_after_split_needs_horizon (mkLoader 2 1) (sample_model 2)).
  reflexivity.
Defined.

Lemma day_column_spec (sales : SalesTable) (c : string) :
  In c (filter (startswith "d_") (sales_columns sales)) <-> day_column sales c.
Proof. unfold day_column. apply filter_In. Qed.

Lemma dates_of_columns (calendar : list CalendarRow) (cols : list string)
    (dates : list Z) :
  mapM (fun d => match d2date calendar d with
                 | Some x => Ok x
                 | None => Raise "KeyError"
                 end) cols = Ok dates ->
  Forall2 (fun d x => d2date calendar d = Some x) cols dates.
Proof.
  intros H. apply mapM_ok in H.
  eapply Forall2_impl; [|exact H]. simpl. intros d x.
  destruct (d2date calendar d); [now intros [= ->]|discriminate].
Qed.

Lemma dated_column (calendar : list CalendarRow) (cols : list string)
    (dates : list Z) :
  Forall2 (fun d x => d2date calendar d = Some x) cols dates ->
  (forall c, In c cols -> exists x, In x dates /\ d2date calendar c = Some x)
  /\ (forall x, In x dates -> exists c, In c cols /\ d2date calendar c = Some x).
Proof.
  induction 1 as [|d x cols dates Hd _ [IH1 IH2]]; simpl.
  - split; intros ? [].
  - split.
    + intros c [<-|Hc]; [eauto|].
      destruct (IH1 c Hc) as [y [H1 H2]]. eauto.
    + intros y [<-|Hy]; [eauto|].
      destruct (IH2 y Hy) as [c [H1 H2]]. eauto.
Qed.

Lemma kept_columns (keep : Z -> bool) (calendar : list CalendarRow)
    (cols : list string) (dates : list Z) :
  Forall2 (fun d x => d2date calendar d = Some x) cols dates ->
  forall c, In c (map fst (filter snd (combine cols (map keep dates)))) <->
            In c cols /\ exists x, d2date calendar c = Some x /\ keep x = true.
Proof.
  induction 1 as [|d x cols dates Hd _ IH]; intros c; simpl.
  - split; [intros []|intros [[] _]].
  - destruct (keep x) eqn:K; simpl; rewrite IH; split.
    + intros [<-|[H1 H2]]; [split; eauto|split; auto].
    + intros [[<-|H1] H2]; auto.
    + intros [H1 H2]. auto.
    + intros [[<-|H1] [y [H2 H3]]]; [congruence|split; eauto].
Qed.

(** X4.  The column filter keeps the rows, the first six columns whatever
    they are, and of the day columns those dated within
    [history_days + test_horizon] days of the latest day column, this bound
    included. *)
Theorem filter_sales_keeps_recent_days (self : M5DataLoader)
    (sales : SalesTable) (calendar : list CalendarRow) (out : SalesTable) :
  _filter_sales_by_date self sales calendar = Ok out ->
  sales_rows out = sales_rows sales
  /\ exists keep_cols,
       sales_columns out = firstn 6 (sales_columns sales) ++ keep_cols
       /\ forall c, In c keep_cols <->
            day_column sales c
            /\ exists x last,
                 d2date calendar c = Some x
                 /\ latest_day calendar sales last
                 /\ (last - (history_days self + test_horizon self) <= x)%Z.
Proof.
  unfold _filter_sales_by_date.
  destruct (mapM _ (filter (startswith "d_") (sales_columns sales)))
    as [dates|e] eqn:E; simpl; [|discriminate].
  intros [= <-]. simpl. split; [reflexivity|].
  eexists. split; [reflexivity|].
  apply dates_of_columns in E.
  destruct (dated_column _ _ _ E) as [Hc Hx].
  intros c.
  destruct (max_date dates) as [last|] eqn:M.
  - destruct (max_date_spec _ _ M) as [Hin Hmax].
    assert (Hl : latest_day calendar sales last).
    { split.
      - destruct (Hx last Hin) as [c0 [H1 H2]]. exists c0.
        split; auto. now apply day_column_spec.
      - intros c0 x H1 H2. apply day_column_spec in H1.
        destruct (Hc c0 H1) as [y [H3 H4]].
        assert (x = y) by congruence. subst. auto. }
    rewrite (kept_columns _ calendar _ _ E), day_column_spec. split.
    + intros [H1 [x [H2 H3]]]. split; auto. exists x, last.
      apply Z.leb_le in H3. auto.
    + intros [H1 [x [last' [H2 [[[c0 [H3 H4]] H5] H6]]]]]. split; auto.
      exists x. split; auto. apply Z.leb_le.
      destruct Hl as [[c1 [H7 H8]] _].
      assert (last <= last')%Z by (apply (H5 c1); auto). lia.
  - apply max_date_none in M. subst dates. inversion E as [E0|]; subst.
    simpl. split; [intros []|].
    intros [H1 _]. apply day_column_spec in H1. rewrite <- E0 in H1.
    destruct H1.
Qed.

Lemma filter_sales_witness :
  let self := mkLoader 2 1 in
  match _filter_sales_by_date self sample_sales (sample_calendar 12) with
  | Ok out => sales_rows out = sales_rows sample_sales
              /\ In "d_7" (sales_columns out) /\ ~ In "d_6" (sales_columns out)
  | Raise _ => False
  end.
Proof.
  cbv zeta.
  destruct (_filter_sales_by_date (mkLoader 2 1) sample_sales (sample_calendar 12))
    as [out|e] eqn:E; [|vm_compute in E; discriminate].
  destruct (filter_sales_keeps_recent_days _ _ _ _ E) as [H1 _].
  split; [exact H1|].
  vm_compute in E. injection E as <-. simpl. split.
  - repeat (try (left; reflexivity); right).
  - intros H. repeat (destruct H as [H|H]; [discriminate H|]). exact H.
Defined.

Lemma length_blocks (A B : Type) (f : A -> list B) (n : nat) (l : list A) :
  (forall a, List.length (f a) = n) ->
  List.length (flat_map f l) = (List.length l * n)%nat.
Proof.
  intros H. induction l as [|a l IH]; simpl; auto.
  now rewrite length_app, H, IH.
Qed.


Lemma mapM_total (A B : Type) (f : A -> result B) (l : list A) :
  (forall a, In a l -> exists b, f a = Ok b) -> exists bs, mapM f l = Ok bs.
Proof.
  induction l as [|a l IH]; intros H; simpl; [eauto|].
  destruct (H a (or_introl eq_refl)) as [b ->].
  destruct IH as [bs ->]; [intros x Hx; apply H; now right|]. simpl. eauto.
Qed.

Lemma filter_sales_columns (self : M5DataLoader) (sales : SalesTable)
    (calendar : list CalendarRow) :
  match _filter_sales_by_date self sales calendar with
  | Ok out =>
      (forall c, day_column sales c -> exists x, d2date calendar c = Some x)
      /\ exists keep_cols,
           sales_columns out = firstn 6 (sales_columns sales) ++ keep_cols
           /\ forall c, In c keep_cols -> startswith "d_" c = true
  | Raise e =>
      e = "KeyError"
      /\ exists c, day_column sales c /\ d2date calendar c = None
  end.
Proof.
  unfold _filter_sales_by_date.
  destruct (mapM _ (filter (startswith "d_") (sales_columns sales)))
    as [dates|e] eqn:E; simpl.
  - apply dates_of_columns in E. split.
    + intros c Hc. apply day_column_spec in Hc.
      destruct (proj1 (dated_column _ _ _ E) c Hc) as [x [_ Hx]]. eauto.
    + eexists. split; [reflexivity|]. intros c Hc.
      apply in_map_iff in Hc. destruct Hc as [[c' b] [<- Hc]].
      apply filter_In in Hc. destruct Hc as [Hc _].
      apply in_combine_l in Hc. apply filter_In in Hc. tauto.
  - apply mapM_raise in E. destruct E as [c [Hc E]].
    apply day_column_spec in Hc.
    destruct (d2date calendar c) eqn:D; [discriminate|].
    injection E as <-. eauto.
Qed.

Lemma id_vars_not_days (c : string) :
  In c id_vars -> startswith "d_" c = false.
Proof.
  intros H. repeat (destruct H as [<-|H]; [reflexivity|]). destruct H.
Qed.

(** X6.  What [load_data] needs, and how it fails when a need is unmet.
    A missing file raises [FileNotFoundError]: the three files are read
    before anything else.  With the three files there, a day column of the
    sales file whose day the calendar lacks raises [KeyError]: the days
    are looked up before any date is computed.  When [load_data] returns a
    panel, the three files were there, every day column of the sales file
    has its day in the calendar, the first six columns of the sales file
    are the six id columns, in any order, and the panel has the same
    thirteen columns. *)
Theorem load_data_requirements (self : M5DataLoader)
    (calendar_csv : option (list CalendarRow))
    (prices_csv : option (list PriceRow)) (sales_csv : option SalesTable) :
  (calendar_csv = None \/ prices_csv = None \/ sales_csv = None ->
   load_data self calendar_csv prices_csv sales_csv = Raise "FileNotFoundError")
  /\ (forall calendar prices sales c,
        calendar_csv = Some calendar -> prices_csv = Some prices ->
        sales_csv = Some sales ->
        day_column sales c -> d2date calendar c = None ->
        load_data self calendar_csv prices_csv sales_csv = Raise "KeyError")
  /\ (forall panel, load_data self calendar_csv prices_csv sales_csv = Ok panel ->
        (exists calendar prices sales,
           calendar_csv = Some calendar /\ prices_csv = Some prices
           /\ sales_csv = Some sales
           /\ (forall c, day_column sales c ->
                 exists x, d2date calendar c = Some x)
           /\ Permutation id_vars (firstn 6 (sales_columns sales)))
        /\ columns panel
           = ["id"; "item_id"; "dept_id"; "cat_id"; "store_id"; "state_id";
              "date"; "sales"; "sell_price"; "wday"; "month"; "year"; "snap"]).
Proof.
  unfold load_data.
  destruct calendar_csv as [calendar|]; cbn [bind].
  2:{ repeat split; auto; intros; discriminate. }
  destruct prices_csv as [prices|]; cbn [bind].
  2:{ repeat split; auto; intros; discriminate. }
  destruct sales_csv as [sales|]; cbn [bind].
  2:{ repeat split; auto; intros; discriminate. }
  split; [intros [H|[H|H]]; discriminate|].
  pose proof (filter_sales_columns self sales calendar) as Hf.
  destruct (_filter_sales_by_date self sales calendar) as [small|e0]; cbn [bind].
  2:{ destruct Hf as [-> _]. split; [reflexivity|discriminate]. }
  destruct Hf as [Hd [keep [Hc Hk]]]. split.
  { intros calendar' prices' sales' c [= <-] _ [= <-] H1 H2.
    destruct (Hd c H1). congruence. }
  unfold _melt_sales. rewrite Hc.
  destruct (forallb _ id_vars) eqn:F; cbn [bind]; [|discriminate].
  intros panel [= <-]. split; [|reflexivity].
  exists calendar, prices, sales. repeat split; auto.
  apply NoDup_Permutation_bis.
  - apply nodupb_NoDup. reflexivity.
  - rewrite length_firstn. apply Nat.le_min_l.
  - intros c Hin. rewrite forallb_forall in F.
    specialize (F c Hin). apply mem_In in F. apply in_app_or in F.
    destruct F as [F|F]; auto.
    apply Hk in F. rewrite (id_vars_not_days c Hin) in F. discriminate.
Qed.

(** The rows of the panel, as the steps of [load_data] build them. *)
Lemma load_data_rows (self : M5DataLoader)
    (calendar_csv : option (list CalendarRow))
    (prices_csv : option (list PriceRow)) (sales_csv : option SalesTable)
    (panel : Frame) :
  load_data self calendar_csv prices_csv sales_csv = Ok panel ->
  exists calendar prices small long,
    calendar_csv = Some calendar /\ prices_csv = Some prices
    /\ _melt_sales small = Ok long
    /\ rows panel
       = map panel_row
           (_apply_temporal_filter self
              (_create_snap_feature
                 (merge_prices prices (merge_calendar calendar long)))).
Proof.
  unfold load_data.
  destruct calendar_csv as [calendar|]; cbn [bind]; [|discriminate].
  destruct prices_csv as [prices|]; cbn [bind]; [|discriminate].
  destruct sales_csv as [sales|]; cbn [bind]; [|discriminate].
  destruct (_filter_sales_by_date self sales calendar) as [small|];
    cbn [bind]; [|discriminate].
  destruct (_melt_sales small) as [long|] eqn:E; cbn [bind]; [|discriminate].
  intros [= <-]. exists calendar, prices, small, long. auto.
Qed.

Lemma temporal_filter_dates (self : M5DataLoader) (long : list LongRow) :
  exists m,
    forall l, In l (_apply_temporal_filter self long) ->
      exists d, long_date l = Some d
        /\ (m - (history_days self + test_horizon self) <= d <= m)%Z.
Proof.
  destruct (max_date (some_dates (map long_date long))) as [m|] eqn:E.
  - exists m. intros l Hl. apply temporal_filter_window in Hl.
    destruct Hl as [_ [d [m' [H1 [H2 H3]]]]]. exists d. split; auto.
    assert (m' = m) by congruence. lia.
  - exists 0%Z. intros l Hl. apply temporal_filter_window in Hl.
    destruct Hl as [_ [d [m' [_ [H2 _]]]]]. congruence.
Qed.

(** X7.  Whatever the files hold, the dates of the panel lie within
    [history_days + test_horizon] days of one another, both ends included:
    the panel covers at most [history_days + test_horizon + 1] distinct
    dates. *)
Theorem load_data_span (self : M5DataLoader)
    (calendar_csv : option (list CalendarRow))
    (prices_csv : option (list PriceRow)) (sales_csv : option SalesTable)
    (panel : Frame) :
  load_data self calendar_csv prices_csv sales_csv = Ok panel ->
  (Z.of_nat (List.length (distinct_dates panel))
   <= Z.max 0 (history_days self + test_horizon self + 1))%Z
  /\ forall a b, In a (rows panel) -> In b (rows panel) ->
       (date a - date b <= history_days self + test_horizon self)%Z.
Proof.
  intros H. apply load_data_rows in H.
  destruct H as [calendar [prices [small [long [_ [_ [_ Hr]]]]]]].
  destruct (temporal_filter_dates self
              (_create_snap_feature
                 (merge_prices prices (merge_calendar calendar long))))
    as [m Hm].
  assert (Hd : forall r, In r (rows panel) ->
                 (m - (history_days self + test_horizon self) <= date r <= m)%Z).
  { intros r Hin. rewrite Hr in Hin. apply in_map_iff in Hin.
    destruct Hin as [l [<- Hl]]. destruct (Hm l Hl) as [d [H1 H2]].
    unfold panel_row. simpl. now rewrite H1. }
  split.
  - pose proof (ascending_in_range _ (proj2 (distinct_dates_spec panel))
                  (m - (history_days self + test_horizon self) - 1)%Z m) as Hc.
    assert (Hrange : forall x, In x (distinct_dates panel) ->
              (m - (history_days self + test_horizon self) - 1 < x <= m)%Z).
    { intros x Hx. apply (proj1 (distinct_dates_spec panel)) in Hx.
      destruct Hx as [r [Hin <-]]. specialize (Hd r Hin). lia. }
    specialize (Hc Hrange). lia.
  - intros a b Ha Hb. specialize (Hd a Ha) as Ha'. specialize (Hd b Hb) as Hb'.
    lia.
Qed.

Lemma load_data_span_witness :
  match load_data (mkLoader 2 1) (Some (sample_calendar 12)) (Some [])
                  (Some sample_sales) with
  | Ok panel => (Z.of_nat (List.length (distinct_dates panel)) <= 4)%Z
  | Raise _ => False
  end.
Proof.
  destruct (load_data (mkLoader 2 1) (Some (sample_calendar 12)) (Some [])
                      (Some sample_sales)) as [panel|e] eqn:E;
    [|vm_compute in E; discriminate].
  exact (proj1 (load_data_span _ _ _ _ _ E)).
Defined.

Lemma merged_calendar (calendar : list CalendarRow) (long : list LongRow)
    (l : LongRow) (c : CalendarRow) :
  (forall x, In x long -> long_cal x = None) ->
  In l (merge_calendar calendar long) -> long_cal l = Some c ->
  In c calendar /\ cal_d c = long_d l.
Proof.
  intros Hn Hl Hc. unfold merge_calendar in Hl. apply in_flat_map in Hl.
  destruct Hl as [x [Hx Hl]].
  destruct (filter _ calendar) as [|c0 ms] eqn:F.
  - destruct Hl as [<-|[]]. rewrite (Hn x Hx) in Hc. discriminate.
  - rewrite <- F in Hl. apply in_map_iff in Hl. destruct Hl as [c' [<- Hc']].
    simpl in Hc. injection Hc as ->. simpl.
    apply filter_In in Hc'. destruct Hc' as [H1 H2]. split; auto.
    now apply String.eqb_eq.
Qed.

Lemma merged_prices (prices : list PriceRow) (long : list LongRow) (l : LongRow) :
  In l (merge_prices prices long) ->
  exists x, In x long /\ long_cal l = long_cal x /\ long_d l = long_d x
            /\ long_cat l = long_cat x.
Proof.
  intros Hl. unfold merge_prices in Hl. apply in_flat_map in Hl.
  destruct Hl as [x [Hx Hl]]. exists x. split; auto.
  destruct (filter _ prices) as [|p ms] eqn:F.
  - destruct Hl as [<-|[]]. auto.
  - rewrite <- F in Hl. apply in_map_iff in Hl. destruct Hl as [p' [<- _]].
    auto.
Qed.

(** X8.  Every row of the panel carries the fields of one calendar day:
    its date, weekday, month and year are those of a calendar row, and its
    [snap] is 1 when the flag of the row's own state (CA, TX or WI) is 1 on
    that day and 0 otherwise, so that a row of any other state has 0. *)
Theorem load_data_joins_calendar (self : M5DataLoader)
    (calendar : list CalendarRow) (prices_csv : option (list PriceRow))
    (sales_csv : option SalesTable) (panel : Frame) :
  load_data self (Some calendar) prices_csv sales_csv = Ok panel ->
  forall r, In r (rows panel) ->
    exists c, In c calendar
      /\ date r = cal_date c
      /\ num r "wday" = float_of_Z (cal_wday c)
      /\ num r "month" = float_of_Z (cal_month c)
      /\ num r "year" = float_of_Z (cal_year c)
      /\ ((num r "snap" = float_of_Z 1
           /\ ((cat r "state_id" = "CA" /\ cal_snap_CA c = 1%Z)
               \/ (cat r "state_id" = "TX" /\ cal_snap_TX c = 1%Z)
               \/ (cat r "state_id" = "WI" /\ cal_snap_WI c = 1%Z)))
          \/ (num r "snap" = float_of_Z 0
              /\ ~ ((cat r "state_id" = "CA" /\ cal_snap_CA c = 1%Z)
                    \/ (cat r "state_id" = "TX" /\ cal_snap_TX c = 1%Z)
                    \/ (cat r "state_id" = "WI" /\ cal_snap_WI c = 1%Z)))).
Proof.
  intros H r Hin. apply load_data_rows in H.
  destruct H as [cal [prices [small [long [[= <-] [_ [Hm Hr]]]]]]].
  rewrite Hr in Hin. apply in_map_iff in Hin. destruct Hin as [l [<- Hl]].
  apply temporal_filter_window in Hl. destruct Hl as [Hl [d [m [Hd _]]]].
  unfold _create_snap_feature in Hl. apply in_map_iff in Hl.
  destruct Hl as [l0 [<- Hl0]].
  unfold long_date in Hd. simpl in Hd.
  destruct (long_cal l0) as [c|] eqn:Hc; [|discriminate].
  destruct (merged_prices _ _ _ Hl0) as [x [Hx [E1 [E2 E3]]]].
  assert (Hcal : In c calendar /\ cal_d c = long_d x).
  { eapply merged_calendar; eauto; [|congruence].
    intros y Hy. unfold _melt_sales in Hm.
    destruct (forallb _ id_vars); [|discriminate]. injection Hm as <-.
    apply in_flat_map in Hy. destruct Hy as [d0 [_ Hy]].
    apply in_map_iff in Hy. destruct Hy as [r0 [<- _]]. reflexivity. }
  exists c. split; [tauto|].
  unfold panel_row, long_date. simpl.
  repeat (split; [reflexivity|]).
  unfold snap_of. rewrite Hc.
  destruct (String.eqb_spec (long_cat l0 "state_id") "CA") as [S1|S1];
  destruct (String.eqb_spec (long_cat l0 "state_id") "TX") as [S2|S2];
  destruct (String.eqb_spec (long_cat l0 "state_id") "WI") as [S3|S3];
  destruct (Z.eqb_spec (cal_snap_CA c) 1) as [F1|F1];
  destruct (Z.eqb_spec (cal_snap_TX c) 1) as [F2|F2];
  destruct (Z.eqb_spec (cal_snap_WI c) 1) as [F3|F3];
  simpl; try (left; split; [reflexivity|]; tauto);
  right; (split; [reflexivity|]); tauto.
Qed.

Lemma load_data_joins_calendar_witness :
  exists panel,
    load_data (mkLoader 2 1) (Some (sample_calendar 12)) (Some [])
              (Some sample_sales) = Ok panel
    /\ forall r, In r (rows panel) ->
         exists c, In c (sample_calendar 12) /\ date r = cal_date c.
Proof.
  destruct (load_data (mkLoader 2 1) (Some (sample_calendar 12)) (Some [])
                      (Some sample_sales)) as [panel|e] eqn:E;
    [|vm_compute in E; discriminate].
  exists panel. split; [reflexivity|]. intros r Hr.
  destruct (load_data_joins_calendar _ _ _ _ _ E r Hr) as [c [H1 [H2 _]]].
  exists c. auto.
Defined.

(** ** The trainer and the predictor: models, shapes and edge cases *)

Lemma dict_get_set_same (V : Type) (k : Z) (v : V) (d : list (Z * V)) :
  dict_get k (dict_set k v d) = Some v.
Proof.
  induction d as [|[k' v'] d IH]; simpl.
  - now rewrite Z.eqb_refl.
  - destruct (Z.eqb_spec k' k) as [->|Hk]; simpl.
    + now rewrite Z.eqb_refl.
    + destruct (Z.eqb_spec k' k); [contradiction|auto].
Qed.

Lemma dict_get_set_other (V : Type) (k k' : Z) (v : V) (d : list (Z * V)) :
  k <> k' -> dict_get k (dict_set k' v d) = dict_get k d.
Proof.
  intros Hk. induction d as [|[k0 v0] d IH]; simpl.
  - destruct (Z.eqb_spec k' k); [congruence|auto].
  - destruct (Z.eqb_spec k0 k') as [->|H0]; simpl.
    + destruct (Z.eqb_spec k' k); [congruence|auto].
    + destruct (Z.eqb_spec k0 k); auto.
Qed.

Lemma range1_bounds (n h : Z) : In h (range1 n) -> (1 <= h <= n)%Z.
Proof.
  unfold range1. intros H. apply in_map_iff in H. destruct H as [i [<- H]].
  apply in_seq in H. lia.
Qed.

Lemma range1_NoDup (n : Z) : NoDup (range1 n).
Proof.
  unfold range1. generalize 0%nat.
  induction (Z.to_nat n) as [|k IH]; intros s; simpl; constructor.
  - rewrite in_map_iff. intros [i [H1 H2]]. apply in_seq in H2. lia.
  - apply IH.
Qed.

Lemma train_loop_models (lgb : Trainer) (df : Frame) (fn : list string)
    (self : HierarchicalLGBM) (l : list Z) :
  NoDup l ->
  forall s m,
    params s = params self -> num_boost_round s = num_boost_round self ->
    foldM (train_horizon lgb df fn) l s = Ok m ->
    (forall h, In h l ->
       exists b, fit_horizon lgb df fn self h = Ok b
                 /\ dict_get h (models m) = Some b)
    /\ (forall k, ~ In k l -> dict_get k (models m) = dict_get k (models s))
    /\ params m = params self /\ num_boost_round m = num_boost_round self
    /\ num_models m = num_models s.
Proof.
  induction 1 as [|a l Ha Hn IH]; intros s m Hp Hr; simpl.
  - intros [= <-]. repeat split; auto. intros h [].
  - unfold train_horizon at 1.
    rewrite (fit_horizon_params lgb df fn self s a Hp Hr).
    destruct (fit_horizon lgb df fn self a) as [b|e] eqn:E; simpl; [|discriminate].
    intros Hm. apply IH in Hm; [|exact Hp|exact Hr].
    destruct Hm as [H1 [H2 [H3 [H4 H5]]]]. simpl in *. repeat split; auto.
    + intros h [<-|Hh]; [|auto]. exists b. split; auto.
      rewrite (H2 a Ha). apply dict_get_set_same.
    + intros k Hk. rewrite H2 by tauto. apply dict_get_set_other.
      intros E'. apply Hk. left. congruence.
Qed.

(** X9.  After a successful [train] the model table holds, under every
    horizon from 1 to [num_models], the booster fitted on that horizon's
    frame; entries under other keys are as they were, and the parameters
    are unchanged. *)
Theorem train_stores_one_model_per_horizon (lgb : Trainer)
    (self : HierarchicalLGBM) (train_df : Frame) (fn : list string)
    (m : HierarchicalLGBM) :
  train lgb self train_df fn = Ok m ->
  (forall h, (1 <= h <= num_models self)%Z ->
     exists b, fit_horizon lgb train_df fn self h = Ok b
               /\ dict_get h (models m) = Some b)
  /\ (forall k, ~ (1 <= k <= num_models self)%Z ->
        dict_get k (models m) = dict_get k (models self))
  /\ params m = params self /\ num_boost_round m = num_boost_round self
  /\ num_models m = num_models self.
Proof.
  unfold train. intros H.
  apply (train_loop_models lgb train_df fn self _ (range1_NoDup _)) in H; auto.
  destruct H as [H1 [H2 H3]]. repeat split; try tauto.
  - intros h Hh. apply H1. now apply in_range1.
  - intros k Hk. apply H2. intros Hin. apply Hk. now apply range1_bounds.
Qed.

Lemma train_stores_models_witness :
  exists m,
    train lenient_trainer (mkLGBM [] 10 3 []) sample_test ["x_lag_1"] = Ok m
    /\ (forall h, (1 <= h <= 3)%Z ->
          exists b, dict_get h (models m) = Some b)
    /\ num_models m = 3%Z.
Proof.
  destruct (train lenient_trainer (mkLGBM [] 10 3 []) sample_test ["x_lag_1"])
    as [m|e] eqn:E; [|vm_compute in E; discriminate].
  exists m. split; [reflexivity|].
  destruct (train_stores_one_model_per_horizon _ _ _ _ _ E)
    as [H1 [_ [_ [_ H5]]]].
  split; [|exact H5].
  intros h Hh. destruct (H1 h Hh) as [b [_ Hb]]. eauto.
Defined.

Lemma pivot_shape (l : list Triple) (w : Wide) (hs : list Z) :
  pivot l = Ok (w, hs) ->
  List.length (wvalues w) = List.length (index w)
  /\ List.length (wcolumns w) = List.length hs
  /\ Forall (fun row => List.length row = List.length hs) (wvalues w).
Proof.
  unfold pivot. destruct (has_duplicate l); [discriminate|].
  intros [= <- <-]. simpl. rewrite !length_map. repeat split.
  apply Forall_forall. intros row Hrow. apply in_map_iff in Hrow.
  destruct Hrow as [i [<- _]]. now rewrite length_map.
Qed.

Lemma reindex_shape (target : list string) (w re : Wide) (n : nat) :
  reindex target w = Ok re ->
  List.length (wvalues w) = List.length (index w) ->
  List.length (wcolumns w) = n ->
  Forall (fun row => List.length row = n) (wvalues w) ->
  index re = target /\ wcolumns re = wcolumns w
  /\ List.length (wvalues re) = List.length target
  /\ Forall (fun row => List.length row = n) (wvalues re).
Proof.
  intros H Hl Hc Hr. unfold reindex in H.
  destruct (list_eqb (index w) target) eqn:E.
  - injection H as <-. apply list_eqb_eq in E. subst target. auto.
  - destruct (negb (nodupb (index w))); [discriminate|].
    injection H as <-. simpl. rewrite length_map. repeat split; auto.
    apply Forall_forall. intros row Hrow. apply in_map_iff in Hrow.
    destruct Hrow as [i [<- _]].
    destruct (lookup_row i (index w) (wvalues w)) as [v|] eqn:L.
    + apply lookup_row_In in L. rewrite Forall_forall in Hr. auto.
    + now rewrite length_map.
Qed.

(** X10.  A forecast returned by [predict] has one row per id of the sales
    file, in the order of the file, and one column per horizon, named [F1]
    to [FH]: every row has exactly [num_models] entries. *)
Theorem predict_shape (self : HierarchicalLGBM) (ids : list string)
    (test_df : Frame) (fn : list string) (w : Wide) :
  predict self (Some ids) test_df fn = Ok w ->
  index w = ids
  /\ wcolumns w = forecast_columns self
  /\ List.length (wvalues w) = List.length ids
  /\ Forall (fun row => List.length row = Z.to_nat (num_models self)) (wvalues w).
Proof.
  unfold predict. fold (forecast_columns self).
  destruct (horizon_days self test_df) as [days|]; cbn [bind]; [|discriminate].
  destruct (mapM _ days) as [pl|]; cbn [bind]; [|discriminate].
  destruct pl as [|p pl]; cbn [bind]; [discriminate|].
  destruct (pivot _) as [[pv hs]|] eqn:P; cbn [bind fst]; [|discriminate].
  destruct (reindex ids pv) as [re|] eqn:R; cbn [bind]; [|discriminate].
  destruct (Nat.eqb_spec (List.length (wcolumns (fillna re)))
                         (List.length (forecast_columns self))) as [L|L];
    cbn [negb]; [|discriminate].
  intros [= <-]. simpl.
  destruct (pivot_shape _ _ _ P) as [P1 [P2 P3]].
  destruct (reindex_shape ids pv re (List.length hs) R P1 P2 P3)
    as [R1 [R2 [R3 R4]]].
  assert (Hn : List.length hs = Z.to_nat (num_models self)).
  { simpl in L. rewrite R2, P2 in L. unfold forecast_columns in L.
    now rewrite length_map, range1_length in L. }
  repeat split; auto.
  - now rewrite length_map.
  - apply Forall_forall. intros row Hrow. apply in_map_iff in Hrow.
    destruct Hrow as [v [<- Hv]]. rewrite length_map, <- Hn.
    rewrite Forall_forall in R4. auto.
Qed.

Lemma predict_shape_witness :
  exists w,
    predict (sample_model 2) (Some ["b"; "a"; "c"]) sample_test ["x_lag_1"] = Ok w
    /\ index w = ["b"; "a"; "c"]
    /\ wcolumns w = ["F1"; "F2"].
Proof.
  destruct (predict (sample_model 2) (Some ["b"; "a"; "c"]) sample_test
              ["x_lag_1"]) as [w|e] eqn:E; [|vm_compute in E; discriminate].
  exists w. split; [reflexivity|].
  destruct (predict_shape _ _ _ _ _ E) as [H1 [H2 _]].
  split; [exact H1|]. rewrite H2. reflexivity.
Defined.

(** X11.  With [num_models] zero or negative the loop of [predict] has no
    turn, nothing is there to concatenate, and [predict] fails with
    [ValueError], whatever the test frame, the models and the ids file. *)
Theorem predict_without_models (self : HierarchicalLGBM)
    (ids : option (list string)) (test_df : Frame) (fn : list string) :
  (num_models self <= 0)%Z ->
  predict self ids test_df fn = Raise "ValueError".
Proof.
  intros H. unfold predict, horizon_days.
  destruct (Z.ltb_spec
              (Z.of_nat (List.length (sorted Z.leb (unique Z.eqb
                                        (map date (rows test_df))))))
              (num_models self)); [lia|].
  unfold range1 at 1. replace (Z.to_nat (num_models self)) with 0%nat by lia.
  reflexivity.
Qed.

Lemma predict_without_models_witness :
  (num_models (sample_model 0) <= 0)%Z
  /\ predict (sample_model 0) (Some ["a"]) sample_test ["x_lag_1"]
     = Raise "ValueError".
Proof.
  split; [discriminate|].
  apply (predict_without_models (sample_model 0)). discriminate.
Defined.

(** X12.  [predict] reads the sales file itself: without the file it never
    returns a forecast, and a call that succeeds with the file fails with
    [FileNotFoundError] without it. *)
Theorem predict_needs_ids_file (self : HierarchicalLGBM) (test_df : Frame)
    (fn : list string) :
  (exists e, predict self None test_df fn = Raise e)
  /\ forall ids w, predict self (Some ids) test_df fn = Ok w ->
       predict self None test_df fn = Raise "FileNotFoundError".
Proof.
  unfold predict.
  destruct (horizon_days self test_df) as [days|e]; cbn [bind];
    [|split; [eauto|discriminate]].
  destruct (mapM _ days) as [pl|e]; cbn [bind]; [|split; [eauto|discriminate]].
  destruct pl as [|p pl]; cbn [bind]; [split; [eauto|discriminate]|].
  split; eauto.
Qed.

Lemma substring_skip (p t : string) (n : nat) :
  substring (String.length p) n (p ++ t) = substring 0 n t.
Proof. induction p as [|c p IH]; simpl; auto. Qed.

Lemma substring_head (n s : string) :
  substring 0 (String.length n) (n ++ s) = n.
Proof.
  induction n as [|c n IH]; simpl.
  - destruct s; reflexivity.
  - now rewrite IH.
Qed.

Lemma contains_infix (n p s : string) :
  n <> EmptyString -> contains n (p ++ n ++ s) = true.
Proof.
  intros Hn. unfold contains.
  destruct (String.index 0 n (p ++ n ++ s)) eqn:E; [reflexivity|].
  exfalso.
  apply (String.index_correct3 0 (String.length p)) in E; auto; [|lia].
  apply E. rewrite substring_skip. apply substring_head.
Qed.

Lemma is_lag_roll_lag (p : string) (k : Z) : is_lag_roll (lag_name p k) = true.
Proof.
  unfold is_lag_roll, lag_name. rewrite contains_infix; [reflexivity|discriminate].
Qed.

Lemma is_lag_roll_roll (p : string) (w : Z) : is_lag_roll (roll_name p w) = true.
Proof.
  unfold is_lag_roll, roll_name.
  rewrite (contains_infix "_roll_"); [apply orb_true_r|discriminate].
Qed.

Lemma filter_keeps_all (p : string -> bool) (l : list string) :
  (forall x, In x l -> p x = true) -> filter p l = l.
Proof.
  induction l as [|a l IH]; simpl; intros H; auto.
  rewrite (H a) by auto. f_equal. apply IH. auto.
Qed.

(** X13.  The names of [get_feature_names] are the ten base features
    followed by the lag and rolling features of the levels, and the test
    [train] uses to choose the columns it shifts takes none of the former
    and all of the latter. *)
Theorem train_shifts_level_features (self : FeatureEngineer)
    (levels : list Level) :
  firstn 10 (get_feature_names self levels) = base_feats
  /\ filter is_lag_roll (get_feature_names self levels)
     = skipn 10 (get_feature_names self levels)
  /\ List.length (get_feature_names self levels)
     = (10 + List.length levels
             * (List.length (lags self) + List.length (rolling_windows self)))%nat.
Proof.
  unfold get_feature_names.
  set (lag_feats := flat_map (fun level => map (lag_name (prefix level)) (lags self))
                             levels).
  set (roll_feats := flat_map (fun level => map (roll_name (prefix level))
                                                (rolling_windows self)) levels).
  split; [reflexivity|]. split.
  - rewrite filter_app.
    change (filter is_lag_roll base_feats) with (@nil string).
    change (skipn 10 (base_feats ++ lag_feats ++ roll_feats))
      with (lag_feats ++ roll_feats).
    simpl. apply filter_keeps_all. intros x Hx. apply in_app_or in Hx.
    destruct Hx as [Hx|Hx]; apply in_flat_map in Hx;
      destruct Hx as [l [_ Hx]]; apply in_map_iff in Hx;
      destruct Hx as [k [<- _]].
    + apply is_lag_roll_lag.
    + apply is_lag_roll_roll.
  - rewrite !length_app. unfold lag_feats, roll_feats.
    rewrite (length_blocks _ _ _ (List.length (lags self)))
      by (intros a; apply length_map).
    rewrite (length_blocks _ _ _ (List.length (rolling_windows self)))
      by (intros a; apply length_map).
    simpl. lia.
Qed.

(** ** The evaluator: row order and repeated alignment *)

Lemma lookup_row_pair (idx : list string) (vals : Matrix) (i : string)
    (v : list float) :
  NoDup idx ->
  (lookup_row i idx vals = Some v <-> In (i, v) (combine idx vals)).
Proof.
  revert vals. induction idx as [|j idx IH]; intros [|u vals] Hn; simpl;
    try (split; [discriminate|contradiction]).
  inversion Hn as [|? ? Hnot Hn']; subst.
  destruct (String.eqb_spec j i) as [->|Hj].
  - split.
    + intros [= ->]. auto.
    + intros [[= ->]|H]; auto.
      apply in_combine_l in H. contradiction.
  - rewrite (IH vals Hn'). split; auto.
    intros [[= -> _]|H]; [congruence|auto].
Qed.

Lemma row_of_own (idx : list string) (vals : Matrix) (cols : list string) :
  NoDup idx -> List.length vals = List.length idx ->
  map (row_of (mkWide idx cols vals)) idx = vals.
Proof.
  unfold row_of. simpl. revert vals.
  induction idx as [|j idx IH]; intros [|u vals] Hn Hl; simpl in *;
    try discriminate; auto.
  inversion Hn as [|? ? Hnot Hn']; subst.
  rewrite String.eqb_refl. f_equal.
  etransitivity; [|apply (IH vals Hn'); lia].
  apply map_ext_in. intros i Hi.
  destruct (String.eqb_spec j i) as [->|]; [contradiction|reflexivity].
Qed.

Lemma reindex_rows (target : list string) (w : Wide) :
  well_indexed w ->
  exists re, reindex target w = Ok re
             /\ wvalues re = map (row_of w) target.
Proof.
  intros [Hn Hl]. unfold reindex.
  destruct (list_eqb (index w) target) eqn:E.
  - exists w. split; auto. apply list_eqb_eq in E. subst target.
    destruct w as [idx cols vals]. simpl in *. symmetry.
    now apply row_of_own.
  - rewrite (nodupb_true _ Hn). simpl. eexists. split; reflexivity.
Qed.

(** X14.  The score does not depend on the order of the rows of the
    forecast: two well-indexed frames with the same columns and the same
    labelled rows, in any order, reach the scorer as the same array, so
    that [evaluate] returns the same score for both, or fails with the
    same error when the scorer refuses the array. *)
Theorem evaluate_ignores_row_order (wrmsse : Matrix -> result float)
    (self : M5Evaluator) (w w' : Wide) :
  well_indexed w -> well_indexed w' ->
  wcolumns w' = wcolumns w ->
  Permutation (combine (index w') (wvalues w')) (combine (index w) (wvalues w)) ->
  evaluate wrmsse self w' = evaluate wrmsse self w.
Proof.
  intros Hw Hw' Hc Hp.
  assert (Hrow : forall i, row_of w' i = row_of w i).
  { intros i. unfold row_of. rewrite Hc.
    destruct Hw as [Hn _]. destruct Hw' as [Hn' _].
    destruct (lookup_row i (index w') (wvalues w')) as [v|] eqn:L'.
    - apply (lookup_row_pair _ _ _ _ Hn') in L'.
      apply (Permutation_in _ Hp) in L'.
      apply (lookup_row_pair _ _ _ _ Hn) in L'. now rewrite L'.
    - destruct (lookup_row i (index w) (wvalues w)) as [v|] eqn:L; auto.
      apply (lookup_row_pair _ _ _ _ Hn) in L.
      apply (Permutation_in _ (Permutation_sym Hp)) in L.
      apply (lookup_row_pair _ _ _ _ Hn') in L. congruence. }
  destruct (reindex_rows (sales_ids self) w Hw) as [re [R V]].
  destruct (reindex_rows (sales_ids self) w' Hw') as [re' [R' V']].
  unfold evaluate. rewrite R, R'. simpl. rewrite V, V'.
  do 2 f_equal. apply map_ext. exact Hrow.
Qed.

Lemma evaluate_ignores_row_order_witness :
  evaluate sample_score (mkEvaluator ["b"; "c"; "a"])
           (mkWide ["b"; "a"] ["F1"; "F2"] [[None; q 4]; [q 1; q 2]])
  = evaluate sample_score (mkEvaluator ["b"; "c"; "a"]) sample_forecast
  /\ evaluate sample_score (mkEvaluator ["b"; "c"; "a"])
              (mkWide ["b"; "a"] ["F1"; "F2"] [[None; q 4]; [q 1; q 2]])
     = Ok (q 7).
Proof.
  split.
  - apply (evaluate_ignores_row_order sample_score (mkEvaluator ["b"; "c"; "a"])
             sample_forecast
             (mkWide ["b"; "a"] ["F1"; "F2"] [[None; q 4]; [q 1; q 2]])).
    + split; [apply nodupb_NoDup|]; reflexivity.
    + split; [apply nodupb_NoDup|]; reflexivity.
    + reflexivity.
    + simpl. apply perm_swap.
  - reflexivity.
Defined.

(** X15.  Aligning a forecast twice is aligning it once: a frame that
    [reindex] returned for the ids of the evaluator is returned unchanged
    when it is aligned again, and it is scored as the frame it came from. *)
Theorem evaluate_after_reindex (wrmsse : Matrix -> result float)
    (self : M5Evaluator) (w re : Wide) :
  reindex (sales_ids self) w = Ok re ->
  reindex (sales_ids self) re = Ok re
  /\ evaluate wrmsse self re = evaluate wrmsse self w.
Proof.
  intros H.
  assert (Hre : reindex (sales_ids self) re = Ok re).
  { unfold reindex in *.
    destruct (list_eqb (index w) (sales_ids self)) eqn:E.
    - injection H as <-. now rewrite E.
    - destruct (negb (nodupb (index w))); [discriminate|].
      injection H as <-. simpl.
      now rewrite (proj2 (list_eqb_eq _ _) eq_refl). }
  split; auto. unfold evaluate. now rewrite H, Hre.
Qed.

Lemma evaluate_after_reindex_witness :
  exists re,
    reindex ["b"; "c"; "a"] sample_forecast = Ok re
    /\ reindex ["b"; "c"; "a"] re = Ok re.
Proof.
  destruct (reindex ["b"; "c"; "a"] sample_forecast) as [re|e] eqn:E;
    [|vm_compute in E; discriminate].
  exists re. split; [reflexivity|].
  exact (proj1 (evaluate_after_reindex sample_score
                  (mkEvaluator ["b"; "c"; "a"]) sample_forecast re E)).
Defined.

(** ** The feature engine: encodings, requirements and objects *)

Section Factorize.
Variable A : Type.
Variable eqb : A -> A -> bool.
Hypothesis eqb_spec : forall a b, eqb a b = true <-> a = b.

Lemma index_of_some (x : A) (l : list A) (i : nat) :
  index_of eqb x l = Some i -> nth_error l i = Some x.
Proof.
  revert i. induction l as [|y l IH]; intros i; simpl; [discriminate|].
  destruct (eqb x y) eqn:E.
  - intros [= <-]. apply eqb_spec in E. now subst.
  - destruct (index_of eqb x l) as [k|]; simpl; [|discriminate].
    intros [= <-]. simpl. auto.
Qed.

Lemma index_of_none (x : A) (l : list A) :
  index_of eqb x l = None -> ~ In x l.
Proof.
  induction l as [|y l IH]; simpl; auto.
  destruct (eqb x y) eqn:E; [discriminate|].
  destruct (index_of eqb x l); simpl; [discriminate|].
  intros _ [H|H]; [|now apply IH].
  subst. rewrite (proj2 (eqb_spec x x) eq_refl) in E. discriminate.
Qed.

Lemma snoc_NoDup (x : A) (l : list A) : NoDup l -> ~ In x l -> NoDup (l ++ [x]).
Proof.
  intros Hn Hx. induction Hn as [|y l Hy Hn IH]; simpl.
  - constructor; [intros []|constructor].
  - constructor.
    + intros H. apply in_app_or in H. destruct H as [H|[H|[]]]; auto.
      subst. apply Hx. now left.
    + apply IH. intros H. apply Hx. now right.
Qed.

(** Each code is the position of its value among the distinct values. *)
Lemma factorize_from_codes (l : list A) :
  forall seen, NoDup seen ->
    NoDup (uniques_from eqb seen l)
    /\ (exists t, uniques_from eqb seen l = seen ++ t)
    /\ (forall x, In x (uniques_from eqb seen l) -> In x seen \/ In x l)
    /\ Forall2 (fun x c => (0 <= c)%Z
                           /\ nth_error (uniques_from eqb seen l) (Z.to_nat c)
                              = Some x)
               l (factorize_from eqb seen l).
Proof.
  induction l as [|x l IH]; intros seen Hn; simpl.
  - repeat split; auto. exists []. now rewrite app_nil_r.
  - destruct (index_of eqb x seen) as [i|] eqn:E.
    + destruct (IH seen Hn) as [H1 [[t H2] [H3 H4]]].
      repeat split; auto.
      * eauto.
      * intros y Hy. destruct (H3 y Hy); auto.
      * constructor; auto. split; [lia|].
        rewrite Nat2Z.id, H2. apply index_of_some in E.
        rewrite nth_error_app1; auto. apply nth_error_Some. congruence.
    + apply index_of_none in E.
      destruct (IH (seen ++ [x]) (snoc_NoDup x seen Hn E))
        as [H1 [[t H2] [H3 H4]]].
      repeat split; auto.
      * exists (x :: t). rewrite H2, <- app_assoc. reflexivity.
      * intros y Hy. destruct (H3 y Hy) as [H|H]; auto.
        apply in_app_or in H. destruct H as [H|[H|[]]]; auto.
      * constructor; auto. split; [lia|].
        rewrite Nat2Z.id, H2, <- app_assoc.
        rewrite nth_error_app2 by lia. now rewrite Nat.sub_diag.
Qed.

Lemma factorize_from_length (l : list A) :
  forall seen, List.length (factorize_from eqb seen l) = List.length l.
Proof.
  induction l as [|x l IH]; intros seen; simpl; auto.
  destruct (index_of eqb x seen); simpl; now rewrite IH.
Qed.

(** Codes tell values apart, and there are no more codes than values. *)
Lemma factorize_codes (l : list A) :
  List.length (factorize eqb l) = List.length l
  /\ (forall i j ci cj vi vj,
        nth_error (factorize eqb l) i = Some ci ->
        nth_error (factorize eqb l) j = Some cj ->
        nth_error l i = Some vi -> nth_error l j = Some vj ->
        (ci = cj <-> vi = vj))
  /\ Forall (fun c => (0 <= c < Z.of_nat (List.length (unique eqb l)))%Z)
            (factorize eqb l).
Proof.
  unfold factorize.
  destruct (factorize_from_codes l [] (NoDup_nil A)) as [H1 [_ [H3 H4]]].
  split; [apply factorize_from_length|]. split.
  - intros i j ci cj vi vj Hci Hcj Hvi Hvj.
    pose proof (Forall2_nth_error _ _ _ _ _ i H4) as Ri.
    pose proof (Forall2_nth_error _ _ _ _ _ j H4) as Rj.
    rewrite Hvi, Hci in Ri. rewrite Hvj, Hcj in Rj.
    destruct Ri as [Pi Ni]. destruct Rj as [Pj Nj].
    split.
    + intros ->. congruence.
    + intros ->. rewrite <- Nj in Ni.
      apply (proj1 (NoDup_nth_error _) H1) in Ni.
      * lia.
      * apply nth_error_Some. rewrite Ni, Nj. discriminate.
  - assert (Hlen : (List.length (uniques_from eqb [] l)
                    <= List.length (unique eqb l))%nat).
    { apply NoDup_incl_length; auto. intros x Hx.
      apply (unique_In A eqb eqb_spec). destruct (H3 x Hx) as [[]|H]; auto. }
    apply Forall_forall. intros c Hc.
    apply In_nth_error in Hc. destruct Hc as [i Hi].
    destruct (nth_error l i) as [v|] eqn:Hv.
    + pose proof (Forall2_nth_error _ _ _ _ _ i H4) as Ri.
      rewrite Hv, Hi in Ri. destruct Ri as [P N].
      assert (Z.to_nat c < List.length (uniques_from eqb [] l))%nat
        by (apply nth_error_Some; congruence).
      lia.
    + apply nth_error_None in Hv.
      assert (i < List.length (factorize_from eqb [] l))%nat
        by (apply nth_error_Some; congruence).
      rewrite factorize_from_length in H. lia.
Qed.
End Factorize.

Lemma cat_values_set_nums (x c : string) (vs : list float) (rs : list Row) :
  map (fun r => cat r x) (set_nums c vs rs) = map (fun r => cat r x) rs.
Proof.
  revert rs. induction vs as [|v vs IH]; intros [|r rs]; simpl; auto.
  now rewrite IH.
Qed.

Lemma num_values_set_other (x c : string) (vs : list float) (rs : list Row) :
  x <> c ->
  map (fun r => num r x) (set_nums c vs rs) = map (fun r => num r x) rs.
Proof.
  intros Hx. revert rs. induction vs as [|v vs IH]; intros [|r rs]; simpl; auto.
  rewrite IH. destruct (String.eqb_spec x c); [contradiction|reflexivity].
Qed.

Lemma num_values_set_own (c : string) (vs : list float) (rs : list Row) :
  List.length vs = List.length rs ->
  map (fun r => num r c) (set_nums c vs rs) = vs.
Proof.
  revert rs. induction vs as [|v vs IH]; intros [|r rs]; simpl;
    try discriminate; auto.
  intros [= H]. rewrite IH by auto. now rewrite String.eqb_refl.
Qed.

Lemma encode_step_rows (f : Frame) (c : string) :
  rows (encode_step f c)
  = if mem c (columns f)
    then set_nums (c ++ "_enc") (factorize_column c f) (rows f)
    else rows f.
Proof. unfold encode_step. now destruct (mem c (columns f)). Qed.

Lemma encode_step_cat_column (f : Frame) (c x : string) :
  x <> (c ++ "_enc")%string ->
  (In x (cat_columns (encode_step f c)) <-> In x (cat_columns f)).
Proof.
  intros Hx. unfold encode_step. destruct (mem c (columns f)); [|tauto].
  simpl. rewrite filter_In. split; [tauto|]. intros H. split; auto.
  destruct (String.eqb_spec x (c ++ "_enc")); [contradiction|reflexivity].
Qed.

Lemma encode_step_num_column (f : Frame) (c x : string) :
  x <> (c ++ "_enc")%string ->
  (In x (num_columns (encode_step f c)) <-> In x (num_columns f)).
Proof.
  intros Hx. unfold encode_step. destruct (mem c (columns f)); [|tauto].
  simpl. destruct (mem (c ++ "_enc") (num_columns f)); [tauto|].
  rewrite in_app_iff. simpl. split; [|tauto].
  intros [H|[H|[]]]; auto. congruence.
Qed.

Lemma encode_fold_cat_values (x : string) (cols : list string) :
  forall f, cat_values x (fold_left encode_step cols f) = cat_values x f.
Proof.
  unfold cat_values.
  induction cols as [|c cols IH]; intros f; simpl; auto.
  rewrite IH, encode_step_rows.
  destruct (mem c (columns f)); auto. apply cat_values_set_nums.
Qed.

Lemma encode_fold_num_values (x : string) (cols : list string) :
  (forall c, In c cols -> x <> (c ++ "_enc")%string) ->
  forall f, num_values x (fold_left encode_step cols f) = num_values x f.
Proof.
  unfold num_values.
  induction cols as [|c cols IH]; intros Hx f; simpl; auto.
  rewrite IH by (intros c' Hc'; apply Hx; now right).
  rewrite encode_step_rows.
  destruct (mem c (columns f)); auto.
  apply num_values_set_other. apply Hx. now left.
Qed.

Lemma encode_fold_columns_other (x : string) (cols : list string) :
  (forall c, In c cols -> x <> (c ++ "_enc")%string) ->
  forall f,
    (In x (cat_columns (fold_left encode_step cols f)) <-> In x (cat_columns f))
    /\ (In x (num_columns (fold_left encode_step cols f))
        <-> In x (num_columns f)).
Proof.
  induction cols as [|c cols IH]; intros Hx f; simpl; [tauto|].
  destruct (IH (fun c' Hc' => Hx c' (or_intror Hc')) (encode_step f c))
    as [H1 H2].
  rewrite H1, H2.
  rewrite (encode_step_cat_column f c x), (encode_step_num_column f c x);
    [tauto| |]; apply Hx; now left.
Qed.

Lemma factorize_column_cat (col : string) (f : Frame) :
  In col (cat_columns f) ->
  factorize_column col f
  = map float_of_Z (factorize String.eqb (cat_values col f)).
Proof.
  intros H. unfold factorize_column.
  now rewrite (proj2 (mem_In col (cat_columns f)) H).
Qed.

Lemma encode_fold_code (col : string) (cols : list string) :
  NoDup cols -> In col cols ->
  (forall c, In c cols -> c <> col -> (col ++ "_enc" <> c ++ "_enc")%string) ->
  (forall c, In c cols -> col <> (c ++ "_enc")%string) ->
  forall f, In col (cat_columns f) ->
    num_values (col ++ "_enc") (fold_left encode_step cols f)
    = map float_of_Z (factorize String.eqb (cat_values col f)).
Proof.
  induction 1 as [|c cols Hc Hn IH]; intros Hin H1 H2 f Hf; [destruct Hin|].
  simpl. destruct (String.eqb_spec c col) as [->|Hne].
  - rewrite encode_fold_num_values.
    + unfold num_values. rewrite encode_step_rows.
      assert (Hm : mem col (columns f) = true).
      { apply mem_In. unfold columns. apply in_or_app. now left. }
      rewrite Hm, (factorize_column_cat col f Hf).
      apply num_values_set_own.
      rewrite length_map. unfold factorize, cat_values.
      now rewrite factorize_from_length, length_map.
    + intros c' Hc'. apply H1; [now right|]. intros ->. contradiction.
  - destruct Hin as [Hin|Hin]; [contradiction|].
    rewrite IH; auto.
    + f_equal. f_equal. apply (encode_fold_cat_values col [c] f).
    + intros c' Hc'. apply H1. now right.
    + intros c' Hc'. apply H2. now right.
    + apply encode_step_cat_column; auto. apply H2. now left.
Qed.

(** X16.  [_encode_categorical] writes into the caller's frame, for each of
    the four id columns it finds, a column of integer codes that tells the
    values of the id column apart: two rows have the same code exactly when
    they have the same value, the id column itself is unchanged, and the
    codes run from 0 to below the number of distinct values. *)
Theorem encode_categorical_codes (h : heap) (df : ref) (f : Frame)
    (col : string) :
  nth_error h df = Some f -> In col id_columns -> In col (cat_columns f) ->
  exists f' codes,
    _encode_categorical df h = Ok (df, update h df f')
    /\ cat_values col f' = cat_values col f
    /\ num_values (col ++ "_enc") f' = map float_of_Z codes
    /\ List.length codes = List.length (rows f)
    /\ (forall i j ci cj vi vj,
          nth_error codes i = Some ci -> nth_error codes j = Some cj ->
          nth_error (cat_values col f) i = Some vi ->
          nth_error (cat_values col f) j = Some vj ->
          (ci = cj <-> vi = vj))
    /\ Forall (fun c => (0 <= c < Z.of_nat (List.length
                                    (unique String.eqb (cat_values col f))))%Z)
              codes.
Proof.
  intros Hf Hcol Hcat.
  exists (encoded f), (factorize String.eqb (cat_values col f)).
  destruct (factorize_codes string String.eqb String.eqb_eq (cat_values col f))
    as [F1 [F2 F3]].
  split; [now apply run_encode|].
  split; [apply encode_fold_cat_values|]. split.
  - unfold encoded. apply encode_fold_code; auto.
    + apply nodupb_NoDup. reflexivity.
    + intros c Hc Hne E. apply Hne.
      repeat (destruct Hc as [<-|Hc]; [repeat (destruct Hcol as [<-|Hcol];
        [first [reflexivity|discriminate E]|]); destruct Hcol|]).
      destruct Hc.
    + intros c Hc E.
      repeat (destruct Hc as [<-|Hc]; [repeat (destruct Hcol as [<-|Hcol];
        [discriminate E|]); destruct Hcol|]).
      destruct Hc.
  - split; [|split; auto].
    rewrite F1. unfold cat_values. apply length_map.
Qed.

Lemma encode_categorical_codes_witness :
  exists f' codes,
    _encode_categorical 0%nat [sample_panel] = Ok (0%nat, [f'])
    /\ num_values "item_id_enc" f' = map float_of_Z codes
    /\ List.length codes = 8%nat.
Proof.
  destruct (encode_categorical_codes [sample_panel] 0%nat sample_panel "item_id")
    as [f' [codes [H1 [_ [H3 [H4 _]]]]]].
  - reflexivity.
  - simpl. auto.
  - simpl. auto.
  - exists f', codes. repeat split; auto.
Defined.

Lemma encoded_keeps_column (f : Frame) (x : string) :
  (forall c, In c id_columns -> x <> (c ++ "_enc")%string) ->
  (In x (columns (encoded f)) <-> In x (columns f)).
Proof.
  intros Hx. unfold encoded, columns.
  destruct (encode_fold_columns_other x id_columns Hx f) as [H1 H2].
  rewrite !in_app_iff. simpl. rewrite H1, H2. tauto.
Qed.

(** X17.  What [create_all_features] requires of its input: without a
    [sales] column it fails with [AssertionError]; with [sales] but without
    [wday] it fails with [KeyError]; and it never succeeds unless both are
    there. *)
Theorem create_all_features_requirements (self : FeatureEngineer)
    (levels : list Level) (h : heap) (df : ref) (f : Frame) :
  nth_error h df = Some f ->
  (~ In "sales" (columns f) ->
   create_all_features self df levels h = Raise "AssertionError")
  /\ (In "sales" (columns f) -> ~ In "wday" (columns f) ->
      create_all_features self df levels h = Raise "KeyError")
  /\ (forall r' h', create_all_features self df levels h = Ok (r', h') ->
        In "sales" (columns f) /\ In "wday" (columns f)).
Proof.
  intros Hf. unfold create_all_features.
  rewrite (bindM_ok (get_ok h df f Hf)).
  assert (Hw : In "wday" (columns (encoded f)) <-> In "wday" (columns f)).
  { apply encoded_keeps_column. intros c Hc E.
    repeat (destruct Hc as [<-|Hc]; [discriminate E|]). destruct Hc. }
  assert (He : nth_error (update h df (encoded f)) df = Some (encoded f))
    by (eapply nth_error_update_same; eauto).
  pose proof (run_date _ df _ He) as Hd.
  destruct (mem "sales" (columns f)) eqn:S; simpl.
  - apply mem_In in S.
    rewrite (bindM_ok (run_encode h df f Hf)).
    destruct (mem "wday" (columns (encoded f))) eqn:W.
    + apply mem_In in W. apply Hw in W. repeat split; auto; contradiction.
    + rewrite (bindM_raise Hd). repeat split; try discriminate.
      * contradiction.
  - assert (Hs : ~ In "sales" (columns f)).
    { intros H. apply mem_In in H. congruence. }
    repeat split; auto; try discriminate. contradiction.
Qed.

Lemma create_all_features_requirements_witness :
  create_all_features sample_engineer 0%nat sample_levels [sample_test]
  = Raise "KeyError".
Proof.
  destruct (create_all_features_requirements sample_engineer sample_levels
              [sample_test] 0%nat sample_test eq_refl) as [_ [H _]].
  apply H.
  - simpl. auto.
  - simpl. intros H0.
    repeat (destruct H0 as [H0|H0]; [discriminate H0|]). exact H0.
Defined.

Lemma run_levels_fresh (self : FeatureEngineer) (levels : list Level) :
  forall (h : heap) (df : ref) (f : Frame) (r' : ref) (h' : heap),
    nth_error h df = Some f ->
    _create_hierarchical_features self df levels h = Ok (r', h') ->
    (levels = [] /\ r' = df /\ h' = h)
    \/ (levels <> [] /\ (List.length h <= r')%nat /\ (r' < List.length h')%nat).
Proof.
  induction levels as [|level levels IH]; intros h df f r' h' Hf; simpl.
  - intros [= <- <-]. auto.
  - pose proof (run_level self h df f level Hf) as Hl.
    destruct (level_frame self f level) as [out|e].
    + destruct Hl as [junk Hl]. rewrite (bindM_ok Hl). intros H.
      right. split; [discriminate|].
      apply (IH _ _ out) in H; [|apply nth_error_last].
      rewrite !length_app in *. simpl in *.
      destruct H as [[_ [-> ->]]|[_ [H1 H2]]]; rewrite ?length_app; simpl; lia.
    + rewrite (bindM_raise Hl). discriminate.
Qed.

(** X18.  The frame [create_all_features] returns is the caller's own
    object when no level is configured, and an object created by the call
    (one the store did not hold before) when at least one level is. *)
Theorem create_all_features_result_object (self : FeatureEngineer)
    (levels : list Level) (h : heap) (df : ref) (f : Frame)
    (r' : ref) (h' : heap) :
  nth_error h df = Some f ->
  create_all_features self df levels h = Ok (r', h') ->
  (levels = [] -> r' = df /\ List.length h' = List.length h)
  /\ (levels <> [] ->
      r' <> df /\ nth_error h r' = None /\ (r' < List.length h')%nat).
Proof.
  intros Hf. unfold create_all_features.
  rewrite (bindM_ok (get_ok h df f Hf)).
  destruct (negb (mem "sales" (columns f))); [discriminate|].
  rewrite (bindM_ok (run_encode h df f Hf)).
  assert (He : nth_error (update h df (encoded f)) df = Some (encoded f))
    by (eapply nth_error_update_same; eauto).
  pose proof (run_date _ df _ He) as Hd.
  destruct (mem "wday" (columns (encoded f)));
    [|rewrite (bindM_raise Hd); discriminate].
  rewrite (bindM_ok Hd). rewrite update_update.
  assert (Hb : nth_error (update h df (dated (encoded f))) df
               = Some (dated (encoded f)))
    by (eapply nth_error_update_same; eauto).
  intros H. apply (run_levels_fresh self levels _ _ _ _ _ Hb) in H.
  rewrite update_length in H.
  assert (Hdf : (df < List.length h)%nat) by (apply nth_error_Some; congruence).
  destruct H as [[-> [-> ->]]|[Hne [H1 H2]]].
  - split; [|congruence]. intros _. split; auto. apply update_length.
  - split; [contradiction|]. intros _. repeat split; auto; try lia.
    now apply nth_error_None.
Qed.

Lemma create_all_features_result_object_witness :
  exists r' h',
    create_all_features sample_engineer 0%nat sample_levels [sample_panel]
    = Ok (r', h')
    /\ r' <> 0%nat.
Proof.
  destruct (create_all_features sample_engineer 0%nat sample_levels
              [sample_panel]) as [[r' h']|e] eqn:E;
    [|vm_compute in E; discriminate].
  exists r', h'. split; [reflexivity|].
  destruct (create_all_features_result_object sample_engineer sample_levels
              [sample_panel] 0%nat sample_panel r' h' eq_refl E) as [_ H].
  apply H. discriminate.
Defined.

Lemma distinct_rows_keys (g : list string) (l : list Row) (k : list string * Z) :
  In k (map (key_date g) (distinct_rows g l)) <-> In k (map (key_date g) l).
Proof.
  induction l as [|r l IH]; simpl; [tauto|]. rewrite <- IH. split.
  - intros [H|H]; auto. right. apply in_map_iff in H.
    destruct H as [x [E Hx]]. apply filter_In in Hx.
    apply in_map_iff. exists x. tauto.
  - intros [H|H]; auto. apply in_map_iff in H. destruct H as [x [E Hx]].
    destruct (same_key_date g r x) eqn:S.
    + left. apply same_key_date_iff in S. congruence.
    + right. apply in_map_iff. exists x. split; auto.
      apply filter_In. split; auto. now rewrite S.
Qed.

Lemma aggregated_rows (f agg : Frame) (g : list string) (p : string) :
  aggregated f g p = Ok agg ->
  exists mk : Row -> Row,
    rows agg = map mk (sort_rows g (distinct_rows g (rows f)))
    /\ (forall x, cat (mk x) = cat x /\ date (mk x) = date x)
    /\ forall x, num (mk x) ("sales_" ++ p)
                 = group_mean (map (fun r => num r "sales")
                                   (filter (same_key_date g x) (rows f))).
Proof.
  unfold aggregated, groupby_mean.
  destruct (has_cat_columns g f && mem "sales" (num_columns f)); [|discriminate].
  simpl. intros [= <-]. simpl. rewrite map_map.
  eexists. split; [reflexivity|]. simpl. split; [auto|].
  intros x. now rewrite !String.eqb_refl.
Qed.

(** X19.  [_create_aggregated_sales] builds a new frame and changes no
    object of the store.  The frame has the grouping columns, [date] and
    the aggregate signal; it holds one row for each (key, date) pair of the
    input and no pair twice, in ascending order of key and date.  The
    signal of a row is taken from the [sales] of the input rows of its key
    and date: it is NaN exactly when none of them is a number, and when
    they are whole numbers (their sum below 2^53) it is the double nearest
    to the mean of those that are numbers. *)
Theorem aggregated_sales_rows (h : heap) (df : ref) (f : Frame)
    (g : list string) (p : string) (r' : ref) (h' : heap) :
  nth_error h df = Some f ->
  _create_aggregated_sales df g p h = Ok (r', h') ->
  exists agg,
    r' = List.length h /\ h' = h ++ [agg]
    /\ columns agg = g ++ ["date"; ("sales_" ++ p)%string]
    /\ ordered g (rows agg)
    /\ NoDup (map (key_date g) (rows agg))
    /\ (forall k, In k (map (key_date g) (rows agg))
                  <-> In k (map (key_date g) (rows f)))
    /\ (forall a, In a (rows agg) ->
          let cell := map (fun r => num r "sales")
                          (filter (same_key_date g a) (rows f)) in
          (num a ("sales_" ++ p) = None <-> observed cell = 0%nat)
          /\ forall B,
               (Z.of_nat (List.length cell) * B < 2 ^ 53)%Z ->
               forallb (whole_below B) cell = true ->
               (0 < observed cell)%nat ->
               num a ("sales_" ++ p)
               = Some (rnd (nansum cell / inject_Z (Z.of_nat (observed cell))))).
Proof.
  intros Hf. rewrite (run_aggregated h df f g p Hf).
  destruct (aggregated f g p) as [agg|e] eqn:E; [|discriminate].
  intros [= <- <-]. exists agg.
  destruct (aggregated_shape f agg g p E) as [S1 [S2 S3]].
  destruct (aggregated_rows f agg g p E) as [mk [R1 [R2 R3]]].
  split; [reflexivity|]. split; [reflexivity|].
  split; [unfold columns; now rewrite S1, S2|].
  split; [rewrite R1, <- (sort_rows_map g mk _ R2); apply sort_rows_ordered|].
  split; [exact S3|]. split.
  - intros k. split.
    + intros Hk. rewrite R1, map_map in Hk.
      rewrite (map_ext (fun x => key_date g (mk x)) (key_date g)) in Hk.
      * apply distinct_rows_keys.
        eapply Permutation_in; [|exact Hk].
        apply Permutation_map. apply sort_rows_perm.
      * intros x. unfold key_date, key_of. destruct (R2 x) as [-> ->]. reflexivity.
    + intros Hk. rewrite R1, map_map.
      rewrite (map_ext (fun x => key_date g (mk x)) (key_date g)).
      * apply distinct_rows_keys in Hk.
        eapply Permutation_in; [|exact Hk].
        apply Permutation_map. symmetry. apply sort_rows_perm.
      * intros x. unfold key_date, key_of. destruct (R2 x) as [-> ->]. reflexivity.
  - intros a Ha. rewrite R1 in Ha. apply in_map_iff in Ha.
    destruct Ha as [x [<- _]]. cbv zeta. rewrite R3.
    assert (Ef : filter (same_key_date g (mk x)) (rows f)
                 = filter (same_key_date g x) (rows f)).
    { apply filter_ext. intros y. unfold same_key_date, same_group, key_of.
      destruct (R2 x) as [-> ->]. reflexivity. }
    rewrite Ef. split; [apply group_mean_none|].
    intros B HB Hw Hpos. now apply (group_mean_exact B).
Qed.

Lemma aggregated_sales_rows_witness :
  exists agg a,
    _create_aggregated_sales 0%nat ["store_id"] "st" [sample_panel]
    = Ok (1%nat, [sample_panel; agg])
    /\ List.length (rows agg) = 4%nat
    /\ nth_error (rows agg) 0 = Some a
    /\ date a = 1%Z
    /\ num a "sales_st" = Some (11 # 2)%Q.
Proof.
  destruct (_create_aggregated_sales 0%nat ["store_id"] "st" [sample_panel])
    as [[r' h']|e] eqn:E; [|vm_compute in E; discriminate].
  destruct (aggregated_sales_rows [sample_panel] 0%nat sample_panel
              ["store_id"] "st" r' h' eq_refl E) as [agg [-> [-> [_ [_ [_ [_ H]]]]]]].
  destruct (nth_error (rows agg) 0) as [a|] eqn:Ea.
  2:{ vm_compute in E. injection E as <-. discriminate Ea. }
  exists agg, a. split; [reflexivity|].
  assert (Ha : In a (rows agg)) by (eapply nth_error_In; eauto).
  destruct (H a Ha) as [_ Hv]. specialize (Hv 100%Z).
  assert (Q : num a "sales_st" = Some (11 # 2)%Q).
  { refine (eq_trans (Hv _ _ _) _); clear Hv H Ha;
      vm_compute in E; injection E as <-;
      vm_compute in Ea; injection Ea as <-;
      vm_compute; (reflexivity || lia). }
  clear Hv H Ha. vm_compute in E. injection E as <-.
  vm_compute in Ea. injection Ea as <-.
  split; [reflexivity|]. split; [reflexivity|]. split; [reflexivity|].
  exact Q.
Defined.

(** X20.  A level with an empty list of grouping columns (the total over
    all series) cannot be built: the aggregate is computed per date, but
    grouping it by no column is refused, and the level fails with
    [ValueError] on every frame that has rows and a [sales] column. *)
Theorem total_level_is_refused (self : FeatureEngineer) (h : heap) (df : ref)
    (f : Frame) (p : string) :
  nth_error h df = Some f -> rows f <> [] -> In "sales" (num_columns f) ->
  _create_hierarchical_level self df (mkLevel [] p) h = Raise "ValueError".
Proof.
  intros Hf Hr Hs.
  pose proof (run_level self h df f (mkLevel [] p) Hf) as Hl.
  assert (E : level_frame self f (mkLevel [] p) = Raise "ValueError").
  { unfold level_frame. simpl.
    destruct (aggregated f [] p) as [agg|e] eqn:A.
    - simpl. destruct (aggregated_rows f agg [] p A) as [mk [R1 _]].
      unfold lag_rolling_frame, lag_rolling_ready. simpl.
      destruct (sort_rows [] (rows agg)) as [|x xs] eqn:S; [|reflexivity].
      exfalso. apply (f_equal (@List.length Row)) in S.
      rewrite sort_rows_length, R1, length_map, sort_rows_length in S.
      destruct (rows f) as [|r rs]; [congruence|]. simpl in S. discriminate.
    - exfalso. unfold aggregated, groupby_mean in A. simpl in A.
      rewrite (proj2 (mem_In "sales" (num_columns f)) Hs) in A. discriminate. }
  now rewrite E in Hl.
Qed.

Lemma total_level_is_refused_witness :
  _create_hierarchical_level sample_engineer 0%nat (mkLevel [] "total")
    [sample_panel]
  = Raise "ValueError".
Proof.
  apply (total_level_is_refused sample_engineer [sample_panel] 0%nat
           sample_panel "total").
  - reflexivity.
  - discriminate.
  - simpl. auto.
Defined.

(** ** The configuration: dotted keys and defaults *)

Lemma get_loop_default (keys : list string) (default : Yaml) :
  is_dict default = false -> keys <> [] ->
  Config.get_loop keys default default = default.
Proof.
  intros Hd Hk. destruct keys as [|k keys]; [contradiction|].
  simpl. destruct default; auto. discriminate.
Qed.

Lemma get_loop_path (keys : list string) (default : Yaml) :
  is_dict default = false ->
  forall value,
    Config.get_loop keys value default
    = match lookup_path keys value with
      | Some v => v
      | None => default
      end.
Proof.
  intros Hd. induction keys as [|k keys IH]; intros value; simpl; auto.
  destruct value; auto.
  destruct (dict_lookup k d) as [v|]; [apply IH|].
  destruct keys as [|k' keys]; [reflexivity|].
  apply get_loop_default; [auto|discriminate].
Qed.

(** X21.  With a default that is not itself a mapping, [Config.get] returns
    the value the dotted key leads to, one mapping inside the other, and
    the default when a piece of the key is missing or is looked up in
    something that is not a mapping. *)
Theorem config_get_value_or_default (self : Config.Config) (key : string)
    (default : Yaml) :
  is_dict default = false ->
  Config.get self key default
  = match lookup_path (split "." key) (Config._config self) with
    | Some v => v
    | None => default
    end.
Proof. intros Hd. unfold Config.get. now apply get_loop_path. Qed.

Lemma config_get_witness :
  Config.get sample_config "data.history_days" YNone = YInt 600
  /\ Config.get sample_config "data.horizon" YNone = YNone
  /\ Config.get sample_config "data.history_days.unit" (YStr "d") = YStr "d".
Proof.
  rewrite !config_get_value_or_default by reflexivity.
  repeat split.
Defined.

Lemma split_first (sep : ascii) (k rest : string) :
  has_char sep k = false ->
  split sep (k ++ String sep rest) = k :: split sep rest.
Proof.
  induction k as [|c k IH]; simpl.
  - intros _. now rewrite Ascii.eqb_refl.
  - intros H. apply orb_false_iff in H. destruct H as [H1 H2].
    rewrite H1, (IH H2). reflexivity.
Qed.

(** X22.  A dotted key is followed one piece at a time: the first piece is
    looked up in the mapping of the configuration and the rest of the key
    in what was found.  A missing first piece does not end the search: the
    rest of the key is then looked up in the default, so that a default
    which is a mapping can answer with one of its own entries. *)
Theorem config_get_descends (self : Config.Config) (d : list (string * Yaml))
    (k rest : string) (default : Yaml) :
  Config._config self = YDict d -> has_char "." k = false ->
  Config.get self (k ++ String "." rest) default
  = Config.get (Config.mkConfig (match dict_lookup k d with
                                 | Some v => v
                                 | None => default
                                 end))
               rest default.
Proof.
  intros Hc Hk. unfold Config.get. rewrite (split_first "." k rest Hk).
  simpl. now rewrite Hc.
Qed.

Lemma config_get_descends_witness :
  Config.get (Config.mkConfig (YDict [])) "paths.output"
             (YDict [("output", YStr "out")])
  = YStr "out".
Proof.
  exact (eq_trans
           (config_get_descends (Config.mkConfig (YDict [])) [] "paths" "output"
              (YDict [("output", YStr "out")]) eq_refl eq_refl)
           eq_refl).
Defined.

(** ** The forecast service *)

Lemma dict_lookup_store_same (V : Type) (k : string) (v : V)
    (d : list (string * V)) :
  dict_lookup k (dict_store k v d) = Some v.
Proof.
  induction d as [|[k' v'] d IH]; simpl.
  - now rewrite String.eqb_refl.
  - destruct (String.eqb_spec k' k) as [->|Hk]; simpl.
    + now rewrite String.eqb_refl.
    + destruct (String.eqb_spec k' k); [contradiction|auto].
Qed.

Lemma dict_lookup_store_other (V : Type) (k k' : string) (v : V)
    (d : list (string * V)) :
  k <> k' -> dict_lookup k (dict_store k' v d) = dict_lookup k d.
Proof.
  intros Hk. induction d as [|[k0 v0] d IH]; simpl.
  - destruct (String.eqb_spec k' k); [congruence|auto].
  - destruct (String.eqb_spec k0 k') as [->|H0]; simpl.
    + destruct (String.eqb_spec k' k); [congruence|auto].
    + destruct (String.eqb_spec k0 k); auto.
Qed.

Lemma dict_store_keys (V : Type) (k : string) (v : V) (d : list (string * V)) :
  map fst (dict_store k v d)
  = if mem k (map fst d) then map fst d else map fst d ++ [k].
Proof.
  unfold mem. induction d as [|[k' v'] d IH]; simpl; auto.
  rewrite (String.eqb_sym k k').
  destruct (String.eqb_spec k' k) as [->|Hk]; simpl; auto.
  rewrite IH. now destruct (existsb (String.eqb k) (map fst d)).
Qed.

Lemma filter_twice (p q : string -> bool) (l : list string) :
  filter p (filter q l) = filter (fun x => q x && p x) l.
Proof.
  induction l as [|a l IH]; simpl; auto.
  destruct (q a); simpl; [destruct (p a)|]; now rewrite IH.
Qed.

Lemma mem_snoc (x k : string) (l : list string) :
  mem x (l ++ [k]) = mem x l || String.eqb x k.
Proof.
  unfold mem. rewrite existsb_app. simpl. now rewrite orb_false_r.
Qed.

Lemma stored_keys (V : Type) (value : string -> V) (ids : list string) :
  forall d : list (string * V),
    map fst (fold_left (fun d i => dict_store i (value i) d) ids d)
    = map fst d ++ filter (fun x => negb (mem x (map fst d)))
                          (unique String.eqb ids).
Proof.
  induction ids as [|i ids IH]; intros d; simpl.
  - now rewrite app_nil_r.
  - rewrite IH, dict_store_keys. destruct (mem i (map fst d)) eqn:M; simpl.
    + f_equal. rewrite filter_twice. apply filter_ext_in. intros x _.
      destruct (String.eqb_spec i x) as [->|]; simpl; [now rewrite M|reflexivity].
    + rewrite <- app_assoc. simpl. do 2 f_equal.
      rewrite filter_twice. apply filter_ext_in. intros x _.
      rewrite mem_snoc, negb_orb, (String.eqb_sym x i). apply andb_comm.
Qed.

Lemma stored_values (V : Type) (value : string -> V) (ids : list string) :
  forall (d : list (string * V)) (i : string),
    In i ids \/ dict_lookup i d = Some (value i) ->
    dict_lookup i (fold_left (fun d i => dict_store i (value i) d) ids d)
    = Some (value i).
Proof.
  induction ids as [|a ids IH]; intros d i; simpl.
  - intros [[]|H]; auto.
  - intros H. apply IH.
    destruct (in_dec string_dec i ids) as [Hin|Hout]; [now left|right].
    destruct (string_dec i a) as [->|Hne].
    + apply dict_lookup_store_same.
    + rewrite dict_lookup_store_other by auto.
      destruct H as [[H|H]|H]; [congruence|contradiction|auto].
Qed.

Lemma rows_at_absent (idx : list string) (vals : Matrix) (i : string) :
  ~ In i idx -> rows_at i idx vals = [].
Proof.
  revert vals. induction idx as [|j idx IH]; intros [|u vals] H; simpl; auto.
  destruct (String.eqb_spec j i) as [->|]; [exfalso; apply H; now left|].
  apply IH. intros Hin. apply H. now right.
Qed.

Lemma rows_at_unique (idx : list string) (vals : Matrix) (i : string) :
  NoDup idx -> List.length vals = List.length idx -> In i idx ->
  exists v, lookup_row i idx vals = Some v /\ rows_at i idx vals = [v].
Proof.
  revert vals. induction idx as [|j idx IH]; intros [|u vals] Hn Hl Hi;
    simpl in *; try discriminate; try contradiction.
  inversion Hn as [|? ? Hnot Hn']; subst.
  destruct (String.eqb_spec j i) as [->|Hj].
  - exists u. split; auto. f_equal. now apply rows_at_absent.
  - destruct Hi as [Hi|Hi]; [contradiction|].
    apply IH; auto.
Qed.

Lemma run_predict (w : Wide) (ids : list string) :
  forall d,
    foldM (fun predictions item_id =>
             if mem item_id (index w)
             then Ok (dict_store item_id (loc w item_id) predictions)
             else Ok (dict_store item_id Api.zeros predictions)) ids d
    = Ok (fold_left (fun d i => dict_store i (answer w i) d) ids d).
Proof.
  induction ids as [|i ids IH]; intros d; simpl; auto.
  unfold answer at 2. destruct (mem i (index w)); simpl; apply IH.
Qed.

(** X23.  A loaded predictor answers every request: the answer holds one
    entry per requested id, in the order in which the ids were first
    requested, however often an id is repeated; the entry of an id the
    forecast does not have is a row of 28 zeros, whatever the number of
    columns of the forecast; the entry of an id of a well-indexed forecast
    is its row. *)
Theorem api_predict_entries (self : Api.M5Predictor) (w : Wide)
    (item_ids : list string) :
  Api.model_loaded self = true -> Api.forecasts_df self = Some w ->
  exists predictions,
    Api.predict self item_ids = Ok predictions
    /\ map fst predictions = unique String.eqb item_ids
    /\ (forall i, In i item_ids -> ~ In i (index w) ->
          dict_lookup i predictions = Some (Flat (repeat (Some 0%Q) 28)))
    /\ (forall i, In i item_ids -> In i (index w) -> well_indexed w ->
          exists v, lookup_row i (index w) (wvalues w) = Some v
                    /\ dict_lookup i predictions = Some (Flat v)).
Proof.
  intros Hl Hw. unfold Api.predict. rewrite Hl, Hw. cbv beta iota.
  cbn [negb]. rewrite (run_predict w item_ids).
  eexists. split; [reflexivity|]. split; [|split].
  - rewrite stored_keys. simpl.
    apply filter_keeps_all. reflexivity.
  - intros i Hi Hn. rewrite stored_values by auto.
    unfold answer. destruct (mem i (index w)) eqn:M; [|reflexivity].
    apply mem_In in M. contradiction.
  - intros i Hi Hin [Hn Hlen]. rewrite stored_values by auto.
    destruct (rows_at_unique _ _ i Hn Hlen Hin) as [v [H1 H2]].
    exists v. split; auto. unfold answer, loc.
    rewrite (proj2 (mem_In _ _) Hin), H2. reflexivity.
Qed.

Lemma api_predict_entries_witness :
  exists predictions,
    Api.predict (Api.mkPredictor (Some sample_forecast) (Some []) true)
                ["b"; "zz"; "b"] = Ok predictions
    /\ map fst predictions = ["b"; "zz"].
Proof.
  destruct (api_predict_entries
              (Api.mkPredictor (Some sample_forecast) (Some []) true)
              sample_forecast ["b"; "zz"; "b"] eq_refl eq_refl)
    as [predictions [H1 [H2 _]]].
  exists predictions. split; [exact H1|exact H2].
Defined.

(** X24.  The service needs both files: when a pickle file is missing,
    [load_model] fails with [RuntimeError] and leaves the flag down, and
    every later request is refused, [predict] and [get_model_info] with
    [RuntimeError] and the [/items] page with [HTTPException], even when
    the forecasts themselves were read. *)
Theorem api_requires_both_files (forecasts_pkl : option Wide)
    (summary_pkl : option (list (string * Yaml))) :
  forecasts_pkl = None \/ summary_pkl = None ->
  let predictor := fst (Api.load_model Api.init forecasts_pkl summary_pkl) in
  snd (Api.load_model Api.init forecasts_pkl summary_pkl) = Raise "RuntimeError"
  /\ Api.model_loaded predictor = false
  /\ Api.forecasts_df predictor = forecasts_pkl
  /\ (forall item_ids, Api.predict predictor item_ids = Raise "RuntimeError")
  /\ Api.get_model_info predictor = Raise "RuntimeError"
  /\ (forall limit offset,
        Api.list_items predictor limit offset = Raise "HTTPException").
Proof.
  intros H. destruct forecasts_pkl as [w|]; simpl.
  - destruct summary_pkl as [s|]; [destruct H; discriminate|].
    simpl. repeat split.
  - repeat split.
Qed.

Lemma api_requires_both_files_witness :
  Api.predict (fst (Api.load_model Api.init (Some sample_forecast) None)) ["a"]
  = Raise "RuntimeError".
Proof.
  destruct (api_requires_both_files (Some sample_forecast) None
              (or_intror eq_refl)) as [_ [_ [_ [H _]]]].
  apply H.
Defined.

Lemma firstn_capped (a : nat) (l : list string) :
  firstn (Nat.min a (List.length l)) l = firstn a l.
Proof.
  destruct (Nat.le_ge_cases a (List.length l)) as [H|H].
  - now rewrite Nat.min_l.
  - rewrite Nat.min_r by auto. now rewrite !firstn_all2 by lia.
Qed.

Lemma firstn_sum (a b : nat) (l : list string) :
  firstn (a + b) l = firstn a l ++ firstn b (skipn a l).
Proof.
  revert l. induction a as [|a IH]; intros [|x l]; simpl; auto.
  - now rewrite firstn_nil.
  - now rewrite IH.
Qed.

Lemma py_slice_page (offset limit : Z) (l : list string) :
  (0 <= offset)%Z -> (0 <= limit)%Z ->
  py_slice offset (offset + limit) l
  = firstn (Z.to_nat limit) (skipn (Z.to_nat offset) l).
Proof.
  intros Ho Hl. unfold py_slice.
  destruct (Z.ltb_spec offset 0); [lia|].
  destruct (Z.ltb_spec (offset + limit) 0); [lia|].
  destruct (Z.le_gt_cases (Z.of_nat (List.length l)) offset) as [H1|H1].
  - rewrite (Z.min_r offset) by lia. rewrite Nat2Z.id.
    rewrite !skipn_all2 by lia. now rewrite !firstn_nil.
  - rewrite (Z.min_l offset) by lia.
    rewrite <- (firstn_capped (Z.to_nat limit)).
    f_equal. rewrite length_skipn. lia.
Qed.

(** X25.  The pages of the [/items] endpoint tile the list of ids: for an
    offset and limits that are not negative, a page is the next [limit]
    ids after the first [offset], it has at most [limit] ids, its [total]
    is the number of all ids, and two pages in a row are the page of both
    limits together. *)
Theorem list_items_pages_tile (predictor : Api.M5Predictor)
    (all_items : list string) (offset a b : Z) :
  Api.get_available_items predictor = Ok all_items ->
  (0 <= offset)%Z -> (0 <= a)%Z -> (0 <= b)%Z ->
  exists p1 p2 p,
    Api.list_items predictor a offset = Ok p1
    /\ Api.list_items predictor b (offset + a) = Ok p2
    /\ Api.list_items predictor (a + b) offset = Ok p
    /\ Api.items p = Api.items p1 ++ Api.items p2
    /\ Api.items p1 = firstn (Z.to_nat a) (skipn (Z.to_nat offset) all_items)
    /\ (Z.of_nat (List.length (Api.items p1)) <= a)%Z
    /\ Api.total p1 = Z.of_nat (List.length all_items).
Proof.
  intros Hg Ho Ha Hb. unfold Api.list_items. rewrite Hg.
  do 3 eexists. split; [reflexivity|]. split; [reflexivity|].
  split; [reflexivity|]. simpl.
  rewrite !py_slice_page by lia. repeat split.
  - rewrite Z2Nat.inj_add by lia. rewrite firstn_sum, skipn_skipn.
    do 3 f_equal. lia.
  - rewrite length_firstn. lia.
Qed.

Lemma list_items_pages_witness :
  exists p,
    Api.list_items (Api.mkPredictor (Some sample_forecast) (Some []) true) 1 1
    = Ok p
    /\ Api.items p = ["b"].
Proof.
  destruct (list_items_pages_tile
              (Api.mkPredictor (Some sample_forecast) (Some []) true)
              ["a"; "b"] 1 1 0 eq_refl) as [p1 [_ [_ [H1 [_ [_ [_ [H5 _]]]]]]]];
    try lia.
  exists p1. split; [exact H1|]. rewrite H5. reflexivity.
Defined.

(** X26.  What [/model/info] can tell after each training script.  The
    plain script saves the rolling windows and the number of rounds under
    [rolls] and [rounds], and no training time: a predictor loaded with its
    summary reports [None] for [rolling_windows], [num_boost_round] and
    [training_time].  The summary of the script with experiment tracking
    has every field the predictor reads. *)
Theorem model_info_after_training (config : Config.Config) (score : Q)
    (training_time : Q) (feature_names : list string) (forecasts : Wide) :
  (exists info,
      Api.get_model_info
        (fst (Api.load_model Api.init (Some forecasts)
                (Some (main_summary config score)))) = Ok info
      /\ dict_lookup "wrmsse" info = Some (YFloat score)
      /\ dict_lookup "history_days" info = Some (Config.history_days config)
      /\ dict_lookup "lags" info = Some (Config.lags config)
      /\ dict_lookup "rolling_windows" info = Some YNone
      /\ dict_lookup "num_boost_round" info = Some YNone
      /\ dict_lookup "training_time" info = Some YNone)
  /\ (exists info,
        Api.get_model_info
          (fst (Api.load_model Api.init (Some forecasts)
                  (Some (mlflow_summary config score training_time
                           feature_names)))) = Ok info
        /\ dict_lookup "wrmsse" info = Some (YFloat score)
        /\ dict_lookup "history_days" info = Some (Config.history_days config)
        /\ dict_lookup "lags" info = Some (Config.lags config)
        /\ dict_lookup "rolling_windows" info
           = Some (Config.rolling_windows config)
        /\ dict_lookup "num_boost_round" info
           = Some (Config.num_boost_round config)
        /\ dict_lookup "training_time" info = Some (YFloat training_time)).
Proof.
  split; eexists; (split; [reflexivity|]); repeat split.
Qed.

(** ** Further properties of the loader, the engine and the trainer *)

Lemma is_weekend_of_spec (x : float) :
  (is_weekend_of x = float_of_Z 1 /\ weekend_day x)
  \/ (is_weekend_of x = float_of_Z 0 /\ ~ weekend_day x).
Proof.
  unfold is_weekend_of, weekend_day, float_eqb.
  destruct x as [v|]; simpl.
  - destruct (Qeq_bool v (inject_Z 1)) eqn:E1; simpl.
    + left. split; auto. exists v. split; auto. left.
      now apply Qeq_bool_iff in E1.
    + destruct (Qeq_bool v (inject_Z 7)) eqn:E7.
      * left. split; auto. exists v. split; auto. right.
        now apply Qeq_bool_iff in E7.
      * right. split; auto. intros [u [[= <-] [H|H]]].
        -- apply Qeq_bool_iff in H. change (inject_Z 1) with 1%Q in E1.
           congruence.
        -- apply Qeq_bool_iff in H. change (inject_Z 7) with 7%Q in E7.
           congruence.
  - right. split; auto. intros [u [H _]]. discriminate.
Qed.

(** X27.  [_create_date_features] writes [is_weekend] into the caller's
    frame and returns that same frame: with a numeric [wday] the flag of a
    row is 1 when its [wday] is 1 or 7 and 0 otherwise (0 also when [wday]
    is missing), and no other column changes.  Without a [wday] column the
    call fails with [KeyError]. *)
Theorem date_features_weekend (h : heap) (df : ref) (f : Frame) :
  nth_error h df = Some f ->
  (~ In "wday" (columns f) -> _create_date_features df h = Raise "KeyError")
  /\ (In "wday" (num_columns f) ->
      exists f',
        _create_date_features df h = Ok (df, update h df f')
        /\ Forall2 (fun r v => (v = float_of_Z 1 /\ weekend_day (num r "wday"))
                               \/ (v = float_of_Z 0
                                   /\ ~ weekend_day (num r "wday")))
                   (rows f) (num_values "is_weekend" f')
        /\ (forall c, c <> "is_weekend" -> num_values c f' = num_values c f)
        /\ (forall c, cat_values c f' = cat_values c f)).
Proof.
  intros Hf. rewrite (run_date h df f Hf). split.
  - intros Hn. destruct (mem "wday" (columns f)) eqn:M; auto.
    apply mem_In in M. contradiction.
  - intros Hw. exists (dated f).
    assert (M : mem "wday" (columns f) = true).
    { apply mem_In. unfold columns. apply in_or_app. right. now right. }
    rewrite M. split; [reflexivity|].
    unfold dated, num_values, cat_values. simpl.
    rewrite (proj2 (mem_In _ _) Hw). repeat split.
    + rewrite num_values_set_own by apply length_map.
      induction (rows f) as [|r rs IH]; simpl; constructor; auto.
      apply is_weekend_of_spec.
    + intros c Hc. now apply num_values_set_other.
    + intros c. apply cat_values_set_nums.
Qed.

Lemma date_features_weekend_witness :
  exists f',
    _create_date_features 0%nat [sample_panel] = Ok (0%nat, [f'])
    /\ List.length (num_values "is_weekend" f') = 8%nat.
Proof.
  destruct (date_features_weekend [sample_panel] 0%nat sample_panel eq_refl)
    as [_ H].
  destruct H as [f' [H1 [H2 _]]].
  - simpl. auto.
  - exists f'. split; [exact H1|].
    apply Forall2_length in H2. rewrite <- H2. reflexivity.
Defined.

Lemma horizon_frame_complete (df : Frame) (fn : list string) (h : Z)
    (Xh : Frame) :
  horizon_frame df fn h = Ok Xh ->
  has_columns fn Xh = true
  /\ forall r c, In r (rows Xh) -> In c fn -> feature_value Xh r c <> None.
Proof.
  unfold horizon_frame.
  destruct (shift_features df fn h) as [Xs|]; simpl; [|discriminate].
  unfold dropna. destruct (has_columns fn Xs) eqn:Hc; [|discriminate].
  intros [= <-]. split; [exact Hc|].
  intros r c Hr Hin. simpl in Hr. apply filter_In in Hr. destruct Hr as [_ Hr].
  rewrite forallb_forall in Hr. specialize (Hr c Hin).
  unfold feature_value in *. simpl.
  destruct (mem c (num_columns Xs)); [|discriminate].
  destruct (num r c); [discriminate|discriminate].
Qed.

(** X28.  The dataset [train] hands to the boosted-tree primitive for a
    horizon: the booster stored is the one the primitive returned for a
    matrix and a target with one entry per row kept, the matrix has one
    column per feature name, and no entry of the matrix is missing. *)
Theorem fit_horizon_dataset (lgb : Trainer) (train_df : Frame)
    (fn : list string) (self : HierarchicalLGBM) (h : Z) (b : Booster) :
  fit_horizon lgb train_df fn self h = Ok b ->
  exists X y,
    lgb (params self) (num_boost_round self) X y = Ok b
    /\ List.length X = List.length y
    /\ Forall (fun row => List.length row = List.length fn
                          /\ Forall (fun x => x <> None) row) X.
Proof.
  unfold fit_horizon.
  destruct (horizon_frame train_df fn h) as [Xh|] eqn:E; cbn [bind];
    [|discriminate].
  destruct (horizon_frame_complete _ _ _ _ E) as [Hc Hv].
  destruct (mem "sales" (num_columns Xh)); cbn [bind]; [|discriminate].
  unfold values_of. rewrite Hc. cbn [bind]. intros Hb.
  eexists. eexists. split; [exact Hb|]. split.
  - now rewrite !length_map.
  - apply Forall_forall. intros row Hrow. apply in_map_iff in Hrow.
    destruct Hrow as [r [<- Hr]]. split; [apply length_map|].
    apply Forall_forall. intros x Hx. apply in_map_iff in Hx.
    destruct Hx as [c [<- Hin]]. now apply Hv.
Qed.

Lemma fit_horizon_dataset_witness :
  exists X y,
    lenient_trainer [] 10%Z X y = Ok sample_booster
    /\ List.length X = List.length y.
Proof.
  destruct (fit_horizon_dataset lenient_trainer sample_test ["x_lag_1"]
              (mkLGBM [] 10%Z 3%Z []) 1%Z sample_booster eq_refl)
    as [X [y [H1 [H2 _]]]].
  exists X, y. split; [exact H1|exact H2].
Defined.

Lemma merged_price_value (prices : list PriceRow) (long : list LongRow)
    (l : LongRow) :
  In l (merge_prices prices long) ->
  exists x, In x long
    /\ long_cal l = long_cal x /\ long_cat l = long_cat x
    /\ ((long_price l = long_price x
         /\ forall p, In p prices -> price_matches x p = false)
        \/ exists p, In p prices /\ price_matches x p = true
                     /\ long_price l = price_sell_price p).
Proof.
  intros Hl. unfold merge_prices in Hl. apply in_flat_map in Hl.
  destruct Hl as [x [Hx Hl]]. exists x. split; auto.
  destruct (filter (price_matches x) prices) as [|p ms] eqn:F.
  - destruct Hl as [<-|[]]. repeat split; auto. left. split; auto.
    intros p Hp. destruct (price_matches x p) eqn:M; auto.
    assert (In p (filter (price_matches x) prices))
      by (apply filter_In; auto).
    rewrite F in H. destruct H.
  - rewrite <- F in Hl. apply in_map_iff in Hl. destruct Hl as [p' [<- Hp]].
    simpl. repeat split; auto. right. apply filter_In in Hp.
    exists p'. tauto.
Qed.

Lemma melted_blank (sales : SalesTable) (long : list LongRow) (y : LongRow) :
  _melt_sales sales = Ok long -> In y long ->
  long_cal y = None /\ long_price y = None.
Proof.
  unfold _melt_sales. destruct (forallb _ id_vars); [|discriminate].
  intros [= <-] Hy. apply in_flat_map in Hy. destruct Hy as [d0 [_ Hy]].
  apply in_map_iff in Hy. destruct Hy as [r0 [<- _]]. auto.
Qed.

Lemma merged_calendar_price (calendar : list CalendarRow) (long : list LongRow)
    (l : LongRow) :
  (forall x, In x long -> long_price x = None) ->
  In l (merge_calendar calendar long) -> long_price l = None.
Proof.
  intros Hn Hl. unfold merge_calendar in Hl. apply in_flat_map in Hl.
  destruct Hl as [x [Hx Hl]].
  destruct (filter _ calendar) as [|c0 ms] eqn:F.
  - destruct Hl as [<-|[]]. auto.
  - rewrite <- F in Hl. apply in_map_iff in Hl. destruct Hl as [c' [<- _]].
    simpl. auto.
Qed.

(** X29.  The price of a panel row is the price listed for its store, its
    item and the week of its calendar day; it is missing when the price
    file lists none. *)
Theorem load_data_joins_prices (self : M5DataLoader)
    (calendar : list CalendarRow) (prices : list PriceRow)
    (sales_csv : option SalesTable) (panel : Frame) :
  load_data self (Some calendar) (Some prices) sales_csv = Ok panel ->
  forall r, In r (rows panel) ->
    exists c, In c calendar /\ date r = cal_date c
      /\ ((num r "sell_price" = None
           /\ forall p, In p prices -> ~ price_of p r c)
          \/ exists p, In p prices /\ price_of p r c
                       /\ num r "sell_price" = price_sell_price p).
Proof.
  intros H r Hin. apply load_data_rows in H.
  destruct H as [cal [pr [small [long [[= <-] [[= <-] [Hm Hr]]]]]]].
  rewrite Hr in Hin. apply in_map_iff in Hin. destruct Hin as [l [<- Hl]].
  apply temporal_filter_window in Hl. destruct Hl as [Hl [d [m [Hd _]]]].
  unfold _create_snap_feature in Hl. apply in_map_iff in Hl.
  destruct Hl as [l0 [<- Hl0]].
  set (r := panel_row _).
  assert (Hcat : cat r = long_cat l0) by reflexivity.
  assert (Hprice : num r "sell_price" = long_price l0) by reflexivity.
  assert (Hdate : forall c, long_cal l0 = Some c -> date r = cal_date c).
  { intros c Hc. unfold r, panel_row, long_date. simpl. now rewrite Hc. }
  clearbody r.
  unfold long_date in Hd. simpl in Hd.
  destruct (long_cal l0) as [c|] eqn:Hc; [|discriminate].
  destruct (merged_price_value _ _ _ Hl0) as [x [Hx [E1 [E3 Hp]]]].
  assert (Hcal : In c calendar /\ cal_d c = long_d x).
  { eapply merged_calendar; eauto; [|congruence].
    intros y Hy. now destruct (melted_blank _ _ _ Hm Hy). }
  assert (Hblank : long_price x = None).
  { eapply merged_calendar_price; eauto.
    intros y Hy. now destruct (melted_blank _ _ _ Hm Hy). }
  assert (Hmatch : forall p, price_matches x p = true <-> price_of p r c).
  { intros p. unfold price_matches, price_of. rewrite <- E1, Hc.
    rewrite Hcat, E3, !andb_true_iff, !String.eqb_eq, Z.eqb_eq. tauto. }
  exists c. split; [tauto|]. split; [now apply Hdate|].
  destruct Hp as [[P1 P2]|[p [P1 [P2 P3]]]].
  - left. split; [congruence|].
    intros p Hp Hof. apply Hmatch in Hof. rewrite (P2 p Hp) in Hof.
    discriminate.
  - right. exists p. split; auto. split; [now apply Hmatch|congruence].
Qed.

Lemma load_data_joins_prices_witness :
  exists panel,
    load_data (mkLoader 2 1) (Some (sample_calendar 12)) (Some [])
              (Some sample_sales) = Ok panel
    /\ forall r, In r (rows panel) -> num r "sell_price" = None.
Proof.
  destruct (load_data (mkLoader 2 1) (Some (sample_calendar 12)) (Some [])
                      (Some sample_sales)) as [panel|e] eqn:E;
    [|vm_compute in E; discriminate].
  exists panel. split; [reflexivity|]. intros r Hr.
  destruct (load_data_joins_prices _ _ _ _ _ E r Hr)
    as [c [_ [_ [[H _]|[p [[] _]]]]]].
  exact H.
Defined.

(** ** Rolling features (C1) *)

(** The left join gives a left row the value its match holds in a column
    that only the right side has. *)
Lemma merge_left_brings (left right out : Frame) (g : list string) (c : string) :
  merge_left left right g = Ok out ->
  NoDup (map (key_date g) (rows right)) ->
  (forall l, In l (rows left) ->
             exists a, In a (rows right) /\ same_key_date g l a = true) ->
  In c (num_columns right) -> ~ In c (columns left) ->
  Forall2 (fun l r => exists a, In a (rows right)
                                /\ same_key_date g l a = true
                                /\ num r c = num a c)
          (rows left) (rows out).
Proof.
  unfold merge_left. destruct (negb (_ && _)); [discriminate|].
  destruct (negb (_ && _)); [discriminate|].
  set (rcat := non_keys g (cat_columns right)).
  set (rnum := num_columns right).
  set (overlap := filter (fun c => mem c (rcat ++ rnum))
                         (non_keys g (cat_columns left) ++ num_columns left)).
  destruct (negb (nodupb _)) eqn:Hd; [discriminate|].
  apply negb_false_iff, nodupb_NoDup in Hd.
  intros [= <-] Hkd Hex Hc Hnew. simpl.
  assert (Hsfx : suffixed overlap "_y" c = c).
  { unfold suffixed. destruct (mem c overlap) eqn:M; auto.
    apply mem_In in M. unfold overlap in M. apply filter_In in M.
    destruct M as [M _]. exfalso. apply Hnew. unfold columns.
    apply in_app_or in M. apply in_or_app. destruct M as [M|M].
    - left. unfold non_keys in M. apply filter_In in M. tauto.
    - right. now right. }
  apply NoDup_app_inv in Hd. destruct Hd as [_ [Hn _]].
  inversion Hn as [|? ? _ Hn']; subst. clear Hn.
  apply NoDup_app_inv in Hn'. destruct Hn' as [_ [Hrn _]].
  assert (Hfind : find_src overlap "_y" rnum c = Some c).
  { destruct (find_src overlap "_y" rnum c) as [c0|] eqn:F.
    - f_equal. eapply find_src_own; eauto.
    - unfold find_src in F.
      pose proof (find_none _ _ F c Hc) as N. simpl in N.
      rewrite Hsfx, String.eqb_refl in N. discriminate. }
  apply Forall2_flat_map_single. intros l Hl.
  destruct (Hex l Hl) as [a [Ha Hs]].
  assert (Hin : In a (filter (same_key_date g l) (rows right)))
    by (apply filter_In; auto).
  destruct (at_most_one_match g l (rows right) Hkd) as [E|[a' E]];
    rewrite E in *; [destruct Hin|].
  destruct Hin as [Ea|[]]. subst a'. simpl. eexists. split; [reflexivity|].
  exists a. repeat split; auto. simpl. now rewrite Hfind.
Qed.

(** At an aggregate level every row of the panel receives, in each
    feature column of the level, the value of the row of the aggregate
    frame that has its key and date. *)
Lemma level_broadcast (self : FeatureEngineer) (cur next : Frame)
    (level : Level) (c : string) :
  list_eqb (groupby level) ["id"] = false ->
  level_frame self cur level = Ok next ->
  In c (level_names self (prefix level)) -> ~ In c (columns cur) ->
  exists agg out,
    aggregated cur (groupby level) (prefix level) = Ok agg
    /\ lag_rolling_frame self agg (groupby level)
         ("sales_" ++ prefix level) (prefix level) = Ok out
    /\ Forall2 (fun l r => exists a, In a (rows out)
                  /\ key_date (groupby level) a = key_date (groupby level) l
                  /\ num r c = num a c)
               (rows cur) (rows next).
Proof.
  intros Hg Hl Hc Hnew. unfold level_frame in Hl. rewrite Hg in Hl.
  set (g := groupby level) in *. set (p := prefix level) in *.
  destruct (aggregated cur g p) as [agg|] eqn:Ha; simpl in Hl; [|discriminate].
  destruct (lag_rolling_frame self agg g _ p) as [out|] eqn:Ho; simpl in Hl;
    [|discriminate].
  destruct (select_columns _ out) as [kept|] eqn:Hk; simpl in Hl; [|discriminate].
  exists agg, out. split; auto. split; auto.
  destruct (kept_shape self cur agg out kept g p Ha Ho Hk) as [S1 _].
  destruct (lag_rolling_frame_rows self agg out g _ p Ho) as [L1 [L2 _]].
  destruct (lag_rolling_frame_keeps self agg out g _ p [] [] Ho)
    as [_ [_ K2]]; [intros x []|].
  destruct (aggregated_rows cur agg g p Ha) as [mk [R1 [R2 _]]].
  assert (Hrows : rows kept = rows out).
  { unfold select_columns in Hk. destruct (forallb _ _); [|discriminate].
    now injection Hk as <-. }
  assert (Hnum : In c (num_columns kept)).
  { unfold select_columns in Hk. destruct (forallb _ _); [|discriminate].
    injection Hk as <-. simpl. apply filter_In.
    assert (In c (num_columns out)) by (apply K2; auto).
    split; [|now apply mem_In].
    unfold keep_cols. apply in_or_app. right. apply in_or_app. right.
    apply filter_In. split; [|now apply startswith_level_names with self].
    unfold columns. apply in_or_app. right. now right. }
  assert (Hkeys : map (key_date g) (rows out)
                  = map (key_date g) (sort_rows g (rows agg)))
    by (apply key_dates_of_rows; auto).
  assert (Hex : forall l, In l (rows cur) ->
            exists a, In a (rows kept) /\ same_key_date g l a = true).
  { intros l Hin.
    assert (In (key_date g l) (map (key_date g) (rows out))).
    { rewrite Hkeys.
      eapply Permutation_in;
        [apply Permutation_map; symmetry; apply sort_rows_perm|].
      rewrite R1, map_map.
      rewrite (map_ext (fun x => key_date g (mk x)) (key_date g)).
      - eapply Permutation_in;
          [apply Permutation_map; symmetry; apply sort_rows_perm|].
        apply distinct_rows_keys. now apply in_map.
      - intros x. unfold key_date, key_of. destruct (R2 x) as [-> ->].
        reflexivity. }
    apply in_map_iff in H. destruct H as [a [E Hin']].
    exists a. rewrite Hrows. split; auto.
    apply same_key_date_iff. congruence. }
  pose proof (merge_left_brings cur kept next g c Hl S1 Hex Hnum Hnew) as M.
  rewrite Hrows in M.
  eapply Forall2_impl; [|exact M].
  intros l r [a [A1 [A2 A3]]]. exists a. repeat split; auto.
  apply same_key_date_iff in A2. congruence.
Qed.

Lemma none_in_or_not (l : list float) : In None l \/ ~ In None l.
Proof.
  induction l as [|[x|] l IH]; simpl.
  - right. tauto.
  - destruct IH as [H|H]; [left; auto|right]. intros [E|E]; [discriminate|auto].
  - left. auto.
Qed.

(** C1, as the code has it.  [_add_lag_rolling_features] returns the rows
    of the frame sorted by group and date and writes, for a window [w],
    the rolling mean of width [w] of the one-step group shift of the
    source column, which pandas computes as one running sum along the
    whole sorted column.  In a frame without a repeated (group, date)
    pair:
    - the feature is missing at a row with fewer than [w] earlier rows in
      its group;
    - at a row with [w] earlier rows in its group, the [w] rows before it
      are rows of its group with earlier dates; the feature is missing when
      the source value of one of them is missing, and when the source
      column holds whole numbers (sums below 2^53) it is the double nearest
      to the mean of their source values;
    - the feature at the row of group [key] dated [d] is unchanged by any
      change of the source that spares the rows sorted before that row, so
      that the value at [d], the later values of [key] and the groups
      sorted after [key] do not enter;
    - when the source column holds whole numbers before and after the
      change, the feature is the same number after any change that spares
      the rows of [key] dated before [d]: no other group enters;
    - at an aggregate level the level's call of the function runs on the
      aggregate frame, and every row of the panel receives the feature of
      the row of the result that has its key and date. *)
Theorem rolling_feature_no_leakage (self : FeatureEngineer) (h : heap)
    (df : ref) (f : Frame) (g : list string) (v p : string) (w : Z)
    (key : list string) (d : Z) (upd : Row -> float) (B : Z)
    (r1 : ref) (h1 : heap) :
  nth_error h df = Some f ->
  In w (rolling_windows self) ->
  NoDup (map (key_date g) (rows f)) ->
  _add_lag_rolling_features self df g v p h = Ok (r1, h1) ->
  exists out,
    nth_error h1 r1 = Some out
    /\ let src := sort_rows g (rows f) in
       let roll := roll_name p w in
       (forall j r0, nth_error src j = Some r0 ->
          exists r, nth_error (rows out) j = Some r
                    /\ cat r = cat r0 /\ date r = date r0)
       /\ (forall j r, nth_error (rows out) j = Some r ->
             nth_error (rolling_mean (Z.to_nat w) (groupby_shift g v 1 src)) j
             = Some (num r roll))
       /\ (forall j r0 r, nth_error src j = Some r0 ->
             nth_error (rows out) j = Some r ->
             (Z.of_nat (group_rank g src j r0) < w)%Z ->
             num r roll = None)
       /\ (forall j r0 r, nth_error src j = Some r0 ->
             nth_error (rows out) j = Some r ->
             (0 < w <= Z.of_nat (group_rank g src j r0))%Z ->
             let prior := slice (j - Z.to_nat w) j src in
             let values := map (fun x => num x v) prior in
             List.length prior = Z.to_nat w
             /\ (forall x, In x prior ->
                   key_of g x = key_of g r0 /\ (date x < date r0)%Z)
             /\ (In None values -> num r roll = None)
             /\ ((w * B < 2 ^ 53)%Z -> whole_column B v f ->
                 ~ In None values ->
                 exists m, num r roll = Some m
                           /\ (m == rnd (nansum values / inject_Z w))%Q))
       /\ (exists r2 h2 out',
             _add_lag_rolling_features self df g v p
               (update h df (mutate_frame (sorted_before g key d) v upd f))
             = Ok (r2, h2)
             /\ nth_error h2 r2 = Some out'
             /\ forall j r, nth_error (rows out) j = Some r ->
                  key_of g r = key -> date r = d ->
                  exists r', nth_error (rows out') j = Some r'
                             /\ cat r' = cat r /\ date r' = date r
                             /\ num r' roll = num r roll)
       /\ ((w * B < 2 ^ 53)%Z -> whole_column B v f ->
           whole_column B v (mutate_frame (earlier_in_group g key d) v upd f) ->
           exists r2 h2 out',
             _add_lag_rolling_features self df g v p
               (update h df (mutate_frame (earlier_in_group g key d) v upd f))
             = Ok (r2, h2)
             /\ nth_error h2 r2 = Some out'
             /\ forall j r, nth_error (rows out) j = Some r ->
                  key_of g r = key -> date r = d ->
                  exists r', nth_error (rows out') j = Some r'
                             /\ cat r' = cat r /\ date r' = date r
                             /\ same_number (num r' roll) (num r roll))
       /\ (forall (level : Level) (cur : Frame) (h0 : heap) (df0 r3 : ref)
                  (h3 : heap),
             groupby level = g -> prefix level = p ->
             list_eqb g ["id"] = false ->
             v = ("sales_" ++ p)%string ->
             aggregated cur g p = Ok f ->
             ~ In roll (columns cur) ->
             nth_error h0 df0 = Some cur ->
             _create_hierarchical_level self df0 level h0 = Ok (r3, h3) ->
             exists next,
               nth_error h3 r3 = Some next
               /\ Forall2 (fun l r => exists a, In a (rows out)
                             /\ key_date g a = key_date g l
                             /\ num r roll = num a roll)
                          (rows cur) (rows next)).
Proof.
  intros Hf Hw Hn Hrun.
  rewrite (run_add_lag_rolling self h df f g v p Hf) in Hrun.
  destruct (lag_rolling_frame self f g v p) as [out|e] eqn:E; [|discriminate].
  injection Hrun as <- <-.
  exists out. split; [apply nth_error_last|].
  destruct (lag_rolling_frame_rows self f out g v p E) as [Hlen [Hrows [_ Hroll]]].
  pose proof (lag_rolling_frame_windows self f out g v p E w Hw) as Hw0.
  cbv zeta in *.
  set (src := sort_rows g (rows f)) in *.
  set (roll := roll_name p w).
  assert (Ho : ordered g src) by apply sort_rows_ordered.
  assert (Hn' : NoDup (map (key_date g) src)).
  { eapply Permutation_NoDup; [|exact Hn].
    apply Permutation_map. symmetry. apply sort_rows_perm. }
  assert (Hsrc : forall j r, nth_error (rows out) j = Some r ->
            exists r0, nth_error src j = Some r0
                       /\ cat r = cat r0 /\ date r = date r0).
  { intros j r Hr. destruct (nth_error src j) as [r0|] eqn:Hr0.
    - destruct (Hrows j r0 Hr0) as [r' [H1 [H2 H3]]].
      exists r0. rewrite Hr in H1. injection H1 as <-. auto.
    - apply nth_error_None in Hr0.
      assert (j < List.length (rows out))%nat by (apply nth_error_Some; congruence).
      lia. }
  assert (Hval : forall j r, nth_error (rows out) j = Some r ->
            nth_error (rolling_mean (Z.to_nat w) (groupby_shift g v 1 src)) j
            = Some (num r roll))
    by (intros j r Hr; now apply Hroll).
  assert (Hmut : forall spare,
            exists r2 h2 out',
              _add_lag_rolling_features self df g v p
                (update h df (mutate_frame spare v upd f)) = Ok (r2, h2)
              /\ nth_error h2 r2 = Some out'
              /\ forall j r0, nth_error src j = Some r0 ->
                   exists r', nth_error (rows out') j = Some r'
                     /\ cat r' = cat r0 /\ date r' = date r0
                     /\ nth_error (rolling_mean (Z.to_nat w)
                                     (groupby_shift g v 1
                                        (map (mutate spare v upd) src))) j
                        = Some (num r' roll)).
  { intros spare.
    destruct (lag_rolling_frame_mutate self f out g v p spare upd E) as [out' E'].
    assert (Hf' : nth_error (update h df (mutate_frame spare v upd f)) df
                  = Some (mutate_frame spare v upd f))
      by (eapply nth_error_update_same; eauto).
    exists (List.length (update h df (mutate_frame spare v upd f))),
           (update h df (mutate_frame spare v upd f) ++ [out']), out'.
    split; [rewrite (run_add_lag_rolling self _ df _ g v p Hf'), E'; reflexivity|].
    split; [apply nth_error_last|].
    destruct (lag_rolling_frame_rows self _ out' g v p E')
      as [_ [Hrows' [_ Hroll']]].
    cbv zeta in Hrows', Hroll'. simpl rows in Hrows', Hroll'.
    rewrite (sort_rows_map g (mutate spare v upd) (rows f)) in Hrows', Hroll'
      by (intros; apply mutate_keys).
    fold src in Hrows', Hroll'.
    intros j r0 Hr0.
    destruct (Hrows' j (mutate spare v upd r0)) as [r' [H1 [H2 H3]]].
    { rewrite nth_error_map, Hr0. reflexivity. }
    destruct (mutate_keys spare v upd r0) as [M1 M2].
    exists r'. repeat split; try congruence. now apply Hroll'. }
  split; [exact Hrows|]. split; [exact Hval|]. split.
  { intros j r0 r Hr0 Hr Hlt.
    pose proof (Hval j r Hr) as Hv.
    rewrite (roll_missing g v src j r0 (Z.to_nat w) Ho Hr0) in Hv by lia.
    now injection Hv. }
  split.
  { intros j r0 r Hr0 Hr Hrank.
    assert (Hw' : (0 < Z.to_nat w <= group_rank g src j r0)%nat) by lia.
    destruct (group_start g v src Ho j r0 Hr0) as [G1 [G2 _]].
    assert (Hj : (j < List.length src)%nat) by (apply nth_error_Some; congruence).
    destruct (roll_value B g v src (Z.to_nat w) j r0 Ho Hr0 Hw') as [V1 V2].
    split; [rewrite slice_full_length; lia|]. split.
    { intros x Hx. apply In_nth_error in Hx. destruct Hx as [k Hk].
      rewrite nth_error_slice in Hk.
      destruct (Nat.ltb_spec k (j - (j - Z.to_nat w))); [|discriminate].
      split.
      - apply (G2 (j - Z.to_nat w + k)%nat x); auto. lia.
      - apply (earlier_row_date g src (j - Z.to_nat w + k) j x r0); auto;
          [lia|]. apply (G2 (j - Z.to_nat w + k)%nat x); auto. lia. }
    split.
    { intros Hnone. pose proof (Hval j r Hr) as Hv.
      rewrite (V1 Hnone) in Hv. now injection Hv. }
    intros HB Hwhole Hnone.
    destruct V2 as [m [M1 M2]]; auto.
    - rewrite Z2Nat.id by lia. exact HB.
    - intros x Hx. apply Hwhole.
      eapply Permutation_in; [apply sort_rows_perm|exact Hx].
    - exists m. pose proof (Hval j r Hr) as Hv. rewrite M1 in Hv.
      injection Hv as <-. split; auto.
      rewrite Z2Nat.id in M2 by lia. exact M2. }
  split.
  { destruct (Hmut (sorted_before g key d)) as [r2 [h2 [out' [M1 [M2 M3]]]]].
    exists r2, h2, out'. split; auto. split; auto.
    intros j r Hr K D.
    destruct (Hsrc j r Hr) as [r0 [Hr0 [Hc Hd]]].
    destruct (M3 j r0 Hr0) as [r' [A1 [A2 [A3 A4]]]].
    exists r'. repeat split; try congruence.
    rewrite roll_mutate in A4; auto.
    - rewrite (Hval j r Hr) in A4. now injection A4.
    - intros m x Hm Hx.
      assert (K0 : key_of g r0 = key) by (unfold key_of in *; congruence).
      rewrite <- K0, <- D, Hd.
      eapply before_in_order; eauto. }
  split.
  { intros HB Hwhole Hwhole'.
    set (spare := earlier_in_group g key d) in *.
    destruct (Hmut spare) as [r2 [h2 [out' [M1 [M2 M3]]]]].
    exists r2, h2, out'. split; auto. split; auto.
    intros j r Hr K D.
    destruct (Hsrc j r Hr) as [r0 [Hr0 [Hc Hd]]].
    destruct (M3 j r0 Hr0) as [r' [A1 [A2 [A3 A4]]]].
    exists r'. split; auto. split; [congruence|]. split; [congruence|].
    pose proof (Hval j r Hr) as Hv.
    set (mu := mutate spare v upd) in *.
    assert (Hmu : forall x, cat (mu x) = cat x /\ date (mu x) = date x)
      by (intros; apply mutate_keys).
    assert (Ho' : ordered g (map mu src)) by now apply ordered_mutate.
    assert (Hr0' : nth_error (map mu src) j = Some (mu r0))
      by (rewrite nth_error_map, Hr0; reflexivity).
    assert (Hrk : group_rank g (map mu src) j (mu r0) = group_rank g src j r0)
      by (apply group_rank_map; intros; apply Hmu).
    assert (Hj : (j < List.length src)%nat) by (apply nth_error_Some; congruence).
    assert (K0 : key_of g r0 = key) by (unfold key_of in *; congruence).
    destruct (Nat.lt_ge_cases (group_rank g src j r0) (Z.to_nat w)) as [Hlt|Hge].
    { rewrite (roll_missing g v src j r0 (Z.to_nat w) Ho Hr0 Hlt) in Hv.
      rewrite (roll_missing g v (map mu src) j (mu r0) (Z.to_nat w) Ho' Hr0')
        in A4 by lia.
      injection Hv as <-. injection A4 as <-. exact I. }
    destruct (Nat.eq_dec (Z.to_nat w) 0) as [W0|W0].
    { assert (Z1 : forall xs, (j < List.length xs)%nat ->
                nth_error (rolling_mean (Z.to_nat w) xs) j = Some None).
      { intros xs Hx. apply rolling_mean_missing; auto. right. rewrite W0.
        unfold window. now rewrite (slice_empty float). }
      rewrite Z1 in Hv by (now rewrite groupby_shift_length).
      rewrite Z1 in A4 by (now rewrite groupby_shift_length, length_map).
      injection Hv as <-. injection A4 as <-. exact I. }
    assert (Hw' : (0 < Z.to_nat w <= group_rank g src j r0)%nat) by lia.
    destruct (group_start g v src Ho j r0 Hr0) as [G1 [G2 _]].
    destruct (roll_value B g v src (Z.to_nat w) j r0 Ho Hr0 Hw') as [V1 V2].
    destruct (roll_value B g v (map mu src) (Z.to_nat w) j (mu r0) Ho' Hr0')
      as [V1' V2']; [lia|].
    assert (Eprior : map (fun x => num x v)
                         (slice (j - Z.to_nat w) j (map mu src))
                     = map (fun x => num x v) (slice (j - Z.to_nat w) j src)).
    { rewrite slice_map, map_map. apply map_ext_in. intros x Hx.
      unfold mu. rewrite mutate_spared; auto.
      apply In_nth_error in Hx. destruct Hx as [k Hk].
      rewrite nth_error_slice in Hk.
      destruct (Nat.ltb_spec k (j - (j - Z.to_nat w))); [|discriminate].
      assert (Kx : key_of g x = key_of g r0)
        by (apply (G2 (j - Z.to_nat w + k)%nat x); auto; lia).
      unfold spare, earlier_in_group.
      rewrite (proj2 (list_eqb_eq _ _)) by congruence.
      apply Z.ltb_lt. rewrite <- D, Hd.
      apply (earlier_row_date g src (j - Z.to_nat w + k) j x r0); auto. lia. }
    rewrite Eprior in V1', V2'.
    assert (HB' : (Z.of_nat (Z.to_nat w) * B < 2 ^ 53)%Z)
      by (rewrite Z2Nat.id by lia; exact HB).
    destruct (none_in_or_not (map (fun x => num x v)
                                  (slice (j - Z.to_nat w) j src))) as [Hin|Hin].
    { rewrite (V1 Hin) in Hv. rewrite (V1' Hin) in A4.
      injection Hv as <-. injection A4 as <-. exact I. }
    destruct V2 as [m [N1 N2]]; auto.
    { intros x Hx. apply Hwhole.
      eapply Permutation_in; [apply sort_rows_perm|exact Hx]. }
    destruct V2' as [m' [N1' N2']]; auto.
    { intros x Hx. apply in_map_iff in Hx. destruct Hx as [y [<- Hy]].
      apply Hwhole'. unfold mutate_frame. simpl. apply in_map.
      eapply Permutation_in; [apply sort_rows_perm|exact Hy]. }
    rewrite N1 in Hv. rewrite N1' in A4.
    injection Hv as <-. injection A4 as <-. simpl. now rewrite N2, N2'. }
  intros level cur h0 df0 r3 h3 Hg Hp Hid Hv Hagg Hnew Hcur Hlev.
  pose proof (run_level self h0 df0 cur level Hcur) as Hrun.
  destruct (level_frame self cur level) as [next|e] eqn:El.
  2:{ rewrite Hrun in Hlev. discriminate. }
  destruct Hrun as [junk Hrun]. rewrite Hrun in Hlev. injection Hlev as <- <-.
  exists next. split; [apply nth_error_last|].
  destruct (level_broadcast self cur next level roll) as [agg [out0 [B1 [B2 B3]]]];
    auto.
  - now rewrite Hg.
  - rewrite Hp. unfold level_names, roll. apply in_or_app. right.
    now apply in_map.
  - rewrite Hg in B1, B2, B3. rewrite Hp in B1, B2. rewrite Hagg in B1.
    injection B1 as <-.
    rewrite <- Hv in B2. rewrite E in B2. injection B2 as <-. exact B3.
Qed.

Lemma rolling_feature_witness :
  exists out r1 r2,
    (exists r h1,
       _add_lag_rolling_features sample_engineer 0%nat ["id"] "sales" "item"
         [sample_panel] = Ok (r, h1)
       /\ nth_error h1 r = Some out)
    /\ nth_error (rows out) 1 = Some r1 /\ nth_error (rows out) 2 = Some r2
    /\ cat r1 "id" = "a" /\ date r1 = 2%Z
    /\ num r1 (roll_name "item" 2) = None
    /\ cat r2 "id" = "a" /\ date r2 = 3%Z
    /\ (exists m, num r2 (roll_name "item" 2) = Some m /\ (m == 3 # 2)%Q)
    /\ exists r' h2 out' r2',
         _add_lag_rolling_features sample_engineer 0%nat ["id"] "sales" "item"
           (update [sample_panel] 0%nat
              (mutate_frame (sorted_before ["id"] ["a"] 3) "sales"
                            (fun _ => q 100) sample_panel)) = Ok (r', h2)
         /\ nth_error h2 r' = Some out'
         /\ nth_error (rows out') 2 = Some r2'
         /\ num r2' (roll_name "item" 2) = num r2 (roll_name "item" 2).
Proof.
  destruct (_add_lag_rolling_features sample_engineer 0%nat ["id"] "sales" "item"
              [sample_panel]) as [[r h1]|e] eqn:E;
    [|vm_compute in E; discriminate].
  destruct (rolling_feature_no_leakage sample_engineer [sample_panel] 0%nat
              sample_panel ["id"] "sales" "item" 2%Z ["a"] 3%Z
              (fun _ => q 100) 100%Z r h1 eq_refl (or_introl eq_refl))
    as [out [H0 [Hrow [_ [Hmiss [Hfull [Hleak _]]]]]]].
  - vm_compute.
    repeat (constructor;
            [intros H; repeat (destruct H as [H|H]; [discriminate H|]); exact H|]).
    constructor.
  - exact E.
  - destruct (Hrow 1%nat (panel_row_of "a" 2 2) eq_refl) as [r1 [A1 [A2 A3]]].
    destruct (Hrow 2%nat (panel_row_of "a" 3 3) eq_refl) as [r2 [B1 [B2 B3]]].
    exists out, r1, r2.
    split; [exists r, h1; split; [reflexivity|exact H0]|].
    split; [exact A1|]. split; [exact B1|].
    split; [now rewrite A2|]. split; [exact A3|].
    split; [apply (Hmiss 1%nat (panel_row_of "a" 2 2) r1 eq_refl A1); reflexivity|].
    split; [now rewrite B2|]. split; [exact B3|].
    split.
    + destruct (Hfull 2%nat (panel_row_of "a" 3 3) r2 eq_refl B1)
        as [_ [_ [_ V]]].
      { vm_compute. split; [reflexivity|discriminate]. }
      destruct V as [m [M1 M2]].
      * reflexivity.
      * intros x Hx. simpl in Hx.
        repeat (destruct Hx as [<-|Hx]; [reflexivity|]). destruct Hx.
      * simpl. intros [H|[H|[]]]; discriminate.
      * exists m. split; [exact M1|]. rewrite M2. vm_compute. reflexivity.
    + destruct Hleak as [r' [h2 [out' [L1 [L2 L3]]]]].
      destruct (L3 2%nat r2 B1) as [r2' [C1 [_ [_ C4]]]].
      * unfold key_of. rewrite B2. reflexivity.
      * exact B3.
      * exists r', h2, out', r2'. auto.
Defined.

(** C1, counterexample.  Two panels of two stores that differ only in the
    whole-number sales of the series of store [S1].  The rolling feature
    of the store level at the rows of store [S2] dated 3 is the mean of
    the aggregate signal of [S2] at dates 1 and 2, the two lag features of
    the row, which are the same in both panels; yet its last bits differ
    between the two, because the running sum that reaches [S2] has gone
    through the values of [S1]. *)
Lemma rolling_feature_reads_earlier_group :
  exists out out' r r',
    (exists r1 h1,
       create_all_features sample_engineer 0%nat sample_levels
         [stores_panel [[1; 1; 0]; [2; 2; 1]; [0; 0; 1]]%Z] = Ok (r1, h1)
       /\ nth_error h1 r1 = Some out)
    /\ (exists r2 h2,
          create_all_features sample_engineer 0%nat sample_levels
            [stores_panel [[1; 0; 0]; [0; 0; 1]; [2; 0; 0]]%Z] = Ok (r2, h2)
          /\ nth_error h2 r2 = Some out')
    /\ nth_error (rows out) 11 = Some r /\ nth_error (rows out') 11 = Some r'
    /\ cat r "id" = "y1" /\ cat r "store_id" = "S2" /\ date r = 3%Z
    /\ cat r' "id" = "y1" /\ cat r' "store_id" = "S2" /\ date r' = 3%Z
    /\ num r (lag_name "st" 1) = q 0 /\ num r' (lag_name "st" 1) = q 0
    /\ num r (lag_name "st" 2) = Some (6004799503160661 # 9007199254740992)%Q
    /\ num r' (lag_name "st" 2) = Some (6004799503160661 # 9007199254740992)%Q
    /\ num r (roll_name "st" 2)
       = Some (6004799503160659 # 18014398509481984)%Q
    /\ num r' (roll_name "st" 2)
       = Some (6004799503160661 # 18014398509481984)%Q
    /\ ~ same_number (num r (roll_name "st" 2)) (num r' (roll_name "st" 2)).
Proof.
  do 4 eexists.
  split; [do 2 eexists; split; [vm_compute; reflexivity|reflexivity]|].
  split; [do 2 eexists; split; [vm_compute; reflexivity|reflexivity]|].
  split; [reflexivity|]. split; [reflexivity|].
  repeat (split; [reflexivity|]).
  vm_compute. intros H. discriminate H.
Qed.
